(* ===== verification/_CoqProject ===== *)
-Q . S2P
Prelude.v
Machine.v
Errors.v
Strategy.v
Tsc.v
Capabilities.v
Hardware.v
Preflight.v
Parker.v
ParkerOrdering.v
BenchFs.v
Process.v
ProcessProofs.v
Journal.v
Receipt.v
Cpuidle.v
CpuidleProofs.v
CpuidleSafety.v
RunSafety.v
Pure.v
ControlProof.v
Supervision.v
SupervisionProofs.v
CoordinatorProofs.v
RunComposed.v
WorkloadProofs.v
Build.v
BuildProofs.v
CargoGuardian.v
Cli.v
Platform.v
PlatformProofs.v
PolicyProofs.v
BenchCases.v
Adapters.v
ViewMemory.v
Trial.v
TrialProofs.v
Output.v
Clock.v
ClockProofs.v
Measure.v
FloatRange.v
Latency.v
Jsonl.v
Handover.v
Metadata.v
Driver.v
DriverProofs.v
PublishedLatencies.v
ResultsFormat.v
FiniteResults.v
