(* ===== verification/Prelude.v ===== *)
(** * Verification of snoozer: waiting strategies, parkers and their benchmark tooling

    ** The program

    snoozer (src/src) is a Rust library that makes one thread wait until an atomic changes: by
    spinning, by spinning and yielding, or with the processor's user-mode monitor/wait instructions
    (AMD MONITORX/MWAITX, Intel UMONITOR/UMWAIT). On top of the strategies it has parkers: a consumer
    parks on a token that producers post. A process-wide preflight decides whether
    the hardware instructions may be used. Beside the library are its wake-latency benchmark (src/benches) and
    benchctl (src/tools/benchctl), which prepares official benchmark runs: it disables deep CPU
    idle states through sysfs, journals what it changed, runs the workload and restores
    everything, also after crashes.

    ** Files, in dependency order

    - Prelude: results, saturating integers, tactics, hints and generic lemmas.
    - Machine: one consumer thread against an environment of producers, clock, time-stamp
      counter and address monitor. The environment is an arbitrary infinite schedule and
      takes one tick before every primitive operation of the consumer, so a theorem over all
      worlds covers every interleaving. Programs are a state monad; [wp] is total, [wlp] partial
      correctness. Loops carry fuel.
    - Errors (error.rs): the error types and their messages.
    - Strategy (strategy.rs, atomic.rs): deadlines, the WaitStrategy methods, BusySpin,
      SpinThenYield. The class [StrategyImpl] is the trait; [StrategyLaws] is what a strategy
      promises to its clients, and every strategy has an instance.
    - Tsc, Capabilities (arch/x86_64, capabilities.rs): register splitting, timer calibration, CPUID decoding.
      What CPUID, RDTSCP and prctl answer is an input.
    - Hardware (strategy.rs): cycle budgets and the four wait protocols. A hardware wait
      records, at the instant it is entered, the monitor and the memory.
    - Preflight (strategy.rs): backend selection, the functional probe and its helper, the OnceLock gate, the
      constructors.
    - Parker (parker.rs): token operations on the machine, and their refinement of a one-token mailbox.
    - ParkerOrdering (parker.rs): the token's accesses with their orderings in a
      release/acquire memory with stale reads, for what a taken token publishes.
    - BenchFs (benchctl error.rs, runtime.rs): the file system, process and system calls; every call first asks a fault
      oracle whether it fails, so a theorem over all states covers a failure at any point.
    - Journal (journal.rs), Receipt (receipt.rs): operation journals and build receipts. serde_json, SHA-256 and git are
      parameters, with round-trip and injectivity laws of the serializers where used.
    - Process, ProcessProofs: what supervision.rs and build.rs need of the operating system. A world adds a clock, the
      process table, locks and a cancellation flag to the file system; before every operation the other
      actors ([Environment]) take an arbitrary turn. [wwp] is the partial correctness of programs that rely on
      an invariant the other actors keep, with termination stated apart.
    - Cpuidle, CpuidleProofs, CpuidleSafety, RunSafety (cpuidle.rs): inventory, apply, restore, journals, lock and
      the run, status and recover commands; their specifications; the safety and recovery theorems, and the safety of a whole run.
      They use supervision.rs through the interface [SupervisionOps], with its frame law [SupervisionFrame].
    - Supervision, SupervisionProofs, CoordinatorProofs, WorkloadProofs (supervision.rs): coordinator,
      workload supervisor and guardian, each a program whose environment is the others;
      [supervision_ops] makes them an instance of [SupervisionOps].
    - RunComposed (cpuidle.rs over supervision.rs): [supervision_ops] obeys the frame law, so a run is safe with its
      real supervision.
    - Build, BuildProofs, CargoGuardian (build.rs): the gates of an official build, the dependency graph, the build itself
      and the guardian that runs cargo. What git and rustc answer depends on the files and the call.
    - Cli (cli.rs, lib.rs): the parsed commands, their dispatch, the exit status and the report of an error.
    - Pure (benches/support/pure.rs), ControlProof (control_proof.rs), BenchCases (wake_latency.rs): the
      benchmark's schedule, percentiles, parsers, proof check, cases, samples and ranking.
    - Platform, PlatformProofs, PolicyProofs (support/platform.rs): CPU topology and roles, affinity masks, the cpuidle
      gate and the power policy; the gate is composed with benchctl's apply.
    - Adapters (support/snoozer_api.rs, the waiting loops of wake_latency.rs): the benchmark's use of the strategies and parkers,
      on the machine of Machine.
    - ViewMemory: a release/acquire memory with explicit views. Trial, TrialProofs (wake_latency.rs): the four threads of
      a trial over it, one access a step. Clock, ClockProofs (platform.rs): the calibration of the time stamp counter, and the
      handshake that estimates the skew of two of them, over the same memory.
    - Output (support/output.rs): the results file. Measure (wake_latency.rs): what the victim measures, what joining the threads gives,
      repetitions, summaries and the lines of the results, down to the digits of a float. Metadata (wake_latency.rs): the line that
      describes the run. Handover (wake_latency.rs): the provenance gate, composed with the build and the supervision of benchctl.
    - Driver, DriverProofs (wake_latency.rs): the main program, from the arguments to the published file, over all of these.
    - Latency, PublishedLatencies: the compositions of Clock, Trial, Measure and Driver: what a published latency is in terms of the stamps
      that the threads took. Jsonl, ResultsFormat: a reference reader of JSON lines, and the values of the lines and of the metadata.
      FloatRange: magnitudes of rounded floats. FiniteResults: the round trip of the published text, and that no float gets in its way.

    ** What the theorems show

    - Waits: results of raw and filtered waits mean what their documentation says, under every interleaving
      and for every lawful strategy; filtered waits return once the value changes for good or the
      timeout has passed.
    - Hardware waits: no wake is lost between arming and waiting, no wait outlives its budget,
      budgets are exact; construction is fail-closed and the preflight runs once.
    - Parkers: refinement of the mailbox, liveness of the filtered operations, publication of
      everything written before an unpark, and why the multi-producer unpark needs a
      read-modify-write.
    - benchctl's control of the host: the inventory is complete, apply and restore touch only what the journal
      records, and recovery converges from every state that interrupted operations can leave.
      Through a whole run, also composed with its supervision, a changed value implies a loadable unfinished
      journal, and exit status 1 implies that the host is restored. Journals stay well-formed and are stored atomically; receipts round-trip and are
      tamper-evident.
    - benchctl's supervision: draining a group is bounded and sound, a drain proof implies an empty group, a dead
      coordinator's workload is cleaned up, an outcome that the coordinator returns is durable and the workload
      gone, and only the accepted executable is started. The production proof it writes is the one the benchmark
      accepts.
    - benchctl's builds: a receipt is published only behind every gate, the traversal of the dependency graph is
      exact, cargo's guardian records a status only when cargo's process group is empty.
    - Benchmark: an official run publishes complete results of exactly the trials it ran or leaves the files alone, and never
      panics. What benchctl built, authorized and applied is what the benchmark accepts, and its gates are exact. A waiter
      cannot miss an event, a trial's samples are the producer's sends, no thread is left behind. From the stamps to the file: every latency that is
      published is the real time from a send to its wake, up to the uncertainty of the clocks' skew, none is left out silently, and what is published can be read
      back as JSON: no float of it overflows or is undefined, if stamps and durations fit their types. Sample sets are complete, the winner is optimal, parsers and printers
      round-trip, the gap schedule never degenerates.

    ** What modelling showed

    - Both waiters on a guardian ([wait_for_drained], [wait_for_cargo]) look for its record and then poll the guardian; one
      that records and exits in between is reported as having failed ([drain_proof_race],
      [cargo_status_race]).
    - A receipt path that is a bare file name is published and then reported as an I/O error, because the
      directory to sync is the empty path ([bare_receipt_name_fails]).
    - The uncertainty of the estimated skew is rounded down, so the real skew can be one cycle outside of it
      ([skew_estimate_rounds_down]).

    ** Bounds and fuel

    Integers are Z with wrapping or saturation written out at their width. A loop's fuel is a number of
    iterations; termination theorems give the fuel that suffices from the schedule (the tick from which the
    awaited condition holds) or from the loop's time limit. A program of [Process] whose fuel runs out has the result
    [None], as one that never returns; the termination theorems exclude it. Name resolution follows at most 40
    symbolic links, as Linux does. The rank of a percentile in floating point is compared with the exact rank for up to
    5000 samples, by evaluation. Durations are in milliseconds; pids, uids and codes are Z.

    ** Not modelled

    - Of the benchmark: the progress lines on the standard error, the help text, the values that go to black_box only (the victim's
      xorshift), and how long the delays take. The parker of the standard library is a wait that may return at any time. RDTSCP, CPUID, the wall clock
      and sched_setaffinity are inputs, and the skew of two counters does not drift. Trial abstracts the wait of a waiter to loads of the generation, which
      is what Adapters shows of the waits. Driver takes the results of the handshake and of the trials as inputs; PublishedLatencies assumes of them that
      they are results of runs of Clock and Trial, and FiniteResults that they fit their types.
    - The crate root: re-exports and conditional compilation. Targets other than x86-64 Linux, where the hardware strategies are uninhabited.
    - The argument parser that clap derives, serde_json, SHA-256, git, rustc and cargo: parameters, with the laws used of
      them as hypotheses of the theorems.
    - Descriptor numbers, and the working directory and standard output of the cargo that the guardian starts. A program of
      the file system embedded in a world (such as one atomic write) is one step for the other actors.
    - Where a message quotes the rendering of another error or of an exit status, only its fixed words are kept.
    - In BenchFs and cpuidle.rs the file system has no other writers than the modelled program during an operation; values
      changed in between operations are covered by the theorems' arbitrary start states. *)

From stdpp Require Export prelude gmap strings.
From Stdlib Require Export Lia.

Open Scope Z_scope.

(** ** Results: Rust's [Result<T, E>] *)

Inductive result (T E : Type) : Type :=
| Ok (v : T)
| Err (e : E).
Arguments Ok {T E} _.
Arguments Err {T E} _.

Definition result_bind {T U E} (r : result T E) (k : T -> result U E) : result U E :=
  match r with
  | Ok v => k v
  | Err e => Err e
  end.

Definition result_map {T U E} (f : T -> U) (r : result T E) : result U E :=
  match r with
  | Ok v => Ok (f v)
  | Err e => Err e
  end.

Definition ok_or {T E} (o : option T) (e : E) : result T E :=
  match o with
  | Some v => Ok v
  | None => Err e
  end.

Definition is_ok {T E} (r : result T E) : bool :=
  match r with Ok _ => true | Err _ => false end.

Declare Scope snz_scope.
Delimit Scope snz_scope with snz.
Notation "x <-? r ; k" := (result_bind r (fun x => k))
  (at level 100, r at next level, k at level 200, right associativity) : snz_scope.
Notation "?? r ; k" := (result_bind r (fun _ => k))
  (at level 100, r at next level, k at level 200, right associativity) : snz_scope.

(** ** Machine integers

    A [w]-bit unsigned integer is a [Z] in [0, 2^w); the saturating and
    checked operations of Rust are written out. *)

Definition umax (w : Z) : Z := 2 ^ w - 1.
Definition u32_max : Z := 4294967295.
Definition u64_max : Z := 18446744073709551615.
Definition u128_max : Z := 340282366920938463463374607431768211455.

Definition in_width (w x : Z) : Prop := 0 <= x <= umax w.

Definition sat_add (m x y : Z) : Z := Z.min m (x + y).
Definition sat_sub (x y : Z) : Z := Z.max 0 (x - y).
Definition sat_mul (m x y : Z) : Z := Z.min m (x * y).
Definition clamp (lo hi x : Z) : Z := Z.max lo (Z.min hi x).

(** [uN::try_from(x).unwrap_or(uN::MAX)] *)
Definition try_from_or_max (m x : Z) : Z := if (0 <=? x) && (x <=? m) then x else m.

Lemma umax_32 : umax 32 = u32_max. Proof. reflexivity. Qed.
Lemma umax_64 : umax 64 = u64_max. Proof. reflexivity. Qed.
Lemma umax_128 : umax 128 = u128_max. Proof. reflexivity. Qed.

(** ** Automation shared by the components *)

Create HintDb snz.

(** Split every boolean test or match the goal or a hypothesis branches on. *)
Ltac split_tests :=
  repeat match goal with
  | |- context [if ?b then _ else _] => let E := fresh "E" in destruct b eqn:E
  | H : context [if ?b then _ else _] |- _ => let E := fresh "E" in destruct b eqn:E
  end.

Ltac bool_facts :=
  repeat match goal with
  | H : (_ && _)%bool = true |- _ => apply andb_prop in H; destruct H
  | H : (_ && _)%bool = false |- _ => apply andb_false_iff in H
  | H : (_ || _)%bool = true |- _ => apply orb_prop in H
  | H : (_ || _)%bool = false |- _ => apply orb_false_iff in H; destruct H
  | H : negb _ = true |- _ => apply negb_true_iff in H
  | H : negb _ = false |- _ => apply negb_false_iff in H
  | H : (_ =? _) = true |- _ => apply Z.eqb_eq in H
  | H : (_ =? _) = false |- _ => apply Z.eqb_neq in H
  end.

Lemma try_from_or_max_in m x : 0 <= m -> 0 <= try_from_or_max m x <= m.
Proof. unfold try_from_or_max. intros Hm. split_tests; lia. Qed.

Lemma try_from_or_max_id m x : 0 <= x <= m -> try_from_or_max m x = x.
Proof. unfold try_from_or_max. intros Hx. split_tests; lia. Qed.

Lemma clamp_in lo hi x : lo <= hi -> lo <= clamp lo hi x <= hi.
Proof. unfold clamp. lia. Qed.

Lemma result_bind_ok {T U E} (r : result T E) (k : T -> result U E) v :
  result_bind r k = Ok v <-> exists t, r = Ok t /\ k t = Ok v.
Proof. destruct r; simpl; naive_solver. Qed.

Lemma result_bind_err {T U E} (r : result T E) (k : T -> result U E) e :
  result_bind r k = Err e <-> r = Err e \/ exists t, r = Ok t /\ k t = Err e.
Proof. destruct r; simpl; naive_solver. Qed.

Lemma ok_or_ok {T E} (o : option T) (e : E) v : ok_or o e = Ok v <-> o = Some v.
Proof. destruct o; simpl; naive_solver. Qed.

Lemma result_map_ok {T U E} (f : T -> U) (r : result T E) u :
  result_map f r = Ok u <-> exists t, r = Ok t /\ u = f t.
Proof. destruct r; simpl; naive_solver. Qed.

(** ** Lists *)

Lemma NoDup_fmap_inj_in {A B} (f : A -> B) (l : list A) x y :
  NoDup (f <$> l) -> x ∈ l -> y ∈ l -> f x = f y -> x = y.
Proof.
  induction l as [|z l IH]; simpl; [intros _ Hx; by inversion Hx|].
  rewrite NoDup_cons. intros [Hz Hl] Hx Hy Hf.
  apply elem_of_cons in Hx as [->|Hx], Hy as [->|Hy]; [done| | |by apply IH].
  - exfalso. apply Hz. rewrite Hf. by apply list_elem_of_fmap_2.
  - exfalso. apply Hz. rewrite <- Hf. by apply list_elem_of_fmap_2.
Qed.

(** ** Strings in pieces *)

Fixpoint stake (n : nat) (s : string) : string :=
  match n, s with S n, String c r => String c (stake n r) | _, _ => EmptyString end.
Fixpoint sdrop (n : nat) (s : string) : string :=
  match n, s with S n, String _ r => sdrop n r | _, _ => s end.

Lemma substring_pieces off n s : String.substring off n s = stake n (sdrop off s).
Proof.
  revert off n. induction s as [|c r IH]; intros [|off] [|n]; try done; simpl.
  - f_equal. apply IH.
  - apply (IH off 0%nat).
  - apply IH.
Qed.
Lemma stake_sdrop n s : stake n s +:+ sdrop n s = s.
Proof.
  revert s. induction n as [|n IH]; intros [|c r]; try done. simpl.
  change (String c (stake n r +:+ sdrop n r) = String c r). by rewrite IH.
Qed.
Lemma sdrop_sdrop a b s : sdrop b (sdrop a s) = sdrop (a + b) s.
Proof. revert s. induction a as [|a IH]; intros [|c r]; try done; [by destruct b|apply IH]. Qed.
Lemma sdrop_length n s : String.length (sdrop n s) = (String.length s - n)%nat.
Proof. revert s. induction n as [|n IH]; intros [|c r]; try done. simpl. apply IH. Qed.
Lemma stake_all n s : (String.length s <= n)%nat -> stake n s = s.
Proof.
  revert s. induction n as [|n IH]; intros [|c r] Hl; try done; simpl in *; [lia|]. by rewrite IH by lia.
Qed.
Lemma stake_length n s : String.length (stake n s) = Nat.min n (String.length s).
Proof. revert s. induction n as [|n IH]; intros [|c r]; try done. simpl. by rewrite IH. Qed.
Lemma sdrop_stake_length n s : sdrop (String.length (stake n s)) s = sdrop n s.
Proof.
  rewrite stake_length. revert s. induction n as [|n IH]; intros [|c r]; try done. simpl. apply IH.
Qed.
Lemma string_app_assoc (a b c : string) : (a +:+ b) +:+ c = a +:+ (b +:+ c).
Proof. induction a as [|x a IH]; [done|]. exact (f_equal (String x) IH). Qed.
Lemma string_nil_r (s : string) : s +:+ EmptyString = s.
Proof. induction s as [|c s IH]; [done|]. change (String c (s +:+ EmptyString) = String c s). by rewrite IH. Qed.
Lemma stake_nil n s : n <> 0%nat -> stake n s = EmptyString -> s = EmptyString.
Proof. destruct n, s; naive_solver. Qed.
Lemma sdrop_append a b : sdrop (String.length a) (a +:+ b) = b.
Proof. induction a as [|c a IH]; [done|]. exact IH. Qed.
Lemma length_append (a b : string) : String.length (a +:+ b) = (String.length a + String.length b)%nat.
Proof. induction a as [|c a IH]; [done|]. exact (f_equal S IH). Qed.

#[export] Hint Resolve try_from_or_max_in clamp_in : snz.
