(* ===== verification/Machine.v ===== *)
(** * The machine the waiting code runs on

    One consumer thread executes the modelled code. Everything else (the
    producers, the clock, the time-stamp counter, the processor's address
    monitor) is the environment, given as an infinite schedule of [tick]s: the
    environment takes one tick before every primitive operation of the
    consumer. A theorem that quantifies over the world therefore quantifies over
    every interleaving of producer operations with the consumer's own.

    A waiting operation never writes the watched atomic, so what it can observe is
    determined by its start world: [sys_at w n] is the shared state after the
    environment has taken [n] ticks. *)

From S2P Require Import Prelude.

(** ** Data *)

(** Memory orderings of std::sync::atomic the crate uses. *)
Inductive ordering := Relaxed | Acquire | Release.

(** What a producer does to an atomic: a store or a fetch_or. *)
Inductive env_op :=
| EnvStore (a v : Z)
| EnvFetchOr (a bits : Z).

(** One slot of the environment: producer operations on the shared atomics, how long the slot
    lasts, what RDTSCP would return in it, and what a channel receive would. *)
Record tick := Tick {
  tk_ops : list env_op;
  tk_ns : N;
  tk_tsc : Z * Z;
  tk_recv : option (option Z);
}.

Definition idle_tick : tick := Tick [] 0 (0, 0) None.

(** The shared state: the atomics, the monotonic clock (ns), the schedule. *)
Record sys := Sys {
  s_mem : gmap Z Z;
  s_now : Z;
  s_pos : nat;
  s_sched : nat -> tick;
}.

(** The address monitor of MONITORX and UMONITOR. *)
Inductive monitor :=
| Disarmed
| Armed (a : Z) (triggered : bool).

(** What the consumer thread did, newest first in [w_trace]. The hardware waits
    record the monitor and the memory at the instant they are entered. *)
Inductive event :=
| EvLoad (o : ordering) (a v : Z)
| EvStore (o : ordering) (a v : Z)
| EvCas (o : ordering) (a : Z) (success : bool)
| EvNow (t : Z)
| EvTsc (t : Z)
| EvSpin
| EvYield
| EvArm (a : Z)
| EvMwaitx (eax ebx ecx : Z) (m : monitor) (mem : gmap Z Z)
| EvUmwait (eax edx ecx : Z) (m : monitor) (mem : gmap Z Z)
| EvRecv
| EvAssert (b : bool).

Record world := World {
  w_sys : sys;
  w_mon : monitor;
  w_trace : list event;
}.

Definition mget (m : gmap Z Z) (a : Z) : Z := default 0 (m !! a).
Definition w_val (w : world) (a : Z) : Z := mget (s_mem (w_sys w)) a.
Definition w_now (w : world) : Z := s_now (w_sys w).

(** ** The environment's steps *)

Definition op_addr (op : env_op) : Z :=
  match op with EnvStore a _ | EnvFetchOr a _ => a end.

Definition op_apply (m : gmap Z Z) (op : env_op) : gmap Z Z :=
  match op with
  | EnvStore a v => <[a := v]> m
  | EnvFetchOr a bits => <[a := Z.lor (mget m a) bits]> m
  end.

Definition mem_apply (m : gmap Z Z) (ops : list env_op) : gmap Z Z :=
  foldl op_apply m ops.

Definition mon_step (m : monitor) (ops : list env_op) : monitor :=
  match m with
  | Disarmed => Disarmed
  | Armed a t => Armed a (t || existsb (fun op => op_addr op =? a) ops)
  end.

Definition cur_tick (s : sys) : tick := s_sched s (s_pos s).

Definition sys_step (s : sys) : sys :=
  let t := cur_tick s in
  {| s_mem := mem_apply (s_mem s) (tk_ops t);
     s_now := s_now s + Z.of_N (tk_ns t);
     s_pos := S (s_pos s);
     s_sched := s_sched s |}.

Definition sys_iter (n : nat) (s : sys) : sys := Nat.iter n sys_step s.
Definition sys_at (w : world) (n : nat) : sys := sys_iter n (w_sys w).
Definition val_at (w : world) (n : nat) (a : Z) : Z := mget (s_mem (sys_at w n)) a.
Definition now_at (w : world) (n : nat) : Z := s_now (sys_at w n).

Definition advance (w : world) : world :=
  {| w_sys := sys_step (w_sys w);
     w_mon := mon_step (w_mon w) (tk_ops (cur_tick (w_sys w)));
     w_trace := w_trace w |}.

Definition emit (e : event) (w : world) : world :=
  {| w_sys := w_sys w; w_mon := w_mon w; w_trace := e :: w_trace w |}.

Definition set_mon (m : monitor) (w : world) : world :=
  {| w_sys := w_sys w; w_mon := m; w_trace := w_trace w |}.

Definition sys_write (a v : Z) (s : sys) : sys :=
  {| s_mem := <[a := v]> (s_mem s); s_now := s_now s; s_pos := s_pos s;
     s_sched := s_sched s |}.

Definition set_val (a v : Z) (w : world) : world :=
  {| w_sys := sys_write a v (w_sys w); w_mon := w_mon w; w_trace := w_trace w |}.

(** ** Consumer programs: a state monad over the world, [None] when a loop ran
    out of fuel *)

Definition M (A : Type) : Type := world -> option (A * world).

#[export] Instance M_ret : MRet M := fun A x w => Some (x, w).
#[export] Instance M_bind : MBind M := fun A B k m w =>
  match m w with
  | Some (x, w') => k x w'
  | None => None
  end.

(** A primitive: the environment moves, then the operation takes effect. *)
Definition prim {A} (f : world -> A * world) : M A := fun w => Some (f (advance w)).

Definition load (o : ordering) (a : Z) : M Z :=
  prim (fun w => (w_val w a, emit (EvLoad o a (w_val w a)) w)).
Definition store (o : ordering) (a v : Z) : M unit :=
  prim (fun w => (tt, emit (EvStore o a v) (set_val a v w))).
(** [compare_exchange(old, new, success, failure).is_ok()] *)
Definition compare_exchange (a old new : Z) (success failure : ordering) : M bool :=
  prim (fun w =>
    if w_val w a =? old then (true, emit (EvCas success a true) (set_val a new w))
    else (false, emit (EvCas failure a false) w)).
(** [Atomic::new(v)] at the address [a]. *)
Definition new_cell (a v : Z) : M unit := fun w => Some (tt, set_val a v w).
Definition instant_now : M Z := prim (fun w => (w_now w, emit (EvNow (w_now w)) w)).
Definition spin_loop : M unit := prim (fun w => (tt, emit EvSpin w)).
Definition yield_now : M unit := prim (fun w => (tt, emit EvYield w)).
Definition recv_timeout : M (option (option Z)) :=
  prim (fun w => (tk_recv (cur_tick (w_sys w)), emit EvRecv w)).
Definition debug_assert (b : bool) : M unit := fun w => Some (tt, emit (EvAssert b) w).

(** RDTSCP: the counter and the TSC_AUX value of the slot. *)
Definition rdtscp : M (Z * Z) :=
  prim (fun w => let t := tk_tsc (cur_tick (w_sys w)) in (t, emit (EvTsc t.1) w)).

(** Arming an address monitor. *)
Definition arm (a : Z) : M unit :=
  prim (fun w => (tt, emit (EvArm a) (set_mon (Armed a false) w))).

(** A hardware wait is entered (the event records the monitor and the memory),
    blocks for one slot of the environment, and leaves the monitor disarmed.
    Why it returned is not observable. *)
Definition hw_wait (ev : monitor -> gmap Z Z -> event) : M unit :=
  prim (fun w =>
    let w1 := emit (ev (w_mon w) (s_mem (w_sys w))) w in
    (tt, set_mon Disarmed (advance w1))).
Definition mwaitx_instr (eax ebx ecx : Z) : M unit := hw_wait (EvMwaitx eax ebx ecx).
Definition umwait_instr (eax edx ecx : Z) : M unit := hw_wait (EvUmwait eax edx ecx).

(** [loop { ... }]: the body returns [Some a] to leave the loop with [a]. *)
Fixpoint loop {A} (fuel : nat) (body : M (option A)) : M A :=
  match fuel with
  | O => fun _ => None
  | S f => r ← body; match r with Some a => mret a | None => loop f body end
  end.

(** [for _ in 0..n { ... }] with an early return. *)
Fixpoint for_loop {A} (n : nat) (body : M (option A)) : M (option A) :=
  match n with
  | O => mret None
  | S k => r ← body; match r with Some a => mret (Some a) | None => for_loop k body end
  end.

(** ** Program logic

    [wp m w Q]: run from [w], [m] returns and the result satisfies [Q] (total
    correctness). [wlp m w Q]: if [m] returns within its fuel, the result
    satisfies [Q]. *)

Definition wp {A} (m : M A) (w : world) (Q : A -> world -> Prop) : Prop :=
  exists a w', m w = Some (a, w') /\ Q a w'.
Definition wlp {A} (m : M A) (w : world) (Q : A -> world -> Prop) : Prop :=
  forall a w', m w = Some (a, w') -> Q a w'.

(** [w'] is [n] ticks after [w], the consumer having written nothing. *)
Definition reach (n : nat) (w w' : world) : Prop := w_sys w' = sys_at w n.

(** The value of [a] differs from [e] from some tick on. *)
Definition eventually_different (w : world) (a e : Z) : Prop :=
  exists N, forall n, (N <= n)%nat -> val_at w n a <> e.

(** The clock reaches [t]. *)
Definition clock_reaches (w : world) (t : Z) : Prop := exists n, t <= now_at w n.

Section logic.
Context {A B : Type}.
Implicit Types (w : world) (m : M A) (k : A -> M B).

Lemma wp_ret (x : A) w Q : Q x w -> wp (mret x) w Q.
Proof. intros HQ. by exists x, w. Qed.

Lemma wlp_ret (x : A) w Q : Q x w -> wlp (mret x) w Q.
Proof. intros HQ a w' Hrun. unfold mret, M_ret in Hrun. by simplify_eq. Qed.

Lemma wp_bind m k w Q : wp m w (fun a w' => wp (k a) w' Q) -> wp (mbind k m) w Q.
Proof.
  intros (a & w1 & Hm & b & w2 & Hk & HQ). exists b, w2.
  unfold mbind, M_bind. by rewrite Hm.
Qed.

Lemma wlp_bind m k w Q : wlp m w (fun a w' => wlp (k a) w' Q) -> wlp (mbind k m) w Q.
Proof.
  intros Hm b w2. unfold mbind, M_bind.
  destruct (m w) as [[a w1]|] eqn:E; [|done]. by apply Hm.
Qed.

Lemma wp_mono m w (Q Q' : A -> world -> Prop) :
  wp m w Q -> (forall a w', Q a w' -> Q' a w') -> wp m w Q'.
Proof. intros (a & w' & Hm & HQ) HQQ. exists a, w'. auto. Qed.

Lemma wlp_mono m w (Q Q' : A -> world -> Prop) :
  wlp m w Q -> (forall a w', Q a w' -> Q' a w') -> wlp m w Q'.
Proof. intros Hm HQQ a w' Hrun. auto. Qed.

Lemma wp_wlp m w Q : wp m w Q -> wlp m w Q.
Proof. intros (a & w' & Hm & HQ) a1 w1 Hrun. by simplify_eq. Qed.

Lemma wlp_wp m w Q : wlp m w Q -> is_Some (m w) -> wp m w Q.
Proof. intros Hm [[a w'] Hrun]. exists a, w'. auto. Qed.

Lemma wp_prim f w Q : Q (f (advance w)).1 (f (advance w)).2 -> wp (prim (A := A) f) w Q.
Proof. intros HQ. exists (f (advance w)).1, (f (advance w)).2.
  unfold prim. split; [|done]. by destruct (f (advance w)). Qed.

Lemma wp_run m w Q a w' : wp m w Q -> m w = Some (a, w') -> Q a w'.
Proof. intros Hwp Hrun. by apply (wp_wlp m w Q). Qed.
End logic.

(** *** Ticks *)

Lemma sys_iter_S n s : sys_iter (S n) s = sys_step (sys_iter n s).
Proof. reflexivity. Qed.

Lemma sys_iter_add n k s : sys_iter (n + k) s = sys_iter k (sys_iter n s).
Proof. unfold sys_iter. rewrite Nat.add_comm. apply Nat.iter_add. Qed.

Lemma reach_0 w : reach 0 w w.
Proof. done. Qed.

Lemma reach_S n w w1 w2 :
  reach n w w1 -> w_sys w2 = sys_step (w_sys w1) -> reach (S n) w w2.
Proof. unfold reach, sys_at. intros H1 H2. by rewrite H2, H1, sys_iter_S. Qed.

Lemma reach_trans n k w w1 w2 : reach n w w1 -> reach k w1 w2 -> reach (n + k) w w2.
Proof. unfold reach, sys_at. intros H1 H2. by rewrite H2, H1, sys_iter_add. Qed.

Lemma reach_same n w w1 w2 : reach n w w1 -> w_sys w2 = w_sys w1 -> reach n w w2.
Proof. unfold reach. congruence. Qed.

Lemma reach_val n w w' a : reach n w w' -> w_val w' a = val_at w n a.
Proof. unfold reach, w_val, val_at. by intros ->. Qed.

Lemma reach_now n w w' : reach n w w' -> w_now w' = now_at w n.
Proof. unfold reach, w_now, now_at. by intros ->. Qed.

Lemma reach_val_at n w w' i a : reach n w w' -> val_at w' i a = val_at w (n + i) a.
Proof. unfold reach, val_at, sys_at. intros ->. by rewrite sys_iter_add. Qed.

Lemma reach_now_at n w w' i : reach n w w' -> now_at w' i = now_at w (n + i).
Proof. unfold reach, now_at, sys_at. intros ->. by rewrite sys_iter_add. Qed.

Lemma now_at_S w n : now_at w n <= now_at w (S n).
Proof. unfold now_at, sys_at. rewrite sys_iter_S. simpl. lia. Qed.

(** The clock is monotonic. *)
Lemma now_at_mono w n k : (n <= k)%nat -> now_at w n <= now_at w k.
Proof.
  induction 1 as [|k Hk IH]; [lia|]. pose proof (now_at_S w k). lia.
Qed.

Lemma eventually_different_reach n w w' a e :
  reach n w w' -> eventually_different w a e -> eventually_different w' a e.
Proof.
  intros Hr [N HN]. exists N. intros i Hi. rewrite (reach_val_at _ _ _ _ _ Hr).
  apply HN. lia.
Qed.

Lemma clock_reaches_reach n w w' t :
  reach n w w' -> clock_reaches w t -> clock_reaches w' t.
Proof.
  intros Hr [k Hk]. exists k. rewrite (reach_now_at _ _ _ _ Hr).
  pose proof (now_at_mono w k (n + k)). lia.
Qed.

(** *** Primitive rules, relative to an origin [w0] that is [n] ticks back *)

Section rules.
Context (w0 w : world) (n : nat) (Hr : reach n w0 w).

Lemma reach_advance : reach (S n) w0 (advance w).
Proof. by apply (reach_S n w0 w). Qed.

Lemma wp_load o a (Q : Z -> world -> Prop) :
  (forall w', reach (S n) w0 w' -> w_mon w' = w_mon (advance w) ->
     w_trace w' = EvLoad o a (val_at w0 (S n) a) :: w_trace w -> Q (val_at w0 (S n) a) w') ->
  wp (load o a) w Q.
Proof.
  intros HQ. apply wp_prim. simpl.
  rewrite (reach_val _ _ _ _ reach_advance). apply HQ; [|done|done].
  apply (reach_same _ _ (advance w)); [apply reach_advance|done].
Qed.

Lemma wp_now (Q : Z -> world -> Prop) :
  (forall w', reach (S n) w0 w' -> w_mon w' = w_mon (advance w) ->
     w_trace w' = EvNow (now_at w0 (S n)) :: w_trace w -> Q (now_at w0 (S n)) w') ->
  wp instant_now w Q.
Proof.
  intros HQ. apply wp_prim. simpl.
  rewrite (reach_now _ _ _ reach_advance). apply HQ; [|done|done].
  apply (reach_same _ _ (advance w)); [apply reach_advance|done].
Qed.

Lemma wp_spin (Q : unit -> world -> Prop) :
  (forall w', reach (S n) w0 w' -> w_trace w' = EvSpin :: w_trace w -> Q tt w') ->
  wp spin_loop w Q.
Proof.
  intros HQ. apply wp_prim. simpl. apply HQ; [|done].
  apply (reach_same _ _ (advance w)); [apply reach_advance|done].
Qed.

Lemma wp_yield (Q : unit -> world -> Prop) :
  (forall w', reach (S n) w0 w' -> w_trace w' = EvYield :: w_trace w -> Q tt w') ->
  wp yield_now w Q.
Proof.
  intros HQ. apply wp_prim. simpl. apply HQ; [|done].
  apply (reach_same _ _ (advance w)); [apply reach_advance|done].
Qed.

Lemma wp_rdtscp (Q : Z * Z -> world -> Prop) :
  (forall t w', reach (S n) w0 w' -> w_mon w' = w_mon (advance w) ->
     w_trace w' = EvTsc t.1 :: w_trace w -> Q t w') ->
  wp rdtscp w Q.
Proof.
  intros HQ. apply wp_prim. simpl. apply HQ; [|done|done].
  apply (reach_same _ _ (advance w)); [apply reach_advance|done].
Qed.

Lemma wp_arm a (Q : unit -> world -> Prop) :
  (forall w', reach (S n) w0 w' -> w_mon w' = Armed a false ->
     w_trace w' = EvArm a :: w_trace w -> Q tt w') ->
  wp (arm a) w Q.
Proof.
  intros HQ. apply wp_prim. simpl. apply HQ; [|done|done].
  apply (reach_same _ _ (advance w)); [apply reach_advance|done].
Qed.

Lemma wp_hw_wait ev (Q : unit -> world -> Prop) :
  (forall w', reach (S (S n)) w0 w' ->
     w_trace w' = ev (w_mon (advance w)) (s_mem (w_sys (advance w))) :: w_trace w -> Q tt w') ->
  wp (hw_wait ev) w Q.
Proof.
  intros HQ. apply wp_prim. simpl. apply HQ; [|done].
  apply (reach_S _ _ (advance w)); [apply reach_advance|done].
Qed.
End rules.

(** *** The address monitor *)

Lemma op_apply_other m op a : op_addr op <> a -> mget (op_apply m op) a = mget m a.
Proof.
  unfold mget. destruct op; simpl; intros Hne; by rewrite lookup_insert_ne.
Qed.

Lemma mem_apply_other ops m a :
  existsb (fun op => op_addr op =? a) ops = false ->
  mget (mem_apply m ops) a = mget m a.
Proof.
  revert m. induction ops as [|op ops IH]; intros m; [done|]. simpl. intros H.
  bool_facts. rewrite IH by done. by apply op_apply_other.
Qed.

(** While the monitor is armed on [a], either it has been triggered or [a] has
    kept its value. *)
Lemma advance_armed w a t :
  w_mon w = Armed a t ->
  exists t', w_mon (advance w) = Armed a t' /\
    (t' = true \/ w_val (advance w) a = w_val w a).
Proof.
  intros Hm. unfold advance, w_val. simpl. rewrite Hm. simpl.
  eexists; split; [done|].
  destruct (existsb _ _) eqn:E; [left; by rewrite orb_true_r|right].
  by apply mem_apply_other.
Qed.

(** The monitor covers [a]: armed on it, and triggered unless [a] still holds [e]. *)
Definition armed_ok (a e : Z) (w : world) : Prop :=
  exists t, w_mon w = Armed a t /\ (t = true \/ w_val w a = e).

Lemma armed_ok_step a e n w0 w w' :
  armed_ok a e w -> reach n w0 w -> reach (S n) w0 w' -> w_mon w' = w_mon (advance w) ->
  armed_ok a e w'.
Proof.
  intros (t & Hm & Ht) Hr Hr' Hm'.
  assert (Hadv : reach (S n) w0 (advance w)) by (by apply reach_advance).
  assert (Hval : w_val w' a = w_val (advance w) a)
    by (by rewrite (reach_val _ _ _ _ Hr'), (reach_val _ _ _ _ Hadv)).
  destruct (advance_armed w a t Hm) as (t' & Hm1 & Ht').
  exists t'. split; [congruence|]. destruct Ht' as [->|Hv]; [by left|].
  destruct Ht as [->|He]; [|right; congruence].
  left. revert Hm1. unfold advance. simpl. rewrite Hm. simpl. by intros [=].
Qed.

(** *** Loops *)

(** A loop satisfies [Q] when its body establishes it on exit and every
    continuing iteration moves the start point. *)
Lemma loop_sound {A} (body : M (option A)) (Q : world -> A -> world -> Prop) f w :
  (forall w, wlp body w (fun r w1 =>
     match r with
     | Some a => Q w a w1
     | None => forall a w2, Q w1 a w2 -> Q w a w2
     end)) ->
  wlp (loop f body) w (Q w).
Proof.
  intros Hbody. revert w. induction f as [|f IH]; intros w; [by intros a w'|].
  simpl. apply wlp_bind. eapply wlp_mono; [apply Hbody|]. intros [a|] w1 H1.
  - by apply wlp_ret.
  - eapply wlp_mono; [apply IH|]. auto.
Qed.

(** A loop returns when a bound [N] strictly decreases on every continuing
    iteration. *)
Lemma loop_total {A} (body : M (option A)) (P : nat -> world -> Prop) N f w :
  (forall N w, P N w -> (N < f)%nat -> wp body w (fun r w1 =>
     match r with Some _ => True | None => exists N', (N' < N)%nat /\ P N' w1 end)) ->
  P N w -> (N < f)%nat -> is_Some (loop f body w).
Proof.
  intros Hbody. assert (Hgen : forall g N w, P N w -> (N < g <= f)%nat -> is_Some (loop g body w)).
  { induction g as [|g IH]; intros N1 w1 HP Hlt; [lia|].
    destruct (Hbody N1 w1 HP) as (r & w2 & Hrun & Hr); [lia|].
    simpl. unfold mbind, M_bind. rewrite Hrun. destruct r as [a|]; [by eexists|].
    destruct Hr as (N2 & Hlt2 & HP2). apply (IH N2); [done|lia]. }
  intros HP Hlt. apply (Hgen f N); [done|lia].
Qed.

(** A bounded loop: the body either exits with [Q] or keeps [R]. *)
Lemma for_loop_spec {A} (body : M (option A)) (R : world -> Prop) (Q : A -> world -> Prop) k w :
  (forall w, R w -> wp body w (fun r w1 => match r with Some a => Q a w1 | None => R w1 end)) ->
  R w ->
  wp (for_loop k body) w (fun r w1 => match r with Some a => Q a w1 | None => R w1 end).
Proof.
  intros Hbody. revert w. induction k as [|k IH]; intros w HR; simpl.
  - by apply wp_ret.
  - apply wp_bind. eapply wp_mono; [by apply Hbody|]. intros [a|] w1 H1.
    + by apply wp_ret.
    + by apply IH.
Qed.

(** *** What the consumer did: events since a world *)

Definition is_wait (ev : event) : bool :=
  match ev with EvMwaitx _ _ _ _ _ | EvUmwait _ _ _ _ _ => true | _ => false end.

(** No hardware wait was entered between [w] and [w']. *)
Definition quiet (w w' : world) : Prop :=
  exists evs, w_trace w' = evs ++ w_trace w /\ Forall (fun ev => is_wait ev = false) evs.

Lemma quiet_refl w : quiet w w.
Proof. by exists []. Qed.

Lemma quiet_step w0 w w' ev :
  quiet w0 w -> w_trace w' = ev :: w_trace w -> is_wait ev = false -> quiet w0 w'.
Proof.
  intros (evs & Ht & Hf) Ht' Hev. exists (ev :: evs). rewrite Ht', Ht. auto.
Qed.

Lemma quiet_trans w0 w1 w2 : quiet w0 w1 -> quiet w1 w2 -> quiet w0 w2.
Proof.
  intros (e1 & H1 & F1) (e2 & H2 & F2). exists (e2 ++ e1). rewrite H2, H1, app_assoc.
  split; [done|]. by apply Forall_app.
Qed.

(** A program that never enters a hardware wait. *)
Definition quiet_prog {A} (m : M A) : Prop := forall w, wlp m w (fun _ w' => quiet w w').

Lemma quiet_ret {A} (x : A) : quiet_prog (mret x).
Proof. intros w. apply wlp_ret, quiet_refl. Qed.

Lemma quiet_bind {A B} (m : M A) (k : A -> M B) :
  quiet_prog m -> (forall a, quiet_prog (k a)) -> quiet_prog (mbind k m).
Proof.
  intros Hm Hk w. apply wlp_bind. eapply wlp_mono; [apply Hm|]. intros a w1 H1.
  eapply wlp_mono; [apply Hk|]. intros b w2. by apply quiet_trans.
Qed.

Lemma quiet_prim {A} (f : world -> A * world) :
  (forall w, exists e, w_trace (f w).2 = e :: w_trace w /\ is_wait e = false) ->
  quiet_prog (prim f).
Proof.
  intros Hf w a w' [= Hrun]. destruct (Hf (advance w)) as (e & Ht & He).
  rewrite Hrun in Ht. simpl in Ht. exists [e]. split; [done|]. by repeat constructor.
Qed.

Lemma quiet_load o a : quiet_prog (load o a).
Proof. apply quiet_prim. intros w. by eexists. Qed.
Lemma quiet_now : quiet_prog instant_now.
Proof. apply quiet_prim. intros w. by eexists. Qed.
Lemma quiet_spin : quiet_prog spin_loop.
Proof. apply quiet_prim. intros w. by eexists. Qed.
Lemma quiet_yield : quiet_prog yield_now.
Proof. apply quiet_prim. intros w. by eexists. Qed.

Lemma quiet_for {A} n (body : M (option A)) : quiet_prog body -> quiet_prog (for_loop n body).
Proof.
  intros Hb. induction n as [|n IH]; simpl; [apply quiet_ret|].
  apply quiet_bind; [done|]. intros [a|]; [apply quiet_ret|done].
Qed.

Lemma wp_wlp_conj {A} (m : M A) w (P Q : A -> world -> Prop) :
  wp m w P -> wlp m w Q -> wp m w (fun a w' => P a w' /\ Q a w').
Proof. intros (a & w' & Hrun & HP) HQ. exists a, w'. auto. Qed.

#[export] Hint Resolve quiet_ret quiet_load quiet_now quiet_spin quiet_yield quiet_for
  quiet_refl reach_0 : snz.

(** Solve [quiet_prog] goals by the structure of the program. *)
Ltac quiet_tac :=
  repeat first
    [ progress (intros; simpl) | apply quiet_bind | apply quiet_for | case_match
    | solve [eauto with snz] ].

(** *** Programs that always return *)

Definition always {A} (m : M A) : Prop := forall w, is_Some (m w).

Lemma total_ret {A} (x : A) : always (mret x).
Proof. intros w. by eexists. Qed.

Lemma total_prim {A} (f : world -> A * world) : always (prim f).
Proof. intros w. by eexists. Qed.

Lemma total_bind {A B} (m : M A) (k : A -> M B) :
  always m -> (forall a, always (k a)) -> always (mbind k m).
Proof.
  intros Hm Hk w. unfold mbind, M_bind. destruct (Hm w) as [[a w1] ->]. apply Hk.
Qed.

#[export] Hint Resolve total_ret total_prim : snz.

Ltac total_tac :=
  repeat first
    [ progress intros | apply total_bind | case_match
    | solve [eauto with snz] | solve [intros ?; by eexists] ].

(** ** Concrete worlds *)

(** A finite schedule, idle afterwards; every slot lasts at least [ns]. *)
Definition schedule (ns : N) (ticks : list tick) : nat -> tick := fun n =>
  default (Tick [] ns (0, 0) None) (ticks !! n).

Definition start_world (mem : gmap Z Z) (sched : nat -> tick) : world :=
  {| w_sys := {| s_mem := mem; s_now := 0; s_pos := 0; s_sched := sched |};
     w_mon := Disarmed; w_trace := [] |}.

(** A slot in which producers perform [ops]. *)
Definition ops_tick (ns : N) (ops : list env_op) : tick := Tick ops ns (0, 0) None.

(** A property of all scheduled operations is checked on the finite part. *)
Lemma schedule_forall (P : env_op -> Prop) ns ticks :
  Forall (fun t => Forall P (tk_ops t)) ticks ->
  forall p op, op ∈ tk_ops (schedule ns ticks p) -> P op.
Proof.
  intros HF p op. unfold schedule. destruct (ticks !! p) as [t|] eqn:E; simpl.
  - rewrite Forall_lookup in HF. specialize (HF _ _ E). rewrite Forall_forall in HF. auto.
  - intros Hin. by apply elem_of_nil in Hin.
Qed.
