(* ===== verification/Errors.v ===== *)
(** * Error and identity types of the public API (src/src/error.rs)

    The enums and structs with the source's constructors, the accessors, and the
    [Display] and [Error::source] implementations. *)

From S2P Require Import Prelude.

(** ** Data *)

Inductive Strategy :=
| S_BusySpin
| S_SpinThenYield
| S_HardwareWait
| S_SpinThenHardwareWait.

Inductive HardwareBackend := AmdMwaitx | IntelUmwait.

Inductive UnsupportedReason :=
| UnsupportedTarget
| UnsupportedCpuVendor
| MissingMonitorxMwaitx
| MissingWaitpkg
| MissingInvariantTsc
| MissingRdtscp
| TscAccessDisabled
| UnstableTimerCalibration.

Record UnsupportedStrategy := mkUnsupportedStrategy {
  us_strategy : Strategy;
  us_reason : UnsupportedReason;
}.

Inductive PreflightFailure := WaitDidNotBlock | StoreWakeNotObserved | Inconclusive.

Inductive HardwareWaitError :=
| PreflightRequired
| PreflightPanicked
| Unsupported (e : UnsupportedStrategy)
| PreflightFailed (backend : HardwareBackend) (reason : PreflightFailure).

#[export] Instance Strategy_eq_dec : EqDecision Strategy.
Proof. solve_decision. Defined.
#[export] Instance HardwareBackend_eq_dec : EqDecision HardwareBackend.
Proof. solve_decision. Defined.
#[export] Instance UnsupportedReason_eq_dec : EqDecision UnsupportedReason.
Proof. solve_decision. Defined.
#[export] Instance UnsupportedStrategy_eq_dec : EqDecision UnsupportedStrategy.
Proof. solve_decision. Defined.
#[export] Instance PreflightFailure_eq_dec : EqDecision PreflightFailure.
Proof. solve_decision. Defined.
#[export] Instance HardwareWaitError_eq_dec : EqDecision HardwareWaitError.
Proof. solve_decision. Defined.

(** ** Rendering: [derive(Debug)] prints the constructor name *)

Open Scope string_scope.

Definition strategy_debug (s : Strategy) : string :=
  match s with
  | S_BusySpin => "BusySpin"
  | S_SpinThenYield => "SpinThenYield"
  | S_HardwareWait => "HardwareWait"
  | S_SpinThenHardwareWait => "SpinThenHardwareWait"
  end.

Definition backend_debug (b : HardwareBackend) : string :=
  match b with AmdMwaitx => "AmdMwaitx" | IntelUmwait => "IntelUmwait" end.

Definition unsupported_reason_debug (r : UnsupportedReason) : string :=
  match r with
  | UnsupportedTarget => "UnsupportedTarget"
  | UnsupportedCpuVendor => "UnsupportedCpuVendor"
  | MissingMonitorxMwaitx => "MissingMonitorxMwaitx"
  | MissingWaitpkg => "MissingWaitpkg"
  | MissingInvariantTsc => "MissingInvariantTsc"
  | MissingRdtscp => "MissingRdtscp"
  | TscAccessDisabled => "TscAccessDisabled"
  | UnstableTimerCalibration => "UnstableTimerCalibration"
  end.

Definition preflight_failure_debug (f : PreflightFailure) : string :=
  match f with
  | WaitDidNotBlock => "WaitDidNotBlock"
  | StoreWakeNotObserved => "StoreWakeNotObserved"
  | Inconclusive => "Inconclusive"
  end.

Definition unsupported_strategy_display (e : UnsupportedStrategy) : string :=
  "strategy " +:+ strategy_debug (us_strategy e) +:+ " is unavailable: "
    +:+ unsupported_reason_debug (us_reason e).

Definition hardware_wait_error_display (e : HardwareWaitError) : string :=
  match e with
  | PreflightRequired =>
      "hardware wait preflight must run once before constructing a strategy"
  | PreflightPanicked =>
      "hardware wait preflight panicked; hardware waiting remains unavailable"
  | Unsupported e => unsupported_strategy_display e
  | PreflightFailed b r =>
      "hardware wait preflight for " +:+ backend_debug b +:+ " failed: "
        +:+ preflight_failure_debug r
  end.

(** [Error::source] *)
Definition hardware_wait_error_source (e : HardwareWaitError) : option UnsupportedStrategy :=
  match e with
  | Unsupported e => Some e
  | PreflightRequired | PreflightPanicked | PreflightFailed _ _ => None
  end.

(** [From<UnsupportedStrategy> for HardwareWaitError] *)
Definition hardware_wait_error_from (e : UnsupportedStrategy) : HardwareWaitError :=
  Unsupported e.

Close Scope string_scope.

(** [fn unsupported(reason)] of src/src/strategy.rs *)
Definition unsupported (r : UnsupportedReason) : HardwareWaitError :=
  Unsupported {| us_strategy := S_HardwareWait; us_reason := r |}.

(** ** Distinct errors have distinct messages *)

Definition all_strategies : list Strategy :=
  [S_BusySpin; S_SpinThenYield; S_HardwareWait; S_SpinThenHardwareWait].
Definition all_reasons : list UnsupportedReason :=
  [UnsupportedTarget; UnsupportedCpuVendor; MissingMonitorxMwaitx; MissingWaitpkg;
   MissingInvariantTsc; MissingRdtscp; TscAccessDisabled; UnstableTimerCalibration].
Definition all_errors : list HardwareWaitError :=
  [PreflightRequired; PreflightPanicked]
  ++ (s ← all_strategies; r ← all_reasons; [Unsupported (mkUnsupportedStrategy s r)])
  ++ (b ← [AmdMwaitx; IntelUmwait];
      f ← [WaitDidNotBlock; StoreWakeNotObserved; Inconclusive]; [PreflightFailed b f]).

Lemma all_errors_complete e : e ∈ all_errors.
Proof.
  apply (bool_decide_unpack _). destruct e as [| |[[] []]|[] []]; vm_compute; exact I.
Qed.

(** The error messages are unambiguous: different hardware-wait errors are displayed
    differently, and [Error::source] is present exactly for the unsupported-strategy errors,
    where it undoes the [From] conversion. *)
Theorem error_messages_distinct (e1 e2 : HardwareWaitError) :
  (hardware_wait_error_display e1 = hardware_wait_error_display e2 <-> e1 = e2) /\
  (forall u, hardware_wait_error_source e1 = Some u <-> e1 = hardware_wait_error_from u).
Proof.
  split.
  - split; [|by intros ->]. apply (NoDup_fmap_inj_in _ all_errors); [|apply all_errors_complete..].
    apply (bool_decide_unpack _). vm_compute. exact I.
  - intros u. destruct e1; simpl; unfold hardware_wait_error_from; split; intros; by simplify_eq.
Qed.
