(* ===== verification/Strategy.v ===== *)
(** * Wait strategies (src/src/strategy.rs, src/src/atomic.rs)

    The sealed [WaitableAtomic] trait, deadlines, the raw wait of every strategy
    behind the [StrategyImpl] trait, and the four public operations of
    [WaitStrategy], which the source's macro impl_wait_strategy! derives from
    the raw wait. [StrategyLaws] is what a raw wait promises to its clients (the
    public operations here, the Parker in Parker.v): what each result means
    ([raw_post]) and when it returns. The software strategies BusySpin
    and SpinThenYield discharge it here, the hardware ones in Hardware.v. *)

From S2P Require Import Prelude Machine Errors.

(** ** The watched atomic *)

Class WaitableAtomic (A : Type) := {
  load_acquire : A -> M Z;
  monitored_address : A -> Z;
  (** the monitored address is the address the load reads *)
  load_acquire_spec : forall a, load_acquire a = load Acquire (monitored_address a);
}.

Record AtomicU32 := mkAtomicU32 { u32_ptr : Z }.
Record AtomicU64 := mkAtomicU64 { u64_ptr : Z }.

#[export] Instance atomic_u32_waitable : WaitableAtomic AtomicU32 := {|
  load_acquire a := load Acquire (u32_ptr a);
  monitored_address a := u32_ptr a;
  load_acquire_spec a := eq_refl;
|}.

#[export] Instance atomic_u64_waitable : WaitableAtomic AtomicU64 := {|
  load_acquire a := load Acquire (u64_ptr a);
  monitored_address a := u64_ptr a;
  load_acquire_spec a := eq_refl;
|}.

(** ** Results *)

Inductive WaitResult (T : Type) :=
| WR_Changed (v : T)
| WR_Unclassified.
Arguments WR_Changed {T} _.
Arguments WR_Unclassified {T}.

Inductive WaitTimeoutResult (T : Type) :=
| WT_Changed (v : T)
| WT_Unclassified
| WT_TimedOut.
Arguments WT_Changed {T} _.
Arguments WT_Unclassified {T}.
Arguments WT_TimedOut {T}.

Inductive WaitUntilTimeoutResult (T : Type) :=
| WU_Changed (v : T)
| WU_TimedOut.
Arguments WU_Changed {T} _.
Arguments WU_TimedOut {T}.

(** ** Deadlines: durations and instants in nanoseconds *)

Record Deadline := mkDeadline { dl_started : Z; dl_timeout : Z }.

Definition deadline_new (timeout : Z) : M Deadline :=
  t ← instant_now; mret {| dl_started := t; dl_timeout := timeout |}.

(** [Instant::elapsed] saturates at zero. *)
Definition remaining_at (d : Deadline) (now : Z) : option Z :=
  let elapsed := sat_sub now (dl_started d) in
  if dl_timeout d <=? elapsed then None else Some (dl_timeout d - elapsed).

Definition remaining (d : Deadline) : M (option Z) :=
  t ← instant_now; mret (remaining_at d t).

(** [deadline.is_some_and(|value| value.remaining().is_none())] *)
Definition deadline_expired (d : option Deadline) : M bool :=
  match d with
  | None => mret false
  | Some dl => r ← remaining dl; mret (match r with None => true | Some _ => false end)
  end.

(** ** Shared steps of the raw waits *)

Section steps.
Context {A : Type} `{WaitableAtomic A}.

Definition classify_after_wait (a : A) (expected : Z) (d : option Deadline)
    : M (WaitTimeoutResult Z) :=
  observed ← load_acquire a;
  if negb (observed =? expected) then mret (WT_Changed observed)
  else
    x ← deadline_expired d;
    mret (if x : bool then WT_TimedOut else WT_Unclassified).

Definition spin_prefix (a : A) (expected spin_iterations : Z) (d : option Deadline)
    : M (option (WaitTimeoutResult Z)) :=
  initially ← load_acquire a;
  if negb (initially =? expected) then mret (Some (WT_Changed initially))
  else
    x ← deadline_expired d;
    if x : bool then mret (Some WT_TimedOut)
    else
      for_loop (Z.to_nat spin_iterations)
        (_ ← spin_loop;
         observed ← load_acquire a;
         if negb (observed =? expected) then mret (Some (WT_Changed observed))
         else
           x ← deadline_expired d;
           if x : bool then mret (Some WT_TimedOut) else mret None).
End steps.

(** ** The strategy traits *)

Class StrategyImpl (S : Type) := {
  strategy_id : S -> Strategy;
  wait_raw_untimed : forall {A} `{WaitableAtomic A},
    nat -> S -> A -> Z -> M (WaitTimeoutResult Z);
  wait_raw : forall {A} `{WaitableAtomic A},
    nat -> S -> A -> Z -> option Deadline -> M (WaitTimeoutResult Z);
}.

(** The operations impl_wait_strategy! gives every strategy. *)
Section wait_strategy.
Context {S A : Type} `{StrategyImpl S} `{WaitableAtomic A}.

Definition wait_if_equal (fuel : nat) (s : S) (a : A) (expected : Z) : M (WaitResult Z) :=
  r ← wait_raw_untimed fuel s a expected;
  mret (match r with
        | WT_Changed v => WR_Changed v
        | WT_Unclassified | WT_TimedOut => WR_Unclassified
        end).

Definition wait_until_different (fuel : nat) (s : S) (a : A) (expected : Z) : M Z :=
  loop fuel
    (r ← wait_raw_untimed fuel s a expected;
     mret (match r with WT_Changed v => Some v | _ => None end)).

Definition wait_if_equal_timeout (fuel : nat) (s : S) (a : A) (expected timeout : Z)
    : M (WaitTimeoutResult Z) :=
  d ← deadline_new timeout;
  wait_raw fuel s a expected (Some d).

(** The loop of [wait_until_different_timeout], its deadline fixed. *)
Definition filtered_timed_loop (fuel : nat) (s : S) (a : A) (expected : Z) (d : Deadline)
    : M (WaitUntilTimeoutResult Z) :=
  loop fuel
    (r ← wait_raw fuel s a expected (Some d);
     mret (match r with
           | WT_Changed v => Some (WU_Changed v)
           | WT_TimedOut => Some WU_TimedOut
           | WT_Unclassified => None
           end)).

Definition wait_until_different_timeout (fuel : nat) (s : S) (a : A) (expected timeout : Z)
    : M (WaitUntilTimeoutResult Z) :=
  d ← deadline_new timeout;
  filtered_timed_loop fuel s a expected d.
End wait_strategy.

(** ** BusySpin and SpinThenYield *)

Inductive BusySpin := mkBusySpin.

Definition busy_spin_raw {A} `{WaitableAtomic A} (fuel : nat) (_ : BusySpin) (a : A)
    (expected : Z) (d : option Deadline) : M (WaitTimeoutResult Z) :=
  loop fuel
    (observed ← load_acquire a;
     if negb (observed =? expected) then mret (Some (WT_Changed observed))
     else
       x ← deadline_expired d;
       if x : bool then mret (Some WT_TimedOut)
       else _ ← spin_loop; mret None).

#[export] Instance busy_spin_impl : StrategyImpl BusySpin := {|
  strategy_id _ := S_BusySpin;
  wait_raw_untimed A _ fuel s a e := busy_spin_raw fuel s a e None;
  wait_raw A _ := busy_spin_raw;
|}.

Record SpinThenYield := mkSpinThenYield { sy_spin_iterations : Z }.

Definition spin_then_yield_raw {A} `{WaitableAtomic A} (fuel : nat) (s : SpinThenYield) (a : A)
    (expected : Z) (d : option Deadline) : M (WaitTimeoutResult Z) :=
  p ← spin_prefix a expected (sy_spin_iterations s) d;
  match p with
  | Some r => mret r
  | None => _ ← yield_now; classify_after_wait a expected d
  end.

#[export] Instance spin_then_yield_impl : StrategyImpl SpinThenYield := {|
  strategy_id _ := S_SpinThenYield;
  wait_raw_untimed A _ fuel s a e := spin_then_yield_raw fuel s a e None;
  wait_raw A _ := spin_then_yield_raw;
|}.

(** ** What a raw wait promises *)

(** The deadline has expired at instant [t]. *)
Definition expired (d : Deadline) (t : Z) : Prop := dl_timeout d <= sat_sub t (dl_started d).

Definition passed (d : option Deadline) (t : Z) : Prop :=
  match d with Some dl => expired dl t | None => False end.

(** The value of the deciding Acquire load, at tick [i] of the call, and, when a
    deadline is given, the clock read at a later tick [j]. *)
Definition raw_post (a e : Z) (d : option Deadline) (w : world)
    (r : WaitTimeoutResult Z) (w' : world) : Prop :=
  exists i n, (0 < i <= n)%nat /\ reach n w w' /\
  match r with
  | WT_Changed v =>
      v <> e /\ val_at w i a = v /\ i = n /\
      exists tr, w_trace w' = EvLoad Acquire a v :: tr
  | WT_TimedOut =>
      val_at w i a = e /\
      exists dl j, d = Some dl /\ (i < j <= n)%nat /\ expired dl (now_at w j)
  | WT_Unclassified =>
      val_at w i a = e /\
      forall dl, d = Some dl -> exists j, (i < j <= n)%nat /\ ~ expired dl (now_at w j)
  end.

Class StrategyLaws (S : Type) `{StrategyImpl S} := {
  raw_sound : forall {A} `{WaitableAtomic A} f (s : S) (a : A) e d w,
    wlp (wait_raw f s a e d) w (raw_post (monitored_address a) e d w);
  untimed_sound : forall {A} `{WaitableAtomic A} f (s : S) (a : A) e w,
    wlp (wait_raw_untimed f s a e) w (raw_post (monitored_address a) e None w);
  (** it returns once the value stays changed or the deadline has passed *)
  raw_returns : forall {A} `{WaitableAtomic A} f (s : S) (a : A) e d w N,
    (forall n, (N <= n)%nat -> val_at w n (monitored_address a) <> e \/ passed d (now_at w n)) ->
    (N < f)%nat -> is_Some (wait_raw f s a e d w);
  untimed_returns : forall {A} `{WaitableAtomic A} f (s : S) (a : A) e w N,
    (forall n, (N <= n)%nat -> val_at w n (monitored_address a) <> e) ->
    (N < f)%nat -> is_Some (wait_raw_untimed f s a e w);
}.

(** ** Rules for the shared steps *)

Lemma remaining_at_None d t : remaining_at d t = None <-> expired d t.
Proof. unfold remaining_at, expired. split_tests; split; intros; try done; lia. Qed.

(** The remaining time is positive, at most the timeout, and runs out at the deadline. *)
Lemma remaining_at_Some d t r :
  remaining_at d t = Some r ->
  0 < r <= dl_timeout d /\ r = dl_timeout d - sat_sub t (dl_started d) /\ ~ expired d t.
Proof.
  unfold remaining_at, expired, sat_sub. split_tests; intros; simplify_eq; lia.
Qed.

Lemma expired_mono d t t' : t <= t' -> expired d t -> expired d t'.
Proof. unfold expired, sat_sub. lia. Qed.

Lemma passed_mono d t t' : t <= t' -> passed d t -> passed d t'.
Proof. destruct d; simpl; [apply expired_mono|done]. Qed.

Lemma wp_remaining w0 w n d (Q : option Z -> world -> Prop) :
  reach n w0 w ->
  (forall w', reach (S n) w0 w' -> w_mon w' = w_mon (advance w) ->
     w_trace w' = EvNow (now_at w0 (S n)) :: w_trace w ->
     Q (remaining_at d (now_at w0 (S n))) w') ->
  wp (remaining d) w Q.
Proof.
  intros Hr HQ. apply wp_bind. eapply wp_now; [done|]. intros w' Hr' Hm Ht.
  apply wp_ret. by apply HQ.
Qed.

Lemma wp_deadline_expired w0 w n d (Q : bool -> world -> Prop) :
  reach n w0 w ->
  (forall x w' k, (n <= k)%nat -> reach k w0 w' ->
     (x = true -> exists dl, d = Some dl /\ (n < k)%nat /\ expired dl (now_at w0 k)) ->
     (x = false -> forall dl, d = Some dl -> (n < k)%nat /\ ~ expired dl (now_at w0 k)) ->
     Q x w') ->
  wp (deadline_expired d) w Q.
Proof.
  intros Hr HQ. destruct d as [dl|]; simpl.
  - apply wp_bind. eapply wp_remaining; [done|]. intros w' Hr' _ _. apply wp_ret.
    apply (HQ _ _ (S n)); [lia|done| |].
    + destruct (remaining_at _ _) eqn:E; [done|]. apply remaining_at_None in E. eauto with lia.
    + destruct (remaining_at _ _) eqn:E; [|done]. apply remaining_at_Some in E as (_ & _ & E).
      intros _ dl' [= <-]. split; [lia|done].
  - apply wp_ret. apply (HQ _ _ n); [lia|done|done|done].
Qed.

Lemma raw_post_shift a e d n w w1 w2 r :
  reach n w w1 -> raw_post a e d w1 r w2 -> raw_post a e d w r w2.
Proof.
  intros Hr (i & k & Hi & Hk & Hpost). exists (n + i)%nat, (n + k)%nat.
  split_and!; [lia|lia|by eapply reach_trans|].
  assert (Hv : forall j, val_at w1 j a = val_at w (n + j) a) by (intros; by apply reach_val_at).
  assert (Hn : forall j, now_at w1 j = now_at w (n + j)) by (intros; by apply reach_now_at).
  destruct r as [v| |].
  - destruct Hpost as (He & Hval & -> & Htr). rewrite <- Hv. eauto with lia.
  - destruct Hpost as (Hval & Hd). split; [by rewrite <- Hv|].
    intros dl Hdl. destruct (Hd dl Hdl) as (j & Hj & Hexp). exists (n + j)%nat.
    rewrite <- Hn. split; [lia|done].
  - destruct Hpost as (Hval & dl & j & Hdl & Hj & Hexp). split; [by rewrite <- Hv|].
    exists dl, (n + j)%nat. rewrite <- Hn. split_and!; [done|lia|lia|done].
Qed.

Section step_rules.
Context {A : Type} `{WaitableAtomic A}.
Implicit Types (a : A) (w : world).

(** Leave a raw wait with a value just loaded. *)
Lemma raw_post_changed a e d w w' i tr :
  (0 < i)%nat -> reach i w w' -> val_at w i (monitored_address a) <> e ->
  w_trace w' = EvLoad Acquire (monitored_address a) (val_at w i (monitored_address a)) :: tr ->
  raw_post (monitored_address a) e d w (WT_Changed (val_at w i (monitored_address a))) w'.
Proof. intros Hi Hr Hne Htr. exists i, i. split; [lia|]. split; [done|]. eauto. Qed.

Lemma raw_post_timed_out ad e d w w' i k dl :
  (0 < i < k)%nat -> reach k w w' -> val_at w i ad = e -> d = Some dl ->
  expired dl (now_at w k) -> raw_post ad e d w WT_TimedOut w'.
Proof.
  intros Hi Hr Hv Hd He. exists i, k. split; [lia|]. split; [done|]. split; [done|].
  exists dl, k. split_and!; [done|lia|lia|done].
Qed.

Lemma wp_classify a e d w0 w n :
  reach n w0 w ->
  wp (classify_after_wait a e d) w (raw_post (monitored_address a) e d w0).
Proof.
  intros Hr. unfold classify_after_wait. rewrite load_acquire_spec. apply wp_bind.
  eapply wp_load; [done|]. intros w1 Hr1 _ Ht1.
  destruct (_ =? e) eqn:E; bool_facts; simpl.
  - apply wp_bind. eapply wp_deadline_expired; [done|].
    intros [] w2 k Hk Hr2 Hx Hy; apply wp_ret.
    + destruct Hx as (dl & -> & Hlt & Hexp); [done|].
      eapply raw_post_timed_out; [|done..]. lia.
    + exists (S n), k. split; [lia|]. split; [done|]. split; [done|]. intros dl Hdl. exists k.
      destruct (Hy eq_refl dl Hdl). split; [lia|done].
  - apply wp_ret. eapply raw_post_changed; [lia|done|done|done].
Qed.

Lemma quiet_deadline_expired d : quiet_prog (deadline_expired d).
Proof. unfold deadline_expired, remaining. quiet_tac. Qed.

Lemma quiet_classify a e d : quiet_prog (classify_after_wait a e d).
Proof.
  unfold classify_after_wait. rewrite load_acquire_spec.
  pose proof (quiet_deadline_expired d). quiet_tac.
Qed.

Lemma quiet_spin_prefix a e k d : quiet_prog (spin_prefix a e k d).
Proof.
  unfold spin_prefix. rewrite load_acquire_spec.
  pose proof (quiet_deadline_expired d). quiet_tac.
Qed.

(** One poll: load, leave on a change or an expired deadline. *)
Lemma wp_poll {B} a e d w0 w n (changed : Z -> M B) (timed_out : M B) (continue : M B)
    (Q : B -> world -> Prop) :
  reach n w0 w ->
  (forall v w1, raw_post (monitored_address a) e d w0 (WT_Changed v) w1 ->
     wp (changed v) w1 Q) ->
  (forall w1, raw_post (monitored_address a) e d w0 WT_TimedOut w1 -> wp timed_out w1 Q) ->
  (forall w1 k, (n < k)%nat -> reach k w0 w1 ->
     val_at w0 (S n) (monitored_address a) = e -> ~ passed d (now_at w0 (S n)) ->
     wp continue w1 Q) ->
  wp (observed ← load_acquire a;
      if negb (observed =? e) then changed observed
      else x ← deadline_expired d; if x : bool then timed_out else continue) w Q.
Proof.
  intros Hr Hc Ht Hk. rewrite load_acquire_spec. apply wp_bind.
  eapply wp_load; [done|]. intros w1 Hr1 _ Ht1.
  destruct (_ =? e) eqn:E; bool_facts; simpl.
  - apply wp_bind. eapply wp_deadline_expired; [done|].
    intros [] w2 k Hle Hr2 Hx Hy.
    + destruct Hx as (dl & -> & Hlt & Hexp); [done|]. apply Ht.
      eapply raw_post_timed_out; [|done..]. lia.
    + apply (Hk w2 k); [lia|done|done|]. destruct d as [dl|]; [simpl|by intros []].
      destruct (Hy eq_refl dl eq_refl) as [Hlt Hexp]. intros Hp. apply Hexp.
      eapply expired_mono; [|done]. apply now_at_mono. lia.
  - apply Hc. eapply raw_post_changed; [lia|done|done|done].
Qed.

Lemma wp_spin_prefix a e k d w :
  wp (spin_prefix a e k d) w (fun p w' =>
    match p with
    | Some r => raw_post (monitored_address a) e d w r w'
    | None => exists n, (0 < n)%nat /\ reach n w w'
    end).
Proof.
  unfold spin_prefix. eapply wp_poll; [apply reach_0|..].
  - intros v w1 Hp. by apply wp_ret.
  - intros w1 Hp. by apply wp_ret.
  - intros w1 n Hn Hr _ _.
    eapply (for_loop_spec _ (fun w' => exists n, (0 < n)%nat /\ reach n w w')); [|eauto].
    clear. intros w1 (n & Hn & Hr). apply wp_bind. eapply wp_spin; [done|].
    intros w2 Hr2 _. eapply wp_poll; [done|..].
    + intros v w3 Hp. by apply wp_ret.
    + intros w3 Hp. by apply wp_ret.
    + intros w3 k' Hk Hr3 _ _. apply wp_ret. exists k'. split; [lia|done].
Qed.
End step_rules.

(** ** The software strategies satisfy the laws *)

Section software.
Context {A : Type} `{WaitableAtomic A}.

Lemma busy_spin_body (a : A) e d w :
  wp (observed ← load_acquire a;
      if negb (observed =? e) then mret (Some (WT_Changed observed))
      else x ← deadline_expired d;
           if x : bool then mret (Some WT_TimedOut) else _ ← spin_loop; mret None) w
    (fun r w1 =>
      match r with
      | Some r => raw_post (monitored_address a) e d w r w1
      | None => exists n, (0 < n)%nat /\ reach n w w1 /\
                  val_at w 1 (monitored_address a) = e /\ ~ passed d (now_at w 1)
      end).
Proof.
  eapply wp_poll; [apply reach_0|..].
  - intros v w1 Hp. by apply wp_ret.
  - intros w1 Hp. by apply wp_ret.
  - intros w1 n Hn Hr He Hd. apply wp_bind. eapply wp_spin; [done|].
    intros w2 Hr2 _. apply wp_ret. exists (S n). auto with lia.
Qed.

Lemma busy_spin_sound f s (a : A) e d w :
  wlp (busy_spin_raw f s a e d) w (raw_post (monitored_address a) e d w).
Proof.
  apply (loop_sound _ (fun w => raw_post (monitored_address a) e d w)). intros w1.
  apply wp_wlp. eapply wp_mono; [apply busy_spin_body|].
  intros [r|] w2; [done|]. intros (n & _ & Hr & _) r w3. by apply raw_post_shift with n.
Qed.

Lemma busy_spin_returns f s (a : A) e d w N :
  (forall n, (N <= n)%nat -> val_at w n (monitored_address a) <> e \/ passed d (now_at w n)) ->
  (N < f)%nat -> is_Some (busy_spin_raw f s a e d w).
Proof.
  intros HN Hf. eapply (loop_total _ (fun N w => forall n, (N <= n)%nat ->
    val_at w n (monitored_address a) <> e \/ passed d (now_at w n))); [|done|done].
  clear. intros N w HN _. eapply wp_mono; [apply busy_spin_body|].
  intros [r|] w1; [done|]. intros (n & Hn & Hr & He & Hd).
  assert (1 < N)%nat by (destruct (decide (N <= 1)%nat); [|lia]; destruct (HN 1%nat); [lia|done..]).
  exists (N - n)%nat. split; [lia|]. intros i Hi.
  rewrite (reach_val_at _ _ _ _ _ Hr), (reach_now_at _ _ _ _ Hr). apply HN. lia.
Qed.

Lemma spin_then_yield_spec f s (a : A) e d w :
  wp (spin_then_yield_raw f s a e d) w (raw_post (monitored_address a) e d w).
Proof.
  apply wp_bind. eapply wp_mono; [apply wp_spin_prefix|]. intros [r|] w1.
  - intros Hp. by apply wp_ret.
  - intros (n & Hn & Hr). apply wp_bind. eapply wp_yield; [done|].
    intros w2 Hr2 _. by eapply wp_classify.
Qed.
End software.

#[export] Instance busy_spin_laws : StrategyLaws BusySpin.
Proof.
  split; intros; [apply busy_spin_sound|apply busy_spin_sound| |].
  - by eapply busy_spin_returns.
  - eapply (busy_spin_returns _ _ _ _ None _ N); [|done]. auto.
Qed.

(** A total raw wait satisfies the laws. *)
Lemma wp_is_Some {A} (m : M A) w Q : wp m w Q -> is_Some (m w).
Proof. intros (a & w' & -> & _). by eexists. Qed.

#[export] Instance spin_then_yield_laws : StrategyLaws SpinThenYield.
Proof.
  split; intros.
  1,2: apply wp_wlp, spin_then_yield_spec.
  all: eapply wp_is_Some, spin_then_yield_spec.
Qed.

(** ** The public operations of any lawful strategy *)

(** [v] was loaded from [a], with Acquire ordering, by the last operation of the
    call, and differs from [e]. *)
Definition observed_change (a e : Z) (w : world) (v : Z) (w' : world) : Prop :=
  exists n, (0 < n)%nat /\ reach n w w' /\ v <> e /\ val_at w n a = v /\
    exists tr, w_trace w' = EvLoad Acquire a v :: tr.

(** The call read the clock at tick [j], at least [timeout] after it started, and
    before that, at tick [i], [a] still held [e]. *)
Definition observed_timeout (a e timeout : Z) (w w' : world) : Prop :=
  exists i j n, (0 < i < j)%nat /\ (j <= n)%nat /\ reach n w w' /\
    val_at w i a = e /\ timeout <= now_at w j - now_at w 1.

Lemma raw_post_observed a e d w v w' :
  raw_post a e d w (WT_Changed v) w' -> observed_change a e w v w'.
Proof.
  intros (i & n & Hi & Hr & Hne & Hv & -> & Htr). exists n. split; [lia|]. eauto.
Qed.

Lemma observed_change_shift a e n w w1 v w2 :
  reach n w w1 -> observed_change a e w1 v w2 -> observed_change a e w v w2.
Proof.
  intros Hr (k & Hk & Hr1 & Hne & Hv & Htr). exists (n + k)%nat.
  split; [lia|]. split; [by eapply reach_trans|]. split; [done|].
  split; [|done]. by rewrite <- (reach_val_at _ _ _ _ _ Hr).
Qed.

Lemma raw_post_timeout a e timeout w w' :
  0 <= timeout ->
  raw_post a e (Some (mkDeadline (now_at w 1) timeout)) w WT_TimedOut w' ->
  observed_timeout a e timeout w w'.
Proof.
  intros Ht (i & n & Hi & Hr & Hv & dl & j & [= <-] & Hj & Hexp).
  exists i, j, n. split; [lia|]. split; [lia|]. split; [done|]. split; [done|].
  unfold expired, sat_sub in Hexp. simpl in Hexp.
  pose proof (now_at_mono w 1 j). lia.
Qed.

Lemma wp_deadline_new timeout w (Q : Deadline -> world -> Prop) :
  (forall w1, reach 1 w w1 -> Q (mkDeadline (now_at w 1) timeout) w1) ->
  wp (deadline_new timeout) w Q.
Proof.
  intros HQ. apply wp_bind. eapply wp_now; [apply reach_0|].
  intros w1 Hr _ _. apply wp_ret. auto.
Qed.

Section public.
Context {St A : Type} `{StrategyLaws St} `{WaitableAtomic A}.
Implicit Types (s : St) (a : A) (w : world).

Lemma wait_until_different_spec f s a e w :
  wlp (wait_until_different f s a e) w (observed_change (monitored_address a) e w).
Proof.
  apply (loop_sound _ (fun w => observed_change (monitored_address a) e w)). intros w1.
  apply wlp_bind. eapply wlp_mono; [apply untimed_sound|]. intros r w2 Hp. apply wlp_ret.
  destruct r; [by eapply raw_post_observed| |];
    destruct Hp as (i & n & _ & Hr & _); intros v w3; by apply observed_change_shift with n.
Qed.

Lemma wait_until_different_total f s a e w N :
  (forall n, (N <= n)%nat -> val_at w n (monitored_address a) <> e) -> (N < f)%nat ->
  is_Some (wait_until_different f s a e w).
Proof.
  intros HN Hf. eapply (loop_total _ (fun N w => forall n, (N <= n)%nat ->
    val_at w n (monitored_address a) <> e)); [|done|done].
  clear HN Hf w N. intros N w HN Hf. apply wp_bind.
  eapply wp_mono; [apply wlp_wp; [apply untimed_sound|by eapply untimed_returns]|].
  intros r w1 Hp. apply wp_ret.
  destruct r as [v| |]; [done| |]; destruct Hp as (i & n & Hi & Hr & He & Hrest).
  - assert (i < N)%nat by (destruct (decide (N <= i)%nat); [by destruct (HN i)|lia]).
    exists (N - n)%nat. split; [lia|]. intros k Hk. rewrite (reach_val_at _ _ _ _ _ Hr).
    apply HN. lia.
  - by destruct Hrest as (dl & j & ? & _).
Qed.

Lemma wait_if_equal_timeout_spec f s a e timeout w :
  wlp (wait_if_equal_timeout f s a e timeout) w
    (raw_post (monitored_address a) e (Some (mkDeadline (now_at w 1) timeout)) w).
Proof.
  apply wlp_bind, wp_wlp, wp_deadline_new. intros w1 Hr1.
  eapply wlp_mono; [apply raw_sound|]. intros r w2. by apply raw_post_shift with 1%nat.
Qed.

(** The filtered timed wait, once its deadline is fixed. *)
Lemma timeout_loop_sound f s a e d w :
  wlp (filtered_timed_loop f s a e d) w
    (fun r => raw_post (monitored_address a) e (Some d) w
                (match r with WU_Changed v => WT_Changed v | WU_TimedOut => WT_TimedOut end)).
Proof.
  apply (loop_sound _ (fun w (r : WaitUntilTimeoutResult Z) =>
    raw_post (monitored_address a) e (Some d) w
      (match r with WU_Changed v => WT_Changed v | WU_TimedOut => WT_TimedOut end))).
  intros w1. apply wlp_bind. eapply wlp_mono; [apply raw_sound|]. intros r w2 Hp. apply wlp_ret.
  destruct r; [done| |done]. destruct Hp as (i & n & _ & Hr & _).
  intros r w3. by apply raw_post_shift with n.
Qed.

Lemma timeout_loop_total f s a e d w N :
  (forall n, (N <= n)%nat -> expired d (now_at w n)) -> (N < f)%nat ->
  is_Some (filtered_timed_loop f s a e d w).
Proof.
  intros HN Hf. eapply (loop_total _ (fun N w => forall n, (N <= n)%nat ->
    expired d (now_at w n))); [|done|done].
  clear HN Hf w N. intros N w HN Hf. apply wp_bind.
  eapply wp_mono; [apply wlp_wp; [apply raw_sound|]|].
  { eapply raw_returns; [|done]. intros n Hn. right. by apply HN. }
  intros r w1 Hp. apply wp_ret.
  destruct r as [v| |]; [done| |done]. destruct Hp as (i & n & Hi & Hr & He & Hd).
  destruct (Hd d eq_refl) as (j & Hj & Hexp).
  assert (j < N)%nat by (destruct (decide (N <= j)%nat); [by destruct Hexp; apply HN|lia]).
  exists (N - n)%nat. split; [lia|]. intros k Hk. rewrite (reach_now_at _ _ _ _ Hr).
  apply HN. lia.
Qed.

Lemma wait_until_different_timeout_spec f s a e timeout w :
  0 <= timeout ->
  wlp (wait_until_different_timeout f s a e timeout) w (fun r w' =>
    match r with
    | WU_Changed v => observed_change (monitored_address a) e w v w'
    | WU_TimedOut => observed_timeout (monitored_address a) e timeout w w'
    end).
Proof.
  intros Ht. apply wlp_bind, wp_wlp, wp_deadline_new. intros w1 Hr1.
  eapply wlp_mono; [apply timeout_loop_sound|]. intros r w2 Hp.
  apply (raw_post_shift _ _ _ 1 w) in Hp; [|done].
  destruct r; [by eapply raw_post_observed|by apply raw_post_timeout].
Qed.

Lemma wait_until_different_timeout_total f s a e timeout w N :
  now_at w 1 + timeout <= now_at w (S N) -> (N < f)%nat ->
  is_Some (wait_until_different_timeout f s a e timeout w).
Proof.
  intros HN Hf. unfold wait_until_different_timeout, mbind, M_bind.
  destruct (wp_deadline_new timeout w (fun d w1 => d = mkDeadline (now_at w 1) timeout /\ reach 1 w w1))
    as (d & w1 & -> & -> & Hr1); [auto|].
  apply (timeout_loop_total f s a e _ w1 N); [|done]. intros n Hn.
  rewrite (reach_now_at _ _ _ _ Hr1). unfold expired, sat_sub. simpl.
  pose proof (now_at_mono w (S N) (S n)). lia.
Qed.
End public.

(** ** The properties *)

(** A world for the witnesses: address 0 holds 0, a producer stores 7 in the third slot, every
    slot lasts a microsecond. *)
Definition store_world : world :=
  start_world ∅ (schedule 1000
    [ops_tick 1000 []; ops_tick 1000 []; ops_tick 1000 [EnvStore 0 7]]).

Lemma store_world_val n : (3 <= n)%nat -> val_at store_world n 0 = 7.
Proof.
  intros Hn. replace n with (3 + (n - 3))%nat by lia. generalize (n - 3)%nat as k. clear.
  intros k. unfold val_at, sys_at. rewrite sys_iter_add.
  assert (H : forall k, s_sched (sys_iter k (sys_iter 3 (w_sys store_world))) = s_sched (w_sys store_world)
    /\ s_pos (sys_iter k (sys_iter 3 (w_sys store_world))) = (3 + k)%nat
    /\ mget (s_mem (sys_iter k (sys_iter 3 (w_sys store_world)))) 0 = 7); [|apply H].
  clear k. induction k as [|k (IH1 & IH2 & IH3)]; [done|]. rewrite sys_iter_S.
  set (s := sys_iter k _) in *. split; [done|]. split; [simpl; lia|].
  unfold sys_step, cur_tick. cbn [s_mem]. by rewrite IH1, IH2.
Qed.

(** C16: The filtered wait of any lawful strategy is totally correct: once the watched
    value differs from the expected one from some slot [N] on, the call returns (more
    than [N] loop iterations suffice), and it returns a value different from the expected
    one, which the last operation of the call read from the watched atomic with Acquire
    ordering; it writes nothing. *)
Theorem wait_until_different_correct {St A} `{StrategyLaws St} `{WaitableAtomic A}
    (f : nat) (s : St) (a : A) (e : Z) (w : world) (N : nat) :
  (forall n, (N <= n)%nat -> val_at w n (monitored_address a) <> e) -> (N < f)%nat ->
  exists v w', wait_until_different f s a e w = Some (v, w') /\
    observed_change (monitored_address a) e w v w'.
Proof.
  intros HN Hf. destruct (wait_until_different_total f s a e w N HN Hf) as [[v w'] Hrun].
  exists v, w'. split; [done|]. exact (wait_until_different_spec f s a e w v w' Hrun).
Qed.

Lemma wait_until_different_correct_witness :
  exists v w', wait_until_different 4 mkBusySpin (mkAtomicU32 0) 0 store_world = Some (v, w') /\
    observed_change (monitored_address (mkAtomicU32 0)) 0 store_world v w'.
Proof.
  apply (wait_until_different_correct 4 mkBusySpin (mkAtomicU32 0) 0 store_world 3); [|lia].
  intros n Hn. change (monitored_address (mkAtomicU32 0)) with 0.
  rewrite (store_world_val n Hn). discriminate.
Defined.

(** C32: The timed filtered wait of any lawful strategy returns once the clock has advanced by
    the timeout (reached within [N] slots, more than [N] iterations suffice) even if the
    value never changes. Changed(v) is a value the last operation of the call read, with
    Acquire ordering, different from the expected one; TimedOut means that the clock
    was read at least [timeout] after the call's own start and that the value was still the
    expected one before that read. *)
Theorem wait_until_different_timeout_correct {St A} `{StrategyLaws St} `{WaitableAtomic A}
    (f : nat) (s : St) (a : A) (e timeout : Z) (w : world) (N : nat) :
  0 <= timeout -> now_at w 1 + timeout <= now_at w (S N) -> (N < f)%nat ->
  exists r w', wait_until_different_timeout f s a e timeout w = Some (r, w') /\
    match r with
    | WU_Changed v => observed_change (monitored_address a) e w v w'
    | WU_TimedOut => observed_timeout (monitored_address a) e timeout w w'
    end.
Proof.
  intros Ht HN Hf.
  destruct (wait_until_different_timeout_total f s a e timeout w N HN Hf) as [[r w'] Hrun].
  exists r, w'. split; [done|].
  exact (wait_until_different_timeout_spec f s a e timeout w Ht r w' Hrun).
Qed.

Lemma wait_until_different_timeout_correct_witness :
  exists r w', wait_until_different_timeout 6 (mkSpinThenYield 2) (mkAtomicU64 0) 0 5000 store_world
      = Some (r, w') /\
    match r with
    | WU_Changed v => observed_change (monitored_address (mkAtomicU64 0)) 0 store_world v w'
    | WU_TimedOut => observed_timeout (monitored_address (mkAtomicU64 0)) 0 5000 store_world w'
    end.
Proof.
  apply (wait_until_different_timeout_correct 6 (mkSpinThenYield 2) (mkAtomicU64 0) 0 5000
    store_world 5); [lia|vm_compute; discriminate|lia].
Defined.

(** What the results of the raw waits mean, for any lawful strategy. Both
    write nothing. Changed(v) is a value read with Acquire ordering by the last operation,
    different from the expected one. Unclassified means that the value was the expected one at
    some instant of the call (and, for the timed wait, that the clock read after it was
    before the deadline). TimedOut is reported by the timed wait only, with the clock past
    the deadline. *)
Theorem raw_results_meaning {St A} `{StrategyLaws St} `{WaitableAtomic A}
    (f : nat) (s : St) (a : A) (e timeout : Z) (w : world) :
  (forall r w', wait_if_equal f s a e w = Some (r, w') ->
     match r with
     | WR_Changed v => observed_change (monitored_address a) e w v w'
     | WR_Unclassified => exists i n, (0 < i <= n)%nat /\ reach n w w' /\
                            val_at w i (monitored_address a) = e
     end) /\
  (forall r w', wait_if_equal_timeout f s a e timeout w = Some (r, w') ->
     match r with
     | WT_Changed v => observed_change (monitored_address a) e w v w'
     | WT_Unclassified => exists i j n, (0 < i < j)%nat /\ (j <= n)%nat /\ reach n w w' /\
                            val_at w i (monitored_address a) = e /\
                            now_at w j - now_at w 1 < timeout
     | WT_TimedOut => exists i j n, (0 < i < j)%nat /\ (j <= n)%nat /\ reach n w w' /\
                        val_at w i (monitored_address a) = e /\
                        timeout <= Z.max 0 (now_at w j - now_at w 1)
     end).
Proof.
  split; intros r w' Hrun.
  - assert (Hp : wlp (wait_if_equal f s a e) w (fun r w' => exists r0,
      raw_post (monitored_address a) e None w r0 w' /\
      r = match r0 with WT_Changed v => WR_Changed v | _ => WR_Unclassified end)).
    { apply wlp_bind. eapply wlp_mono; [apply untimed_sound|]. intros r0 w1 Hr0.
      apply wlp_ret. by exists r0. }
    destruct (Hp r w' Hrun) as (r0 & Hr0 & ->).
    destruct r0; [by eapply raw_post_observed|..];
      destruct Hr0 as (i & n & Hi & Hr & He & _); by exists i, n.
  - pose proof (wait_if_equal_timeout_spec f s a e timeout w r w' Hrun) as Hp.
    destruct r; [by eapply raw_post_observed|..];
      destruct Hp as (i & n & Hi & Hr & He & Hd).
    + destruct (Hd _ eq_refl) as (j & Hj & Hexp). exists i, j, n.
      unfold expired, sat_sub in Hexp. simpl in Hexp. split_and!; try lia; done.
    + destruct Hd as (dl & j & [= <-] & Hj & Hexp). exists i, j, n.
      unfold expired, sat_sub in Hexp. simpl in Hexp. split_and!; try lia; done.
Qed.

Lemma raw_results_meaning_witness :
  exists v w', wait_if_equal 9 mkBusySpin (mkAtomicU32 0) 0 store_world = Some (WR_Changed v, w') /\
    observed_change (monitored_address (mkAtomicU32 0)) 0 store_world v w'.
Proof.
  eexists _, _. split; [vm_compute; reflexivity|].
  apply (proj1 (raw_results_meaning 9 mkBusySpin (mkAtomicU32 0) 0 0 store_world) (WR_Changed _)).
  vm_compute. reflexivity.
Defined.
