(* ===== verification/Tsc.v ===== *)
(** * Time-stamp counter reads and timer calibration

    The part the two vendor backends have in common, word for word
    (src/src/arch/x86_64/amd.rs; src/src/arch/x86_64/intel.rs repeats it): RDTSCP
    reads, frequency samples, and the conservative timer frequency the wait
    budgets are computed with. *)

From S2P Require Import Prelude Machine.
From stdpp Require Import sorting.
Open Scope Z_scope.

(** ** Constants *)

Definition TIMER_CALIBRATION_INTERVAL : Z := 2000000.
Definition TIMER_CALIBRATION_SAMPLES : nat := 3.
Definition TIMER_CALIBRATION_ATTEMPTS : nat := 9.
Definition MAX_CALIBRATION_SPREAD_PERCENT : Z := 20.
Definition CONSERVATIVE_FREQUENCY_PERCENT : Z := 80.
Definition NANOS_PER_SECOND : Z := 1000000000.

(** ** Registers *)

Definition low32 (x : Z) : Z := Z.land x u32_max.
Definition high32 (x : Z) : Z := low32 (Z.shiftr x 32).

(** [(u64::from(high) << 32) + u64::from(low)] *)
Definition tsc_from_halves (high low : Z) : Z := Z.shiftl high 32 + low.

(** [(deadline as u32, (deadline >> 32) as u32)] *)
Definition split_tsc_deadline (deadline : Z) : Z * Z := (low32 deadline, high32 deadline).

(** RDTSCP leaves the counter in EDX:EAX and TSC_AUX in ECX. *)
Definition read_tsc_ordered : M (Z * Z) :=
  '(counter, aux) ← rdtscp;
  mret (tsc_from_halves (high32 counter) (low32 counter), low32 aux).

(** ** Frequency samples *)

Definition frequency_hz (ticks elapsed_nanos : Z) : Z :=
  let frequency := sat_mul u128_max ticks 1000000000 / Z.max elapsed_nanos 1 in
  Z.max (try_from_or_max u64_max frequency) 1.

Definition tsc_frequency_from_observation (first first_aux last last_aux elapsed_nanos : Z)
    : option Z :=
  if negb (first_aux =? last_aux) || (last <=? first) || (elapsed_nanos =? 0) then None
  else Some (frequency_hz (last - first) elapsed_nanos).

(** [Duration] between two instants, saturating at zero. *)
Definition elapsed_since (started now : Z) : Z := sat_sub now started.

Definition sample_tsc_frequency_once (fuel : nat) : M (option Z) :=
  started ← instant_now;
  '(first, first_aux) ← read_tsc_ordered;
  _ ← loop fuel
        (t ← instant_now;
         if elapsed_since started t <? TIMER_CALIBRATION_INTERVAL
         then _ ← spin_loop; mret None
         else mret (Some tt));
  '(last, last_aux) ← read_tsc_ordered;
  t ← instant_now;
  mret (tsc_frequency_from_observation first first_aux last last_aux (elapsed_since started t)).

(** The [for] loop of [collect_tsc_frequencies], its array and its counter. *)
Fixpoint collect_loop (sample_once : M (option Z)) (attempts : nat) (samples : list Z)
    (collected : nat) : M (option (list Z)) :=
  match attempts with
  | O => mret None
  | S k =>
      r ← sample_once;
      match r with
      | Some sample =>
          let samples := <[collected := sample]> samples in
          let collected := S collected in
          if (collected =? TIMER_CALIBRATION_SAMPLES)%nat then mret (Some samples)
          else collect_loop sample_once k samples collected
      | None => collect_loop sample_once k samples collected
      end
  end.

Definition collect_tsc_frequencies (sample_once : M (option Z)) : M (option (list Z)) :=
  collect_loop sample_once TIMER_CALIBRATION_ATTEMPTS (replicate TIMER_CALIBRATION_SAMPLES 0) 0.

Definition conservative_timer_hz (samples : list Z) : option Z :=
  let samples := merge_sort Z.le samples in
  let minimum := samples !!! 0%nat in
  let maximum := samples !!! (TIMER_CALIBRATION_SAMPLES - 1)%nat in
  if sat_mul u64_max maximum MAX_CALIBRATION_SPREAD_PERCENT
     <? sat_mul u64_max (sat_sub maximum minimum) 100
  then None
  else
    let lower_bound := sat_mul u64_max minimum CONSERVATIVE_FREQUENCY_PERCENT / 100 in
    if 0 <? lower_bound then Some lower_bound else None.

(** ** Lemmas *)

Lemma low32_mod x : low32 x = x mod 2 ^ 32.
Proof. unfold low32. change u32_max with (Z.ones 32). apply Z.land_ones. lia. Qed.

Lemma high32_div x : high32 x = (x / 2 ^ 32) mod 2 ^ 32.
Proof. unfold high32. by rewrite low32_mod, Z.shiftr_div_pow2. Qed.

Lemma low32_in x : 0 <= low32 x <= u32_max.
Proof. rewrite low32_mod. unfold u32_max. pose proof (Z.mod_pos_bound x (2 ^ 32)). lia. Qed.

Lemma high32_in x : 0 <= high32 x <= u32_max.
Proof. apply low32_in. Qed.

Lemma halves_split x : 0 <= x <= u64_max -> tsc_from_halves (high32 x) (low32 x) = x.
Proof.
  intros Hx. unfold tsc_from_halves.
  rewrite high32_div, low32_mod, Z.shiftl_mul_pow2 by lia.
  rewrite (Z.mod_small (x / 2 ^ 32)).
  - pose proof (Z.div_mod x (2 ^ 32)). lia.
  - unfold u64_max in Hx. split; [apply Z.div_pos; lia|]. apply Z.div_lt_upper_bound; lia.
Qed.

Lemma halves_in hi lo :
  0 <= hi <= u32_max -> 0 <= lo <= u32_max -> 0 <= tsc_from_halves hi lo <= u64_max.
Proof. unfold tsc_from_halves, u32_max, u64_max. rewrite Z.shiftl_mul_pow2 by lia. lia. Qed.

Lemma halves_low hi lo : 0 <= lo <= u32_max -> low32 (tsc_from_halves hi lo) = lo.
Proof.
  unfold tsc_from_halves, u32_max. intros Hlo. rewrite low32_mod, Z.shiftl_mul_pow2 by lia.
  rewrite Z.add_comm, Z.mod_add by lia. apply Z.mod_small. lia.
Qed.

Lemma halves_high hi lo :
  0 <= hi <= u32_max -> 0 <= lo <= u32_max -> high32 (tsc_from_halves hi lo) = hi.
Proof.
  unfold tsc_from_halves, u32_max. intros Hhi Hlo. rewrite high32_div, Z.shiftl_mul_pow2 by lia.
  rewrite Z.add_comm, Z.div_add by lia. rewrite (Z.div_small lo) by lia.
  rewrite Z.add_0_l. apply Z.mod_small. lia.
Qed.

Lemma frequency_hz_in ticks ns : 1 <= frequency_hz ticks ns <= u64_max.
Proof.
  unfold frequency_hz. pose proof (try_from_or_max_in u64_max
    (sat_mul u128_max ticks 1000000000 / Z.max ns 1)). unfold u64_max in *. lia.
Qed.

Lemma observation_in first fa last la ns hz :
  tsc_frequency_from_observation first fa last la ns = Some hz -> 1 <= hz <= u64_max.
Proof.
  unfold tsc_frequency_from_observation. split_tests; intros; simplify_eq.
  apply frequency_hz_in.
Qed.

(** ** Collecting samples *)

Lemma collect_loop_spec sample (P : Z -> Prop) k samples c w :
  (forall w, wlp sample w (fun r _ => forall x, r = Some x -> P x)) ->
  length samples = TIMER_CALIBRATION_SAMPLES -> (c < TIMER_CALIBRATION_SAMPLES)%nat ->
  Forall P (take c samples) ->
  wlp (collect_loop sample k samples c) w (fun r _ =>
    forall l, r = Some l -> length l = TIMER_CALIBRATION_SAMPLES /\ Forall P l).
Proof.
  intros Hs. revert samples c w. induction k as [|k IH]; intros samples c w Hlen Hc HP; cbn [collect_loop].
  - by apply wlp_ret.
  - apply wlp_bind. eapply wlp_mono; [apply Hs|]. intros [x|] w1 Hx; [|by apply IH].
    assert (Hins : Forall P (take (S c) (<[c:=x]> samples))).
    { rewrite (take_S_r _ _ x) by (apply list_lookup_insert_eq; lia).
      rewrite take_insert_ge by lia. apply Forall_app. auto. }
    destruct (S c =? TIMER_CALIBRATION_SAMPLES)%nat eqn:E.
    + apply wlp_ret. intros l [= <-]. apply Nat.eqb_eq in E. rewrite length_insert.
      split; [done|]. rewrite E, take_ge in Hins by (rewrite length_insert; lia). done.
    + apply Nat.eqb_neq in E. apply IH; [by rewrite length_insert|lia|done].
Qed.

Lemma read_tsc_wp w (Q : Z * Z -> world -> Prop) w0 n :
  reach n w0 w ->
  (forall t aux w', reach (S n) w0 w' -> w_mon w' = w_mon (advance w) ->
     (exists c, w_trace w' = EvTsc c :: w_trace w) -> 0 <= t <= u64_max -> Q (t, aux) w') ->
  wp read_tsc_ordered w Q.
Proof.
  intros Hr HQ. apply wp_bind. eapply wp_rdtscp; [done|]. intros [c aux] w1 Hr1 Hm Ht.
  apply wp_ret. apply HQ; [done|done|by eexists|].
  apply halves_in; [apply high32_in|apply low32_in].
Qed.

Lemma sample_once_spec f w :
  wlp (sample_tsc_frequency_once f) w (fun r _ => forall hz, r = Some hz -> 1 <= hz <= u64_max).
Proof.
  unfold sample_tsc_frequency_once.
  repeat (apply wlp_bind; intros ? ?; intros _).
  repeat case_match. repeat (apply wlp_bind; intros ? ?; intros _).
  repeat case_match. repeat (apply wlp_bind; intros ? ?; intros _).
  apply wlp_ret. apply observation_in.
Qed.

(** ** The conservative frequency *)

Lemma merge_sort_Forall (P : Z -> Prop) l : Forall P l -> Forall P (merge_sort Z.le l).
Proof. intros HP. by rewrite merge_sort_Permutation. Qed.

Lemma StronglySorted_hd_le l x d :
  StronglySorted Z.le l -> x ∈ l -> default d (head l) <= x.
Proof.
  destruct 1 as [|y l Hl Hall]; intros Hx; [by inversion Hx|]. simpl.
  apply elem_of_cons in Hx as [->|Hx]; [lia|]. rewrite Forall_forall in Hall. auto.
Qed.

(** A sorted triple. *)
Lemma sorted3 l :
  length l = 3%nat ->
  exists a b c, merge_sort Z.le l = [a; b; c] /\ a <= b <= c /\ l ≡ₚ [a; b; c].
Proof.
  intros Hlen. pose proof (merge_sort_Permutation Z.le l) as Hp.
  pose proof (Sorted_merge_sort Z.le l) as Hs.
  destruct (merge_sort Z.le l) as [|a [|b [|c [|]]]] eqn:E;
    apply Permutation_length in Hp as Hl; simpl in Hl; try lia.
  exists a, b, c. split; [done|]. split; [|by rewrite <- Hp].
  repeat match goal with H : Sorted _ (_ :: _) |- _ => inversion_clear H end.
  repeat match goal with H : HdRel _ _ (_ :: _) |- _ => inversion_clear H end. lia.
Qed.

(** The frequency is positive and at most 80% of every sample (so of the slowest one), and it is
    produced exactly when no two samples differ by more than 20% of the larger. *)
Lemma conservative_timer_hz_cases samples :
  length samples = TIMER_CALIBRATION_SAMPLES ->
  Forall (fun x => 0 <= x /\ 100 * x <= u64_max) samples ->
  match conservative_timer_hz samples with
  | Some hz =>
      0 < hz /\ (forall x, x ∈ samples -> 100 * hz <= 80 * x) /\
      (forall x y, x ∈ samples -> y ∈ samples -> 4 * x <= 5 * y)
  | None => exists x y, x ∈ samples /\ y ∈ samples /\ (5 * y < 4 * x \/ y <= 1)
  end.
Proof.
  intros Hlen Hb. destruct (sorted3 samples Hlen) as (a & b & c & E & Hs & Hp).
  assert (Hin : forall x, x ∈ samples <-> x = a \/ x = b \/ x = c)
    by (intros x; rewrite Hp, !elem_of_cons, elem_of_nil; tauto).
  rewrite Hp in Hb. rewrite !Forall_cons in Hb. destruct Hb as (Ha & Hb & Hc & _).
  unfold conservative_timer_hz. rewrite E. cbn -[Z.mul Z.div u64_max].
  unfold sat_mul, sat_sub, MAX_CALIBRATION_SPREAD_PERCENT, CONSERVATIVE_FREQUENCY_PERCENT.
  unfold u64_max in *.
  destruct (_ <? _) eqn:E1; [exists c, a; rewrite !Hin; lia|].
  destruct (0 <? _) eqn:E2.
  - split; [lia|]. setoid_rewrite Hin. split; [intros x Hx|intros x y Hx Hy; lia].
    pose proof (Z.mul_div_le (Z.min 18446744073709551615 (a * 80)) 100 ltac:(lia)). lia.
  - exists a, a. rewrite !Hin. rewrite Z.min_r in E2 by lia.
    assert (a * 80 < 100) by (destruct (decide (a * 80 < 100)); [done|];
      pose proof (Z.div_le_lower_bound (a * 80) 100 1); lia). lia.
Qed.

(** Without a bound on the samples (saturation included) the frequency is still
    positive and at most 80% of every sample. *)
Lemma conservative_timer_hz_upper samples hz x :
  length samples = TIMER_CALIBRATION_SAMPLES -> conservative_timer_hz samples = Some hz ->
  x ∈ samples -> 0 < hz <= u64_max /\ 100 * hz <= 80 * x.
Proof.
  intros Hlen Hc Hx. destruct (sorted3 samples Hlen) as (a & b & c & E & Hs & Hp).
  rewrite Hp, !elem_of_cons, elem_of_nil in Hx.
  unfold conservative_timer_hz in Hc. rewrite E in Hc. cbn -[Z.mul Z.div u64_max] in Hc.
  unfold sat_mul, CONSERVATIVE_FREQUENCY_PERCENT in Hc. unfold u64_max in *.
  split_tests; simplify_eq.
  pose proof (Z.mul_div_le (Z.min 18446744073709551615 (a * 80)) 100 ltac:(lia)).
  lia.
Qed.

(** ** The properties *)

(** Counter values survive the register split both ways: joining the halves UMWAIT is
    given yields the deadline, and splitting what RDTSCP's halves join to yields those halves;
    nothing overflows 64 bits. *)
Theorem tsc_halves_roundtrip (deadline high low : Z) :
  0 <= deadline <= u64_max -> 0 <= high <= u32_max -> 0 <= low <= u32_max ->
  (let '(l, h) := split_tsc_deadline deadline in
   tsc_from_halves h l = deadline /\ 0 <= l <= u32_max /\ 0 <= h <= u32_max) /\
  split_tsc_deadline (tsc_from_halves high low) = (low, high) /\
  0 <= tsc_from_halves high low <= u64_max.
Proof.
  intros Hd Hh Hl. split; [|split].
  - split; [by apply halves_split|]. split; [apply low32_in|apply high32_in].
  - unfold split_tsc_deadline. by rewrite halves_low, halves_high.
  - by apply halves_in.
Qed.

Lemma tsc_halves_roundtrip_witness :
  split_tsc_deadline (tsc_from_halves 7 9) = (9, 7) /\ tsc_from_halves 7 9 = 30064771081.
Proof.
  split; [|reflexivity].
  apply (tsc_halves_roundtrip 5 7 9); unfold u64_max, u32_max; lia.
Defined.

(** C39: The calibrated timer frequency is conservative. For the three samples (of at most
    a hundredth of the u64 range, so that no product saturates) it is positive and at most
    80% of every sample, and it is given exactly when the samples are consistent: if it is
    given, no sample exceeds another by more than a quarter; if it is refused, some sample
    does, or the slowest is at most 1 Hz. *)
Theorem conservative_timer_hz_correct (samples : list Z) :
  length samples = TIMER_CALIBRATION_SAMPLES ->
  Forall (fun x => 0 <= x /\ 100 * x <= u64_max) samples ->
  match conservative_timer_hz samples with
  | Some hz =>
      0 < hz /\ (forall x, x ∈ samples -> 100 * hz <= 80 * x) /\
      (forall x y, x ∈ samples -> y ∈ samples -> 4 * x <= 5 * y)
  | None => exists x y, x ∈ samples /\ y ∈ samples /\ (5 * y < 4 * x \/ y <= 1)
  end.
Proof. exact (conservative_timer_hz_cases samples). Qed.

Lemma conservative_timer_hz_correct_witness :
  conservative_timer_hz [3000; 2900; 3100] = Some 2320 /\
  forall x, x ∈ [3000; 2900; 3100] -> 100 * 2320 <= 80 * x.
Proof.
  split; [reflexivity|].
  refine (proj1 (proj2 (conservative_timer_hz_correct [3000; 2900; 3100] eq_refl _))).
  repeat constructor; unfold u64_max; lia.
Defined.
