(* ===== verification/Capabilities.v ===== *)
(** * Hardware facts (src/src/capabilities.rs, src/src/arch/)

    CPUID decoding of the AMD and the Intel backend, their combination, timer
    calibration behind the decoded facts, the cached [capabilities()], and the
    instruction wrappers. CPUID and prctl are parameters: [cpuid leaf subleaf] gives the
    four registers. *)

From S2P Require Import Prelude Machine Tsc.
From Stdlib Require Import Ascii.
Open Scope Z_scope.

(** ** Data *)

Record Capabilities := mkCapabilities {
  supported_target : bool;
  amd_vendor : bool;
  intel_vendor : bool;
  monitorx_mwaitx : bool;
  waitpkg : bool;
  invariant_tsc : bool;
  rdtscp_supported : bool;
}.

(** [Capabilities::default()], what an unsupported target detects. *)
Definition default_capabilities : Capabilities :=
  mkCapabilities false false false false false false false.

Record CpuidResult := mkCpuid { eax : Z; ebx : Z; ecx : Z; edx : Z }.
Definition Cpuid : Type := Z -> Z -> CpuidResult.

(** [u32::from_le_bytes] *)
Definition from_le_bytes (b0 b1 b2 b3 : Ascii.ascii) : Z :=
  let byte c := Z.of_N (Ascii.N_of_ascii c) in
  byte b0 + Z.shiftl (byte b1) 8 + Z.shiftl (byte b2) 16 + Z.shiftl (byte b3) 24.

Arguments from_le_bytes (_ _ _ _)%_char.

Definition EXTENDED_CPUID_BASE : Z := 0x80000000.
Definition EXTENDED_FEATURES_LEAF : Z := 0x80000001.
Definition INVARIANT_TSC_LEAF : Z := 0x80000007.
Definition RDTSCP_BIT : Z := Z.shiftl 1 27.
Definition INVARIANT_TSC_BIT : Z := Z.shiftl 1 8.

(** [features & BIT != 0] *)
Definition has_bit (features bit : Z) : bool := negb (Z.land features bit =? 0).
(** [register.is_some_and(|features| features & BIT != 0)] *)
Definition some_bit (features : option Z) (bit : Z) : bool :=
  match features with Some f => has_bit f bit | None => false end.

Definition extended_leaf_availability (extended_max : Z) : bool * bool :=
  (EXTENDED_FEATURES_LEAF <=? extended_max, INVARIANT_TSC_LEAF <=? extended_max).

(** [cond.then(|| value)] *)
Definition then_some {A} (b : bool) (v : A) : option A := if b then Some v else None.

(** ** AMD (src/src/arch/x86_64/amd.rs) *)

Module Amd.
Definition VENDOR_EBX : Z := from_le_bytes "A" "u" "t" "h".
Definition VENDOR_EDX : Z := from_le_bytes "e" "n" "t" "i".
Definition VENDOR_ECX : Z := from_le_bytes "c" "A" "M" "D".
Definition MONITORX_MWAITX_BIT : Z := Z.shiftl 1 29.

Record CapabilityRegisters := mkRegisters {
  vendor_ebx : Z;
  vendor_edx : Z;
  vendor_ecx : Z;
  extended_features_ecx : option Z;
  extended_features_edx : option Z;
  invariant_features_edx : option Z;
}.

Definition amd_decode_capabilities (r : CapabilityRegisters) : Capabilities := {|
  supported_target := true;
  amd_vendor := (vendor_ebx r =? VENDOR_EBX) && (vendor_edx r =? VENDOR_EDX)
                && (vendor_ecx r =? VENDOR_ECX);
  intel_vendor := false;
  monitorx_mwaitx := some_bit (extended_features_ecx r) MONITORX_MWAITX_BIT;
  waitpkg := false;
  invariant_tsc := some_bit (invariant_features_edx r) INVARIANT_TSC_BIT;
  rdtscp_supported := some_bit (extended_features_edx r) RDTSCP_BIT;
|}.

Definition amd_detect_capabilities (cpuid : Cpuid) : Capabilities :=
  let vendor := cpuid 0 0 in
  let extended_max := eax (cpuid EXTENDED_CPUID_BASE 0) in
  let '(has_extended_features, has_invariant_features) := extended_leaf_availability extended_max in
  let extended_features := then_some has_extended_features (cpuid EXTENDED_FEATURES_LEAF 0) in
  let invariant_features := then_some has_invariant_features (cpuid INVARIANT_TSC_LEAF 0) in
  amd_decode_capabilities {|
    vendor_ebx := ebx vendor;
    vendor_edx := edx vendor;
    vendor_ecx := ecx vendor;
    extended_features_ecx := ecx <$> extended_features;
    extended_features_edx := edx <$> extended_features;
    invariant_features_edx := edx <$> invariant_features;
  |}.

Definition amd_timer_calibration_is_usable (c : Capabilities) : bool :=
  amd_vendor c && monitorx_mwaitx c && invariant_tsc c && rdtscp_supported c.

(** [collect_tsc_frequencies(sample).and_then(conservative_timer_hz)] *)
Definition amd_calibrate_timer_hz (fuel : nat) (cpuid : Cpuid) : M (option Z) :=
  if amd_timer_calibration_is_usable (amd_detect_capabilities cpuid) then
    samples ← collect_tsc_frequencies (sample_tsc_frequency_once fuel);
    mret (samples ≫= conservative_timer_hz)
  else mret None.

(** MONITORX with ECX = EDX = 0. *)
Definition monitorx (address : Z) : M unit := arm address.

(** MWAITX: EAX the C-state hint, EBX the timeout, ECX bit 1 enabling the timer. *)
Definition mwaitx (timeout_cycles c_state_hint : Z) : M unit :=
  mwaitx_instr c_state_hint timeout_cycles (Z.shiftl 1 1).
End Amd.

(** ** Intel (src/src/arch/x86_64/intel.rs) *)

Module Intel.
Definition VENDOR_EBX : Z := from_le_bytes "G" "e" "n" "u".
Definition VENDOR_EDX : Z := from_le_bytes "i" "n" "e" "I".
Definition VENDOR_ECX : Z := from_le_bytes "n" "t" "e" "l".
Definition WAITPKG_BIT : Z := Z.shiftl 1 5.
Definition WAITPKG_LEAF : Z := 7.
Definition UMWAIT_C01_CONTROL : Z := 1.
Definition PR_TSC_ENABLE : Z := 1.

Record IntelCapabilityRegisters := mkRegisters {
  vendor_ebx : Z;
  vendor_edx : Z;
  vendor_ecx : Z;
  waitpkg_features_ecx : option Z;
  extended_features_edx : option Z;
  invariant_features_edx : option Z;
}.

Record IntelCapabilities := mkIntelCapabilities {
  ic_intel_vendor : bool;
  ic_waitpkg : bool;
  ic_invariant_tsc : bool;
  ic_rdtscp : bool;
  ic_timer_hz : option Z;
}.

Definition waitpkg_leaf_is_available (basic_max : Z) : bool := WAITPKG_LEAF <=? basic_max.

Definition intel_decode_capabilities (r : IntelCapabilityRegisters)
    (calibrated_timer_hz : option Z) : IntelCapabilities :=
  let intel_vendor := (vendor_ebx r =? VENDOR_EBX) && (vendor_edx r =? VENDOR_EDX)
                      && (vendor_ecx r =? VENDOR_ECX) in
  let waitpkg := some_bit (waitpkg_features_ecx r) WAITPKG_BIT in
  let rdtscp := some_bit (extended_features_edx r) RDTSCP_BIT in
  let invariant_tsc := some_bit (invariant_features_edx r) INVARIANT_TSC_BIT in
  {| ic_intel_vendor := intel_vendor;
     ic_waitpkg := waitpkg;
     ic_invariant_tsc := invariant_tsc;
     ic_rdtscp := rdtscp;
     ic_timer_hz := if intel_vendor && waitpkg && invariant_tsc && rdtscp
                    then calibrated_timer_hz else None |}.

Definition intel_detect_capabilities (cpuid : Cpuid) : IntelCapabilities :=
  let vendor := cpuid 0 0 in
  let waitpkg_features :=
    then_some (waitpkg_leaf_is_available (eax vendor)) (cpuid WAITPKG_LEAF 0) in
  let extended_max := eax (cpuid EXTENDED_CPUID_BASE 0) in
  let '(has_extended_features, has_invariant_features) := extended_leaf_availability extended_max in
  let extended_features := then_some has_extended_features (cpuid EXTENDED_FEATURES_LEAF 0) in
  let invariant_features := then_some has_invariant_features (cpuid INVARIANT_TSC_LEAF 0) in
  intel_decode_capabilities {|
    vendor_ebx := ebx vendor;
    vendor_edx := edx vendor;
    vendor_ecx := ecx vendor;
    waitpkg_features_ecx := ecx <$> waitpkg_features;
    extended_features_edx := edx <$> extended_features;
    invariant_features_edx := edx <$> invariant_features;
  |} None.

Definition intel_timer_calibration_is_usable (c : IntelCapabilities) : bool :=
  ic_intel_vendor c && ic_waitpkg c && ic_invariant_tsc c && ic_rdtscp c.

(** The calibration code of intel.rs is the text of amd.rs. *)
Definition intel_collect_tsc_frequencies := collect_tsc_frequencies.
Definition intel_sample_tsc_frequency_once := sample_tsc_frequency_once.
Definition intel_tsc_frequency_from_observation := tsc_frequency_from_observation.
Definition intel_frequency_hz := frequency_hz.
Definition intel_conservative_timer_hz := conservative_timer_hz.
Definition intel_read_tsc_ordered := read_tsc_ordered.

Definition intel_calibrate_timer_hz (fuel : nat) (cpuid : Cpuid) : M (option Z) :=
  if intel_timer_calibration_is_usable (intel_detect_capabilities cpuid) then
    samples ← intel_collect_tsc_frequencies (intel_sample_tsc_frequency_once fuel);
    mret (samples ≫= intel_conservative_timer_hz)
  else mret None.

(** prctl(PR_GET_TSC, &mut setting): the status and the setting it wrote. *)
Definition userspace_tsc_is_enabled (prctl_get_tsc : Z * Z) : bool :=
  let '(status, setting) := prctl_get_tsc in
  (status =? 0) && (setting =? PR_TSC_ENABLE).

Definition umonitor (address : Z) : M unit := arm address.

(** UMWAIT: EDX:EAX the absolute deadline, ECX = 1 requesting C0.1. *)
Definition umwait_c01 (deadline : Z) : M unit :=
  let '(deadline_low, deadline_high) := split_tsc_deadline deadline in
  umwait_instr deadline_low deadline_high UMWAIT_C01_CONTROL.
End Intel.

(** ** Both vendors (src/src/arch/x86_64/mod.rs) and the cache *)

Definition detect_capabilities (cpuid : Cpuid) : Capabilities :=
  let amd := Amd.amd_detect_capabilities cpuid in
  let intel := Intel.intel_detect_capabilities cpuid in
  {| supported_target := true;
     amd_vendor := amd_vendor amd;
     intel_vendor := Intel.ic_intel_vendor intel;
     monitorx_mwaitx := monitorx_mwaitx amd;
     waitpkg := Intel.ic_waitpkg intel;
     invariant_tsc := if amd_vendor amd then invariant_tsc amd else Intel.ic_invariant_tsc intel;
     rdtscp_supported :=
       if amd_vendor amd then rdtscp_supported amd else Intel.ic_rdtscp intel |}.

(** [OnceLock<T>]: its content, if initialized. [get_or_init] returns the value
    and the new content. *)
Definition get_or_init {T} (cell : option T) (init : unit -> T) : T * option T :=
  match cell with
  | Some v => (v, cell)
  | None => let v := init tt in (v, Some v)
  end.

(** [capabilities()]: the static OnceLock is an explicit state. *)
Definition capabilities (cache : option Capabilities) (cpuid : Cpuid)
    : Capabilities * option Capabilities :=
  get_or_init cache (fun _ => detect_capabilities cpuid).

(** ** Lemmas *)

Lemma vendor_registers_differ : Amd.VENDOR_EBX <> Intel.VENDOR_EBX.
Proof. by vm_compute. Qed.

(** [features & (1 << k) != 0] tests bit [k]. *)
Lemma has_bit_testbit x k : 0 <= k -> has_bit x (Z.shiftl 1 k) = Z.testbit x k.
Proof.
  intros Hk. unfold has_bit. rewrite Z.shiftl_1_l.
  destruct (Z.testbit x k) eqn:E; [apply negb_true_iff, Z.eqb_neq|apply negb_false_iff, Z.eqb_eq].
  - intros H0. apply (f_equal (fun z => Z.testbit z k)) in H0.
    rewrite Z.land_spec, Z.pow2_bits_true, E, Z.bits_0 in H0 by done. done.
  - apply Z.bits_inj'. intros n Hn. rewrite Z.land_spec, Z.bits_0.
    destruct (decide (n = k)) as [->|Hne]; [by rewrite E|].
    rewrite Z.pow2_bits_false by done. apply andb_false_r.
Qed.

Lemma get_or_init_idem {T} (cell : option T) init init' :
  get_or_init (get_or_init cell init).2 init' = get_or_init cell init.
Proof. by destruct cell. Qed.

(** What detection reports, as bits of the CPUID leaves. *)
Definition leaf_bit (cpuid : Cpuid) (reg : CpuidResult -> Z) (leaf k : Z) : bool :=
  (leaf <=? eax (cpuid EXTENDED_CPUID_BASE 0)) && Z.testbit (reg (cpuid leaf 0)) k.

Lemma some_bit_leaf (b : bool) r (reg : CpuidResult -> Z) k :
  0 <= k -> some_bit (reg <$> then_some b r) (Z.shiftl 1 k) = b && Z.testbit (reg r) k.
Proof. intros Hk. destruct b; simpl; [by rewrite has_bit_testbit|done]. Qed.

(** Calibration yields a frequency only on its own vendor, and then a positive u64. *)
Lemma collect_conservative f w :
  wlp (samples ← collect_tsc_frequencies (sample_tsc_frequency_once f);
       mret (samples ≫= conservative_timer_hz)) w
    (fun r _ => forall hz, r = Some hz -> 0 < hz <= u64_max).
Proof.
  apply wlp_bind. eapply wlp_mono.
  { apply (collect_loop_spec _ (fun x => 1 <= x <= u64_max)); [|done| |done].
    - intros w1. apply sample_once_spec.
    - unfold TIMER_CALIBRATION_SAMPLES. lia. }
  intros [l|] w1 Hl; apply wlp_ret; [|done]. simpl. intros hz Hhz.
  destruct (Hl l eq_refl) as [Hlen Hall]. destruct l as [|x l]; [done|].
  eapply (conservative_timer_hz_upper (x :: l) hz x); [done|done|by left].
Qed.

(** ** The properties *)

(** What capability detection reports, for any CPUID: a vendor is reported exactly when
    all three vendor registers spell it, never both vendors; each feature is its CPUID
    bit, and reads as absent when the leaf is beyond the maximum the processor announces. *)
Theorem detect_capabilities_correct (cpuid : Cpuid) :
  let d := detect_capabilities cpuid in
  let v := cpuid 0 0 in
  supported_target d = true /\
  (amd_vendor d = true <->
     ebx v = Amd.VENDOR_EBX /\ edx v = Amd.VENDOR_EDX /\ ecx v = Amd.VENDOR_ECX) /\
  (intel_vendor d = true <->
     ebx v = Intel.VENDOR_EBX /\ edx v = Intel.VENDOR_EDX /\ ecx v = Intel.VENDOR_ECX) /\
  amd_vendor d && intel_vendor d = false /\
  monitorx_mwaitx d = leaf_bit cpuid ecx EXTENDED_FEATURES_LEAF 29 /\
  waitpkg d = (7 <=? eax v) && Z.testbit (ecx (cpuid 7 0)) 5 /\
  rdtscp_supported d = leaf_bit cpuid edx EXTENDED_FEATURES_LEAF 27 /\
  invariant_tsc d = leaf_bit cpuid edx INVARIANT_TSC_LEAF 8.
Proof.
  simpl. unfold leaf_bit, Intel.waitpkg_leaf_is_available, Intel.WAITPKG_LEAF.
  unfold Amd.MONITORX_MWAITX_BIT, Intel.WAITPKG_BIT, RDTSCP_BIT, INVARIANT_TSC_BIT.
  rewrite !some_bit_leaf by lia. pose proof vendor_registers_differ as Hne.
  split; [done|]. rewrite !andb_true_iff, !Z.eqb_eq.
  split; [tauto|]. split; [tauto|]. split.
  - destruct (Z.eqb_spec (ebx (cpuid 0 0)) Amd.VENDOR_EBX) as [->|]; [|done].
    destruct (Z.eqb_spec Amd.VENDOR_EBX Intel.VENDOR_EBX); [done|]. simpl. by rewrite andb_false_r.
  - split; [done|]. split; [done|]. by split; case_match.
Qed.

(** Calibration never guesses: without a usable processor of its own vendor it yields
    no frequency and touches nothing, and any frequency it yields is a positive 64-bit
    number. *)
Theorem calibration_gated (fuel : nat) (cpuid : Cpuid) (w : world) :
  (Amd.amd_timer_calibration_is_usable (Amd.amd_detect_capabilities cpuid) = false ->
     Amd.amd_calibrate_timer_hz fuel cpuid w = Some (None, w)) /\
  (Intel.intel_timer_calibration_is_usable (Intel.intel_detect_capabilities cpuid) = false ->
     Intel.intel_calibrate_timer_hz fuel cpuid w = Some (None, w)) /\
  (forall hz w', Amd.amd_calibrate_timer_hz fuel cpuid w = Some (Some hz, w') ->
     0 < hz <= u64_max) /\
  (forall hz w', Intel.intel_calibrate_timer_hz fuel cpuid w = Some (Some hz, w') ->
     0 < hz <= u64_max).
Proof.
  unfold Amd.amd_calibrate_timer_hz, Intel.intel_calibrate_timer_hz.
  split; [by intros ->|]. split; [by intros ->|].
  split; intros hz w' Hrun; (case_match; [|done]);
    exact (collect_conservative fuel w (Some hz) w' Hrun hz eq_refl).
Qed.

(** A processor no vendor claims. *)
Definition blank_cpuid : Cpuid := fun _ _ => mkCpuid 0 0 0 0.

Lemma calibration_gated_witness :
  Amd.amd_calibrate_timer_hz 5 blank_cpuid (start_world ∅ (schedule 0 []))
    = Some (None, start_world ∅ (schedule 0 [])).
Proof.
  apply (proj1 (calibration_gated 5 blank_cpuid (start_world ∅ (schedule 0 [])))).
  reflexivity.
Defined.
