(* ===== verification/Hardware.v ===== *)
(** * Hardware waits (src/src/strategy.rs)

    The cycle budgets, the MWAITX and UMWAIT arm/recheck/wait protocols, timed and untimed,
    and the three strategies built on them: HardwareWait, SpinThenHardwareWait
    and the benchmark-only AmdMwaitxC1. *)

From S2P Require Import Prelude Machine Errors Strategy Tsc Capabilities.

(** ** Configuration *)

Definition NO_C_STATE_HINT : Z := 0xf0.
Definition C1_STATE_HINT : Z := 0.
Definition MWAITX_SAFETY_TIMEOUT : Z := 1000000.
Definition UMWAIT_SAFETY_TIMEOUT : Z := 1000000.

(** [duration.as_nanos().saturating_mul(hz) / NANOS_PER_SECOND], in u128 *)
Definition raw_cycles (duration timer_hz : Z) : Z :=
  sat_mul u128_max duration timer_hz / NANOS_PER_SECOND.

Definition duration_to_cycles (duration timer_hz : Z) : Z :=
  try_from_or_max u32_max (clamp 1 u32_max (raw_cycles duration timer_hz)).

Definition duration_to_cycles_u64 (duration timer_hz : Z) : Z :=
  try_from_or_max u64_max (clamp 1 u64_max (raw_cycles duration timer_hz)).

Record AmdConfig := mkAmdConfig { amd_timer_hz : Z; amd_safety_timeout_cycles : Z }.
Record IntelConfig := mkIntelConfig { intel_timer_hz : Z; intel_safety_timeout_cycles : Z }.

Definition amd_config_new (timer_hz : Z) : AmdConfig :=
  {| amd_timer_hz := timer_hz;
     amd_safety_timeout_cycles := duration_to_cycles MWAITX_SAFETY_TIMEOUT timer_hz |}.

Definition intel_config_new (timer_hz : Z) : IntelConfig :=
  {| intel_timer_hz := timer_hz;
     intel_safety_timeout_cycles := duration_to_cycles_u64 UMWAIT_SAFETY_TIMEOUT timer_hz |}.

Inductive HardwareConfig :=
| AmdCfg (c : AmdConfig)
| IntelCfg (c : IntelConfig).

Definition config_backend (c : HardwareConfig) : HardwareBackend :=
  match c with AmdCfg _ => AmdMwaitx | IntelCfg _ => IntelUmwait end.

Definition mwaitx_timeout_cycles (c : AmdConfig) (remaining : Z) : Z :=
  if remaining <? MWAITX_SAFETY_TIMEOUT then duration_to_cycles remaining (amd_timer_hz c)
  else amd_safety_timeout_cycles c.

Definition umwait_timeout_cycles (c : IntelConfig) (remaining : Z) : Z :=
  if remaining <? UMWAIT_SAFETY_TIMEOUT then duration_to_cycles_u64 remaining (intel_timer_hz c)
  else intel_safety_timeout_cycles c.

Definition umwait_deadline (timeout_cycles : Z) : M Z :=
  '(tsc, _) ← read_tsc_ordered;
  mret (sat_add u64_max tsc (Z.max timeout_cycles 1)).

(** ** The protocols; [arm], [wait] and [absolute_deadline] are the closures *)

Section protocols.
Context {A : Type} `{WaitableAtomic A}.

Definition mwaitx_untimed_protocol (c : AmdConfig) (c_state_hint : Z) (a : A) (expected : Z)
    (arm : Z -> M unit) (wait : Z -> Z -> M unit) : M (WaitTimeoutResult Z) :=
  observed ← load_acquire a;
  if negb (observed =? expected) then mret (WT_Changed observed)
  else
    _ ← arm (monitored_address a);
    observed ← load_acquire a;
    if negb (observed =? expected) then mret (WT_Changed observed)
    else
      _ ← wait (amd_safety_timeout_cycles c) c_state_hint;
      classify_after_wait a expected None.

Definition mwaitx_timed_protocol (c : AmdConfig) (c_state_hint : Z) (a : A) (expected : Z)
    (d : Deadline) (arm : Z -> M unit) (wait : Z -> Z -> M unit) : M (WaitTimeoutResult Z) :=
  observed ← load_acquire a;
  if negb (observed =? expected) then mret (WT_Changed observed)
  else
    r ← remaining d;
    match r with
    | None => mret WT_TimedOut
    | Some _ =>
        _ ← arm (monitored_address a);
        observed ← load_acquire a;
        if negb (observed =? expected) then mret (WT_Changed observed)
        else
          r ← remaining d;
          match r with
          | None => mret WT_TimedOut
          | Some remaining =>
              _ ← wait (mwaitx_timeout_cycles c remaining) c_state_hint;
              classify_after_wait a expected (Some d)
          end
    end.

Definition umwait_untimed_protocol (c : IntelConfig) (a : A) (expected : Z)
    (arm : Z -> M unit) (absolute_deadline : Z -> M Z) (wait : Z -> M unit)
    : M (WaitTimeoutResult Z) :=
  observed ← load_acquire a;
  if negb (observed =? expected) then mret (WT_Changed observed)
  else
    _ ← arm (monitored_address a);
    observed ← load_acquire a;
    if negb (observed =? expected) then mret (WT_Changed observed)
    else
      dl ← absolute_deadline (intel_safety_timeout_cycles c);
      _ ← wait dl;
      classify_after_wait a expected None.

Definition umwait_timed_protocol (c : IntelConfig) (a : A) (expected : Z) (d : Deadline)
    (arm : Z -> M unit) (absolute_deadline : Z -> M Z) (wait : Z -> M unit)
    : M (WaitTimeoutResult Z) :=
  observed ← load_acquire a;
  if negb (observed =? expected) then mret (WT_Changed observed)
  else
    r ← remaining d;
    match r with
    | None => mret WT_TimedOut
    | Some _ =>
        _ ← arm (monitored_address a);
        observed ← load_acquire a;
        if negb (observed =? expected) then mret (WT_Changed observed)
        else
          r ← remaining d;
          match r with
          | None => mret WT_TimedOut
          | Some remaining =>
              dl ← absolute_deadline (umwait_timeout_cycles c remaining);
              _ ← wait dl;
              classify_after_wait a expected (Some d)
          end
    end.

Definition mwaitx_raw_hardware (c : AmdConfig) (hint : Z) (a : A) (expected : Z)
    : M (WaitTimeoutResult Z) :=
  mwaitx_untimed_protocol c hint a expected Amd.monitorx Amd.mwaitx.

Definition mwaitx_raw_timeout_hardware (c : AmdConfig) (hint : Z) (a : A) (expected : Z)
    (d : Deadline) : M (WaitTimeoutResult Z) :=
  mwaitx_timed_protocol c hint a expected d Amd.monitorx Amd.mwaitx.

Definition umwait_raw_hardware (c : IntelConfig) (a : A) (expected : Z)
    : M (WaitTimeoutResult Z) :=
  umwait_untimed_protocol c a expected Intel.umonitor umwait_deadline Intel.umwait_c01.

Definition umwait_raw_timeout_hardware (c : IntelConfig) (a : A) (expected : Z) (d : Deadline)
    : M (WaitTimeoutResult Z) :=
  umwait_timed_protocol c a expected d Intel.umonitor umwait_deadline Intel.umwait_c01.

Definition hardware_wait (c : HardwareConfig) (a : A) (expected : Z) (d : option Deadline)
    : M (WaitTimeoutResult Z) :=
  match c, d with
  | AmdCfg c, Some d => mwaitx_raw_timeout_hardware c NO_C_STATE_HINT a expected d
  | AmdCfg c, None => mwaitx_raw_hardware c NO_C_STATE_HINT a expected
  | IntelCfg c, Some d => umwait_raw_timeout_hardware c a expected d
  | IntelCfg c, None => umwait_raw_hardware c a expected
  end.

Definition hardware_wait_untimed (c : HardwareConfig) (a : A) (expected : Z)
    : M (WaitTimeoutResult Z) :=
  hardware_wait c a expected None.
End protocols.

(** ** The strategies *)

Record HardwareWait := mkHardwareWait { hw_config : HardwareConfig }.

Definition hardware_wait_backend (h : HardwareWait) : HardwareBackend :=
  config_backend (hw_config h).

#[export] Instance hardware_wait_impl : StrategyImpl HardwareWait := {|
  strategy_id _ := S_HardwareWait;
  wait_raw_untimed A _ _ h a e := hardware_wait_untimed (hw_config h) a e;
  wait_raw A _ _ h a e d := hardware_wait (hw_config h) a e d;
|}.

Record SpinThenHardwareWait := mkSpinThenHardwareWait {
  sh_spin_iterations : Z;
  sh_hardware : HardwareWait;
}.

Definition spin_then_hardware_untimed {A} `{WaitableAtomic A} (fuel : nat)
    (s : SpinThenHardwareWait) (a : A) (expected : Z) : M (WaitTimeoutResult Z) :=
  p ← spin_prefix a expected (sh_spin_iterations s) None;
  match p with
  | Some r => mret r
  | None => wait_raw_untimed fuel (sh_hardware s) a expected
  end.

Definition spin_then_hardware_raw {A} `{WaitableAtomic A} (fuel : nat)
    (s : SpinThenHardwareWait) (a : A) (expected : Z) (d : option Deadline)
    : M (WaitTimeoutResult Z) :=
  p ← spin_prefix a expected (sh_spin_iterations s) d;
  match p with
  | Some r => mret r
  | None => wait_raw fuel (sh_hardware s) a expected d
  end.

#[export] Instance spin_then_hardware_impl : StrategyImpl SpinThenHardwareWait := {|
  strategy_id _ := S_SpinThenHardwareWait;
  wait_raw_untimed A _ := spin_then_hardware_untimed;
  wait_raw A _ := spin_then_hardware_raw;
|}.

Record AmdMwaitxC1 := mkAmdMwaitxC1 { c1_config : AmdConfig }.

Definition c1_raw {A} `{WaitableAtomic A} (s : AmdMwaitxC1) (a : A) (expected : Z)
    (d : option Deadline) : M (WaitTimeoutResult Z) :=
  match d with
  | Some d => mwaitx_raw_timeout_hardware (c1_config s) C1_STATE_HINT a expected d
  | None => mwaitx_raw_hardware (c1_config s) C1_STATE_HINT a expected
  end.

#[export] Instance c1_impl : StrategyImpl AmdMwaitxC1 := {|
  strategy_id _ := S_HardwareWait;
  wait_raw_untimed A _ _ s a e := mwaitx_raw_hardware (c1_config s) C1_STATE_HINT a e;
  wait_raw A _ _ s a e d := c1_raw s a e d;
|}.

(** ** Cycle budgets *)

Lemma raw_cycles_nonneg d hz : 0 <= d -> 0 <= hz -> 0 <= raw_cycles d hz.
Proof.
  intros Hd Hhz. unfold raw_cycles, sat_mul, NANOS_PER_SECOND, u128_max.
  apply Z.div_pos; [|lia]. apply Z.min_glb; [lia|]. by apply Z.mul_nonneg_nonneg.
Qed.

Lemma duration_to_cycles_in d hz : 1 <= duration_to_cycles d hz <= u32_max.
Proof.
  unfold duration_to_cycles. pose proof (clamp_in 1 u32_max (raw_cycles d hz)).
  rewrite try_from_or_max_id; unfold u32_max in *; lia.
Qed.

Lemma duration_to_cycles_u64_in d hz : 1 <= duration_to_cycles_u64 d hz <= u64_max.
Proof.
  unfold duration_to_cycles_u64. pose proof (clamp_in 1 u64_max (raw_cycles d hz)).
  rewrite try_from_or_max_id; unfold u64_max in *; lia.
Qed.

Lemma duration_to_cycles_eq d hz :
  duration_to_cycles d hz = clamp 1 u32_max (raw_cycles d hz).
Proof.
  unfold duration_to_cycles. apply try_from_or_max_id.
  pose proof (clamp_in 1 u32_max (raw_cycles d hz)). unfold u32_max in *; lia.
Qed.

Lemma duration_to_cycles_u64_eq d hz :
  duration_to_cycles_u64 d hz = clamp 1 u64_max (raw_cycles d hz).
Proof.
  unfold duration_to_cycles_u64. apply try_from_or_max_id.
  pose proof (clamp_in 1 u64_max (raw_cycles d hz)). unfold u64_max in *; lia.
Qed.

Lemma raw_cycles_mono d d' hz :
  0 <= hz -> d <= d' -> raw_cycles d hz <= raw_cycles d' hz.
Proof.
  intros Hhz Hd. unfold raw_cycles, sat_mul. apply Z.div_le_mono; [done|].
  apply Z.min_le_compat_l. by apply Z.mul_le_mono_nonneg_r.
Qed.

(** No 128-bit saturation occurs for a remaining time below the safety timeout and
    any u64 frequency. *)
Lemma raw_cycles_exact d hz :
  0 <= d <= MWAITX_SAFETY_TIMEOUT -> 0 <= hz <= u64_max ->
  raw_cycles d hz = d * hz / NANOS_PER_SECOND.
Proof.
  unfold MWAITX_SAFETY_TIMEOUT, u64_max. intros Hd Hhz. unfold raw_cycles, sat_mul.
  rewrite Z.min_r; [done|]. unfold u128_max. nia.
Qed.

Lemma mwaitx_cycles_in c r :
  c = amd_config_new (amd_timer_hz c) -> 0 <= amd_timer_hz c ->
  1 <= mwaitx_timeout_cycles c r <= amd_safety_timeout_cycles c /\
  amd_safety_timeout_cycles c <= u32_max.
Proof.
  intros Hc Hhz. unfold mwaitx_timeout_cycles. rewrite Hc. simpl.
  pose proof (duration_to_cycles_in MWAITX_SAFETY_TIMEOUT (amd_timer_hz c)).
  pose proof (duration_to_cycles_in r (amd_timer_hz c)).
  split_tests; [|lia]. split; [|lia]. split; [lia|].
  rewrite !duration_to_cycles_eq.
  pose proof (raw_cycles_mono r MWAITX_SAFETY_TIMEOUT (amd_timer_hz c)).
  unfold clamp. lia.
Qed.

Lemma umwait_cycles_in c r :
  c = intel_config_new (intel_timer_hz c) -> 0 <= intel_timer_hz c ->
  1 <= umwait_timeout_cycles c r <= intel_safety_timeout_cycles c /\
  intel_safety_timeout_cycles c <= u64_max.
Proof.
  intros Hc Hhz. unfold umwait_timeout_cycles. rewrite Hc. simpl.
  pose proof (duration_to_cycles_u64_in UMWAIT_SAFETY_TIMEOUT (intel_timer_hz c)).
  pose proof (duration_to_cycles_u64_in r (intel_timer_hz c)).
  split_tests; [|lia]. split; [|lia]. split; [lia|].
  rewrite !duration_to_cycles_u64_eq.
  pose proof (raw_cycles_mono r UMWAIT_SAFETY_TIMEOUT (intel_timer_hz c)).
  unfold clamp. lia.
Qed.

(** ** The hardware wait of a call *)

(** A wait is safe to enter: the monitor is armed on the watched address, and it
    has already been triggered unless the address still holds [e]. *)
Definition wait_safe (a e : Z) (ev : event) : Prop :=
  match ev with
  | EvMwaitx _ _ _ m mem | EvUmwait _ _ _ m mem =>
      exists t, m = Armed a t /\ (t = true \/ mget mem a = e)
  | _ => False
  end.

(** Between [w] and [w'] at most one hardware wait was entered; it was safe to
    enter and its operands satisfy [Op]. *)
Definition hw_trace (a e : Z) (Op : event -> Prop) (w w' : world) : Prop :=
  quiet w w' \/
  exists post ev pre, w_trace w' = post ++ ev :: pre ++ w_trace w /\
    Forall (fun ev => is_wait ev = false) post /\ Forall (fun ev => is_wait ev = false) pre /\
    wait_safe a e ev /\ Op ev.

Definition hw_post (a e : Z) (d : option Deadline) (Op : event -> Prop) (w : world)
    (r : WaitTimeoutResult Z) (w' : world) : Prop :=
  raw_post a e d w r w' /\ hw_trace a e Op w w'.

Lemma hw_trace_prefix a e Op w w1 w2 :
  quiet w w1 -> hw_trace a e Op w1 w2 -> hw_trace a e Op w w2.
Proof.
  intros (e1 & H1 & F1) [Hq|(post & ev & pre & Ht & F2 & F3 & Hs & HOp)].
  - left. apply (quiet_trans _ w1); [|done]. by exists e1.
  - right. exists post, ev, (pre ++ e1). rewrite Ht, H1, app_assoc.
    split; [done|]. split; [done|]. split; [by apply Forall_app|done].
Qed.

Lemma hw_trace_suffix a e Op w w1 w2 :
  hw_trace a e Op w w1 -> quiet w1 w2 -> hw_trace a e Op w w2.
Proof.
  intros [Hq|(post & ev & pre & Ht & F2 & F3 & Hs & HOp)] Hq2.
  - left. by apply (quiet_trans _ w1).
  - destruct Hq2 as (e2 & H2 & F1). right. exists (e2 ++ post), ev, pre.
    rewrite H2, Ht, app_assoc. split; [done|]. split; [by apply Forall_app|done].
Qed.

(** Entering a wait while the monitor covers the address. *)
Lemma hw_trace_wait a e (Op : event -> Prop) (ev : monitor -> gmap Z Z -> event) w0 w w1 :
  quiet w0 w -> armed_ok a e w ->
  w_trace w1 = ev (w_mon (advance w)) (s_mem (w_sys (advance w))) :: w_trace w ->
  (forall m mem t, m = Armed a t -> (t = true \/ mget mem a = e) ->
     wait_safe a e (ev m mem) /\ Op (ev m mem)) ->
  hw_trace a e Op w0 w1.
Proof.
  intros (pre & Hpre & Fpre) Harm Ht Hev.
  destruct (armed_ok_step a e 0 w w (advance w)) as (t & Hm & Hv);
    [done|apply reach_0|by apply reach_advance|done|].
  destruct (Hev _ _ t Hm Hv) as [Hs HOp]. right.
  exists [], (ev (w_mon (advance w)) (s_mem (w_sys (advance w)))), pre.
  rewrite Ht, Hpre. auto.
Qed.

Lemma hw_post_shift a e d Op n w w1 r w2 :
  reach n w w1 -> quiet w w1 -> hw_post a e d Op w1 r w2 -> hw_post a e d Op w r w2.
Proof.
  intros Hr Hq [Hp Ht]. split; [by eapply raw_post_shift|by eapply hw_trace_prefix].
Qed.

Section protocol_specs.
Context {A : Type} `{WaitableAtomic A}.
Implicit Types (a : A).

(** Entering a wait with the monitor covering the address, then classifying. *)
Lemma wp_wait_classify a e d (ev : monitor -> gmap Z Z -> event) (Op : event -> Prop) w0 w n :
  reach n w0 w -> quiet w0 w -> armed_ok (monitored_address a) e w ->
  (forall m mem t, m = Armed (monitored_address a) t ->
     (t = true \/ mget mem (monitored_address a) = e) ->
     wait_safe (monitored_address a) e (ev m mem) /\ Op (ev m mem)) ->
  wp (_ ← hw_wait ev; classify_after_wait a e d) w
    (hw_post (monitored_address a) e d Op w0).
Proof.
  intros Hr Hq Harm Hev. apply wp_bind. eapply wp_hw_wait; [done|].
  intros w1 Hr1 Ht1.
  eapply wp_mono; [apply wp_wlp_conj; [by eapply wp_classify|apply quiet_classify]|].
  intros r w2 [Hp Hq2]. split; [done|]. eapply hw_trace_suffix; [|done].
  by eapply hw_trace_wait.
Qed.

(** Arm, then load again: leave on a change, otherwise go on with the monitor
    covering the address. *)
Lemma wp_arm_recheck a e d Op w0 w n (continue : M (WaitTimeoutResult Z)) :
  reach n w0 w -> quiet w0 w ->
  (forall w1 k, (n < k)%nat -> reach k w0 w1 -> quiet w0 w1 ->
     armed_ok (monitored_address a) e w1 -> val_at w0 k (monitored_address a) = e ->
     wp continue w1 (hw_post (monitored_address a) e d Op w0)) ->
  wp (_ ← arm (monitored_address a);
      observed ← load_acquire a;
      if negb (observed =? e) then mret (WT_Changed observed) else continue) w
    (hw_post (monitored_address a) e d Op w0).
Proof.
  intros Hr Hq Hk. apply wp_bind. eapply wp_arm; [done|]. intros w1 Hr1 Hm1 Ht1.
  assert (Hq1 : quiet w0 w1) by (by eapply quiet_step).
  rewrite load_acquire_spec. apply wp_bind. eapply wp_load; [done|]. intros w2 Hr2 Hm2 Ht2.
  assert (Hq2 : quiet w0 w2) by (by eapply quiet_step).
  destruct (_ =? e) eqn:E; bool_facts; simpl.
  - apply (Hk w2 (S (S n))); [lia|done|done| |done].
    destruct (advance_armed w1 _ false Hm1) as (t & Hm & _).
    exists t. split; [congruence|]. right. by rewrite (reach_val _ _ _ _ Hr2).
  - apply wp_ret. split; [|by left]. eapply raw_post_changed; [lia|done|done|done].
Qed.

(** The first load of every protocol. *)
Lemma wp_first_load a e d Op w (continue : M (WaitTimeoutResult Z)) :
  (forall w1, reach 1 w w1 -> quiet w w1 -> val_at w 1 (monitored_address a) = e ->
     wp continue w1 (hw_post (monitored_address a) e d Op w)) ->
  wp (observed ← load_acquire a;
      if negb (observed =? e) then mret (WT_Changed observed) else continue) w
    (hw_post (monitored_address a) e d Op w).
Proof.
  intros Hk. rewrite load_acquire_spec. apply wp_bind. eapply wp_load; [apply reach_0|].
  intros w1 Hr1 _ Ht1. assert (Hq1 : quiet w w1) by (eapply quiet_step; [apply quiet_refl|done..]).
  destruct (_ =? e) eqn:E; bool_facts; simpl; [by apply Hk|].
  apply wp_ret. split; [|by left]. eapply raw_post_changed; [lia|done|done|done].
Qed.

(** [let Some(remaining) = deadline.remaining() else { return TimedOut }] *)
Lemma wp_remaining_or_timeout a e dl Op w0 w n i
    (continue : Z -> M (WaitTimeoutResult Z)) :
  reach n w0 w -> quiet w0 w -> (0 < i <= n)%nat -> val_at w0 i (monitored_address a) = e ->
  (forall rem w1, reach (S n) w0 w1 -> quiet w0 w1 -> w_mon w1 = w_mon (advance w) -> 0 < rem ->
     wp (continue rem) w1 (hw_post (monitored_address a) e (Some dl) Op w0)) ->
  wp (r ← remaining dl; match r with None => mret WT_TimedOut | Some rem => continue rem end) w
    (hw_post (monitored_address a) e (Some dl) Op w0).
Proof.
  intros Hr Hq Hi He Hk. apply wp_bind. eapply wp_remaining; [done|]. intros w1 Hr1 Hm1 Ht1.
  assert (Hq1 : quiet w0 w1) by (by eapply quiet_step).
  destruct (remaining_at _ _) as [rem|] eqn:E.
  - apply Hk; [done|done|done|]. apply remaining_at_Some in E as [? _]. lia.
  - apply wp_ret. split; [|by left]. apply remaining_at_None in E.
    eapply (raw_post_timed_out _ _ _ _ _ i (S n)); [lia|done|done|done|done].
Qed.

Lemma mwaitx_untimed_spec c hint a e Op w :
  (forall m mem, Op (EvMwaitx hint (amd_safety_timeout_cycles c) (Z.shiftl 1 1) m mem)) ->
  wp (mwaitx_raw_hardware c hint a e) w (hw_post (monitored_address a) e None Op w).
Proof.
  intros HOp. apply wp_first_load. intros w1 Hr1 Hq1 He1.
  eapply wp_arm_recheck; [done|done|]. intros w2 k Hk Hr2 Hq2 Harm He2.
  eapply (wp_wait_classify _ _ _ (EvMwaitx hint _ _)); [done|done|done|].
  intros m mem t -> Ht. split; [by exists t|done].
Qed.

Lemma mwaitx_timed_spec c hint a e dl Op w :
  (forall rem m mem, 0 < rem ->
     Op (EvMwaitx hint (mwaitx_timeout_cycles c rem) (Z.shiftl 1 1) m mem)) ->
  wp (mwaitx_raw_timeout_hardware c hint a e dl) w
    (hw_post (monitored_address a) e (Some dl) Op w).
Proof.
  intros HOp. apply wp_first_load. intros w1 Hr1 Hq1 He1.
  eapply (wp_remaining_or_timeout _ _ _ _ _ _ 1 1); [done|done|lia|done|].
  intros rem1 w2 Hr2 Hq2 _ _.
  eapply wp_arm_recheck; [done|done|]. intros w3 k Hk Hr3 Hq3 Harm He3.
  eapply (wp_remaining_or_timeout _ _ _ _ _ _ k k); [done|done|lia|done|].
  intros rem w4 Hr4 Hq4 Hm4 Hrem.
  eapply (wp_wait_classify _ _ _ (EvMwaitx hint _ _)); [done|done|by eapply armed_ok_step|].
  intros m mem t -> Ht. split; [by exists t|auto].
Qed.

(** UMWAIT at an absolute deadline computed from a fresh counter read. *)
Lemma wp_umwait a e d cycles Op w0 w n :
  reach n w0 w -> quiet w0 w -> armed_ok (monitored_address a) e w ->
  (forall tsc m mem, 0 <= tsc <= u64_max ->
     let deadline := sat_add u64_max tsc (Z.max cycles 1) in
     Op (EvUmwait (low32 deadline) (high32 deadline) Intel.UMWAIT_C01_CONTROL m mem)) ->
  wp (dl ← umwait_deadline cycles; _ ← Intel.umwait_c01 dl; classify_after_wait a e d) w
    (hw_post (monitored_address a) e d Op w0).
Proof.
  intros Hr Hq Harm HOp. apply wp_bind. apply wp_bind. eapply read_tsc_wp; [done|].
  intros tsc aux w1 Hr1 Hm1 (c & Ht1) Htsc. apply wp_ret.
  eapply (wp_wait_classify _ _ _ (EvUmwait _ _ _)); [done|by eapply quiet_step| |].
  - by eapply armed_ok_step.
  - intros m mem t -> Ht. split; [by exists t|by apply HOp].
Qed.

Lemma umwait_untimed_spec c a e Op w :
  (forall tsc m mem, 0 <= tsc <= u64_max ->
     let deadline := sat_add u64_max tsc (Z.max (intel_safety_timeout_cycles c) 1) in
     Op (EvUmwait (low32 deadline) (high32 deadline) Intel.UMWAIT_C01_CONTROL m mem)) ->
  wp (umwait_raw_hardware c a e) w (hw_post (monitored_address a) e None Op w).
Proof.
  intros HOp. apply wp_first_load. intros w1 Hr1 Hq1 He1.
  eapply wp_arm_recheck; [done|done|]. intros w2 k Hk Hr2 Hq2 Harm He2.
  by eapply wp_umwait.
Qed.

Lemma umwait_timed_spec c a e dl Op w :
  (forall rem tsc m mem, 0 < rem -> 0 <= tsc <= u64_max ->
     let deadline := sat_add u64_max tsc (Z.max (umwait_timeout_cycles c rem) 1) in
     Op (EvUmwait (low32 deadline) (high32 deadline) Intel.UMWAIT_C01_CONTROL m mem)) ->
  wp (umwait_raw_timeout_hardware c a e dl) w
    (hw_post (monitored_address a) e (Some dl) Op w).
Proof.
  intros HOp. apply wp_first_load. intros w1 Hr1 Hq1 He1.
  eapply (wp_remaining_or_timeout _ _ _ _ _ _ 1 1); [done|done|lia|done|].
  intros rem1 w2 Hr2 Hq2 _ _.
  eapply wp_arm_recheck; [done|done|]. intros w3 k Hk Hr3 Hq3 Harm He3.
  eapply (wp_remaining_or_timeout _ _ _ _ _ _ k k); [done|done|lia|done|].
  intros rem w4 Hr4 Hq4 Hm4 Hrem.
  eapply wp_umwait; [done|done|by eapply armed_ok_step|]. intros tsc m mem Ht. by apply HOp.
Qed.
End protocol_specs.

(** ** Well-formed configurations and what their waits are given *)

(** A configuration as AmdConfig::new / IntelConfig::new builds it. *)
Definition config_wf (c : HardwareConfig) : Prop :=
  match c with
  | AmdCfg c => c = amd_config_new (amd_timer_hz c) /\ 0 < amd_timer_hz c <= u64_max
  | IntelCfg c => c = intel_config_new (intel_timer_hz c) /\ 0 < intel_timer_hz c <= u64_max
  end.

(** The operands of the wait instruction: MWAITX has C-states disabled, its timer
    enabled and a nonzero budget of at most the safety timeout; UMWAIT requests
    C0.1 with a deadline after the counter value it was computed from, by at most the safety
    timeout. *)
Definition operands_ok (c : HardwareConfig) (ev : event) : Prop :=
  match c, ev with
  | AmdCfg c, EvMwaitx eax ebx ecx _ _ =>
      eax = NO_C_STATE_HINT /\ ecx = Z.shiftl 1 1 /\ 1 <= ebx <= amd_safety_timeout_cycles c
  | IntelCfg c, EvUmwait eax edx ecx _ _ =>
      ecx = 1 /\
      exists tsc, 0 <= tsc <= u64_max /\
        let deadline := tsc_from_halves edx eax in
        deadline = u64_max \/ tsc < deadline <= tsc + intel_safety_timeout_cycles c
  | _, _ => False
  end.

Lemma umwait_operands c cycles tsc m mem :
  1 <= cycles <= intel_safety_timeout_cycles c -> 0 <= tsc <= u64_max ->
  let deadline := sat_add u64_max tsc (Z.max cycles 1) in
  operands_ok (IntelCfg c)
    (EvUmwait (low32 deadline) (high32 deadline) Intel.UMWAIT_C01_CONTROL m mem).
Proof.
  intros Hc Ht deadline. split; [done|]. exists tsc. split; [done|]. simpl.
  rewrite halves_split; unfold deadline, sat_add; lia.
Qed.

Section hardware.
Context {A : Type} `{WaitableAtomic A}.

(** Soundness needs nothing of the configuration. *)
Lemma hardware_wait_sound c (a : A) e d w :
  wp (hardware_wait c a e d) w (raw_post (monitored_address a) e d w).
Proof.
  assert (Htriv : forall m, wp m w (hw_post (monitored_address a) e d (fun _ => True) w) ->
    wp m w (raw_post (monitored_address a) e d w)).
  { intros m Hm. eapply wp_mono; [done|]. by intros r w' [? _]. }
  apply Htriv. destruct c, d; simpl.
  - by apply mwaitx_timed_spec.
  - by apply mwaitx_untimed_spec.
  - by apply umwait_timed_spec.
  - by apply umwait_untimed_spec.
Qed.

Lemma hardware_wait_post c (a : A) e d w :
  config_wf c ->
  wp (hardware_wait c a e d) w (hw_post (monitored_address a) e d (operands_ok c) w).
Proof.
  destruct c as [c|c]; intros [Hc Hhz]; destruct d as [dl|]; simpl.
  - apply mwaitx_timed_spec. intros rem m mem Hrem. split; [done|]. split; [done|].
    apply mwaitx_cycles_in; [done|lia].
  - apply mwaitx_untimed_spec. intros m mem. split; [done|]. split; [done|].
    rewrite Hc. simpl. split; [|lia]. apply duration_to_cycles_in.
  - apply umwait_timed_spec. intros rem tsc m mem Hrem Ht. apply umwait_operands; [|done].
    apply umwait_cycles_in; [done|lia].
  - apply umwait_untimed_spec. intros tsc m mem Ht. apply umwait_operands; [|done].
    rewrite Hc. simpl. split; [|lia]. apply duration_to_cycles_u64_in.
Qed.

Lemma spin_then_hardware_sound f s (a : A) e d w :
  wp (spin_then_hardware_raw f s a e d) w (raw_post (monitored_address a) e d w).
Proof.
  apply wp_bind. eapply wp_mono; [apply wp_spin_prefix|]. intros [r|] w1.
  - intros Hp. by apply wp_ret.
  - intros (n & Hn & Hr). eapply wp_mono; [apply hardware_wait_sound|].
    intros r w2. by apply raw_post_shift with n.
Qed.

Lemma c1_sound s (a : A) e d w :
  wp (c1_raw s a e d) w (raw_post (monitored_address a) e d w).
Proof.
  assert (Htriv : forall m, wp m w (hw_post (monitored_address a) e d (fun _ => True) w) ->
    wp m w (raw_post (monitored_address a) e d w)).
  { intros m Hm. eapply wp_mono; [done|]. by intros r w' [? _]. }
  apply Htriv. destruct d; simpl; [by apply mwaitx_timed_spec|by apply mwaitx_untimed_spec].
Qed.
End hardware.

#[export] Instance hardware_wait_laws : StrategyLaws HardwareWait.
Proof.
  split; intros.
  1,2: apply wp_wlp, hardware_wait_sound.
  all: eapply wp_is_Some, hardware_wait_sound.
Qed.

#[export] Instance spin_then_hardware_laws : StrategyLaws SpinThenHardwareWait.
Proof.
  split; intros; [apply wp_wlp, spin_then_hardware_sound| | |].
  - apply wp_wlp. apply (spin_then_hardware_sound f s a e None).
  - eapply wp_is_Some, spin_then_hardware_sound.
  - eapply wp_is_Some. apply (spin_then_hardware_sound f s a e None).
Qed.

#[export] Instance c1_laws : StrategyLaws AmdMwaitxC1.
Proof.
  split; intros; [apply wp_wlp, c1_sound| | |].
  - apply wp_wlp. apply (c1_sound s a e None).
  - eapply wp_is_Some, c1_sound.
  - eapply wp_is_Some. apply (c1_sound s a e None).
Qed.

(** ** The properties *)

Lemma spin_then_hardware_post {A} `{WaitableAtomic A} f k c (a : A) e d w :
  config_wf c ->
  wp (spin_then_hardware_raw f (mkSpinThenHardwareWait k (mkHardwareWait c)) a e d) w
    (hw_post (monitored_address a) e d (operands_ok c) w).
Proof.
  intros Hc. apply wp_bind.
  eapply wp_mono; [apply wp_wlp_conj; [apply wp_spin_prefix|apply quiet_spin_prefix]|].
  intros [r|] w1 [Hp Hq].
  - apply wp_ret. split; [done|by left].
  - destruct Hp as (n & Hn & Hr). eapply wp_mono; [by apply hardware_wait_post|].
    intros r w2. by apply hw_post_shift with n.
Qed.



(** The benchmark-only C1 strategy follows the same protocol, with the C1 hint and the same
    budgets. *)
Theorem amd_mwaitx_c1_correct {A} `{WaitableAtomic A} (f : nat) (c : AmdConfig) (a : A)
    (e : Z) (d : option Deadline) (w : world) :
  config_wf (AmdCfg c) ->
  exists r w', wait_raw f (mkAmdMwaitxC1 c) a e d w = Some (r, w') /\
    raw_post (monitored_address a) e d w r w' /\
    hw_trace (monitored_address a) e
      (fun ev => match ev with
                 | EvMwaitx eax ebx ecx _ _ =>
                     eax = C1_STATE_HINT /\ ecx = Z.shiftl 1 1 /\
                     1 <= ebx <= amd_safety_timeout_cycles c
                 | _ => False
                 end) w w'.
Proof.
  intros [Hc Hhz].
  match goal with |- exists r w', _ /\ _ /\ hw_trace _ _ ?Op _ _ =>
    assert (Hp : wp (c1_raw (mkAmdMwaitxC1 c) a e d) w (hw_post (monitored_address a) e d Op w))
  end.
  { destruct d as [dl|]; simpl.
    - apply mwaitx_timed_spec. intros rem m mem Hrem. split; [done|]. split; [done|].
      apply mwaitx_cycles_in; [done|lia].
    - apply mwaitx_untimed_spec. intros m mem. split; [done|]. split; [done|].
      rewrite Hc. simpl. split; [|lia]. apply duration_to_cycles_in. }
  destruct Hp as (r & w' & Hrun & Hp). by exists r, w'.
Qed.

Lemma amd_mwaitx_c1_correct_witness :
  exists r w', wait_raw 0 (mkAmdMwaitxC1 (amd_config_new 3000000000)) (mkAtomicU32 0) 0 None
      store_world = Some (r, w') /\
    raw_post (monitored_address (mkAtomicU32 0)) 0 None store_world r w'.
Proof.
  destruct (amd_mwaitx_c1_correct 0 (amd_config_new 3000000000) (mkAtomicU32 0) 0 None store_world)
    as (r & w' & H1 & H2 & _); [split; [reflexivity|unfold u64_max; simpl; lia]|].
  exists r, w'. exact (conj H1 H2).
Defined.

(** C36: The cycle budget of a remaining time is its exact value in timer cycles, rounded down,
    kept between one cycle and the safety timeout's budget and within the instruction's
    register: for a time below the safety timeout no 128-bit saturation occurs, so the
    budget is never longer than the time it stands for unless that is under one cycle. *)
Theorem cycle_budget_exact (hz remaining : Z) :
  0 < hz <= u64_max -> 0 < remaining < MWAITX_SAFETY_TIMEOUT ->
  let cycles := remaining * hz / NANOS_PER_SECOND in
  mwaitx_timeout_cycles (amd_config_new hz) remaining = Z.max 1 (Z.min cycles u32_max) /\
  umwait_timeout_cycles (intel_config_new hz) remaining = Z.max 1 cycles /\
  1 <= mwaitx_timeout_cycles (amd_config_new hz) remaining
    <= amd_safety_timeout_cycles (amd_config_new hz) /\
  amd_safety_timeout_cycles (amd_config_new hz) <= u32_max /\
  1 <= umwait_timeout_cycles (intel_config_new hz) remaining
    <= intel_safety_timeout_cycles (intel_config_new hz) /\
  intel_safety_timeout_cycles (intel_config_new hz) <= u64_max /\
  (1 < umwait_timeout_cycles (intel_config_new hz) remaining ->
     umwait_timeout_cycles (intel_config_new hz) remaining * NANOS_PER_SECOND <= remaining * hz).
Proof.
  intros Hhz Hr cycles.
  pose proof (mwaitx_cycles_in (amd_config_new hz) remaining eq_refl) as Ha.
  pose proof (umwait_cycles_in (intel_config_new hz) remaining eq_refl) as Hi.
  cbn [amd_timer_hz amd_config_new intel_timer_hz intel_config_new] in Ha, Hi.
  assert (Hm : mwaitx_timeout_cycles (amd_config_new hz) remaining = Z.max 1 (Z.min cycles u32_max)).
  { unfold mwaitx_timeout_cycles. destruct (Z.ltb_spec remaining MWAITX_SAFETY_TIMEOUT); [|lia].
    rewrite duration_to_cycles_eq. cbn [amd_timer_hz amd_config_new].
    rewrite raw_cycles_exact by lia. unfold clamp, u32_max. fold cycles. lia. }
  assert (Hle : cycles <= u64_max).
  { unfold cycles, NANOS_PER_SECOND, MWAITX_SAFETY_TIMEOUT, u64_max in *.
    apply Z.div_le_upper_bound; nia. }
  assert (Hu : umwait_timeout_cycles (intel_config_new hz) remaining = Z.max 1 cycles).
  { unfold umwait_timeout_cycles. change UMWAIT_SAFETY_TIMEOUT with MWAITX_SAFETY_TIMEOUT.
    destruct (Z.ltb_spec remaining MWAITX_SAFETY_TIMEOUT); [|lia].
    rewrite duration_to_cycles_u64_eq. cbn [intel_timer_hz intel_config_new].
    rewrite raw_cycles_exact by lia. unfold clamp. fold cycles. unfold u64_max in *. lia. }
  split_and!; [done|done|lia..|].
  rewrite Hu. intros H1. rewrite Z.max_r by lia.
  unfold cycles. rewrite Z.mul_comm. apply Z.mul_div_le. unfold NANOS_PER_SECOND. lia.
Qed.

Lemma cycle_budget_exact_witness :
  mwaitx_timeout_cycles (amd_config_new 3000000000) 500 = 1500 /\
  1 <= 1500 <= amd_safety_timeout_cycles (amd_config_new 3000000000).
Proof.
  split; [reflexivity|].
  destruct (cycle_budget_exact 3000000000 500) as (_ & _ & H & _);
    [unfold u64_max; lia|unfold MWAITX_SAFETY_TIMEOUT; lia|].
  exact H.
Defined.
