(* ===== verification/Preflight.v ===== *)
(** * The one-time hardware preflight (src/src/strategy.rs)

    Backend selection, preparation of the configuration, the functional probe
    with its helper thread, the process-wide OnceLock, and the constructors that
    consult it. A call that may panic returns an [outcome]; the static
    HARDWARE_PREFLIGHT is an explicit [option] state. *)

From S2P Require Import Prelude Machine Errors Strategy Tsc Capabilities Hardware.
From stdpp Require Import sorting.
Open Scope Z_scope.

(** ** Constants and data *)

Definition PREFLIGHT_BASELINE_ATTEMPTS : nat := 5.
Definition PREFLIGHT_STORE_ATTEMPTS : nat := 16.
Definition PREFLIGHT_REQUIRED_STORE_OBSERVATIONS : Z := 2.
Definition PREFLIGHT_MIN_BLOCK : Z := 1000.
Definition PREFLIGHT_HELPER_DEADLINE : Z := 20000000.
(** [Duration::MAX] in nanoseconds *)
Definition DURATION_MAX : Z := u64_max * 1000000000 + 999999999.

Record PreflightReport := mkReport {
  pr_backend : HardwareBackend;
  pr_attempts : Z;
  pr_verified_store_wakes : Z;
  pr_baseline_wait : Z;
}.

Record PreparedHardwareWait := mkPrepared {
  ph_config : HardwareConfig;
  ph_report : PreflightReport;
}.

Record PreflightTrialEvidence := mkEvidence {
  helper_overlapped : bool;
  verified_store_wake : bool;
}.

(** ** Backend selection and preparation *)

Definition select_backend (d : Capabilities) : result HardwareBackend UnsupportedReason :=
  if negb (supported_target d) then Err UnsupportedTarget
  else if Bool.eqb (amd_vendor d) (intel_vendor d) then Err UnsupportedCpuVendor
  else if amd_vendor d && negb (monitorx_mwaitx d) then Err MissingMonitorxMwaitx
  else if amd_vendor d then Ok AmdMwaitx
  else if intel_vendor d && negb (waitpkg d) then Err MissingWaitpkg
  else Ok IntelUmwait.

Definition require_shared_timer_capabilities (d : Capabilities) : result unit HardwareWaitError :=
  if negb (invariant_tsc d) then Err (unsupported MissingInvariantTsc)
  else if negb (rdtscp_supported d) then Err (unsupported MissingRdtscp)
  else Ok tt.

Definition prepare_hardware_config (d : Capabilities) (userspace_tsc_is_enabled : bool)
    (calibrate_amd calibrate_intel : M (option Z)) : M (result HardwareConfig HardwareWaitError) :=
  match select_backend d with
  | Err r => mret (Err (unsupported r))
  | Ok backend =>
      match require_shared_timer_capabilities d with
      | Err e => mret (Err e)
      | Ok _ =>
          if negb userspace_tsc_is_enabled then mret (Err (unsupported TscAccessDisabled))
          else
            match backend with
            | AmdMwaitx =>
                hz ← calibrate_amd;
                mret (result_map (fun hz => AmdCfg (amd_config_new hz))
                        (ok_or hz (unsupported UnstableTimerCalibration)))
            | IntelUmwait =>
                hz ← calibrate_intel;
                mret (result_map (fun hz => IntelCfg (intel_config_new hz))
                        (ok_or hz (unsupported UnstableTimerCalibration)))
            end
      end
  end.

(** ** The functional probe *)

Definition classify_preflight_trial (published_at : option Z) (wait_finished observed elapsed
    wake_threshold : Z) : PreflightTrialEvidence :=
  let overlapped := match published_at with Some p => p <=? wait_finished | None => false end in
  {| helper_overlapped := overlapped;
     verified_store_wake := overlapped && negb (observed =? 0) && (elapsed <? wake_threshold) |}.

Definition conclude_preflight (backend : HardwareBackend) (attempts verified_store_wakes
    helper_overlaps baseline_wait : Z) : result PreflightReport HardwareWaitError :=
  if helper_overlaps =? 0 then Err (PreflightFailed backend Inconclusive)
  else if verified_store_wakes <? PREFLIGHT_REQUIRED_STORE_OBSERVATIONS
  then Err (PreflightFailed backend StoreWakeNotObserved)
  else Ok (mkReport backend attempts verified_store_wakes baseline_wait).

Definition preflight_wait_once (c : HardwareConfig) (target handoff : Z) : M Z :=
  observed ← load Acquire target;
  if negb (observed =? 0) then mret observed
  else
    match c with
    | AmdCfg c =>
        _ ← Amd.monitorx target;
        observed ← load Acquire target;
        if negb (observed =? 0) then mret observed
        else
          _ ← store Release handoff 1;
          observed ← load Acquire target;
          if negb (observed =? 0) then mret observed
          else _ ← Amd.mwaitx (amd_safety_timeout_cycles c) NO_C_STATE_HINT; load Acquire target
    | IntelCfg c =>
        _ ← Intel.umonitor target;
        observed ← load Acquire target;
        if negb (observed =? 0) then mret observed
        else
          _ ← store Release handoff 1;
          observed ← load Acquire target;
          if negb (observed =? 0) then mret observed
          else
            dl ← umwait_deadline (intel_safety_timeout_cycles c);
            _ ← Intel.umwait_c01 dl;
            load Acquire target
    end.

(** The closure of the helper thread, run in that thread's own world; the result is what it
    sends over the channel. *)
Definition preflight_helper (fuel : nat) (target handoff producer_delay : Z) : M (option Z) :=
  now ← instant_now;
  let deadline := now + PREFLIGHT_HELPER_DEADLINE in
  handed ← loop fuel
    (h ← load Acquire handoff;
     if negb (h =? 0) then mret (Some true)
     else
       t ← instant_now;
       if deadline <=? t then mret (Some false)
       else _ ← spin_loop; mret None);
  if negb handed then mret None
  else
    delay_started ← instant_now;
    _ ← loop fuel
      (t ← instant_now;
       if elapsed_since delay_started t <? producer_delay then _ ← spin_loop; mret None
       else mret (Some tt));
    _ ← store Release target 1;
    t ← instant_now;
    mret (Some t).

(** One baseline measurement: a hardware wait nobody ends. *)
Definition baseline_once (c : HardwareConfig) (target : Z) : M Z :=
  started ← instant_now;
  _ ← hardware_wait_untimed c (mkAtomicU32 target) 0;
  t ← instant_now;
  mret (elapsed_since started t).

Fixpoint repeat_m {B} (n : nat) (m : M B) : M (list B) :=
  match n with
  | O => mret []
  | S k => x ← m; xs ← repeat_m k m; mret (x :: xs)
  end.

(** One store-wake trial; [alloc k] are the addresses of the k-th trial's target and handoff. *)
Definition trial (c : HardwareConfig) (cells : Z * Z) (wake_threshold : Z)
    : M PreflightTrialEvidence :=
  let '(target, handoff) := cells in
  _ ← new_cell target 0;
  _ ← new_cell handoff 0;
  started ← instant_now;
  observed ← preflight_wait_once c target handoff;
  wait_finished ← instant_now;
  let elapsed := elapsed_since started wait_finished in
  received ← recv_timeout;
  mret (classify_preflight_trial (mjoin received) wait_finished observed elapsed wake_threshold).

(** The trial loop, with its counters [attempts], [verified], [overlaps]. *)
Fixpoint trial_loop (n : nat) (c : HardwareConfig) (alloc : Z -> Z * Z) (wake_threshold : Z)
    (attempts verified overlaps : Z) : M (Z * Z * Z) :=
  match n with
  | O => mret (attempts, verified, overlaps)
  | S k =>
      let attempts := attempts + 1 in
      evidence ← trial c (alloc attempts) wake_threshold;
      let overlaps := if helper_overlapped evidence then overlaps + 1 else overlaps in
      if verified_store_wake evidence then
        let verified := verified + 1 in
        if PREFLIGHT_REQUIRED_STORE_OBSERVATIONS <=? verified
        then mret (attempts, verified, overlaps)
        else trial_loop k c alloc wake_threshold attempts verified overlaps
      else trial_loop k c alloc wake_threshold attempts verified overlaps
  end.

Definition wake_threshold_of (baseline_wait : Z) : Z := sat_mul DURATION_MAX baseline_wait 3 / 4.
Definition producer_delay_of (baseline_wait : Z) : Z :=
  Z.min (Z.max (baseline_wait / 16) 1000) 20000.

Definition functional_preflight (c : HardwareConfig) (alloc : Z -> Z * Z)
    : M (result PreflightReport HardwareWaitError) :=
  let baseline_target := (alloc 0).1 in
  _ ← new_cell baseline_target 0;
  baselines ← repeat_m PREFLIGHT_BASELINE_ATTEMPTS (baseline_once c baseline_target);
  let sorted := merge_sort Z.le baselines in
  let baseline_wait := sorted !!! (length sorted / 2)%nat in
  if baseline_wait <? PREFLIGHT_MIN_BLOCK
  then mret (Err (PreflightFailed (config_backend c) WaitDidNotBlock))
  else
    '(attempts, verified, overlaps) ←
      trial_loop PREFLIGHT_STORE_ATTEMPTS c alloc (wake_threshold_of baseline_wait) 0 0 0;
    mret (conclude_preflight (config_backend c) attempts verified overlaps baseline_wait).

Definition prepare_and_probe_hardware_wait (prepare : M (result HardwareConfig HardwareWaitError))
    (probe : HardwareConfig -> M (result PreflightReport HardwareWaitError))
    : M (result PreparedHardwareWait HardwareWaitError) :=
  config ← prepare;
  match config with
  | Err e => mret (Err e)
  | Ok config =>
      report ← probe config;
      mret (result_map (mkPrepared config) report)
  end.

Definition run_hardware_preflight (fuel : nat) (cpuid : Cpuid) (caps : Capabilities)
    (prctl_get_tsc : Z * Z) (alloc : Z -> Z * Z)
    : M (result PreparedHardwareWait HardwareWaitError) :=
  prepare_and_probe_hardware_wait
    (prepare_hardware_config caps (Intel.userspace_tsc_is_enabled prctl_get_tsc)
       (Amd.amd_calibrate_timer_hz fuel cpuid) (Intel.intel_calibrate_timer_hz fuel cpuid))
    (fun c => functional_preflight c alloc).

(** [run_hardware_preflight] of the other targets. *)
Definition run_hardware_preflight_unsupported (caps : Capabilities)
    : result PreparedHardwareWait HardwareWaitError :=
  match select_backend caps with
  | Err r => Err (unsupported r)
  | Ok _ => Err (unsupported UnsupportedCpuVendor)
  end.

(** ** The process-wide state *)

(** What an initializer that may unwind does. *)
Inductive outcome (T : Type) := Returned (v : T) | Panicked.
Arguments Returned {T} _.
Arguments Panicked {T}.

Definition OnceLock (T : Type) : Type := option T.

(** [initialize_once]: the panic is caught and cached like any other result. *)
Definition initialize_once {T} (state : OnceLock (result T HardwareWaitError))
    (initialize : M (outcome (result T HardwareWaitError)))
    : M (result T HardwareWaitError * OnceLock (result T HardwareWaitError)) :=
  match state with
  | Some r => mret (r, state)
  | None =>
      o ← initialize;
      let r := match o with Returned r => r | Panicked => Err PreflightPanicked end in
      mret (r, Some r)
  end.

Abbreviation preflight_state := (OnceLock (result PreparedHardwareWait HardwareWaitError)).

(** [HardwareWait::preflight()] *)
Definition preflight (state : preflight_state)
    (run : M (outcome (result PreparedHardwareWait HardwareWaitError)))
    : M (result PreflightReport HardwareWaitError * preflight_state) :=
  '(r, state) ← initialize_once state run;
  mret (result_map ph_report r, state).

(** [HardwareWait::new()] *)
Definition hardware_wait_new (state : preflight_state) : result HardwareWait HardwareWaitError :=
  match state with
  | None => Err PreflightRequired
  | Some (Ok prepared) => Ok (mkHardwareWait (ph_config prepared))
  | Some (Err error) => Err error
  end.

Definition spin_then_hardware_wait_new (state : preflight_state) (spin_iterations : Z)
    : result SpinThenHardwareWait HardwareWaitError :=
  result_map (mkSpinThenHardwareWait spin_iterations) (hardware_wait_new state).

Definition amd_mwaitx_c1_new (state : preflight_state) : result AmdMwaitxC1 HardwareWaitError :=
  match hardware_wait_new state with
  | Err e => Err e
  | Ok h =>
      match hw_config h with
      | AmdCfg c => Ok (mkAmdMwaitxC1 c)
      | IntelCfg _ => Err (Unsupported (mkUnsupportedStrategy S_HardwareWait UnsupportedCpuVendor))
      end
  end.

(** ** Preparation *)

(** The processor facts a backend needs. *)
Definition usable (d : Capabilities) (b : HardwareBackend) : Prop :=
  supported_target d = true /\ invariant_tsc d = true /\ rdtscp_supported d = true /\
  match b with
  | AmdMwaitx => amd_vendor d = true /\ intel_vendor d = false /\ monitorx_mwaitx d = true
  | IntelUmwait => intel_vendor d = true /\ amd_vendor d = false /\ waitpkg d = true
  end.

Lemma select_backend_ok d b :
  select_backend d = Ok b -> require_shared_timer_capabilities d = Ok tt -> usable d b.
Proof.
  unfold select_backend, require_shared_timer_capabilities, usable. intros H1 H2.
  destruct (supported_target d), (amd_vendor d), (intel_vendor d), (monitorx_mwaitx d),
    (waitpkg d), (invariant_tsc d), (rdtscp_supported d); simplify_eq/=; done.
Qed.

Lemma prepare_spec d tsc cal_amd cal_intel w :
  (forall w, wlp cal_amd w (fun r _ => forall hz, r = Some hz -> 0 < hz <= u64_max)) ->
  (forall w, wlp cal_intel w (fun r _ => forall hz, r = Some hz -> 0 < hz <= u64_max)) ->
  wlp (prepare_hardware_config d tsc cal_amd cal_intel) w (fun r _ =>
    match r with
    | Ok c => config_wf c /\ usable d (config_backend c) /\ tsc = true
    | Err e => exists reason, e = unsupported reason
    end).
Proof.
  intros Ha Hi. unfold prepare_hardware_config.
  destruct (select_backend d) as [b|r] eqn:Eb; [|apply wlp_ret; eauto].
  destruct (require_shared_timer_capabilities d) as [[]|e] eqn:Er.
  2: { apply wlp_ret. revert Er. unfold require_shared_timer_capabilities.
       split_tests; intros; simplify_eq; eauto. }
  destruct tsc; simpl; [|apply wlp_ret; eauto].
  pose proof (select_backend_ok d b Eb Er) as Hu.
  destruct b; apply wlp_bind; (eapply wlp_mono; [apply Ha || apply Hi|]);
    intros [hz|] w1 Hhz; apply wlp_ret; simpl; eauto.
Qed.

Lemma amd_calibrate_spec f cpuid w :
  wlp (Amd.amd_calibrate_timer_hz f cpuid) w
    (fun r _ => forall hz, r = Some hz -> 0 < hz <= u64_max).
Proof.
  unfold Amd.amd_calibrate_timer_hz. case_match; [apply collect_conservative|].
  apply wlp_ret. done.
Qed.

Lemma intel_calibrate_spec f cpuid w :
  wlp (Intel.intel_calibrate_timer_hz f cpuid) w
    (fun r _ => forall hz, r = Some hz -> 0 < hz <= u64_max).
Proof.
  unfold Intel.intel_calibrate_timer_hz. case_match; [apply collect_conservative|].
  apply wlp_ret. done.
Qed.

(** ** The probe *)

Lemma classify_verified p f o e t :
  verified_store_wake (classify_preflight_trial p f o e t) = true ->
  helper_overlapped (classify_preflight_trial p f o e t) = true.
Proof. simpl. intros H. bool_facts. by destruct p. Qed.

Lemma trial_verified c cells t w :
  wlp (trial c cells t) w (fun ev _ =>
    verified_store_wake ev = true -> helper_overlapped ev = true).
Proof.
  destruct cells as [target handoff]. unfold trial.
  repeat (apply wlp_bind; intros ? ?; intros _). apply wlp_ret. apply classify_verified.
Qed.

(** The counters stay ordered, and the loop stops at the second verified wake. *)
Lemma trial_loop_spec n c alloc t a v o w :
  0 <= v < PREFLIGHT_REQUIRED_STORE_OBSERVATIONS -> v <= o <= a ->
  wlp (trial_loop n c alloc t a v o) w (fun r _ =>
    let '(a', v', o') := r in
    v <= v' <= PREFLIGHT_REQUIRED_STORE_OBSERVATIONS /\ v' <= o' <= a' /\ a' <= a + Z.of_nat n).
Proof.
  unfold PREFLIGHT_REQUIRED_STORE_OBSERVATIONS.
  revert a v o w. induction n as [|n IH]; intros a v o w Hv Ho; cbn [trial_loop].
  - apply wlp_ret. lia.
  - apply wlp_bind. eapply wlp_mono; [apply trial_verified|]. intros [ov ve] w1; simpl.
    intros Hve. destruct ve; [rewrite Hve by done|];
      unfold PREFLIGHT_REQUIRED_STORE_OBSERVATIONS; split_tests.
    1: apply wlp_ret; lia.
    all: (eapply wlp_mono; [apply IH; lia|]); intros [[a' v'] o'] w2; lia.
Qed.

Lemma functional_preflight_spec c alloc w :
  wlp (functional_preflight c alloc) w (fun r _ =>
    match r with
    | Ok rep =>
        pr_backend rep = config_backend c /\
        pr_verified_store_wakes rep = PREFLIGHT_REQUIRED_STORE_OBSERVATIONS /\
        PREFLIGHT_REQUIRED_STORE_OBSERVATIONS <= pr_attempts rep
          <= Z.of_nat PREFLIGHT_STORE_ATTEMPTS /\
        PREFLIGHT_MIN_BLOCK <= pr_baseline_wait rep
    | Err e => exists reason, e = PreflightFailed (config_backend c) reason
    end).
Proof.
  unfold functional_preflight. apply wlp_bind; intros u w0; intros _.
  apply wlp_bind; intros bs w1; intros _.
  destruct (_ <? PREFLIGHT_MIN_BLOCK) eqn:E; [apply wlp_ret; eauto|].
  apply wlp_bind. eapply wlp_mono; [apply trial_loop_spec; unfold PREFLIGHT_REQUIRED_STORE_OBSERVATIONS; lia|].
  intros [[a1 v1] o1] w2 (Hv & Ho & Ha). apply wlp_ret. unfold conclude_preflight.
  destruct (o1 =? 0); [eauto|]. destruct (v1 <? _) eqn:Ev; [eauto|].
  cbn [pr_backend pr_attempts pr_verified_store_wakes pr_baseline_wait].
  apply Z.ltb_ge in E, Ev. split_and!; [done|lia..|done].
Qed.

(** The probe returns from every world: it has no unbounded loop. *)
Lemma total_hardware_wait {A} `{WaitableAtomic A} c (a : A) e d : always (hardware_wait c a e d).
Proof. intros w. eapply wp_is_Some, hardware_wait_sound. Qed.

Lemma total_wait_once c target handoff : always (preflight_wait_once c target handoff).
Proof.
  unfold preflight_wait_once, Amd.monitorx, Amd.mwaitx, Intel.umonitor, Intel.umwait_c01,
    umwait_deadline, read_tsc_ordered.
  total_tac.
Qed.

Lemma total_trial_loop n c alloc t a v o : always (trial_loop n c alloc t a v o).
Proof.
  pose proof (total_wait_once c).
  revert a v o. induction n as [|n IH]; intros a v o; cbn [trial_loop]; [apply total_ret|].
  apply total_bind; [unfold trial; total_tac|]. intros [[] []]; simpl; total_tac.
Qed.

Lemma total_repeat {B} n (m : M B) : always m -> always (repeat_m n m).
Proof. intros Hm. induction n; simpl; total_tac. Qed.

Lemma functional_preflight_total c alloc : always (functional_preflight c alloc).
Proof.
  unfold functional_preflight. apply total_bind; [intros w; by eexists|]. intros _.
  apply total_bind.
  { apply total_repeat, total_bind; [apply total_prim|intros started].
    apply total_bind; [apply total_hardware_wait|intros _].
    apply total_bind; [apply total_prim|intros t; apply total_ret]. }
  intros bs. destruct (_ <? PREFLIGHT_MIN_BLOCK); [apply total_ret|].
  apply total_bind; [apply total_trial_loop|]. intros [[a v] o]. apply total_ret.
Qed.

(** ** The process-wide state *)

Lemma initialize_once_set {T} state (init : M (outcome (result T HardwareWaitError))) w :
  wlp (initialize_once state init) w (fun p _ => p.2 = Some p.1).
Proof.
  unfold initialize_once. destruct state; [by apply wlp_ret|].
  apply wlp_bind. intros o w1 _. by apply wlp_ret.
Qed.

Lemma preflight_set state run w :
  wlp (preflight state run) w (fun p _ =>
    exists r, p.2 = Some r /\ p.1 = result_map ph_report r).
Proof.
  unfold preflight. apply wlp_bind. eapply wlp_mono; [apply initialize_once_set|].
  intros [r st] w1 Hst. apply wlp_ret. eauto.
Qed.

(** A successful probe: the configuration is the prepared one, and everything the preparation
    and the probe established holds. *)
Lemma run_hardware_preflight_spec fuel cpuid caps prctl alloc w :
  wlp (run_hardware_preflight fuel cpuid caps prctl alloc) w (fun r _ =>
    match r with
    | Ok p =>
        config_wf (ph_config p) /\ usable caps (config_backend (ph_config p)) /\
        Intel.userspace_tsc_is_enabled prctl = true /\
        pr_backend (ph_report p) = config_backend (ph_config p) /\
        pr_verified_store_wakes (ph_report p) = 2 /\ 2 <= pr_attempts (ph_report p) <= 16 /\
        PREFLIGHT_MIN_BLOCK <= pr_baseline_wait (ph_report p)
    | Err e => (exists reason, e = unsupported reason) \/
               exists b reason, e = PreflightFailed b reason
    end).
Proof.
  unfold run_hardware_preflight, prepare_and_probe_hardware_wait.
  apply wlp_bind. eapply wlp_mono.
  { apply prepare_spec; intros; [apply amd_calibrate_spec|apply intel_calibrate_spec]. }
  intros [c|e] w1; [|intros He; apply wlp_ret; by left]. intros (Hwf & Hu & Ht).
  apply wlp_bind. eapply wlp_mono; [apply functional_preflight_spec|].
  intros [rep|e] w2 Hr; apply wlp_ret; simpl; [|destruct Hr; eauto].
  destruct Hr as (Hb & Hv & Ha & Hm). unfold PREFLIGHT_REQUIRED_STORE_OBSERVATIONS,
    PREFLIGHT_STORE_ATTEMPTS in *. split_and!; try done; lia.
Qed.

(** ** The probe's own wait *)

(** A store to another address leaves the monitor covering [a]. *)
Lemma wp_store_other o a e b v w (Q : unit -> world -> Prop) :
  armed_ok a e w -> a <> b ->
  (forall w', armed_ok a e w' -> w_trace w' = EvStore o b v :: w_trace w -> Q tt w') ->
  wp (store o b v) w Q.
Proof.
  intros Harm Hne HQ. apply wp_prim. apply HQ; [|done].
  destruct (armed_ok_step a e 0 w w (advance w)) as (t & Hm & Hv);
    [done|apply reach_0|by apply reach_advance|done|].
  exists t. split; [done|]. destruct Hv as [->|Hv]; [by left|right].
  unfold w_val, mget in *. simpl. by rewrite lookup_insert_ne.
Qed.

(** A load while the monitor covers [a]: leave with a changed value, or go on. *)
Lemma wp_covered_load a w (k : M Z) (Q : Z -> world -> Prop) :
  armed_ok a 0 w ->
  (forall v w', w_trace w' = EvLoad Acquire a v :: w_trace w -> Q v w') ->
  (forall w' v, armed_ok a 0 w' -> w_trace w' = EvLoad Acquire a v :: w_trace w -> wp k w' Q) ->
  wp (observed ← load Acquire a; if negb (observed =? 0) then mret observed else k) w Q.
Proof.
  intros Harm HQ Hk. apply wp_bind. eapply wp_load; [apply reach_0|]. intros w1 Hr1 Hm1 Ht1.
  case_match; [apply wp_ret; by eapply HQ|]. eapply Hk; [|done].
  by eapply (armed_ok_step _ _ 0 w w w1).
Qed.

(** Arm, check, hand off, check again. *)
Lemma wp_arm_handoff target handoff w0 w (k : M Z) (Q : Z -> world -> Prop) :
  target <> handoff -> quiet w0 w ->
  (forall v w', quiet w0 w' -> (exists tr, w_trace w' = EvLoad Acquire target v :: tr) -> Q v w') ->
  (forall w', quiet w0 w' -> armed_ok target 0 w' -> wp k w' Q) ->
  wp (_ ← arm target;
      observed ← load Acquire target;
      if negb (observed =? 0) then mret observed
      else
        _ ← store Release handoff 1;
        observed ← load Acquire target;
        if negb (observed =? 0) then mret observed else k) w Q.
Proof.
  intros Hne Hq HQ Hk. apply wp_bind. eapply wp_arm; [apply reach_0|]. intros w1 Hr1 Hm1 Ht1.
  assert (Hq1 : quiet w0 w1) by (by eapply quiet_step).
  apply wp_bind. eapply wp_load; [apply reach_0|]. intros w2 Hr2 Hm2 Ht2.
  assert (Hq2 : quiet w0 w2) by (by eapply quiet_step).
  destruct (_ =? 0) eqn:E; bool_facts; simpl; [|apply wp_ret; eauto].
  apply wp_bind. eapply (wp_store_other _ target 0); [|done|].
  { destruct (advance_armed w1 _ false Hm1) as (t & Hm & _). exists t. split; [congruence|].
    right. by rewrite (reach_val _ _ _ _ Hr2). }
  intros w3 Harm3 Ht3. assert (Hq3 : quiet w0 w3) by (by eapply quiet_step).
  apply wp_covered_load; [done|..].
  - intros v w4 Ht4. apply HQ; [by eapply quiet_step|eauto].
  - intros w4 v Harm4 Ht4. apply Hk; [by eapply quiet_step|done].
Qed.

Lemma preflight_wait_once_spec c target handoff w :
  config_wf c -> target <> handoff ->
  wp (preflight_wait_once c target handoff) w (fun v w' =>
    hw_trace target 0 (operands_ok c) w w' /\
    exists tr, w_trace w' = EvLoad Acquire target v :: tr).
Proof.
  intros Hc Hne. apply wp_bind. eapply wp_load; [apply reach_0|]. intros w1 Hr1 _ Ht1.
  assert (Hq1 : quiet w w1) by (eapply quiet_step; [apply quiet_refl|done..]).
  case_match; [apply wp_ret; split; [by left|eauto]|].
  assert (Hlast : forall w2, hw_trace target 0 (operands_ok c) w w2 ->
    wp (load Acquire target) w2 (fun v w' => hw_trace target 0 (operands_ok c) w w' /\
      exists tr, w_trace w' = EvLoad Acquire target v :: tr)).
  { intros w2 Ht. eapply wp_load; [apply reach_0|]. intros w3 _ _ Ht3. split; [|eauto].
    eapply hw_trace_suffix; [done|]. eapply quiet_step; [apply quiet_refl|done..]. }
  destruct c as [c|c]; destruct Hc as [Hc Hhz];
    (apply (wp_arm_handoff target handoff w); [done|done|by intros v w2 Hq2 Ht2; split; [left|]|]);
    intros w2 Hq2 Harm2; apply wp_bind.
  - eapply wp_hw_wait; [apply reach_0|]. intros w3 _ Ht3. apply Hlast.
    eapply hw_trace_wait; [done|done|done|]. intros m mem t -> Ht. split; [by exists t|].
    split; [done|]. split; [done|]. rewrite Hc. simpl. split; [|lia]. apply duration_to_cycles_in.
  - apply wp_bind. eapply read_tsc_wp; [apply reach_0|].
    intros tsc aux w3 Hr3 Hm3 (cc & Ht3) Htsc. apply wp_ret. apply wp_bind.
    eapply wp_hw_wait; [apply reach_0|]. intros w4 _ Ht4. apply Hlast.
    eapply hw_trace_wait; [by eapply quiet_step| |done|].
    + by eapply (armed_ok_step _ _ 0 w2 w2 w3).
    + intros m mem t -> Ht. split; [by exists t|]. apply umwait_operands; [|done].
      rewrite Hc. simpl. split; [|lia]. apply duration_to_cycles_u64_in.
Qed.

(** ** The helper thread *)

(** Polling the handoff until it is set or the helper's deadline passes. *)
Lemma handoff_loop_spec f handoff deadline w :
  wlp (loop f (h ← load Acquire handoff;
               if negb (h =? 0) then mret (Some true)
               else t ← instant_now;
                    if deadline <=? t then mret (Some false) else _ ← spin_loop; mret None)) w
    (fun handed w' => exists n, reach n w w' /\
       if handed : bool then val_at w n handoff <> 0 else deadline <= now_at w n).
Proof.
  apply (loop_sound _ (fun w (handed : bool) w' => exists n, reach n w w' /\
    if handed then val_at w n handoff <> 0 else deadline <= now_at w n)).
  intros w1. apply wlp_bind, wp_wlp. eapply wp_load; [apply reach_0|]. intros w2 Hr2 _ _.
  destruct (_ =? 0) eqn:E; bool_facts; simpl; [|apply wlp_ret; eauto].
  apply wlp_bind, wp_wlp. eapply wp_now; [done|]. intros w3 Hr3 _ _.
  destruct (Z.leb_spec deadline (now_at w1 2)); [apply wlp_ret; eauto|].
  apply wlp_bind, wp_wlp. eapply wp_spin; [done|]. intros w4 Hr4 _. apply wlp_ret.
  intros handed w5 (n & Hr & Hn). exists (3 + n)%nat. split; [by eapply reach_trans|].
  rewrite <- (reach_val_at _ _ _ _ _ Hr4), <- (reach_now_at _ _ _ _ Hr4). done.
Qed.

Lemma delay_loop_spec f started delay w :
  wlp (loop f (t ← instant_now;
               if elapsed_since started t <? delay then _ ← spin_loop; mret None
               else mret (Some tt))) w
    (fun _ w' => exists n, reach n w w' /\ delay <= elapsed_since started (now_at w n)).
Proof.
  apply (loop_sound _ (fun w (_ : unit) w' => exists n, reach n w w' /\
    delay <= elapsed_since started (now_at w n))).
  intros w1. apply wlp_bind, wp_wlp. eapply wp_now; [apply reach_0|]. intros w2 Hr2 _ _.
  destruct (Z.ltb_spec (elapsed_since started (now_at w1 1)) delay); [|apply wlp_ret; eauto].
  apply wlp_bind, wp_wlp. eapply wp_spin; [done|]. intros w3 Hr3 _. apply wlp_ret.
  intros u w4 (n & Hr & Hn). exists (2 + n)%nat. split; [by eapply reach_trans|].
  by rewrite <- (reach_now_at _ _ _ _ Hr3).
Qed.

(** The helper stores to the target at most once, only after it has seen the handoff and
    waited the producer delay, and then reports a time not before the store; it gives up
    only when its deadline has passed. *)
Lemma preflight_helper_spec f target handoff delay w :
  wlp (preflight_helper f target handoff delay) w (fun r w' =>
    match r with
    | Some published => exists i n, (0 < i < n)%nat /\ val_at w i handoff <> 0 /\
        delay <= Z.max 0 (now_at w n - now_at w i) /\
        w_sys w' = sys_step (sys_write target 1 (sys_at w n)) /\
        published = s_now (w_sys w')
    | None => exists n, reach n w w' /\ now_at w 1 + PREFLIGHT_HELPER_DEADLINE <= now_at w n
    end).
Proof.
  apply wlp_bind, wp_wlp. eapply wp_now; [apply reach_0|]. intros w1 Hr1 _ _.
  apply wlp_bind. eapply wlp_mono; [apply handoff_loop_spec|]. intros handed w2 (n & Hr2 & Hh).
  pose proof (reach_trans _ _ _ _ _ Hr1 Hr2) as Hr12.
  destruct handed; simpl.
  2: { apply wlp_ret. exists (1 + n)%nat. split; [done|].
       rewrite (reach_now_at _ _ _ _ Hr1) in Hh. done. }
  rewrite (reach_val_at _ _ _ _ _ Hr1) in Hh.
  apply wlp_bind, wp_wlp. eapply wp_now; [done|]. intros w3 Hr3 _ _.
  apply wlp_bind. eapply wlp_mono; [apply delay_loop_spec|]. intros u w4 (m & Hr4 & Hd).
  apply wlp_bind. apply wp_wlp. apply wp_prim. apply wlp_bind, wp_wlp, wp_prim. apply wlp_ret.
  rewrite (reach_now_at _ _ _ _ Hr3) in Hd. unfold elapsed_since, sat_sub in Hd.
  pose proof (reach_trans _ _ _ _ _ Hr3 Hr4) as Hr34.
  exists (1 + n)%nat, (S (S (1 + n) + m)). split; [lia|]. split; [done|]. split.
  - pose proof (now_at_mono w (1 + n) (S (1 + n))).
    pose proof (now_at_mono w (S (1 + n) + m) (S (S (1 + n) + m))). lia.
  - pose proof (reach_advance w w4 _ Hr34) as Hra. unfold reach in Hra. simpl in Hra.
    simpl. rewrite Hra. done.
Qed.

(** ** The properties *)

(** C34: The process-wide preflight runs at most once and everybody sees its result. Whatever
    a call to preflight returns, the OnceLock is set afterwards to a result with that
    report; every later call, with any initializer, returns the same and performs
    nothing; a call on an initialized state leaves state and world unchanged; an
    initializer that panics is cached as PreflightPanicked. The constructors answer
    PreflightRequired before the first call, afterwards they succeed exactly when the preflight did and
    fail with its error. *)
Theorem preflight_gate (state state' : preflight_state)
    (run : M (outcome (result PreparedHardwareWait HardwareWaitError)))
    (r : result PreflightReport HardwareWaitError) (w w' : world) (spins : Z) :
  preflight state run w = Some ((r, state'), w') ->
  (forall run2 w2, preflight state' run2 w2 = Some ((r, state'), w2)) /\
  (state <> None -> state' = state /\ w' = w) /\
  (forall w1, state = None -> run w = Some (Panicked, w1) -> r = Err PreflightPanicked) /\
  (exists cached, state' = Some cached /\ r = result_map ph_report cached /\
     hardware_wait_new state' = result_map (fun p => mkHardwareWait (ph_config p)) cached /\
     spin_then_hardware_wait_new state' spins =
       result_map (fun p => mkSpinThenHardwareWait spins (mkHardwareWait (ph_config p))) cached) /\
  hardware_wait_new None = Err PreflightRequired /\
  spin_then_hardware_wait_new None spins = Err PreflightRequired.
Proof.
  intros Hrun. destruct (preflight_set state run w _ _ Hrun) as (cached & Hst & Hr).
  simpl in Hst, Hr. subst state' r. split; [intros; reflexivity|]. split.
  { intros Hne. destruct state; [|done]. unfold preflight, mbind, M_bind in Hrun.
    unfold initialize_once, mret, M_ret in Hrun. by simplify_eq. }
  split.
  { intros w1 -> Hp. unfold preflight, initialize_once, mbind, M_bind in Hrun.
    rewrite Hp in Hrun. unfold mret, M_ret in Hrun. by simplify_eq/=. }
  split; [|done]. exists cached. by destruct cached.
Qed.

Definition demo_config : HardwareConfig := AmdCfg (amd_config_new 3000000000).
Definition demo_prepared : PreparedHardwareWait :=
  mkPrepared demo_config (mkReport AmdMwaitx 2 2 900000).
Definition empty_world : world := start_world ∅ (schedule 0 []).

Lemma preflight_gate_witness :
  preflight None (mret (Returned (Ok demo_prepared))) empty_world
    = Some ((Ok (ph_report demo_prepared), Some (Ok demo_prepared)), empty_world) /\
  preflight (Some (Ok demo_prepared)) (mret Panicked) empty_world
    = Some ((Ok (ph_report demo_prepared), Some (Ok demo_prepared)), empty_world).
Proof.
  split; [reflexivity|].
  refine (proj1 (preflight_gate None (Some (Ok demo_prepared)) (mret (Returned (Ok demo_prepared)))
    (Ok (ph_report demo_prepared)) empty_world empty_world 0 _) (mret Panicked) empty_world).
  reflexivity.
Defined.

(** [HardwareWait::preflight()] with the real initializer. *)
Definition process_preflight (fuel : nat) (cpuid : Cpuid) (prctl : Z * Z) (alloc : Z -> Z * Z)
    (state : preflight_state) : M (result PreflightReport HardwareWaitError * preflight_state) :=
  preflight state
    (r ← run_hardware_preflight fuel cpuid (detect_capabilities cpuid) prctl alloc;
     mret (Returned r)).


(** A processor that passes: AMD with all features, a 3 GHz counter read in 1 ms slots
    during calibration and baseline, a helper that answers at once afterwards. *)
Definition amd_cpuid : Cpuid := fun leaf _ =>
  if leaf =? 0 then mkCpuid 13 Amd.VENDOR_EBX Amd.VENDOR_ECX Amd.VENDOR_EDX
  else if leaf =? EXTENDED_CPUID_BASE then mkCpuid 0x80000020 0 0 0
  else if leaf =? EXTENDED_FEATURES_LEAF then mkCpuid 0 0 Amd.MONITORX_MWAITX_BIT RDTSCP_BIT
  else mkCpuid 0 0 0 INVARIANT_TSC_BIT.
Definition probe_alloc (k : Z) : Z * Z := (10 * k, 10 * k + 5).
Definition probe_schedule (slow : nat) (n : nat) : tick :=
  if (n <? slow)%nat then Tick [] 1000000 (3000000 * Z.of_nat n, 0) None
  else Tick [EnvStore 10 1; EnvStore 20 1] 1 (0, 0) (Some (Some 0)).
Definition probe_world : world := start_world ∅ (probe_schedule 61).



(** The probe's own wait cannot miss the helper's store: it returns what its last
    operation loaded from the target, and it enters the wait instruction at most once, with
    the monitor armed on the target and either triggered or the target still zero, although
    it announces itself to the helper after arming. *)
Theorem preflight_wait_once_correct (c : HardwareConfig) (target handoff : Z) (w : world) :
  config_wf c -> target <> handoff ->
  exists v w', preflight_wait_once c target handoff w = Some (v, w') /\
    hw_trace target 0 (operands_ok c) w w' /\
    exists tr, w_trace w' = EvLoad Acquire target v :: tr.
Proof. exact (preflight_wait_once_spec c target handoff w). Qed.

Lemma preflight_wait_once_correct_witness :
  exists v w', preflight_wait_once demo_config 10 15 empty_world = Some (v, w') /\
    hw_trace 10 0 (operands_ok demo_config) empty_world w' /\
    exists tr, w_trace w' = EvLoad Acquire 10 v :: tr.
Proof.
  apply (preflight_wait_once_correct demo_config 10 15 empty_world); [|lia].
  split; [reflexivity|]. unfold u64_max. simpl. lia.
Defined.

(** The helper publishes at most once and never early: if it reports a publication time,
    it had seen the handoff, waited at least the producer delay, then stored 1 to the
    target, and the time is a clock read after that store; if it reports none it wrote
    nothing and its 20 ms deadline had passed. *)
Theorem preflight_helper_correct (f : nat) (target handoff delay : Z) (w w' : world)
    (r : option Z) :
  preflight_helper f target handoff delay w = Some (r, w') ->
  match r with
  | Some published => exists i n, (0 < i < n)%nat /\ val_at w i handoff <> 0 /\
      delay <= Z.max 0 (now_at w n - now_at w i) /\
      w_sys w' = sys_step (sys_write target 1 (sys_at w n)) /\
      published = s_now (w_sys w')
  | None => exists n, reach n w w' /\ now_at w 1 + PREFLIGHT_HELPER_DEADLINE <= now_at w n
  end.
Proof. intros Hrun. exact (preflight_helper_spec f target handoff delay w r w' Hrun). Qed.

(** The consumer's handoff as the helper sees it: set in the third slot. *)
Definition handoff_world : world :=
  start_world ∅ (schedule 1000
    [ops_tick 1000 []; ops_tick 1000 []; ops_tick 1000 [EnvStore 15 1]]).

Lemma preflight_helper_correct_witness :
  exists t w', preflight_helper 9 10 15 1000 handoff_world = Some (Some t, w') /\
    exists i, val_at handoff_world i 15 <> 0.
Proof.
  eexists _, _. split; [vm_compute; reflexivity|].
  refine (_ (preflight_helper_correct 9 10 15 1000 handoff_world _ (Some _) _));
    [|vm_compute; reflexivity].
  intros (i & n & _ & Hv & _). exists i. exact Hv.
Defined.

(** The choice of the backend is decided by the processor alone and agrees with its
    specification: a backend is selected exactly when the target is supported, exactly one
    vendor is present and that vendor's wait instruction exists, and then it is that vendor's; each
    refusal names the first missing fact. *)
Theorem select_backend_table (d : Capabilities) :
  match select_backend d with
  | Ok AmdMwaitx => supported_target d && amd_vendor d && negb (intel_vendor d) && monitorx_mwaitx d = true
  | Ok IntelUmwait => supported_target d && intel_vendor d && negb (amd_vendor d) && waitpkg d = true
  | Err UnsupportedTarget => supported_target d = false
  | Err UnsupportedCpuVendor => supported_target d = true /\ amd_vendor d = intel_vendor d
  | Err MissingMonitorxMwaitx =>
      supported_target d && amd_vendor d && negb (intel_vendor d) && negb (monitorx_mwaitx d) = true
  | Err MissingWaitpkg =>
      supported_target d && intel_vendor d && negb (amd_vendor d) && negb (waitpkg d) = true
  | Err _ => False
  end.
Proof.
  unfold select_backend. destruct d as [[] [] [] [] [] ? ?]; simpl; done.
Qed.
