(* ===== verification/Parker.v ===== *)
(** * Parking and unparking (src/src/parker.rs)

    A pair shares one token word. The consumer's four park operations are
    modelled over any lawful wait strategy ([StrategyLaws], the interface of Strategy.v);
    the producers' unpark operations are steps of the environment, so every
    interleaving of unparks with the consumer's loads, waits and compare-exchange
    is covered. The abstract contract is a mailbox that holds at most one token
    ([box_run]); [session] runs any sequence of park operations and refines it. *)

From S2P Require Import Prelude Machine Errors Strategy.

Definition EMPTY_TOKEN : Z := 0.
Definition NOTIFIED_TOKEN : Z := 1.

(** ** Data *)

Record Shared := mkShared { sh_token : AtomicU32 }.

Inductive ParkResult := PR_Notified | PR_Unclassified.
Inductive ParkTimeoutResult := PT_Notified | PT_Unclassified | PT_TimedOut.
Inductive NotificationTimeoutResult := NT_Notified | NT_TimedOut.

#[export] Instance ParkResult_eq_dec : EqDecision ParkResult.
Proof. solve_decision. Defined.
#[export] Instance ParkTimeoutResult_eq_dec : EqDecision ParkTimeoutResult.
Proof. solve_decision. Defined.
#[export] Instance NotificationTimeoutResult_eq_dec : EqDecision NotificationTimeoutResult.
Proof. solve_decision. Defined.

Record ParkerCore (St : Type) := mkCore { core_shared : Shared; core_strategy : St }.
Arguments mkCore {St} _ _.
Arguments core_shared {St} _.
Arguments core_strategy {St} _.

Record SingleParker (St : Type) := mkSingleParker { single_core : ParkerCore St }.
Record MultiParker (St : Type) := mkMultiParker { multi_core : ParkerCore St }.
Arguments mkSingleParker {St} _.
Arguments single_core {St} _.
Arguments mkMultiParker {St} _.
Arguments multi_core {St} _.
Record SingleUnparker := mkSingleUnparker { su_shared : Shared }.
Record MultiUnparker := mkMultiUnparker { mu_shared : Shared }.

(** The token's address. *)
Definition token_addr (sh : Shared) : Z := u32_ptr (sh_token sh).
Definition tok {St} (c : ParkerCore St) : Z := token_addr (core_shared c).

(** ** Construction; [a] is the address the allocator gives the token *)

Definition single_pair {St} (a : Z) (strategy : St) : M (SingleParker St * SingleUnparker) :=
  _ ← new_cell a EMPTY_TOKEN;
  let shared := mkShared (mkAtomicU32 a) in
  mret (mkSingleParker (mkCore shared strategy), mkSingleUnparker shared).

Definition multi_pair {St} (a : Z) (strategy : St) : M (MultiParker St * MultiUnparker) :=
  _ ← new_cell a EMPTY_TOKEN;
  let shared := mkShared (mkAtomicU32 a) in
  mret (mkMultiParker (mkCore shared strategy), mkMultiUnparker shared).

(** ** Producers: [unpark] as an operation of the environment *)

Definition single_unpark (u : SingleUnparker) : env_op :=
  EnvStore (token_addr (su_shared u)) NOTIFIED_TOKEN.

Definition publish_token (a notification_bits : Z) : env_op := EnvFetchOr a notification_bits.

Definition multi_unpark (u : MultiUnparker) : env_op :=
  publish_token (token_addr (mu_shared u)) NOTIFIED_TOKEN.

(** ** The consumer *)

Section core.
Context {St : Type} `{StrategyImpl St}.

Definition take_notification (c : ParkerCore St) : M bool :=
  v ← load Relaxed (tok c);
  if negb (v =? NOTIFIED_TOKEN) then mret false
  else compare_exchange (tok c) NOTIFIED_TOKEN EMPTY_TOKEN Acquire Relaxed.

Definition park (fuel : nat) (c : ParkerCore St) : M ParkResult :=
  t ← take_notification c;
  if t : bool then mret PR_Notified
  else
    _ ← wait_if_equal fuel (core_strategy c) (sh_token (core_shared c)) EMPTY_TOKEN;
    t ← take_notification c;
    mret (if t : bool then PR_Notified else PR_Unclassified).

Definition park_until_notified (fuel : nat) (c : ParkerCore St) : M unit :=
  t ← take_notification c;
  if t : bool then mret tt
  else
    _ ← wait_until_different fuel (core_strategy c) (sh_token (core_shared c)) EMPTY_TOKEN;
    consumed ← take_notification c;
    debug_assert consumed.

Definition park_timeout (fuel : nat) (c : ParkerCore St) (timeout : Z) : M ParkTimeoutResult :=
  t ← take_notification c;
  if t : bool then mret PT_Notified
  else
    wait_result ←
      wait_if_equal_timeout fuel (core_strategy c) (sh_token (core_shared c)) EMPTY_TOKEN timeout;
    t ← take_notification c;
    if t : bool then mret PT_Notified
    else mret (match wait_result with
               | WT_TimedOut => PT_TimedOut
               | WT_Changed _ | WT_Unclassified => PT_Unclassified
               end).

Definition park_until_notified_timeout (fuel : nat) (c : ParkerCore St) (timeout : Z)
    : M NotificationTimeoutResult :=
  t ← take_notification c;
  if t : bool then mret NT_Notified
  else
    r ← wait_until_different_timeout fuel (core_strategy c) (sh_token (core_shared c))
          EMPTY_TOKEN timeout;
    match r with
    | WU_Changed _ =>
        consumed ← take_notification c;
        _ ← debug_assert consumed;
        mret NT_Notified
    | WU_TimedOut =>
        t ← take_notification c;
        mret (if t : bool then NT_Notified else NT_TimedOut)
    end.
End core.

(** ** The public handles: impl_parker! gives SingleParker and MultiParker the same methods *)

Class ParkerHandle (P : Type -> Type) := handle_core : forall {St}, P St -> ParkerCore St.
#[export] Instance single_parker_handle : ParkerHandle SingleParker := fun St p => single_core p.
#[export] Instance multi_parker_handle : ParkerHandle MultiParker := fun St p => multi_core p.

Section handles.
Context {P : Type -> Type} `{ParkerHandle P} {St : Type} `{StrategyImpl St}.

Definition parker_strategy (p : P St) : St := core_strategy (handle_core p).
Definition parker_park (fuel : nat) (p : P St) : M ParkResult := park fuel (handle_core p).
Definition parker_park_until_notified (fuel : nat) (p : P St) : M unit :=
  park_until_notified fuel (handle_core p).
Definition parker_park_timeout (fuel : nat) (p : P St) (timeout : Z) : M ParkTimeoutResult :=
  park_timeout fuel (handle_core p) timeout.
Definition parker_park_until_notified_timeout (fuel : nat) (p : P St) (timeout : Z)
    : M NotificationTimeoutResult :=
  park_until_notified_timeout fuel (handle_core p) timeout.
End handles.

(** ** What producers may do *)

(** Every operation on the token's address is an unpark. *)
Definition is_unpark (a : Z) (op : env_op) : Prop :=
  op = EnvStore a NOTIFIED_TOKEN \/ op = EnvFetchOr a NOTIFIED_TOKEN.

Definition producers_ok (a : Z) (s : sys) : Prop :=
  forall p op, op ∈ tk_ops (s_sched s p) -> op_addr op = a -> is_unpark a op.

Definition token_val (v : Z) : Prop := v = EMPTY_TOKEN \/ v = NOTIFIED_TOKEN.

Definition token_inv (a : Z) (s : sys) : Prop :=
  token_val (mget (s_mem s) a) /\ producers_ok a s.

(** The handles' operations are unparks in this sense. *)
Lemma single_unpark_is_unpark u : is_unpark (token_addr (su_shared u)) (single_unpark u).
Proof. by left. Qed.
Lemma multi_unpark_is_unpark u : is_unpark (token_addr (mu_shared u)) (multi_unpark u).
Proof. by right. Qed.

(** What a list of producer operations does to the token: set, once there is any of them. *)
Lemma mem_apply_token a ops m :
  (forall op, op ∈ ops -> op_addr op = a -> is_unpark a op) -> token_val (mget m a) ->
  mget (mem_apply m ops) a =
    if existsb (fun op => op_addr op =? a) ops then NOTIFIED_TOKEN else mget m a.
Proof.
  revert m. induction ops as [|op ops IH]; intros m Hops Hv; [done|]. cbn [mem_apply foldl existsb].
  assert (Hops' : forall op, op ∈ ops -> op_addr op = a -> is_unpark a op).
  { intros op' Hin. apply Hops. by apply list_elem_of_further. }
  destruct (op_addr op =? a) eqn:E; bool_facts; simpl.
  - assert (Hset : mget (op_apply m op) a = NOTIFIED_TOKEN).
    { destruct (Hops op) as [->| ->]; [apply list_elem_of_here|done|..]; unfold mget; simpl;
        rewrite lookup_insert_eq; simpl; [done|]. by destruct Hv as [Hv|Hv]; unfold mget in *; rewrite Hv. }
    unfold mem_apply in IH. rewrite IH, Hset by (done || (rewrite Hset; by right)).
    by case_match.
  - unfold mem_apply in IH. rewrite IH, op_apply_other by (done || by rewrite op_apply_other).
    done.
Qed.

(** The token is always empty or notified, and only the consumer empties it. *)
Lemma token_step a s :
  token_inv a s ->
  token_inv a (sys_step s) /\
  (mget (s_mem s) a = NOTIFIED_TOKEN -> mget (s_mem (sys_step s)) a = NOTIFIED_TOKEN).
Proof.
  intros [Hv Hp]. unfold sys_step. cbn [s_mem].
  pose proof (mem_apply_token a (tk_ops (cur_tick s)) (s_mem s) (Hp (s_pos s)) Hv) as Hm.
  split; [split; [|done]|]; cbn [s_mem]; rewrite Hm; case_match; first [done | by right].
Qed.

Lemma token_iter a s n :
  token_inv a s ->
  token_inv a (sys_iter n s) /\
  (mget (s_mem s) a = NOTIFIED_TOKEN -> mget (s_mem (sys_iter n s)) a = NOTIFIED_TOKEN).
Proof.
  intros Hs. induction n as [|n [IH1 IH2]]; [done|]. rewrite sys_iter_S.
  destruct (token_step _ _ IH1) as [H1 H2]. auto.
Qed.

Lemma token_at a w n : token_inv a (w_sys w) -> token_val (val_at w n a).
Proof. intros Hs. by apply token_iter with (n := n) in Hs as [[Hv _] _]. Qed.

(** A posted token stays until it is taken. *)
Lemma token_persists a w n k :
  token_inv a (w_sys w) -> (n <= k)%nat ->
  val_at w n a = NOTIFIED_TOKEN -> val_at w k a = NOTIFIED_TOKEN.
Proof.
  intros Hs Hk Hn. unfold val_at, sys_at in *. replace k with (n + (k - n))%nat by lia.
  rewrite sys_iter_add. apply token_iter; [by apply token_iter|done].
Qed.

Lemma token_write_inv a s : token_inv a s -> token_inv a (sys_write a EMPTY_TOKEN s).
Proof.
  intros [_ Hp]. split; [|done]. left. unfold mget. simpl. by rewrite lookup_insert_eq.
Qed.

(** A fresh pair establishes the invariant: the token starts empty. *)
Lemma single_pair_inv {St} a (st : St) w :
  producers_ok a (w_sys w) ->
  wlp (single_pair a st) w (fun p w' =>
    token_inv (tok (single_core p.1)) (w_sys w') /\ core_shared (single_core p.1) = su_shared p.2).
Proof.
  intros Hp p w' [= <- <-]. split; [|done]. split; [|done]. left.
  unfold mget. simpl. by rewrite lookup_insert_eq.
Qed.

Lemma multi_pair_inv {St} a (st : St) w :
  producers_ok a (w_sys w) ->
  wlp (multi_pair a st) w (fun p w' =>
    token_inv (tok (multi_core p.1)) (w_sys w') /\ core_shared (multi_core p.1) = mu_shared p.2).
Proof.
  intros Hp p w' [= <- <-]. split; [|done]. split; [|done]. left.
  unfold mget. simpl. by rewrite lookup_insert_eq.
Qed.

(** ** What a park operation leaves behind *)

(** The call took the token: at tick [n] it was present, and emptying it is the
    only write of the call. *)
Definition took (a : Z) (w w' : world) : Prop :=
  exists n, (0 < n)%nat /\ val_at w n a = NOTIFIED_TOKEN /\
    w_sys w' = sys_write a EMPTY_TOKEN (sys_at w n).

(** The call wrote nothing and its last operation found the token empty. *)
Definition found_empty (a : Z) (w w' : world) : Prop :=
  exists n, (0 < n)%nat /\ reach n w w' /\ val_at w n a = EMPTY_TOKEN.

Definition park_post (a : Z) (w : world) (notified : bool) (w' : world) : Prop :=
  if notified then took a w w' else found_empty a w w'.

Lemma park_post_shift a k w w1 b w2 : reach k w w1 -> park_post a w1 b w2 -> park_post a w b w2.
Proof.
  intros Hr. destruct b; simpl.
  - intros (n & Hn & Hv & Hs). exists (k + n)%nat. split; [lia|].
    split; [by rewrite <- (reach_val_at _ _ _ _ _ Hr)|].
    rewrite Hs. unfold sys_at. rewrite sys_iter_add. unfold reach, sys_at in Hr. by rewrite Hr.
  - intros (n & Hn & Hr2 & Hv). exists (k + n)%nat. split; [lia|].
    split; [by eapply reach_trans|]. by rewrite <- (reach_val_at _ _ _ _ _ Hr).
Qed.

Section core_specs.
Context {St : Type} `{StrategyImpl St}.
Implicit Types (c : ParkerCore St) (w : world).

(** Taking decides by the token at its first load, and the compare-exchange cannot fail. *)
Lemma wp_take c w (Q : bool -> world -> Prop) :
  token_inv (tok c) (w_sys w) ->
  (forall w' tr, val_at w 1 (tok c) = NOTIFIED_TOKEN ->
     w_sys w' = sys_write (tok c) EMPTY_TOKEN (sys_at w 2) ->
     w_trace w' = EvCas Acquire (tok c) true :: EvLoad Relaxed (tok c) NOTIFIED_TOKEN :: tr ->
     tr = w_trace w -> Q true w') ->
  (forall w', val_at w 1 (tok c) = EMPTY_TOKEN -> reach 1 w w' ->
     w_trace w' = EvLoad Relaxed (tok c) EMPTY_TOKEN :: w_trace w -> Q false w') ->
  wp (take_notification c) w Q.
Proof.
  intros Hinv Ht Hf. apply wp_bind. eapply wp_load; [apply reach_0|]. intros w1 Hr1 _ Ht1.
  destruct (token_at (tok c) w 1 Hinv) as [Hv|Hv]; rewrite Hv in *; simpl.
  - apply wp_ret. auto.
  - assert (Hr2 : reach 2 w (advance w1)) by (by apply reach_advance).
    assert (Hv2 : w_val (advance w1) (tok c) = NOTIFIED_TOKEN).
    { rewrite (reach_val _ _ _ _ Hr2). eapply (token_persists _ _ 1); [done|lia|done]. }
    apply wp_prim. rewrite Hv2. simpl. eapply Ht; [done| |cbn; by rewrite Ht1|done].
    cbn. f_equal. exact Hr2.
Qed.

Lemma take_post c w :
  token_inv (tok c) (w_sys w) ->
  wp (take_notification c) w (park_post (tok c) w).
Proof.
  intros Hinv. apply wp_take; [done|..].
  - intros w' tr Hv Hs _ _. exists 2%nat. split; [lia|].
    split; [|done]. eapply (token_persists _ _ 1); [done|lia|done].
  - intros w' Hv Hr _. exists 1%nat. auto.
Qed.

(** The invariant at a later tick. *)
Lemma token_inv_reach c n w w1 :
  token_inv (tok c) (w_sys w) -> reach n w w1 -> token_inv (tok c) (w_sys w1).
Proof. intros Hinv ->. by apply token_iter. Qed.

(** The final check after a wait that ended [n] ticks into the call. *)
Lemma take_post_later c n w w1 :
  token_inv (tok c) (w_sys w) -> reach n w w1 ->
  wp (take_notification c) w1 (park_post (tok c) w).
Proof.
  intros Hinv Hr. eapply wp_mono; [apply take_post; by eapply token_inv_reach|].
  intros b w2. by eapply park_post_shift.
Qed.

(** After the wait has seen a change, the take succeeds. *)
Lemma take_after_change c n w w1 :
  token_inv (tok c) (w_sys w) -> reach n w w1 -> val_at w n (tok c) <> EMPTY_TOKEN ->
  wp (take_notification c) w1 (fun b w2 => b = true /\ took (tok c) w w2).
Proof.
  intros Hinv Hr Hne.
  assert (Hn : val_at w n (tok c) = NOTIFIED_TOKEN) by (by destruct (token_at (tok c) w n Hinv)).
  apply wp_take; [by eapply token_inv_reach| |].
  - intros w2 tr Hv Hs _ _. split; [done|].
    apply (park_post_shift _ n w w1 true); [done|]. exists 2%nat. split; [lia|].
    split; [|done]. eapply (token_persists _ _ 1); [by eapply token_inv_reach|lia|done].
  - intros w2 Hv _ _. rewrite (reach_val_at _ _ _ _ _ Hr) in Hv.
    rewrite (token_persists _ _ n) in Hv; [done|done|lia|done].
Qed.
End core_specs.

(** The only debug_assert of a park operation is its last step: it did not fail. *)
Definition assert_held (w' : world) : Prop := head (w_trace w') <> Some (EvAssert false).

(** The token was found empty by the last operation, and at least [timeout] passed during the
    call. *)
Definition timed_out (a timeout : Z) (w w' : world) : Prop :=
  exists n, (0 < n)%nat /\ reach n w w' /\ val_at w n a = EMPTY_TOKEN /\
    timeout <= now_at w n - now_at w 0.

Section park_specs.
Context {St : Type} `{StrategyLaws St}.
Implicit Types (c : ParkerCore St) (w : world).

Lemma raw_post_reach a e d w r w' : raw_post a e d w r w' -> exists n, reach n w w'.
Proof. intros (i & n & _ & Hr & _). eauto. Qed.

(** Every park operation first tries to take a token; it goes on only if there is none. *)
Lemma wlp_try_take {B} c w (ready : M B) (k : M B) (Q : B -> world -> Prop) :
  token_inv (tok c) (w_sys w) ->
  (forall w1, took (tok c) w w1 -> assert_held w1 -> wlp ready w1 Q) ->
  (forall w1, reach 1 w w1 -> wlp k w1 Q) ->
  wlp (t ← take_notification c; if t : bool then ready else k) w Q.
Proof.
  intros Hinv Hready Hk. apply wlp_bind, wp_wlp, wp_take; [done|..].
  - intros w1 tr Hv Hs Ht _. apply Hready; [|unfold assert_held; by rewrite Ht].
    exists 2%nat. split; [lia|]. split; [|done]. eapply (token_persists _ _ 1); [done|lia|done].
  - auto.
Qed.

(** The last check, whose outcome is the result of the call. *)
Lemma wlp_last_take {B} c n w w1 (k : bool -> B) (Q : B -> world -> Prop) :
  token_inv (tok c) (w_sys w) -> reach n w w1 ->
  (forall b w2, park_post (tok c) w b w2 -> Q (k b) w2) ->
  wlp (t ← take_notification c; mret (k t)) w1 Q.
Proof.
  intros Hinv Hr HQ. apply wlp_bind, wp_wlp. eapply wp_mono; [by eapply take_post_later|].
  intros b w2 Hp. apply wlp_ret. auto.
Qed.

Lemma park_spec f c w :
  token_inv (tok c) (w_sys w) ->
  wlp (park f c) w (fun r w' => park_post (tok c) w (bool_decide (r = PR_Notified)) w').
Proof.
  intros Hinv. apply wlp_try_take; [done|..].
  - intros w1 Ht _. by apply wlp_ret.
  - intros w1 Hr1. apply wlp_bind, wlp_bind. eapply wlp_mono; [apply untimed_sound|].
    intros r w2 [n Hr2]%raw_post_reach. apply wlp_ret.
    eapply wlp_last_take; [done|by eapply reach_trans|]. by intros [] w3.
Qed.

Lemma park_until_notified_spec f c w :
  token_inv (tok c) (w_sys w) ->
  wlp (park_until_notified f c) w (fun _ w' => took (tok c) w w' /\ assert_held w').
Proof.
  intros Hinv. apply wlp_try_take; [done|..].
  - intros w1 Ht Ha. by apply wlp_ret.
  - intros w1 Hr1. apply wlp_bind. eapply wlp_mono; [apply wait_until_different_spec|].
    intros v w2 (n & Hn & Hr2 & Hne & Hv & _).
    apply wlp_bind, wp_wlp. eapply wp_mono; [eapply (take_after_change c (1 + n) w w2)|].
    + done.
    + by eapply reach_trans.
    + rewrite <- (reach_val_at _ _ _ _ _ Hr1). cbn in Hv. unfold tok, token_addr. congruence.
    + intros b w3 [-> Ht] u w4 [= <- <-]. split; [|done].
      destruct Ht as (k & Hk). by exists k.
Qed.

(** After a timed wait: what its timeout means for the whole call. *)
Lemma timed_out_later c timeout w w1 w2 w3 :
  0 <= timeout -> reach 1 w w1 ->
  observed_timeout (tok c) EMPTY_TOKEN timeout w1 w2 ->
  found_empty (tok c) w2 w3 -> timed_out (tok c) timeout w w3.
Proof.
  intros Ht Hr1 (i & j & n & Hi & Hj & Hr2 & Hv & Hel) (k & Hk & Hr3 & Hv3).
  pose proof (reach_trans _ _ _ _ _ Hr1 Hr2) as Hr12.
  exists (1 + n + k)%nat. split; [lia|]. split; [by eapply reach_trans|].
  rewrite <- (reach_val_at _ _ _ _ _ Hr12). split; [done|].
  rewrite !(reach_now_at _ _ _ _ Hr1) in Hel.
  pose proof (now_at_mono w 0 (1 + 1)). pose proof (now_at_mono w (1 + j) (1 + n + k)). lia.
Qed.

Lemma park_timeout_spec f c timeout w :
  0 <= timeout -> token_inv (tok c) (w_sys w) ->
  wlp (park_timeout f c timeout) w (fun r w' =>
    match r with
    | PT_Notified => took (tok c) w w'
    | PT_Unclassified => found_empty (tok c) w w'
    | PT_TimedOut => timed_out (tok c) timeout w w'
    end).
Proof.
  intros Ht Hinv. apply wlp_try_take; [done|..].
  - intros w1 Htk _. by apply wlp_ret.
  - intros w1 Hr1. apply wlp_bind. eapply wlp_mono; [apply wait_if_equal_timeout_spec|].
    intros r w2 Hp. destruct (raw_post_reach _ _ _ _ _ _ Hp) as [n Hr2].
    apply wlp_bind, wp_wlp. eapply wp_mono.
    { eapply take_post; eapply token_inv_reach; [done|by eapply reach_trans]. }
    pose proof (reach_trans _ _ _ _ _ Hr1 Hr2) as Hr12.
    intros [] w3 Hq; apply wlp_ret;
      [by apply (park_post_shift _ (1 + n) w w2 true)|].
    destruct r; try (by apply (park_post_shift _ (1 + n) w w2 false)).
    eapply timed_out_later; [done|done|by apply raw_post_timeout|done].
Qed.

Lemma park_until_notified_timeout_spec f c timeout w :
  0 <= timeout -> token_inv (tok c) (w_sys w) ->
  wlp (park_until_notified_timeout f c timeout) w (fun r w' =>
    match r with
    | NT_Notified => took (tok c) w w'
    | NT_TimedOut => timed_out (tok c) timeout w w'
    end /\ assert_held w').
Proof.
  intros Ht Hinv. apply wlp_try_take; [done|..].
  - intros w1 Htk Ha. by apply wlp_ret.
  - intros w1 Hr1. apply wlp_bind.
    eapply wlp_mono; [by apply wait_until_different_timeout_spec|]. intros [v|] w2 Hp.
    + destruct Hp as (n & Hn & Hr2 & Hne & Hv & _).
      apply wlp_bind, wp_wlp. eapply wp_mono; [eapply (take_after_change c (1 + n) w w2)|].
      * done.
      * by eapply reach_trans.
      * rewrite <- (reach_val_at _ _ _ _ _ Hr1). cbn in Hv. unfold tok, token_addr. congruence.
      * intros b w3 [-> Htk] u w4 [= <- <-]. split; [|done]. destruct Htk as (k & Hk). by exists k.
    + destruct Hp as (i & j & n & Hi & Hj & Hr2 & Hv & Hel).
      assert (Hobs : observed_timeout (tok c) EMPTY_TOKEN timeout w1 w2) by (by exists i, j, n).
      pose proof (reach_trans _ _ _ _ _ Hr1 Hr2) as Hr12.
      apply wlp_bind, wp_wlp, wp_take; [by eapply token_inv_reach|..].
      * intros w3 tr Hv3 Hs3 Ht3 _. apply wlp_ret. split; [|unfold assert_held; by rewrite Ht3].
        apply (park_post_shift _ (1 + n) w w2 true); [done|]. exists 2%nat. split; [lia|].
        split; [|done]. eapply (token_persists _ _ 1); [by eapply token_inv_reach|lia|done].
      * intros w3 Hv3 Hr3 Ht3. apply wlp_ret. split; [|unfold assert_held; by rewrite Ht3].
        eapply timed_out_later; [done|done|done|]. exists 1%nat. auto.
Qed.

(** The filtered park returns once a token has been posted. *)
Lemma park_until_notified_total f c w N :
  token_inv (tok c) (w_sys w) -> val_at w N (tok c) = NOTIFIED_TOKEN -> (N < f)%nat ->
  is_Some (park_until_notified f c w).
Proof.
  intros Hinv HN Hf. eapply wp_is_Some, (wp_bind _ _ _ (fun _ _ => True)), wp_take; [done|..].
  - intros w1 tr _ _ _ _. by apply wp_ret.
  - intros w1 _ Hr1 _. apply wp_bind. eapply wp_mono.
    + apply wlp_wp; [apply wait_until_different_spec|].
      apply (wait_until_different_total _ _ _ _ _ N); [|done]. intros n Hn.
      rewrite (reach_val_at _ _ _ _ _ Hr1).
      change (monitored_address (sh_token (core_shared c))) with (tok c).
      by rewrite (token_persists _ _ N) by (done || lia).
    + intros v w2 (n & _ & Hr2 & _). apply wp_bind.
      eapply wp_mono; [eapply (take_post_later c (1 + n) w w2); [done|by eapply reach_trans]|].
      intros b w3 _. by eexists tt, _.
Qed.

(** The timed filtered park returns once the timeout has passed. *)
Lemma park_until_notified_timeout_total f c timeout w N :
  token_inv (tok c) (w_sys w) -> now_at w 2 + timeout <= now_at w (2 + N) -> (N < f)%nat ->
  0 <= timeout -> is_Some (park_until_notified_timeout f c timeout w).
Proof.
  intros Hinv HN Hf Ht. eapply wp_is_Some, (wp_bind _ _ _ (fun _ _ => True)), wp_take; [done|..].
  - intros w1 tr _ _ _ _. by apply wp_ret.
  - intros w1 _ Hr1 _. apply wp_bind. eapply wp_mono.
    + apply wlp_wp; [by apply wait_until_different_timeout_spec|].
      apply (wait_until_different_timeout_total _ _ _ _ _ _ N); [|done].
      by rewrite !(reach_now_at _ _ _ _ Hr1).
    + intros r w2 Hp.
      assert (exists n, reach n w1 w2) as [n Hr2].
      { destruct r; [destruct Hp as (n & ?)|destruct Hp as (? & ? & n & ?)]; exists n; tauto. }
      pose proof (take_post_later c (1 + n) w w2 Hinv (reach_trans _ _ _ _ _ Hr1 Hr2)) as Hw.
      destruct r; apply wp_bind; (eapply wp_mono; [exact Hw|]); intros b w3 _; [|by apply wp_ret].
      by eexists NT_Notified, _.
Qed.
End park_specs.

(** ** The abstract contract: a mailbox of at most one token *)

Inductive box_event := Post | Take.
#[export] Instance box_event_eq_dec : EqDecision box_event.
Proof. solve_decision. Defined.

(** Posting coalesces; taking needs a token. *)
Definition box_step (b : bool) (e : box_event) : option bool :=
  match e with
  | Post => Some true
  | Take => if b then Some false else None
  end.

Fixpoint box_run (b : bool) (L : list box_event) : option bool :=
  match L with
  | [] => Some b
  | e :: L => b' ← box_step b e; box_run b' L
  end.

Definition count (e : box_event) (L : list box_event) : nat := length (filter (fun x => x = e) L).

(** The unparks of [n] slots of the environment from position [p] on. *)
Definition unparks (a : Z) (sched : nat -> tick) (p n : nat) : nat :=
  length (filter (fun op => op_addr op = a) (concat (map (fun i => tk_ops (sched i)) (seq p n)))).

Definition token_bit (a : Z) (s : sys) : bool := mget (s_mem s) a =? NOTIFIED_TOKEN.

(** The concrete run from [s] to [s'] performs the mailbox events [L]. *)
Record box_refines (a : Z) (s : sys) (L : list box_event) (s' : sys) : Prop := {
  br_run : box_run (token_bit a s) L = Some (token_bit a s');
  br_sched : s_sched s' = s_sched s;
  br_pos : (s_pos s <= s_pos s')%nat;
  br_posts : count Post L = unparks a (s_sched s) (s_pos s) (s_pos s' - s_pos s);
}.

Lemma box_run_app b L1 L2 : box_run b (L1 ++ L2) = b' ← box_run b L1; box_run b' L2.
Proof. revert b. induction L1 as [|e L1 IH]; intros b; [done|]. simpl. destruct (box_step b e); simpl; auto. Qed.

Lemma count_app e L1 L2 : count e (L1 ++ L2) = (count e L1 + count e L2)%nat.
Proof. unfold count. by rewrite filter_app, length_app. Qed.

Lemma count_cons e x L :
  count e (x :: L) = ((if decide (x = e) then 1 else 0) + count e L)%nat.
Proof. unfold count. rewrite filter_cons. by case_decide. Qed.

(** A mailbox never hands out more tokens than it was given. *)
Lemma box_conservation b L b' :
  box_run b L = Some b' -> (count Take L + Nat.b2n b' <= count Post L + Nat.b2n b)%nat.
Proof.
  revert b. induction L as [|e L IH]; intros b; cbn [box_run].
  - intros [= ->]. unfold count. simpl. lia.
  - rewrite !count_cons. destruct e; cbn; [|destruct b; cbn; [|done]]; intros H%IH; simpl in *;
      [destruct b; simpl|]; lia.
Qed.

Lemma unparks_add a sched p n k :
  unparks a sched p (n + k) = (unparks a sched p n + unparks a sched (p + n) k)%nat.
Proof. unfold unparks. by rewrite seq_app, map_app, concat_app, filter_app, length_app. Qed.

Lemma box_refines_refl a s : box_refines a s [] s.
Proof. split; try done. by rewrite Nat.sub_diag. Qed.

Lemma box_refines_trans a s L1 s1 L2 s2 :
  box_refines a s L1 s1 -> box_refines a s1 L2 s2 -> box_refines a s (L1 ++ L2) s2.
Proof.
  intros [R1 S1 P1 C1] [R2 S2 P2 C2]. split.
  - by rewrite box_run_app, R1.
  - congruence.
  - lia.
  - rewrite count_app, C1, C2, S1.
    replace (s_pos s2 - s_pos s)%nat with ((s_pos s1 - s_pos s) + (s_pos s2 - s_pos s1))%nat by lia.
    rewrite unparks_add. do 2 f_equal. lia.
Qed.

Lemma existsb_filter_addr a ops :
  existsb (fun op => op_addr op =? a) ops =
    negb (Nat.eqb (length (filter (fun op => op_addr op = a) ops)) 0).
Proof.
  induction ops as [|op ops IH]; [done|]. cbn [existsb]. rewrite IH, filter_cons.
  case_decide; destruct (Z.eqb_spec (op_addr op) a); done.
Qed.

Lemma box_run_posts b k : box_run b (replicate k Post) = Some (b || negb (Nat.eqb k 0)).
Proof.
  revert b. induction k as [|k IH]; intros b; simpl; [by rewrite orb_false_r|].
  rewrite IH, orb_true_r. done.
Qed.

Lemma count_posts k : count Post (replicate k Post) = k /\ count Take (replicate k Post) = 0%nat.
Proof.
  induction k as [|k [IH1 IH2]]; [done|]. cbn [replicate]. rewrite !count_cons, IH1, IH2. done.
Qed.

(** A slot of the environment posts as often as it unparks. *)
Lemma box_refines_tick a s :
  token_inv a s -> exists k, box_refines a s (replicate k Post) (sys_step s).
Proof.
  intros [Hv Hp]. exists (length (filter (fun op => op_addr op = a) (tk_ops (cur_tick s)))). split.
  - rewrite box_run_posts. unfold token_bit at 2, sys_step. cbn [s_mem].
    pose proof (mem_apply_token a (tk_ops (cur_tick s)) (s_mem s) (Hp (s_pos s)) Hv) as Hm.
    rewrite Hm, existsb_filter_addr. unfold token_bit.
    destruct (Nat.eqb (length _) 0); simpl; [by rewrite orb_false_r|by rewrite orb_true_r].
  - done.
  - simpl. lia.
  - rewrite (proj1 (count_posts _)). cbn [s_pos sys_step].
    replace (S (s_pos s) - s_pos s)%nat with 1%nat by lia. unfold unparks. simpl.
    by rewrite app_nil_r.
Qed.

Lemma box_refines_iter a s n :
  token_inv a s -> exists k, box_refines a s (replicate k Post) (sys_iter n s).
Proof.
  intros Hs. induction n as [|n [k IH]]; [exists 0%nat; apply box_refines_refl|].
  destruct (box_refines_tick a (sys_iter n s)) as [k' Hk]; [by apply token_iter|].
  exists (k + k')%nat. rewrite replicate_add, sys_iter_S. by eapply box_refines_trans.
Qed.

Lemma box_refines_take a s :
  mget (s_mem s) a = NOTIFIED_TOKEN -> box_refines a s [Take] (sys_write a EMPTY_TOKEN s).
Proof.
  intros Hv. split; [|done|done|].
  - unfold token_bit. rewrite Hv. simpl. unfold mget. simpl. by rewrite lookup_insert_eq.
  - simpl. by rewrite Nat.sub_diag.
Qed.

(** One park operation: posts, and a take exactly when it reports a notification. *)
Lemma park_post_refines a w b w' :
  token_inv a (w_sys w) -> park_post a w b w' ->
  token_inv a (w_sys w') /\
  exists L, box_refines a (w_sys w) L (w_sys w') /\ count Take L = Nat.b2n b.
Proof.
  intros Hinv. destruct b; simpl.
  - intros (n & Hn & Hv & Hs). rewrite Hs. split; [by apply token_write_inv, token_iter|].
    destruct (box_refines_iter a (w_sys w) n Hinv) as [k Hk].
    exists (replicate k Post ++ [Take]).
    split; [eapply box_refines_trans; [done|by apply box_refines_take]|].
    by rewrite count_app, (proj2 (count_posts k)).
  - intros (n & Hn & Hr & Hv). unfold reach in Hr. rewrite Hr. split; [by apply token_iter|].
    destruct (box_refines_iter a (w_sys w) n Hinv) as [k Hk]. exists (replicate k Post).
    by rewrite (proj2 (count_posts k)).
Qed.

(** ** Sessions: any sequence of park operations *)

Inductive park_op :=
| OpPark
| OpParkUntilNotified
| OpParkTimeout (timeout : Z)
| OpParkUntilNotifiedTimeout (timeout : Z).

Definition op_ok (op : park_op) : Prop :=
  match op with OpParkTimeout t | OpParkUntilNotifiedTimeout t => 0 <= t | _ => True end.

Section sessions.
Context {St : Type} `{StrategyImpl St}.

(** Run one operation; the result says whether it was notified. *)
Definition run_op (fuel : nat) (c : ParkerCore St) (op : park_op) : M bool :=
  match op with
  | OpPark => r ← park fuel c; mret (bool_decide (r = PR_Notified))
  | OpParkUntilNotified => _ ← park_until_notified fuel c; mret true
  | OpParkTimeout t => r ← park_timeout fuel c t; mret (bool_decide (r = PT_Notified))
  | OpParkUntilNotifiedTimeout t =>
      r ← park_until_notified_timeout fuel c t; mret (bool_decide (r = NT_Notified))
  end.

Fixpoint session (fuel : nat) (c : ParkerCore St) (ops : list park_op) : M (list bool) :=
  match ops with
  | [] => mret []
  | op :: ops => b ← run_op fuel c op; bs ← session fuel c ops; mret (b :: bs)
  end.
End sessions.

Lemma timed_out_empty a t w w' : timed_out a t w w' -> found_empty a w w'.
Proof. intros (n & Hn & Hr & Hv & _). by exists n. Qed.

Section session_specs.
Context {St : Type} `{StrategyLaws St}.
Implicit Types (c : ParkerCore St) (w : world).

Lemma run_op_spec f c op w :
  op_ok op -> token_inv (tok c) (w_sys w) ->
  wlp (run_op f c op) w (park_post (tok c) w).
Proof.
  intros Hop Hinv. destruct op; simpl in *; apply wlp_bind; eapply wlp_mono.
  - by apply park_spec.
  - intros r w1 Hp. by apply wlp_ret.
  - by apply park_until_notified_spec.
  - intros r w1 [Hp _]. by apply wlp_ret.
  - by apply park_timeout_spec.
  - intros [] w1 Hp; apply wlp_ret; [done|done|]. by eapply timed_out_empty.
  - by apply park_until_notified_timeout_spec.
  - intros [] w1 [Hp _]; apply wlp_ret; [done|]. by eapply timed_out_empty.
Qed.

Lemma session_spec f c ops w :
  Forall op_ok ops -> token_inv (tok c) (w_sys w) ->
  wlp (session f c ops) w (fun rs w' =>
    token_inv (tok c) (w_sys w') /\ length rs = length ops /\
    exists L, box_refines (tok c) (w_sys w) L (w_sys w') /\
      count Take L = length (filter (fun b : bool => b) rs)).
Proof.
  intros Hops. revert w. induction Hops as [|op ops Hop Hops IH]; intros w Hinv; cbn [session].
  - apply wlp_ret. split; [done|]. split; [done|]. exists []. split; [apply box_refines_refl|done].
  - apply wlp_bind. eapply wlp_mono; [by apply run_op_spec|]. intros b w1 Hp.
    destruct (park_post_refines _ _ _ _ Hinv Hp) as (Hinv1 & L1 & HL1 & HT1).
    apply wlp_bind. eapply wlp_mono; [by apply IH|]. intros rs w2 (Hinv2 & Hlen & L2 & HL2 & HT2).
    apply wlp_ret. split; [done|]. split; [simpl; by rewrite Hlen|]. exists (L1 ++ L2).
    split; [by eapply box_refines_trans|]. rewrite count_app, HT1, HT2.
    destruct b; [rewrite filter_cons_True by done|rewrite filter_cons_False by (intros [])]; done.
Qed.
End session_specs.

(** ** The properties *)

(** A world for the witnesses: the token at address 0 is empty, a producer unparks it
    twice in the third slot, and every slot lasts a microsecond. *)
Definition demo_core : ParkerCore BusySpin := mkCore (mkShared (mkAtomicU32 0)) mkBusySpin.
Definition demo_world : world :=
  start_world ∅ (schedule 1000
    [ops_tick 1000 []; ops_tick 1000 [];
     ops_tick 1000 [single_unpark (mkSingleUnparker (mkShared (mkAtomicU32 0)));
                    multi_unpark (mkMultiUnparker (mkShared (mkAtomicU32 0)))]]).
(** The same with the token already posted. *)
Definition ready_world : world := start_world {[0 := 1]} (schedule 1000 []).

Lemma demo_world_inv : token_inv (tok demo_core) (w_sys demo_world).
Proof.
  split; [by left|]. intros p op Hin Ha. revert Ha.
  apply (schedule_forall (fun op => op_addr op = 0 -> is_unpark 0 op) 1000
    [ops_tick 1000 []; ops_tick 1000 [];
     ops_tick 1000 [EnvStore 0 1; EnvFetchOr 0 1]] ) with p; [|done].
  repeat constructor; intros _; by (left + right).
Qed.

Lemma ready_world_inv : token_inv (tok demo_core) (w_sys ready_world).
Proof.
  split; [by right|]. intros p op Hin _. simpl in Hin.
  unfold schedule in Hin. simpl in Hin. by apply elem_of_nil in Hin.
Qed.

(** A token that is present when a park operation starts is consumed at once, by every
    operation, strategy and timeout (a zero timeout included): the whole call is one Relaxed
    load and one Acquire compare-exchange, the strategy is not asked to wait and the clock is
    not read. *)
Theorem ready_token_wins {St} `{StrategyImpl St} (f : nat) (c : ParkerCore St) (timeout : Z)
    (w : world) :
  token_inv (tok c) (w_sys w) -> val_at w 1 (tok c) = NOTIFIED_TOKEN ->
  exists w',
    park f c w = Some (PR_Notified, w') /\
    park_until_notified f c w = Some (tt, w') /\
    park_timeout f c timeout w = Some (PT_Notified, w') /\
    park_until_notified_timeout f c timeout w = Some (NT_Notified, w') /\
    w_sys w' = sys_write (tok c) EMPTY_TOKEN (sys_at w 2) /\
    w_trace w' =
      EvCas Acquire (tok c) true :: EvLoad Relaxed (tok c) NOTIFIED_TOKEN :: w_trace w.
Proof.
  intros Hinv Hv.
  destruct (wp_take c w (fun b w' => b = true /\
    w_sys w' = sys_write (tok c) EMPTY_TOKEN (sys_at w 2) /\
    w_trace w' = EvCas Acquire (tok c) true :: EvLoad Relaxed (tok c) NOTIFIED_TOKEN :: w_trace w))
    as (b & w' & Hrun & -> & Hs & Ht); [done|by intros ? ? _ ? ? ->|by intros ? Hv'; rewrite Hv in Hv'|].
  exists w'. unfold park, park_until_notified, park_timeout, park_until_notified_timeout,
    mbind, M_bind. rewrite Hrun. done.
Qed.

Lemma ready_token_wins_witness :
  exists w', park_until_notified_timeout 0 demo_core 0 ready_world = Some (NT_Notified, w').
Proof.
  destruct (ready_token_wins 0 demo_core 0 ready_world ready_world_inv eq_refl)
    as (w' & _ & _ & _ & H & _).
  exists w'. exact H.
Defined.

(** Whatever the strategy and whatever the producers do, park reports Notified exactly
    when it emptied the token, at an instant the token was present; Unclassified means that
    the call wrote nothing and its last operation found no token. *)
Theorem park_outcome {St} `{StrategyLaws St} (f : nat) (c : ParkerCore St) (w w' : world)
    (r : ParkResult) :
  token_inv (tok c) (w_sys w) -> park f c w = Some (r, w') ->
  match r with
  | PR_Notified => took (tok c) w w'
  | PR_Unclassified => found_empty (tok c) w w'
  end.
Proof. intros Hinv Hrun. pose proof (park_spec f c w Hinv r w' Hrun) as Hp. by destruct r. Qed.

Lemma park_outcome_witness :
  exists w', park 8 demo_core demo_world = Some (PR_Notified, w') /\
    took (tok demo_core) demo_world w'.
Proof.
  eexists. split; [vm_compute; reflexivity|].
  apply (park_outcome 8 demo_core demo_world _ PR_Notified demo_world_inv).
  vm_compute. reflexivity.
Defined.

(** C17: Once a producer has posted a token (by slot [N]), park_until_notified returns, given
    more than [N] loop iterations, and it returns having taken the token; its debug_assert
    holds. *)
Theorem park_until_notified_correct {St} `{StrategyLaws St} (f : nat) (c : ParkerCore St)
    (w : world) (N : nat) :
  token_inv (tok c) (w_sys w) -> val_at w N (tok c) = NOTIFIED_TOKEN -> (N < f)%nat ->
  exists w', park_until_notified f c w = Some (tt, w') /\
    took (tok c) w w' /\ assert_held w'.
Proof.
  intros Hinv HN Hf. destruct (park_until_notified_total f c w N Hinv HN Hf) as [[[] w'] Hrun].
  exists w'. split; [done|]. exact (park_until_notified_spec f c w Hinv tt w' Hrun).
Qed.

Lemma park_until_notified_correct_witness :
  exists w', park_until_notified 4 demo_core demo_world = Some (tt, w') /\
    took (tok demo_core) demo_world w' /\ assert_held w'.
Proof.
  apply (park_until_notified_correct 4 demo_core demo_world 3 demo_world_inv); [reflexivity|lia].
Defined.

(** park_timeout: Notified exactly when the token was taken; TimedOut only when at least
    the timeout has passed during the call and the last operation found no token;
    Unclassified when the last operation found no token. *)
Theorem park_timeout_outcome {St} `{StrategyLaws St} (f : nat) (c : ParkerCore St)
    (timeout : Z) (w w' : world) (r : ParkTimeoutResult) :
  0 <= timeout -> token_inv (tok c) (w_sys w) ->
  park_timeout f c timeout w = Some (r, w') ->
  match r with
  | PT_Notified => took (tok c) w w'
  | PT_Unclassified => found_empty (tok c) w w'
  | PT_TimedOut => timed_out (tok c) timeout w w'
  end.
Proof. intros Ht Hinv Hrun. exact (park_timeout_spec f c timeout w Ht Hinv r w' Hrun). Qed.

Lemma park_timeout_outcome_witness :
  exists w', park_timeout 9 demo_core 0 demo_world = Some (PT_Notified, w') /\
    took (tok demo_core) demo_world w'.
Proof.
  eexists. split; [vm_compute; reflexivity|].
  apply (park_timeout_outcome 9 demo_core 0 demo_world _ PT_Notified); [lia|apply demo_world_inv|].
  vm_compute. reflexivity.
Defined.

(** C33: park_until_notified_timeout returns once the clock has passed the timeout (within
    [N] slots, given more than [N] iterations). Notified means the token was taken, TimedOut
    that at least the timeout has passed and the final check found no token: a
    notification posted at the boundary is not lost. The debug_assert holds. *)
Theorem park_until_notified_timeout_correct {St} `{StrategyLaws St} (f : nat)
    (c : ParkerCore St) (timeout : Z) (w : world) (N : nat) :
  0 <= timeout -> token_inv (tok c) (w_sys w) ->
  now_at w 2 + timeout <= now_at w (2 + N) -> (N < f)%nat ->
  exists r w', park_until_notified_timeout f c timeout w = Some (r, w') /\
    match r with
    | NT_Notified => took (tok c) w w'
    | NT_TimedOut => timed_out (tok c) timeout w w'
    end /\ assert_held w'.
Proof.
  intros Ht Hinv HN Hf.
  destruct (park_until_notified_timeout_total f c timeout w N) as [[r w'] Hrun]; [done..|].
  exists r, w'. split; [done|].
  exact (park_until_notified_timeout_spec f c timeout w Ht Hinv r w' Hrun).
Qed.

Lemma park_until_notified_timeout_correct_witness :
  exists r w', park_until_notified_timeout 6 demo_core 5000 demo_world = Some (r, w') /\
    match r with
    | NT_Notified => took (tok demo_core) demo_world w'
    | NT_TimedOut => timed_out (tok demo_core) 5000 demo_world w'
    end /\ assert_held w'.
Proof.
  apply (park_until_notified_timeout_correct 6 demo_core 5000 demo_world 5);
    [lia|apply demo_world_inv|vm_compute; discriminate|lia].
Defined.

(** C2: Refinement of the one-token mailbox. Any sequence of park operations, with any
    strategy and any interleaving of unparks, performs a legal run of the mailbox
    in which the posts are exactly the unparks made meanwhile and the takes are exactly the
    operations that reported a notification; the token stays 0 or 1. So no notification is
    invented, and none is lost other than by coalescing. *)
Theorem session_refines_mailbox {St} `{StrategyLaws St} (f : nat) (c : ParkerCore St)
    (ops : list park_op) (w w' : world) (rs : list bool) :
  Forall op_ok ops -> token_inv (tok c) (w_sys w) -> session f c ops w = Some (rs, w') ->
  token_inv (tok c) (w_sys w') /\ length rs = length ops /\
  exists L,
    box_run (token_bit (tok c) (w_sys w)) L = Some (token_bit (tok c) (w_sys w')) /\
    count Take L = length (filter (fun b : bool => b) rs) /\
    count Post L = unparks (tok c) (s_sched (w_sys w)) (s_pos (w_sys w))
                     (s_pos (w_sys w') - s_pos (w_sys w)) /\
    (count Take L + Nat.b2n (token_bit (tok c) (w_sys w'))
       <= count Post L + Nat.b2n (token_bit (tok c) (w_sys w)))%nat.
Proof.
  intros Hops Hinv Hrun.
  destruct (session_spec f c ops w Hops Hinv rs w' Hrun) as (Hinv' & Hlen & L & [HR _ _ HP] & HT).
  split; [done|]. split; [done|]. exists L. split_and!; [done|done|done|].
  by apply box_conservation.
Qed.

Lemma session_refines_mailbox_witness :
  exists rs w', session 8 demo_core [OpParkUntilNotified; OpParkTimeout 0] demo_world = Some (rs, w')
    /\ rs = [true; false] /\ token_inv (tok demo_core) (w_sys w').
Proof.
  eexists _, _. split; [vm_compute; reflexivity|]. split; [reflexivity|].
  apply (session_refines_mailbox 8 demo_core [OpParkUntilNotified; OpParkTimeout 0] demo_world _
    [true; false]).
  - repeat constructor. simpl. lia.
  - apply demo_world_inv.
  - vm_compute. reflexivity.
Defined.
