(* ===== verification/ParkerOrdering.v ===== *)
(** * What a taken token publishes (src/src/parker.rs, memory ordering)

    Parker.v treats the token sequentially. Here the token is an atomic of the
    release/acquire memory model: it has a modification order of messages, each of which
    carries the publications its release sequence makes visible; a thread knows a set
    of publications (a producer's data written before it unparks) and may read any
    message not older than the last one it has seen. A read-modify-write
    reads the last message and continues its release sequence; a plain store starts a new
    one; only an Acquire read synchronizes. The unpark and take operations are the
    source's accesses with the source's orderings. *)

From S2P Require Import Prelude Machine Errors Strategy Parker.
From stdpp Require Import fin_sets.
Open Scope Z_scope.

(** ** The memory model of one atomic *)

Definition view : Type := gset nat.

Record message := Msg { m_val : Z; m_rel : view }.

(** [hist] is the modification order, oldest first; [tview] what a thread knows; [tpos] the
    last message it has seen; [next] the next publication. *)
Record amem := AMem {
  hist : list message;
  tview : gmap nat view;
  tpos : gmap nat nat;
  next : nat;
}.

Inductive access :=
| AStore (o : ordering) (v : Z)
| AFetchOr (o : ordering) (bits : Z)
| ALoad (o : ordering)
| ACas (success failure : ordering) (old new : Z).

Definition knows (s : amem) (t : nat) : view := default ∅ (tview s !! t).
Definition seen (s : amem) (t : nat) : nat := default 0%nat (tpos s !! t).

Definition acquires (o : ordering) : bool := match o with Acquire => true | _ => false end.
Definition releases (o : ordering) : bool := match o with Release => true | _ => false end.

(** What an access with ordering [o] releases, and what it learns from [m]. *)
Definition released (o : ordering) (known : view) : view := if releases o then known else ∅.
Definition acquired (o : ordering) (m : message) : view := if acquires o then m_rel m else ∅.

Definition learn (t : nat) (v : view) (s : amem) : amem :=
  {| hist := hist s; tview := <[t := knows s t ∪ v]> (tview s); tpos := tpos s; next := next s |}.
Definition see (t i : nat) (s : amem) : amem :=
  {| hist := hist s; tview := tview s; tpos := <[t := i]> (tpos s); next := next s |}.
Definition append (t : nat) (m : message) (s : amem) : amem :=
  {| hist := hist s ++ [m]; tview := tview s; tpos := <[t := length (hist s)]> (tpos s);
     next := next s |}.

(** A read of message [i] by thread [t]. *)
Definition read_msg (t i : nat) (s : amem) : option message :=
  if (seen s t <=? i)%nat then hist s !! i else None.

(** One access of thread [t]; a plain load, or a failing compare-exchange, reads message [i].
    The result is the value read (0 for a store). *)
Definition do_access (t : nat) (acc : access) (i : nat) (s : amem) : option (Z * amem) :=
  match acc with
  | AStore o v => Some (0, append t (Msg v (released o (knows s t))) s)
  | AFetchOr o bits =>
      m ← last (hist s);
      Some (m_val m,
            append t (Msg (Z.lor (m_val m) bits) (m_rel m ∪ released o (knows s t)))
              (learn t (acquired o m) s))
  | ALoad o =>
      m ← read_msg t i s;
      Some (m_val m, see t i (learn t (acquired o m) s))
  | ACas so fo old new =>
      m ← read_msg t i s;
      if m_val m =? old then
        if (S i =? length (hist s))%nat then
          Some (m_val m, append t (Msg new (m_rel m ∪ released so (knows s t)))
                           (learn t (acquired so m) s))
        else None
      else Some (m_val m, see t i (learn t (acquired fo m) s))
  end.

(** ** The Parker's accesses *)

(** SingleUnparker::unpark *)
Definition single_unpark_access : access := AStore Release NOTIFIED_TOKEN.
(** MultiUnparker::unpark, publish_token! *)
Definition multi_unpark_access : access := AFetchOr Release NOTIFIED_TOKEN.
(** The two accesses of ParkerCore::take_notification *)
Definition take_load_access : access := ALoad Relaxed.
Definition take_cas_access : access := ACas Acquire Relaxed NOTIFIED_TOKEN EMPTY_TOKEN.

(** ** Runs *)

Definition consumer : nat := 0.

Inductive pevent :=
| Publish (t : nat)            (* thread [t] writes data *)
| Unpark (t : nat)             (* thread [t] unparks *)
| WaitLoad (i : nat)           (* the strategy's Acquire load reads message [i] *)
| TakeLoad (i : nat)           (* take_notification's Relaxed load *)
| TakeCas (i : nat).           (* take_notification's compare-exchange *)

(** The memory, the publications released by unparks so far, and the numbers of unparks and of
    successful takes. *)
Record run_state := RunState {
  rs_mem : amem;
  rs_posted : view;
  rs_unparks : nat;
  rs_takes : nat;
}.

Definition publish (t : nat) (s : amem) : amem :=
  {| hist := hist s; tview := <[t := knows s t ∪ {[next s]}]> (tview s); tpos := tpos s;
     next := S (next s) |}.

Definition pstep (unpark : access) (ev : pevent) (r : run_state) : option run_state :=
  match ev with
  | Publish t => Some (RunState (publish t (rs_mem r)) (rs_posted r) (rs_unparks r) (rs_takes r))
  | Unpark t =>
      '(_, s) ← do_access t unpark 0 (rs_mem r);
      Some (RunState s (rs_posted r ∪ knows (rs_mem r) t) (S (rs_unparks r)) (rs_takes r))
  | WaitLoad i =>
      '(_, s) ← do_access consumer (ALoad Acquire) i (rs_mem r);
      Some (RunState s (rs_posted r) (rs_unparks r) (rs_takes r))
  | TakeLoad i =>
      '(_, s) ← do_access consumer take_load_access i (rs_mem r);
      Some (RunState s (rs_posted r) (rs_unparks r) (rs_takes r))
  | TakeCas i =>
      '(v, s) ← do_access consumer take_cas_access i (rs_mem r);
      Some (RunState s (rs_posted r) (rs_unparks r)
              (if v =? NOTIFIED_TOKEN then S (rs_takes r) else rs_takes r))
  end.

Fixpoint prun (unpark : access) (evs : list pevent) (r : run_state) : option run_state :=
  match evs with
  | [] => Some r
  | ev :: evs => r' ← pstep unpark ev r; prun unpark evs r'
  end.

(** A fresh pair: one message, the empty token. *)
Definition fresh_run : run_state :=
  RunState (AMem [Msg EMPTY_TOKEN ∅] ∅ ∅ 0) ∅ 0 0.

(** The event is a compare-exchange that takes the token. *)
Definition takes (ev : pevent) (r : run_state) : Prop :=
  exists i m, ev = TakeCas i /\ read_msg consumer i (rs_mem r) = Some m /\ m_val m = NOTIFIED_TOKEN.

(** ** Invariants *)

(** The last message has the token's value and carries everything released by unparks. *)
Definition covers (r : run_state) : Prop :=
  exists m, last (hist (rs_mem r)) = Some m /\ rs_posted r ⊆ m_rel m.

Definition token_balance (r : run_state) : Prop :=
  exists m, last (hist (rs_mem r)) = Some m /\ token_val (m_val m) /\
    (rs_takes r + Z.to_nat (m_val m) <= rs_unparks r)%nat.

Lemma last_append t m s : last (hist (append t m s)) = Some m.
Proof. apply last_snoc. Qed.

Lemma last_lookup_length {B} (l : list B) i m :
  l !! i = Some m -> S i = length l -> last l = Some m.
Proof. intros Hi Hl. rewrite last_lookup. by replace (pred (length l)) with i by lia. Qed.

Lemma read_msg_lookup t i s m : read_msg t i s = Some m -> hist s !! i = Some m.
Proof. unfold read_msg. by case_match. Qed.

(** What a load does to the history: nothing. *)
Lemma load_hist t o i s v s' : do_access t (ALoad o) i s = Some (v, s') -> hist s' = hist s.
Proof. cbn. destruct (read_msg t i s); [|done]. intros [= <- <-]. done. Qed.

(** A compare-exchange either changes no message or takes the last one. *)
Lemma cas_hist t i s v s' :
  do_access t take_cas_access i s = Some (v, s') ->
  (v <> NOTIFIED_TOKEN /\ hist s' = hist s) \/
  (exists m, last (hist s) = Some m /\ v = NOTIFIED_TOKEN /\ m_val m = NOTIFIED_TOKEN /\
     hist s' = hist s ++ [Msg EMPTY_TOKEN (m_rel m)] /\
     m_rel m ⊆ knows s' t).
Proof.
  unfold do_access, take_cas_access. destruct (read_msg t i s) as [m|] eqn:E; [|done].
  cbn [mbind option_bind]. destruct (Z.eqb_spec (m_val m) NOTIFIED_TOKEN) as [Hv|Hv].
  - destruct (Nat.eqb_spec (S i) (length (hist s))) as [El|]; [|done]. intros [= <- <-]. right.
    exists m. split; [by eapply last_lookup_length; [eapply read_msg_lookup|]|].
    split; [done|]. split; [done|]. split.
    + unfold append, learn. cbn. by rewrite (right_id_L ∅ (∪)).
    + unfold knows, append, learn. cbn. rewrite lookup_insert_eq. cbn. set_solver.
  - intros [= <- <-]. left. done.
Qed.

Lemma lor_token v : token_val v -> Z.lor v NOTIFIED_TOKEN = NOTIFIED_TOKEN.
Proof. by intros [->| ->]. Qed.

Lemma token_to_nat v : token_val v -> (Z.to_nat v <= 1)%nat.
Proof. intros [->| ->]; [apply Nat.le_0_l|apply le_n]. Qed.

(** The balance of tokens holds for both kinds of unpark. *)
Lemma pstep_balance unpark ev r r' :
  unpark = single_unpark_access \/ unpark = multi_unpark_access ->
  token_balance r -> pstep unpark ev r = Some r' -> token_balance r'.
Proof.
  intros Hu (m & Hm & Hv & Hb) Hs. unfold token_balance.
  destruct ev; cbn [pstep] in Hs.
  - simplify_eq. exists m. done.
  - destruct (do_access t unpark 0 (rs_mem r)) as [[v s]|] eqn:E; [|done]. cbn in Hs. simplify_eq.
    cbn [rs_mem rs_takes rs_unparks].
    assert (Hs : exists rel, last (hist s) = Some (Msg NOTIFIED_TOKEN rel)).
    { destruct Hu as [->| ->]; cbn in E; [simplify_eq; eexists; apply last_append|].
      rewrite Hm in E. cbn in E. simplify_eq. rewrite last_append.
      rewrite (lor_token _ Hv). by eexists. }
    destruct Hs as [rel Hs]. exists (Msg NOTIFIED_TOKEN rel). split; [done|]. split; [by right|].
    pose proof (token_to_nat _ Hv). change (Z.to_nat (m_val (Msg NOTIFIED_TOKEN rel))) with 1%nat. lia.
  - destruct (do_access _ _ _ _) as [[v s]|] eqn:E; [|done]. cbn in Hs. simplify_eq.
    apply load_hist in E. cbn. rewrite E. by exists m.
  - destruct (do_access _ _ _ _) as [[v s]|] eqn:E; [|done]. cbn in Hs. simplify_eq.
    apply load_hist in E. cbn. rewrite E. by exists m.
  - destruct (do_access _ _ _ _) as [[v s]|] eqn:E; [|done]. cbn in Hs. simplify_eq.
    apply cas_hist in E as [[Hne E]|(m' & Hm' & -> & Hv' & E & _)]; cbn; rewrite E.
    + exists m. split; [done|]. split; [done|]. by apply Z.eqb_neq in Hne as ->.
    + eexists. rewrite last_snoc. split; [done|]. split; [by left|].
      rewrite Hm in Hm'. simplify_eq. rewrite Hv' in Hb.
      unfold EMPTY_TOKEN, NOTIFIED_TOKEN in *. simpl in *. lia.
Qed.

Lemma prun_invariant (P : run_state -> Prop) (ok : pevent -> Prop) unpark evs r r' :
  (forall ev r r', ok ev -> P r -> pstep unpark ev r = Some r' -> P r') ->
  Forall ok evs -> P r -> prun unpark evs r = Some r' -> P r'.
Proof.
  intros Hstep Hok. revert r. induction Hok as [|ev evs Hev Hevs IH]; intros r HP; cbn [prun].
  - by intros [= <-].
  - destruct (pstep unpark ev r) as [r1|] eqn:E; [|done]. apply IH. by eapply Hstep.
Qed.

(** Threads never forget. *)
Lemma knows_learn t v s u : knows s u ⊆ knows (learn t v s) u.
Proof.
  unfold knows, learn. cbn. destruct (decide (u = t)) as [->|Hne].
  - rewrite lookup_insert_eq. cbn. set_solver.
  - by rewrite lookup_insert_ne.
Qed.

Lemma knows_access t acc i s v s' u :
  do_access t acc i s = Some (v, s') -> knows s u ⊆ knows s' u.
Proof.
  destruct acc; cbn [do_access].
  - intros [= <- <-]. done.
  - destruct (last (hist s)); [|done]. intros [= <- <-]. apply knows_learn.
  - destruct (read_msg t i s); [|done]. intros [= <- <-]. apply knows_learn.
  - destruct (read_msg t i s); [|done]. cbn [mbind option_bind].
    repeat case_match; intros; simplify_eq; apply knows_learn.
Qed.

Lemma pstep_knows unpark ev r r' u :
  pstep unpark ev r = Some r' -> knows (rs_mem r) u ⊆ knows (rs_mem r') u.
Proof.
  destruct ev; cbn [pstep].
  1: { intros [= <-]. unfold knows, publish. cbn. destruct (decide (u = t)) as [->|Hne];
       [rewrite lookup_insert_eq; cbn; set_solver|by rewrite lookup_insert_ne]. }
  all: destruct (do_access _ _ _ _) as [[v s]|] eqn:E; [|done]; intros [= <-]; cbn;
    by eapply knows_access.
Qed.

(** A step other than an unpark keeps the released publications covered. *)
Lemma covers_other unpark ev r r' :
  (forall t, ev <> Unpark t) -> covers r -> pstep unpark ev r = Some r' -> covers r' /\
    rs_posted r' = rs_posted r.
Proof.
  intros Hev (m & Hm & Hp). destruct ev; cbn [pstep].
  - intros [= <-]. split; [by exists m|done].
  - by destruct (Hev t).
  - destruct (do_access _ _ _ _) as [[v s]|] eqn:E; [|done]. intros [= <-].
    apply load_hist in E. unfold covers. cbn. rewrite E. split; [by exists m|done].
  - destruct (do_access _ _ _ _) as [[v s]|] eqn:E; [|done]. intros [= <-].
    apply load_hist in E. unfold covers. cbn. rewrite E. split; [by exists m|done].
  - destruct (do_access _ _ _ _) as [[v s]|] eqn:E; [|done]. intros [= <-].
    apply cas_hist in E as [[Hne E]|(m' & Hm' & -> & Hv' & E & _)]; unfold covers; cbn; rewrite E.
    + split; [by exists m|done].
    + split; [|done]. eexists. rewrite last_snoc. split; [done|]. simpl.
      rewrite Hm in Hm'. by simplify_eq.
Qed.

Lemma unpark_or_not ev : (exists t, ev = Unpark t) \/ forall t, ev <> Unpark t.
Proof. destruct ev; eauto. Qed.

Lemma multi_covers ev r r' : covers r -> pstep multi_unpark_access ev r = Some r' -> covers r'.
Proof.
  intros Hc Hs. destruct (unpark_or_not ev) as [[t ->]|Hne].
  - destruct Hc as (m & Hm & Hp). cbn in Hs. rewrite Hm in Hs. cbn in Hs. simplify_eq.
    unfold covers. cbn. rewrite last_snoc. eexists. split; [done|]. simpl. set_solver.
  - eapply covers_other in Hs as [? _]; done.
Qed.

(** The sole producer's own knowledge covers what was released. *)
Definition single_inv (p : nat) (r : run_state) : Prop :=
  covers r /\ rs_posted r ⊆ knows (rs_mem r) p.

Definition unpark_by (p : nat) (ev : pevent) : Prop :=
  match ev with Unpark t => t = p | _ => True end.

Lemma single_covers p ev r r' :
  unpark_by p ev -> single_inv p r -> pstep single_unpark_access ev r = Some r' -> single_inv p r'.
Proof.
  intros Hev [Hc Hk] Hs. pose proof (pstep_knows _ _ _ _ p Hs) as Hmono.
  destruct (unpark_or_not ev) as [[t ->]|Hne].
  - simpl in Hev. subst t. destruct Hc as (m & Hm & Hp). cbn in Hs. simplify_eq.
    split; [|cbn in *; set_solver]. unfold covers. cbn. rewrite last_snoc.
    eexists. split; [done|]. simpl. set_solver.
  - eapply covers_other in Hs as [Hc' Hp']; [|done|done].
    split; [done|]. rewrite Hp'. set_solver.
Qed.

(** Taking the token transfers what the last message carries. *)
Lemma take_learns unpark ev r r' :
  covers r -> takes ev r -> pstep unpark ev r = Some r' ->
  rs_posted r ⊆ knows (rs_mem r') consumer.
Proof.
  intros (m & Hm & Hp) (i & m0 & -> & Hr & Hv). cbn [pstep].
  destruct (do_access _ _ _ _) as [[v s]|] eqn:E; [|done]. intros [= <-]. cbn.
  assert (v = NOTIFIED_TOKEN) as ->.
  { revert E. unfold do_access, take_cas_access. rewrite Hr. cbn [mbind option_bind].
    rewrite Hv. rewrite Z.eqb_refl. case_match; intros; by simplify_eq. }
  apply cas_hist in E as [[Hne _]|(m' & Hm' & _ & _ & _ & Hk)]; [done|].
  rewrite Hm in Hm'. simplify_eq. set_solver.
Qed.

Lemma fresh_covers : covers fresh_run.
Proof. exists (Msg EMPTY_TOKEN ∅). split; [done|]. set_solver. Qed.

(** ** The properties *)

(** C11: A taken multi-producer token publishes every coalesced producer. In any execution of a
    fresh pair whose producers, any number of them, unpark with the release
    read-modify-write, when the consumer's compare-exchange takes the token it has
    acquired everything that any producer had written before any unpark made so far,
    although it reads a single message and its preceding load is Relaxed. *)
Theorem multi_take_publishes_all (evs : list pevent) (ev : pevent) (r r' : run_state) :
  prun multi_unpark_access evs fresh_run = Some r -> takes ev r ->
  pstep multi_unpark_access ev r = Some r' ->
  rs_posted r ⊆ knows (rs_mem r') consumer.
Proof.
  intros Hrun Ht Hs. eapply take_learns; [|done|done].
  eapply (prun_invariant covers (fun _ => True)); [| |apply fresh_covers|done].
  - intros ev1 r1 r2 _. apply multi_covers.
  - by apply Forall_true.
Qed.

(** Two producers coalesce: both publications (0 and 1) reach the consumer. *)
Definition two_producers : list pevent :=
  [Publish 1; Unpark 1; Publish 2; Unpark 2; TakeLoad 1].

Lemma multi_take_publishes_all_witness :
  exists r r', prun multi_unpark_access two_producers fresh_run = Some r /\
    pstep multi_unpark_access (TakeCas 2) r = Some r' /\ {[0%nat; 1%nat]} ⊆ knows (rs_mem r') consumer.
Proof.
  eexists _, _. split; [vm_compute; reflexivity|]. split; [vm_compute; reflexivity|].
  refine (transitivity _ (multi_take_publishes_all two_producers (TakeCas 2) _ _ _ _ _));
    [..|vm_compute; reflexivity| |vm_compute; reflexivity].
  - apply (bool_decide_unpack _). vm_compute. exact I.
  - eexists 2%nat, _. split; [reflexivity|]. split; vm_compute; reflexivity.
Defined.

(** A taken single-producer token publishes its producer: as long as one thread makes
    all the unparks, the plain release store is enough, and the consumer's
    compare-exchange acquires everything the producer had written before any of its unparks. *)
Theorem single_take_publishes_all (p : nat) (evs : list pevent) (ev : pevent)
    (r r' : run_state) :
  Forall (unpark_by p) evs -> prun single_unpark_access evs fresh_run = Some r ->
  takes ev r -> pstep single_unpark_access ev r = Some r' ->
  rs_posted r ⊆ knows (rs_mem r') consumer.
Proof.
  intros Hp Hrun Ht Hs. eapply take_learns; [|done|done].
  eapply (prun_invariant (single_inv p) (unpark_by p)); [|done| |done].
  - intros ev1 r1 r2. apply single_covers.
  - split; [apply fresh_covers|]. cbn. set_solver.
Qed.

Definition one_producer : list pevent :=
  [Publish 1; Unpark 1; Publish 1; Unpark 1; WaitLoad 1; TakeLoad 2].

Lemma single_take_publishes_all_witness :
  exists r r', prun single_unpark_access one_producer fresh_run = Some r /\
    pstep single_unpark_access (TakeCas 2) r = Some r' /\ {[0%nat; 1%nat]} ⊆ knows (rs_mem r') consumer.
Proof.
  eexists _, _. split; [vm_compute; reflexivity|]. split; [vm_compute; reflexivity|].
  refine (transitivity _ (single_take_publishes_all 1 one_producer (TakeCas 2) _ _ _ _ _ _));
    [..|vm_compute; reflexivity| |vm_compute; reflexivity].
  - apply (bool_decide_unpack _). vm_compute. exact I.
  - repeat constructor.
  - eexists 2%nat, _. split; [reflexivity|]. split; vm_compute; reflexivity.
Defined.

(** The read-modify-write is needed: if two producers unparked with the plain store, the
    consumer could take the coalesced token without having acquired what the first one
    had written before its unpark. *)
Theorem plain_stores_lose_a_publication :
  exists r r',
    prun single_unpark_access two_producers fresh_run = Some r /\ takes (TakeCas 2) r /\
    pstep single_unpark_access (TakeCas 2) r = Some r' /\
    0%nat ∈ rs_posted r /\ 0%nat ∉ knows (rs_mem r') consumer.
Proof.
  eexists _, _. split; [vm_compute; reflexivity|].
  split; [eexists 2%nat, _; split; [reflexivity|]; split; vm_compute; reflexivity|].
  split; [vm_compute; reflexivity|].
  split; apply (bool_decide_unpack _); vm_compute; exact I.
Qed.

(** Weak memory creates no token: in every execution, with either kind of unpark and any
    stale reads, the consumer takes at most as many tokens as there were unparks, and the
    token's last value is 0 or 1. *)
Theorem takes_bounded_by_unparks (unpark : access) (evs : list pevent) (r : run_state) :
  unpark = single_unpark_access \/ unpark = multi_unpark_access ->
  prun unpark evs fresh_run = Some r -> token_balance r.
Proof.
  intros Hu Hrun. eapply (prun_invariant token_balance (fun _ => True)); [| | |done].
  - intros ev r1 r2 _. by apply pstep_balance.
  - by apply Forall_true.
  - exists (Msg EMPTY_TOKEN ∅). split; [done|]. split; [by left|]. simpl. apply Nat.le_0_l.
Qed.

Lemma takes_bounded_by_unparks_witness :
  exists r, prun multi_unpark_access (two_producers ++ [TakeCas 2; TakeCas 3]) fresh_run = Some r /\
    token_balance r.
Proof.
  eexists. split; [vm_compute; reflexivity|].
  apply (takes_bounded_by_unparks multi_unpark_access (two_producers ++ [TakeCas 2; TakeCas 3]));
    [right; reflexivity|vm_compute; reflexivity].
Defined.
