(* ===== verification/BenchFs.v ===== *)
(** * The file system and process benchctl runs on; its errors (tools/benchctl/src/error.rs)

    benchctl's operations are sequences of system calls. Here a state holds the file
    system (files, directories, symbolic links), the process's identity and environment,
    the clock and the standard output; a program is a function from a state to a result
    and a state. Every system call consults a fault oracle first, so a
    theorem that quantifies over the state covers a failure of any call at any point. The
    file-system calls are the standard library's: name resolution follows symbolic
    links (with Linux's limit of 40), lstat does not follow the last one, and a
    directory is listed in an unspecified order. *)

From S2P Require Import Prelude.
From stdpp Require Import pretty.
From Stdlib Require Import Ascii.
Open Scope Z_scope.

(** ** Errors *)

Inductive io_error := NotFound | PermissionDenied | NotADirectory | IsADirectory
  | AlreadyExists | WouldBlock | FilesystemLoop | InvalidData | InvalidInput | OtherError.
#[export] Instance io_error_eq_dec : EqDecision io_error.
Proof. solve_decision. Defined.

(** A path is the list of its components below the root directory. *)
Abbreviation path := (list string).

Inductive BenchError :=
| Usage (s : string)
| Preflight (s : string)
| RequestConflict (operation_id : string)
| RecoveryRequired (operation_id : string)
| RestoreConflictError (p : path) (expected actual : string)
| State (s : string)
| Workload (s : string)
| Io (operation : string) (source : io_error)
| Json (operation : string).

#[export] Instance BenchError_eq_dec : EqDecision BenchError.
Proof. solve_decision. Defined.

Open Scope string_scope.
Definition retry_advice (e : BenchError) : string :=
  match e with
  | RequestConflict _ | Usage _ | Preflight _ => "do not retry unchanged"
  | RecoveryRequired _ | RestoreConflictError _ _ _ => "run `benchctl recover <id>`"
  | Workload _ =>
      "inspect workload output; a new operation is safe only after successful cleanup"
  | State _ | Io _ _ | Json _ => "inspect state and retry only when the cause is resolved"
  end.
Close Scope string_scope.

Definition exit_code (e : BenchError) : Z :=
  match e with Workload _ => 1 | _ => 2 end.

(** ** The file system *)

Inductive node :=
| File (content : string) (uid mode : Z)
| Dir (uid mode : Z)
| Symlink (target : path).

Definition is_symlink (n : node) : bool := match n with Symlink _ => true | _ => false end.
Definition is_dir (n : node) : bool := match n with Dir _ _ => true | _ => false end.

Abbreviation nodes := (gmap path node).

(** Resolution of [todo] below the resolved directory [done]; [links] bounds the number
    of symbolic links followed. *)
Fixpoint resolve_from (links : nat) (ns : nodes) : path -> list string -> option path :=
  fix go (done : path) (todo : list string) : option path :=
    match todo with
    | [] => Some done
    | c :: rest =>
        if bool_decide (c = "..") then go (removelast done) rest
        else
          match ns !! (done ++ [c]) with
          | Some (Symlink target) =>
              match links with O => None | S k => resolve_from k ns [] (target ++ rest) end
          | _ => go (done ++ [c]) rest
          end
    end.

Definition MAX_LINKS : nat := 40.
Definition resolve (ns : nodes) (p : path) : option path := resolve_from MAX_LINKS ns [] p.

(** The node a path names; the root directory always exists. *)
Definition at_path (ns : nodes) (p : path) : option node :=
  if bool_decide (p = []) then Some (Dir 0 493) else ns !! p.
Definition stat (ns : nodes) (p : path) : option node := r ← resolve ns p; at_path ns r.

(** The name of [p] itself, its parent resolved: what lstat, rename and open(O_CREAT) act on. *)
Definition resolve_parent (ns : nodes) (p : path) : option path :=
  match last p with
  | None => Some []
  | Some c => r ← resolve ns (removelast p); Some (r ++ [c])
  end.
Definition lstat (ns : nodes) (p : path) : option node :=
  r ← resolve_parent ns p; at_path ns r.

(** The names in a directory. *)
Definition child_names (ns : nodes) (d : path) : gset string :=
  list_to_set (omap (fun p : path =>
    match last p with
    | Some c => if bool_decide (p = d ++ [c]) then Some c else None
    | None => None
    end) (map_to_list ns).*1).
Definition children (ns : nodes) (d : path) : list string := elements (child_names ns d).

(** ** The process and the state *)

Record proc := mkProc {
  pr_euid : Z;
  pr_egid : Z;
  pr_pid : Z;
  pr_cwd : path;
  pr_env : gmap string string;
  pr_exe : path;
}.

Record iost := mkIo {
  io_nodes : nodes;
  io_faults : nat -> option io_error;
  io_ops : nat;
  io_order : list string -> list string;
  io_millis : Z;
  io_out : list string;
  io_proc : proc;
}.

Definition io_step (s : iost) : iost :=
  {| io_nodes := io_nodes s; io_faults := io_faults s; io_ops := S (io_ops s);
     io_order := io_order s; io_millis := io_millis s; io_out := io_out s;
     io_proc := io_proc s |}.
Definition io_set (ns : nodes) (s : iost) : iost :=
  {| io_nodes := ns; io_faults := io_faults s; io_ops := io_ops s;
     io_order := io_order s; io_millis := io_millis s; io_out := io_out s;
     io_proc := io_proc s |}.
Definition io_print (l : string) (s : iost) : iost :=
  {| io_nodes := io_nodes s; io_faults := io_faults s; io_ops := io_ops s;
     io_order := io_order s; io_millis := io_millis s; io_out := l :: io_out s;
     io_proc := io_proc s |}.

(** ** Programs: [Result<T, BenchError>] with effects *)

Definition IO (A : Type) : Type := iost -> result A BenchError * iost.

#[export] Instance IO_ret : MRet IO := fun A x s => (Ok x, s).
#[export] Instance IO_bind : MBind IO := fun A B k m s =>
  match m s with
  | (Ok x, s') => k x s'
  | (Err e, s') => (Err e, s')
  end.

Definition throw {A} (e : BenchError) : IO A := fun s => (Err e, s).
Definition lift {A} (r : result A BenchError) : IO A := fun s => (r, s).
(** [match m { Ok(x) => ..., Err(e) => ... }] *)
Definition try {A} (m : IO A) : IO (result A BenchError) :=
  fun s => let '(r, s') := m s in (Ok r, s').
Definition println (l : string) : IO unit := fun s => (Ok tt, io_print l s).
Definition get_proc {A} (f : proc -> A) : IO A := fun s => (Ok (f (io_proc s)), s).
Definition now_millis : IO Z := fun s => (Ok (io_millis s), s).

(** A system call, and its use with [map_err(|error| BenchError::io(operation, error))]. *)
Definition sys (A : Type) : Type := iost -> result A io_error * iost.
Definition syscall {A} (f : iost -> result A io_error * iost) : sys A := fun s =>
  match io_faults s (io_ops s) with
  | Some e => (Err e, io_step s)
  | None => f (io_step s)
  end.
Definition io_op {A} (operation : string) (m : sys A) : IO A := fun s =>
  match m s with
  | (Ok x, s') => (Ok x, s')
  | (Err e, s') => (Err (Io operation e), s')
  end.

(** ** System calls *)

Definition sys_read (p : path) : sys string :=
  syscall (fun s =>
    (match resolve (io_nodes s) p with
     | None => Err FilesystemLoop
     | Some r =>
         match at_path (io_nodes s) r with
         | Some (File c _ _) => Ok c
         | Some (Dir _ _) => Err IsADirectory
         | _ => Err NotFound
         end
     end, s)).

(** fs::write: truncate and write, or create. *)
Definition sys_write (p : path) (c : string) : sys unit :=
  syscall (fun s =>
    match resolve (io_nodes s) p with
    | None => (Err FilesystemLoop, s)
    | Some r =>
        match at_path (io_nodes s) r with
        | Some (File _ uid mode) => (Ok tt, io_set (<[r := File c uid mode]> (io_nodes s)) s)
        | Some (Dir _ _) => (Err IsADirectory, s)
        | Some (Symlink _) => (Err FilesystemLoop, s)
        | None =>
            match at_path (io_nodes s) (removelast r) with
            | Some (Dir _ _) =>
                (Ok tt, io_set (<[r := File c (pr_euid (io_proc s)) 420]> (io_nodes s)) s)
            | _ => (Err NotFound, s)
            end
        end
    end).

Definition sys_read_dir (p : path) : sys (list string) :=
  syscall (fun s =>
    (match resolve (io_nodes s) p with
     | None => Err FilesystemLoop
     | Some r =>
         match at_path (io_nodes s) r with
         | Some (Dir _ _) => Ok (io_order s (children (io_nodes s) r))
         | Some _ => Err NotADirectory
         | None => Err NotFound
         end
     end, s)).

Definition sys_lstat (p : path) : sys node :=
  syscall (fun s =>
    (match resolve_parent (io_nodes s) p with
     | None => Err FilesystemLoop
     | Some r => ok_or (at_path (io_nodes s) r) NotFound
     end, s)).

(** [Path::exists]: an error reads as absent. *)
Definition sys_exists (p : path) : IO bool := fun s =>
  match syscall (fun s => (match stat (io_nodes s) p with Some _ => Ok tt | None => Err NotFound end, s)) s with
  | (Ok _, s') => (Ok true, s')
  | (Err _, s') => (Ok false, s')
  end.

Definition sys_chmod (p : path) (mode : Z) : sys unit :=
  syscall (fun s =>
    match resolve (io_nodes s) p with
    | None => (Err FilesystemLoop, s)
    | Some r =>
        match at_path (io_nodes s) r with
        | Some (File c uid _) => (Ok tt, io_set (<[r := File c uid mode]> (io_nodes s)) s)
        | Some (Dir uid _) => (Ok tt, io_set (<[r := Dir uid mode]> (io_nodes s)) s)
        | _ => (Err NotFound, s)
        end
    end).

(** fs::create_dir_all: create the missing directories of the path from the top down. *)
Fixpoint mkdirs (uid : Z) (ns : nodes) (done : path) (todo : list string) : result nodes io_error :=
  match todo with
  | [] => Ok ns
  | c :: rest =>
      let here := done ++ [c] in
      match stat ns here with
      | Some (Dir _ _) => mkdirs uid ns here rest
      | Some _ => Err NotADirectory
      | None =>
          match resolve_parent ns here with
          | Some r => mkdirs uid (<[r := Dir uid 493]> ns) here rest
          | None => Err FilesystemLoop
          end
      end
  end.
Definition sys_create_dir_all (p : path) : sys unit :=
  syscall (fun s =>
    match mkdirs (pr_euid (io_proc s)) (io_nodes s) [] p with
    | Ok ns => (Ok tt, io_set ns s)
    | Err e => (Err e, s)
    end).

(** Creating a temporary file next to [p], writing it and syncing it touch nothing another
    path names; the temporary is removed when an error drops it. *)
Definition sys_private (p : path) : sys unit :=
  syscall (fun s =>
    match stat (io_nodes s) (removelast p) with
    | Some (Dir _ _) => (Ok tt, s)
    | Some _ => (Err NotADirectory, s)
    | None => (Err NotFound, s)
    end).
(** Renaming the temporary file with content [c] over [p]. *)
Definition sys_persist (p : path) (c : string) : sys unit :=
  syscall (fun s =>
    match resolve_parent (io_nodes s) p with
    | None => (Err FilesystemLoop, s)
    | Some r =>
        match at_path (io_nodes s) r with
        | Some (Dir _ _) => (Err IsADirectory, s)
        | _ =>
            match at_path (io_nodes s) (removelast r) with
            | Some (Dir _ _) =>
                (Ok tt, io_set (<[r := File c (pr_euid (io_proc s)) 384]> (io_nodes s)) s)
            | _ => (Err NotFound, s)
            end
        end
    end).

(** unlink *)
Definition sys_remove_file (p : path) : sys unit :=
  syscall (fun s =>
    match resolve_parent (io_nodes s) p with
    | None => (Err FilesystemLoop, s)
    | Some r =>
        match at_path (io_nodes s) r with
        | Some (Dir _ _) => (Err IsADirectory, s)
        | Some _ => (Ok tt, io_set (delete r (io_nodes s)) s)
        | None => (Err NotFound, s)
        end
    end).

(** ** tools/benchctl/src/runtime.rs *)

Definition atomic_write (p : path) (bytes : string) : IO unit :=
  match p with
  | [] => throw (Usage "state path has no parent")
  | _ =>
      _ ← io_op "creating state directory" (sys_create_dir_all (removelast p));
      _ ← (if bool_decide (last p = Some "..")
           then throw (Usage "state path has no file name") else mret tt);
      _ ← io_op "creating partial state" (sys_private p);
      _ ← io_op "writing partial state" (sys_private p);
      _ ← io_op "syncing partial state" (sys_private p);
      _ ← io_op "publishing state" (sys_persist p bytes);
      io_op "syncing state directory" (sys_private p)
  end.

(** ** Strings *)

Definition is_space (c : ascii) : bool :=
  let n := Ascii.nat_of_ascii c in
  ((n =? 32) || ((9 <=? n) && (n <=? 13)))%nat.
Fixpoint trim_start (s : string) : string :=
  match s with
  | EmptyString => EmptyString
  | String c r => if is_space c then trim_start r else s
  end.
Fixpoint trim_end (s : string) : string :=
  match s with
  | EmptyString => EmptyString
  | String c r =>
      let r' := trim_end r in
      if is_space c && bool_decide (r' = EmptyString) then EmptyString else String c r'
  end.
(** [str::trim], for ASCII white space *)
Definition trim (s : string) : string := trim_end (trim_start s).

Fixpoint str_strip_prefix (pre s : string) : option string :=
  match pre, s with
  | EmptyString, _ => Some s
  | String a pre, String b s => if bool_decide (a = b) then str_strip_prefix pre s else None
  | String _ _, EmptyString => None
  end.

Definition digit_val (c : ascii) : option Z :=
  let n := Z.of_nat (Ascii.nat_of_ascii c) in
  if (48 <=? n) && (n <=? 57) then Some (n - 48) else None.

(** The digits of an unsigned integer of at most [m], checked for overflow at each step. *)
Fixpoint parse_digits (m acc : Z) (s : string) : option Z :=
  match s with
  | EmptyString => Some acc
  | String c r =>
      d ← digit_val c;
      let acc := acc * 10 + d in
      if acc <=? m then parse_digits m acc r else None
  end.
(** [str::parse] for an unsigned integer: an optional plus sign and at least one digit. *)
Definition parse_unsigned (m : Z) (s : string) : option Z :=
  let digits := match s with String "+" r => r | _ => s end in
  if bool_decide (digits = EmptyString) then None else parse_digits m 0 digits.

(** [str]'s order, bytewise. *)
Fixpoint string_leb (a b : string) : bool :=
  match a, b with
  | EmptyString, _ => true
  | String _ _, EmptyString => false
  | String x a, String y b =>
      let nx := Ascii.nat_of_ascii x in
      let ny := Ascii.nat_of_ascii y in
      (nx <? ny)%nat || ((nx =? ny)%nat && string_leb a b)
  end.

(** [Path::display] *)
Definition display (p : path) : string :=
  match p with
  | [] => "/"
  | _ => foldr (fun c acc => "/" +:+ c +:+ acc)%string EmptyString p
  end.

(** A path that may be relative to the working directory. *)
Inductive rpath := Absolute (p : path) | Relative (p : path).
#[export] Instance rpath_eq_dec : EqDecision rpath.
Proof. solve_decision. Defined.

Definition is_absolute (p : rpath) : bool := match p with Absolute _ => true | Relative _ => false end.
Definition at_cwd (cwd : path) (p : rpath) : path :=
  match p with Absolute p => p | Relative p => cwd ++ p end.
Definition sys_read_at (p : rpath) : sys string := fun s => sys_read (at_cwd (pr_cwd (io_proc s)) p) s.

(** ** Program logic *)

Definition iwp {A} (m : IO A) (s : iost) (Q : result A BenchError -> iost -> Prop) : Prop :=
  Q (m s).1 (m s).2.

(** What no program changes, and what a reading one does not change. *)
Record kept (s s' : iost) : Prop := mkKept {
  kept_faults : io_faults s' = io_faults s;
  kept_order : io_order s' = io_order s;
  kept_proc : io_proc s' = io_proc s;
  kept_millis : io_millis s' = io_millis s;
  kept_ops : (io_ops s <= io_ops s')%nat;
}.
Definition same (s s' : iost) : Prop := kept s s' /\ io_nodes s' = io_nodes s.

(** No system call fails from here on. *)
Definition no_faults (s : iost) : Prop := forall n, (io_ops s <= n)%nat -> io_faults s n = None.

Lemma kept_refl s : kept s s.
Proof. by split. Qed.
Lemma kept_trans s1 s2 s3 : kept s1 s2 -> kept s2 s3 -> kept s1 s3.
Proof. intros [] []. split; (congruence || lia). Qed.
Lemma same_refl s : same s s.
Proof. split; [apply kept_refl|done]. Qed.
Lemma same_trans s1 s2 s3 : same s1 s2 -> same s2 s3 -> same s1 s3.
Proof. intros [] []. split; [by eapply kept_trans|congruence]. Qed.
Lemma same_step s : same s (io_step s).
Proof. split; [split|]; simpl; auto. Qed.
Lemma kept_set ns s : kept s (io_set ns s).
Proof. by split. Qed.
Lemma no_faults_kept s s' : kept s s' -> no_faults s -> no_faults s'.
Proof. intros [Hf _ _ _ Ho] Hn n Hle. rewrite Hf. apply Hn. lia. Qed.
Lemma no_faults_same s s' : same s s' -> no_faults s -> no_faults s'.
Proof. intros [Hk _]. by apply no_faults_kept. Qed.

Section iwp_rules.
Context {A B : Type}.
Implicit Types (m : IO A) (k : A -> IO B) (s : iost).

Lemma iwp_bind m k s Q :
  iwp m s (fun r s' => match r with Ok v => iwp (k v) s' Q | Err e => Q (Err e) s' end) ->
  iwp (mbind k m) s Q.
Proof. unfold iwp, mbind, IO_bind. by destruct (m s) as [[v|e] s']. Qed.

Lemma iwp_mono m s (Q Q' : result A BenchError -> iost -> Prop) :
  iwp m s Q -> (forall r s', Q r s' -> Q' r s') -> iwp m s Q'.
Proof. unfold iwp. auto. Qed.

Lemma iwp_and m s (Q Q' : result A BenchError -> iost -> Prop) :
  iwp m s Q -> iwp m s Q' -> iwp m s (fun r s' => Q r s' /\ Q' r s').
Proof. unfold iwp. auto. Qed.

Lemma iwp_self m s : iwp m s (fun r s' => m s = (r, s')).
Proof. apply surjective_pairing. Qed.

Lemma iwp_run m s Q r s' : iwp m s Q -> m s = (r, s') -> Q r s'.
Proof. unfold iwp. intros HQ Hr. by rewrite Hr in HQ. Qed.

Lemma iwp_sys op (f : iost -> result A io_error * iost) s (Q : result A BenchError -> iost -> Prop) :
  (forall e, io_faults s (io_ops s) = Some e -> Q (Err (Io op e)) (io_step s)) ->
  (forall x s', f (io_step s) = (Ok x, s') -> Q (Ok x) s') ->
  (forall e s', f (io_step s) = (Err e, s') -> Q (Err (Io op e)) s') ->
  iwp (io_op op (syscall f)) s Q.
Proof.
  intros Hf Ho He. unfold iwp, io_op, syscall.
  destruct (io_faults s (io_ops s)) as [e|] eqn:E; [by apply Hf|].
  destruct (f (io_step s)) as [[x|e] s'] eqn:Ef; simpl; [by apply Ho|by apply He].
Qed.

Lemma iwp_try m s (Q : result (result A BenchError) BenchError -> iost -> Prop) :
  iwp m s (fun r s' => Q (Ok r) s') -> iwp (try m) s Q.
Proof. unfold iwp, try. by destruct (m s). Qed.
End iwp_rules.

(** A run, by its result. *)
Lemma run_by_result {A} (m : IO A) s r : (m s).1 = r -> m s = (r, (m s).2).
Proof. intros <-. apply surjective_pairing. Qed.

(** Programs that only read. *)
Definition ro {A} (m : IO A) : Prop := forall s, same s (m s).2.

Lemma ro_iwp {A} (m : IO A) s : ro m -> iwp m s (fun _ s' => same s s').
Proof. intros Hm. apply Hm. Qed.
Lemma ro_ret {A} (x : A) : ro (mret x).
Proof. intros s. apply same_refl. Qed.
Lemma ro_throw {A} e : ro (throw (A := A) e).
Proof. intros s. apply same_refl. Qed.
Lemma ro_lift {A} (r : result A BenchError) : ro (lift r).
Proof. intros s. apply same_refl. Qed.
Lemma ro_bind {A B} (m : IO A) (k : A -> IO B) : ro m -> (forall x, ro (k x)) -> ro (mbind k m).
Proof.
  intros Hm Hk s. unfold mbind, IO_bind. specialize (Hm s). destruct (m s) as [[v|e] s']; [|done].
  by eapply same_trans, Hk.
Qed.
Lemma ro_sys {A} op (f : iost -> result A io_error * iost) :
  (forall s, (f s).2 = s) -> ro (io_op op (syscall f)).
Proof.
  intros Hf s. unfold io_op, syscall. destruct (io_faults s (io_ops s)); [apply same_step|].
  specialize (Hf (io_step s)). destruct (f (io_step s)) as [[]]; simpl in *; subst; apply same_step.
Qed.
Lemma ro_read op p : ro (io_op op (sys_read p)).
Proof. by apply ro_sys. Qed.
Lemma ro_read_dir op p : ro (io_op op (sys_read_dir p)).
Proof. by apply ro_sys. Qed.
Lemma ro_lstat op p : ro (io_op op (sys_lstat p)).
Proof. by apply ro_sys. Qed.
Lemma ro_exists p : ro (sys_exists p).
Proof.
  intros s. unfold sys_exists, syscall. destruct (io_faults s (io_ops s)); [apply same_step|].
  simpl. case_match; apply same_step.
Qed.
Lemma ro_get_proc {A} (f : proc -> A) : ro (get_proc f).
Proof. intros s. apply same_refl. Qed.
Lemma ro_now : ro now_millis.
Proof. intros s. apply same_refl. Qed.

#[export] Hint Resolve ro_ret ro_throw ro_lift ro_read ro_read_dir ro_lstat ro_exists ro_get_proc
  ro_now same_refl same_step kept_refl kept_set : snz.

Ltac ro_tac := repeat first [progress intros | apply ro_bind | case_match | solve [eauto with snz]].

(** *** Fault-free runs: a program returns [x] and changes nothing *)

Definition gives {A} (m : IO A) (s : iost) (r : result A BenchError) : Prop :=
  exists s', m s = (r, s') /\ same s s'.

Lemma gives_ret {A} (x : A) s : gives (mret x) s (Ok x).
Proof. exists s. split; [done|apply same_refl]. Qed.

Lemma gives_bind {A B} (m : IO A) (k : A -> IO B) s x r :
  no_faults s -> gives m s (Ok x) -> (forall s', no_faults s' -> same s s' -> gives (k x) s' r) ->
  gives (mbind k m) s r.
Proof.
  intros Hnf (s1 & Hm & Hs1) Hk. destruct (Hk s1) as (s2 & Hk2 & Hs2);
    [by eapply no_faults_same|done|].
  exists s2. unfold mbind, IO_bind. rewrite Hm. split; [done|by eapply same_trans].
Qed.

Lemma gives_sys {A} op (f : iost -> result A io_error * iost) s x :
  no_faults s -> f (io_step s) = (Ok x, io_step s) -> gives (io_op op (syscall f)) s (Ok x).
Proof.
  intros Hnf Hf. exists (io_step s). unfold io_op, syscall. rewrite Hnf, Hf by done.
  split; [done|apply same_step].
Qed.

(** ** Paths without symbolic links *)

Definition plain (ns : nodes) (p : path) : Prop :=
  forall q c r, p = q ++ c :: r -> c <> ".." /\ forall t, ns !! (q ++ [c]) <> Some (Symlink t).

(** Every directory of the path exists. *)
Definition dir_path (ns : nodes) (p : path) : Prop :=
  forall q c r, p = q ++ c :: r -> c <> ".." /\ exists u m, ns !! (q ++ [c]) = Some (Dir u m).

Lemma dir_path_plain ns p : dir_path ns p -> plain ns p.
Proof.
  intros Hd q c r Hp. destruct (Hd q c r Hp) as (Hc & u & m & Hn). split; [done|].
  intros t. by rewrite Hn.
Qed.

Lemma plain_nil ns : plain ns [].
Proof. intros q c r H. by destruct q. Qed.

Lemma plain_snoc ns p c :
  plain ns p -> c <> ".." -> (forall t, ns !! (p ++ [c]) <> Some (Symlink t)) -> plain ns (p ++ [c]).
Proof.
  intros Hp Hc Hn q d r Heq. destruct r as [|x r] using rev_ind.
  - apply app_inj_tail in Heq as [-> ->]. done.
  - rewrite app_comm_cons, app_assoc in Heq. apply app_inj_tail in Heq as [-> _]. by eapply Hp.
Qed.

Lemma plain_app ns p q : plain ns (p ++ q) -> plain ns p.
Proof. intros Hp a c r ->. apply (Hp a c (r ++ q)). by rewrite <- app_assoc. Qed.

Lemma plain_eq ns ns' p :
  plain ns p -> (forall q, q `prefix_of` p -> ns' !! q = ns !! q) -> plain ns' p.
Proof.
  intros Hp Heq q c r ->. rewrite Heq; [by apply (Hp q c r)|]. exists r. by rewrite <- app_assoc.
Qed.

Lemma resolve_from_plain k ns done todo :
  (forall q c r, todo = q ++ c :: r -> c <> ".." /\ forall t, ns !! (done ++ q ++ [c]) <> Some (Symlink t)) ->
  resolve_from k ns done todo = Some (done ++ todo).
Proof.
  revert done. induction todo as [|c rest IH]; intros done Hp.
  - destruct k; simpl; by rewrite app_nil_r.
  - destruct (Hp [] c rest eq_refl) as [Hc Hn]. simpl in Hn.
    assert (Hgo : resolve_from k ns done (c :: rest) = resolve_from k ns (done ++ [c]) rest).
    { destruct k; simpl; rewrite bool_decide_false by done;
        destruct (ns !! (done ++ [c])) as [[]|] eqn:E; try done; by destruct (Hn target). }
    rewrite Hgo, IH; [by rewrite <- app_assoc|].
    intros q d r ->. destruct (Hp (c :: q) d r eq_refl) as [Hd Hm]. split; [done|].
    intros t. rewrite <- app_assoc. apply Hm.
Qed.

Lemma resolve_plain ns p : plain ns p -> resolve ns p = Some p.
Proof. intros Hp. apply (resolve_from_plain _ _ []). intros q c r Heq. by apply (Hp q c r). Qed.

Lemma resolve_parent_plain ns p c : plain ns p -> resolve_parent ns (p ++ [c]) = Some (p ++ [c]).
Proof.
  intros Hp. unfold resolve_parent. rewrite last_snoc, removelast_last, resolve_plain by done. done.
Qed.

Lemma at_path_snoc ns p c : at_path ns (p ++ [c]) = ns !! (p ++ [c]).
Proof. unfold at_path. rewrite bool_decide_false; [done|]. by destruct p. Qed.

Lemma dir_path_app ns p q : dir_path ns (p ++ q) -> dir_path ns p.
Proof. intros Hp a c r ->. apply (Hp a c (r ++ q)). by rewrite <- app_assoc. Qed.

Lemma at_path_dir ns p : dir_path ns p -> exists u m, at_path ns p = Some (Dir u m).
Proof.
  intros Hd. destruct p as [|c p _] using rev_ind; [by eexists _, _|].
  rewrite at_path_snoc. destruct (Hd p c [] eq_refl) as (_ & u & m & Hn). eauto.
Qed.

Lemma stat_dir ns p : dir_path ns p -> exists u m, stat ns p = Some (Dir u m).
Proof.
  intros Hd. unfold stat. rewrite resolve_plain by (by apply dir_path_plain). by apply at_path_dir.
Qed.

Lemma mkdirs_noop uid ns pre todo : dir_path ns (pre ++ todo) -> mkdirs uid ns pre todo = Ok ns.
Proof.
  revert pre. induction todo as [|c rest IH]; intros pre Hd; [done|]. simpl.
  rewrite cons_middle, app_assoc in Hd.
  destruct (stat_dir ns (pre ++ [c])) as (u & m & ->); [by eapply dir_path_app|]. by apply IH.
Qed.

(** *** Atomic replacement *)

Section atomic_write.
Context (d : path) (n : string).

(** A call that leaves the file system alone and fails only by a fault. *)
Lemma iwp_quiet_call op (f : iost -> result unit io_error * iost) s :
  (forall s1, io_nodes s1 = io_nodes s -> exists s2, f s1 = (Ok tt, s2) /\ same s1 s2) ->
  iwp (io_op op (syscall f)) s (fun r s' => same s s' /\ (no_faults s -> r = Ok tt)).
Proof.
  intros Hf. destruct (Hf (io_step s) eq_refl) as (s2 & Hs2 & Hsame).
  apply iwp_sys.
  - intros e He. split; [apply same_step|]. intros Hn. by rewrite Hn in He by done.
  - intros x s' Hx. rewrite Hs2 in Hx. simplify_eq. split; [|done].
    eapply same_trans; [apply same_step|done].
  - intros e s' He. by rewrite Hs2 in He.
Qed.

Lemma iwp_mkdir op s :
  dir_path (io_nodes s) d ->
  iwp (io_op op (sys_create_dir_all d)) s (fun r s' => same s s' /\ (no_faults s -> r = Ok tt)).
Proof.
  intros Hd. apply iwp_quiet_call. intros s1 Hs1. rewrite Hs1.
  rewrite mkdirs_noop by done. eexists. split; [done|]. by split.
Qed.

Lemma iwp_private op s :
  dir_path (io_nodes s) d ->
  iwp (io_op op (sys_private (d ++ [n]))) s (fun r s' => same s s' /\ (no_faults s -> r = Ok tt)).
Proof.
  intros Hd. apply iwp_quiet_call. intros s1 Hs1. rewrite Hs1, removelast_last.
  destruct (stat_dir _ _ Hd) as (u & m & ->). eexists. split; [done|apply same_refl].
Qed.

Lemma iwp_persist op b s :
  dir_path (io_nodes s) d -> (forall u m, io_nodes s !! (d ++ [n]) <> Some (Dir u m)) ->
  iwp (io_op op (sys_persist (d ++ [n]) b)) s (fun r s' => kept s s' /\ (no_faults s -> r = Ok tt) /\
    match r with
    | Ok _ => io_nodes s' = <[d ++ [n] := File b (pr_euid (io_proc s)) 384]> (io_nodes s)
    | Err _ => io_nodes s' = io_nodes s
    end).
Proof.
  intros Hd Hn.
  assert (Hf : forall s1, io_nodes s1 = io_nodes s ->
    match resolve_parent (io_nodes s1) (d ++ [n]) with
    | None => (Err FilesystemLoop, s1)
    | Some r =>
        match at_path (io_nodes s1) r with
        | Some (Dir _ _) => (Err IsADirectory, s1)
        | _ =>
            match at_path (io_nodes s1) (removelast r) with
            | Some (Dir _ _) =>
                (Ok tt, io_set (<[r := File b (pr_euid (io_proc s1)) 384]> (io_nodes s1)) s1)
            | _ => (Err NotFound, s1)
            end
        end
    end = (Ok tt, io_set (<[d ++ [n] := File b (pr_euid (io_proc s1)) 384]> (io_nodes s1)) s1)).
  { intros s1 Hs1. rewrite Hs1, resolve_parent_plain by (by apply dir_path_plain).
    rewrite at_path_snoc, removelast_last. destruct (at_path_dir _ _ Hd) as (u & m & ->).
    destruct (io_nodes s !! (d ++ [n])) as [[]|] eqn:E; try done. by destruct (Hn uid mode). }
  apply iwp_sys.
  - intros e He. split; [apply same_step|]. split; [|done]. intros Hnf. by rewrite Hnf in He by done.
  - intros x s' Hx. rewrite Hf in Hx by done. simplify_eq.
    split; [eapply kept_trans; [apply same_step|apply kept_set]|]. done.
  - intros e s' He. by rewrite Hf in He by done.
Qed.

(** The file is replaced in one step: whatever fails, it has its old or its new content;
    success means the new one; nothing else changes. *)
Lemma atomic_write_spec b s :
  dir_path (io_nodes s) d -> n <> ".." ->
  (forall u m, io_nodes s !! (d ++ [n]) <> Some (Dir u m)) ->
  let written := <[d ++ [n] := File b (pr_euid (io_proc s)) 384]> (io_nodes s) in
  iwp (atomic_write (d ++ [n]) b) s (fun r s' =>
    kept s s' /\ (io_nodes s' = io_nodes s \/ io_nodes s' = written) /\
    (r = Ok tt -> io_nodes s' = written) /\ (no_faults s -> r = Ok tt)).
Proof.
  intros Hd Hn Hnd written.
  assert (Heq : atomic_write (d ++ [n]) b =
    (_ ← io_op "creating state directory" (sys_create_dir_all d);
     _ ← io_op "creating partial state" (sys_private (d ++ [n]));
     _ ← io_op "writing partial state" (sys_private (d ++ [n]));
     _ ← io_op "syncing partial state" (sys_private (d ++ [n]));
     _ ← io_op "publishing state" (sys_persist (d ++ [n]) b);
     io_op "syncing state directory" (sys_private (d ++ [n])))).
  { unfold atomic_write. rewrite removelast_last, last_snoc.
    rewrite bool_decide_false by (by intros [= ->]). by destruct d. }
  rewrite Heq. clear Heq.
  apply iwp_bind. eapply iwp_mono; [by apply iwp_mkdir|]. intros [[]|e] s1 [H1 F1].
  2: { destruct H1. split; [done|]. split; [by left|]. split; [done|]. intros Hnf. by destruct F1. }
  do 3 (match goal with H : same s ?s1 |- iwp _ ?s1 _ =>
    apply iwp_bind;
    eapply iwp_mono; [apply iwp_private; by rewrite (proj2 H)|];
    let s2 := fresh "s" in let G := fresh "G" in let F := fresh "F" in
    intros [[]|] s2 [G F];
    [pose proof (same_trans _ _ _ H G); assert (no_faults s -> Ok (E := BenchError) tt = Ok tt) by done
    |destruct (same_trans _ _ _ H G); split; [done|]; split; [by left|]; split; [done|];
     intros Hnf; apply F; by eapply no_faults_same]
  end).
  match goal with H : same s ?s1 |- iwp _ ?s1 _ => rename H into Hs; set (s9 := s1) in * end.
  destruct Hs as [Hk Hns].
  apply iwp_bind. eapply iwp_mono; [apply iwp_persist; by rewrite Hns|].
  intros [[]|e] s6 (Hk6 & F6 & Hn6); rewrite Hns in Hn6.
  2: { split; [by eapply kept_trans|]. split; [by left|]. split; [done|]. intros Hnf.
       apply F6. by eapply no_faults_kept. }
  rewrite (kept_proc _ _ Hk) in Hn6. fold written in Hn6.
  assert (Hd6 : dir_path (io_nodes s6) d).
  { rewrite Hn6. intros q c r Heq. destruct (Hd q c r Heq) as (Hc & u & m & Hq). split; [done|].
    exists u, m. unfold written. rewrite lookup_insert_ne; [done|].
    intros Hbad. apply (f_equal length) in Hbad. subst d. rewrite !length_app in Hbad. simpl in Hbad. lia. }
  eapply iwp_mono; [by apply iwp_private|]. intros r s7 [[Hk7 Hn7] F7].
  pose proof (kept_trans _ _ _ Hk (kept_trans _ _ _ Hk6 Hk7)) as Hk17.
  split; [done|]. rewrite Hn7, Hn6. split; [by right|]. split; [done|]. intros Hnf. apply F7.
  eapply no_faults_kept; [exact (kept_trans _ _ _ Hk Hk6)|done].
Qed.
End atomic_write.

(** ** Directories *)

Lemma elem_of_child_names ns d c : c ∈ child_names ns d <-> is_Some (ns !! (d ++ [c])).
Proof.
  unfold child_names. rewrite elem_of_list_to_set, list_elem_of_omap. split.
  - intros (p & Hp & Hc). destruct (last p) as [c'|] eqn:El; [|done].
    case_bool_decide as Hd; [|done]. injection Hc as <-. rewrite Hd in Hp.
    apply list_elem_of_fmap in Hp as ([q n] & Heq & Hq). simpl in Heq. rewrite Heq.
    exists n. by apply elem_of_map_to_list.
  - intros [n Hn]. exists (d ++ [c]). split.
    + apply list_elem_of_fmap. exists (d ++ [c], n). split; [done|]. by apply elem_of_map_to_list.
    + rewrite last_snoc. by rewrite bool_decide_true.
Qed.

Lemma elem_of_children ns d c : c ∈ children ns d <-> is_Some (ns !! (d ++ [c])).
Proof. unfold children. rewrite elem_of_elements. apply elem_of_child_names. Qed.

Lemma NoDup_children ns d : NoDup (children ns d).
Proof. apply NoDup_elements. Qed.

(** A directory's listing depends only on which names exist in it. *)
Lemma children_eq ns ns' d :
  (forall c, is_Some (ns !! (d ++ [c])) <-> is_Some (ns' !! (d ++ [c]))) ->
  children ns d = children ns' d.
Proof.
  intros Heq. unfold children. f_equal. apply set_eq. intros c. by rewrite !elem_of_child_names.
Qed.

(** Writing a file makes no symbolic link. *)
Lemma plain_insert ns p q c u m : plain ns p -> plain (<[q := File c u m]> ns) p.
Proof.
  intros Hp a d r Heq. destruct (Hp a d r Heq) as [Hd Hn]. split; [done|]. intros t.
  destruct (decide (a ++ [d] = q)) as [->|Hne]; [by rewrite lookup_insert_eq|].
  by rewrite lookup_insert_ne.
Qed.
