(* ===== verification/Process.v ===== *)
(** * Processes, time and other actors for benchctl (the operating system under supervision.rs and build.rs)

    benchctl's supervisors run beside other processes: the workload, cargo, a guardian, the
    kernel. A world adds to the file system of [BenchFs] a monotonic clock, the process
    table, the advisory locks and the cancellation flag. Before every operation of the modelled program the
    [Environment] takes a turn: it may change the files, the processes, the locks and the
    flag, and let time pass. A theorem over all environments that satisfy a rely condition
    covers every interleaving of the other actors. Loops carry fuel; a program whose fuel runs out, or that the source
    never lets return, has the result [None]. *)

From stdpp Require Import pretty.
From Stdlib Require Import Ascii.
From S2P Require Import Prelude BenchFs.
Open Scope Z_scope.

(** ** Data *)

(** [ExitStatus]: an exit code or a terminating signal. *)
Inductive ExitStatus := Exited (code : Z) | Signaled (signal : Z).
#[export] Instance ExitStatus_eq_dec : EqDecision ExitStatus.
Proof. solve_decision. Defined.
Definition status_success (st : ExitStatus) : bool := bool_decide (st = Exited 0).
Definition status_code (st : ExitStatus) : option Z :=
  match st with Exited c => Some c | Signaled _ => None end.
Definition status_signal (st : ExitStatus) : option Z :=
  match st with Exited _ => None | Signaled n => Some n end.

(** A process: its group, its parent, and its exit status once it has exited and is not yet reaped. *)
Record process := mkProcess {
  ps_group : Z;
  ps_parent : Z;
  ps_exit : option ExitStatus;
}.

Inductive signal := SIGTERM | SIGKILL.
#[export] Instance signal_eq_dec : EqDecision signal.
Proof. solve_decision. Defined.

(** A program started in place of a child: the file it executes, its arguments, its environment and its identity, and
    what the pipe it inherits as a proof holds. *)
Record exec := mkExec {
  ex_program : path;
  ex_args : list string;
  ex_env : gmap string string;
  ex_uid : Z;
  ex_gid : Z;
  ex_proof : option string;
}.

(** What the program did to other processes, the latest first. *)
Inductive event :=
| EvSpawn (pid : Z) (argv : list string)
| EvSignal (group : Z) (sig : signal)
| EvExec (pid : Z) (e : exec).

#[export] Instance process_eq_dec : EqDecision process.
Proof. solve_decision. Defined.
#[export] Instance exec_eq_dec : EqDecision exec.
Proof. solve_decision. Defined.
#[export] Instance event_eq_dec : EqDecision event.
Proof. solve_decision. Defined.

Record world := mkWorld {
  w_io : iost;
  w_now : Z;                       (** milliseconds of the monotonic clock *)
  w_procs : gmap Z process;
  w_locks : gmap path Z;           (** who holds the lock of a file *)
  w_flag : bool;                   (** the cancellation flag *)
  w_pid : Z;                       (** the identifier the kernel gives to the next process *)
  w_reaped : gmap Z ExitStatus;    (** the children whose status a handle has collected *)
  w_log : list event;
  w_ticks : nat;
}.

Definition set_wio (s : iost) (w : world) : world :=
  mkWorld s (w_now w) (w_procs w) (w_locks w) (w_flag w) (w_pid w) (w_reaped w) (w_log w) (w_ticks w).
Definition set_now (t : Z) (w : world) : world :=
  mkWorld (w_io w) t (w_procs w) (w_locks w) (w_flag w) (w_pid w) (w_reaped w) (w_log w) (w_ticks w).
Definition set_procs (ps : gmap Z process) (w : world) : world :=
  mkWorld (w_io w) (w_now w) ps (w_locks w) (w_flag w) (w_pid w) (w_reaped w) (w_log w) (w_ticks w).
Definition set_locks (ls : gmap path Z) (w : world) : world :=
  mkWorld (w_io w) (w_now w) (w_procs w) ls (w_flag w) (w_pid w) (w_reaped w) (w_log w) (w_ticks w).
Definition set_reaped (rs : gmap Z ExitStatus) (w : world) : world :=
  mkWorld (w_io w) (w_now w) (w_procs w) (w_locks w) (w_flag w) (w_pid w) rs (w_log w) (w_ticks w).
Definition log_event (e : event) (w : world) : world :=
  mkWorld (w_io w) (w_now w) (w_procs w) (w_locks w) (w_flag w) (w_pid w) (w_reaped w) (e :: w_log w) (w_ticks w).

Abbreviation w_nodes w := (io_nodes (w_io w)).
Definition self (w : world) : Z := pr_pid (io_proc (w_io w)).

(** ** The other actors *)

Record effect := mkEffect {
  ef_nodes : nodes;
  ef_procs : gmap Z process;
  ef_locks : gmap path Z;
  ef_flag : bool;
  ef_pid : Z;
  ef_delay : N;
}.
Class Environment := turn : nat -> world -> effect.

(** No turn touches the program's own state; time does not run backwards. *)
Definition env_turn `{Environment} (w : world) : world :=
  let e := turn (w_ticks w) w in
  mkWorld (io_set (ef_nodes e) (w_io w)) (w_now w + Z.of_N (ef_delay e)) (ef_procs e) (ef_locks e)
    (ef_flag e) (ef_pid e) (w_reaped w) (w_log w) (S (w_ticks w)).

(** ** Programs *)

Definition W (A : Type) : Type := world -> option (result A BenchError) * world.

#[export] Instance W_ret : MRet W := fun A x w => (Some (Ok x), w).
#[export] Instance W_bind : MBind W := fun A B k m w =>
  match m w with
  | (Some (Ok x), w') => k x w'
  | (Some (Err e), w') => (Some (Err e), w')
  | (None, w') => (None, w')
  end.
Definition fail {A} (e : BenchError) : W A := fun w => (Some (Err e), w).
Definition wlift {A} (r : result A BenchError) : W A := fun w => (Some r, w).
(** [match m { Ok(x) => ..., Err(e) => ... }] *)
Definition attempt {A} (m : W A) : W (result A BenchError) :=
  fun w => match m w with (Some r, w') => (Some (Ok r), w') | (None, w') => (None, w') end.

(** A loop: the body returns a value to leave with. *)
Fixpoint repeat_until {A} (fuel : nat) (body : W (option A)) : W A :=
  match fuel with
  | O => fun w => (None, w)
  | S f => o ← body; match o with Some x => mret x | None => repeat_until f body end
  end.

Section operations.
Context `{Environment}.

(** One operation: the others take a turn, then it happens. *)
Definition act {A} (f : world -> result A BenchError * world) : W A :=
  fun w => let '(r, w') := f (env_turn w) in (Some r, w').

(** A file-system program as one operation. *)
Definition wio {A} (m : IO A) : W A :=
  act (fun w => let '(r, s) := m (w_io w) in (r, set_wio s w)).

(** A system call on processes: it may fail like any other. *)
Definition pcall {A} (operation : string) (f : world -> result A io_error * world) : W A :=
  act (fun w =>
    match io_faults (w_io w) (io_ops (w_io w)) with
    | Some e => (Err (Io operation e), set_wio (io_step (w_io w)) w)
    | None =>
        match f (set_wio (io_step (w_io w)) w) with
        | (Ok x, w') => (Ok x, w')
        | (Err e, w') => (Err (Io operation e), w')
        end
    end).

(** [Instant::now], [thread::sleep], and the value of the cancellation flag *)
Definition instant_now : W Z := act (fun w => (Ok (w_now w), w)).
Definition elapsed (started : Z) : W Z := t ← instant_now; mret (t - started).
Definition sleep (ms : Z) : W unit := act (fun w => (Ok tt, set_now (w_now w + ms) w)).
Definition flag_load : W bool := act (fun w => (Ok (w_flag w), w)).
Definition wexists (p : path) : W bool := wio (sys_exists p).

(** Reading a fact of the program's own process *)
Definition wget {A} (f : world -> A) : W A := fun w => (Some (Ok (f w)), w).

(** [loop { thread::sleep(...) }] *)
Definition sleep_forever {A} : W A := fun w => (None, env_turn w).

(** [Command::spawn] with [process_group(0)]: the child leads its own group. *)
Definition spawn (operation : string) (argv : list string) : W Z :=
  pcall operation (fun w =>
    let pid := w_pid w in
    if bool_decide (w_procs w !! pid = None) && (0 <? pid) then
      (Ok pid, log_event (EvSpawn pid argv)
         (set_procs (<[pid := mkProcess pid (self w) None]> (w_procs w))
           (set_reaped (delete pid (w_reaped w)) w)))
    else (Err WouldBlock, w)).

(** [Child::try_wait]: the collected status, or a waitpid that does not block. *)
Definition try_wait (operation : string) (pid : Z) : W (option ExitStatus) :=
  pcall operation (fun w =>
    match w_reaped w !! pid with
    | Some st => (Ok (Some st), w)
    | None =>
        match w_procs w !! pid with
        | None => (Err OtherError, w)
        | Some p =>
            match ps_exit p with
            | None => (Ok None, w)
            | Some st =>
                (Ok (Some st), set_procs (delete pid (w_procs w)) (set_reaped (<[pid := st]> (w_reaped w)) w))
            end
        end
    end).
(** [Child::wait] *)
Definition wait_child (fuel : nat) (operation : string) (pid : Z) : W ExitStatus :=
  repeat_until fuel (try_wait operation pid).

(** ** Process groups *)

Definition members (w : world) (g : Z) : list Z :=
  (filter (fun p : Z * process => ps_group p.2 = g) (map_to_list (w_procs w))).*1.
Definition group_empty (w : world) (g : Z) : Prop :=
  forall pid p, w_procs w !! pid = Some p -> ps_group p <> g.
Definition group_emptyb (w : world) (g : Z) : bool := bool_decide (members w g = []).

(** killpg with a signal or, with none, only asking; an exited process that is not reaped
    still answers. *)
Inductive killed := Delivered | NoSuchGroup.
Definition killpg (operation : string) (g : Z) (sig : option signal) : W killed :=
  act (fun w =>
    match io_faults (w_io w) (io_ops (w_io w)) with
    | Some _ => (Err (State operation), set_wio (io_step (w_io w)) w)
    | None =>
        let w := set_wio (io_step (w_io w)) w in
        if group_emptyb w g then (Ok NoSuchGroup, w)
        else (Ok Delivered, match sig with Some s => log_event (EvSignal g s) w | None => w end)
    end).

(** While the limit is not reached: reap what can be reaped, and stop once the group is empty. *)
Definition drain_loop (fuel : nat) (inspect : string) (reap : W unit) (g started limit : Z) : W bool :=
  repeat_until fuel
    (e ← elapsed started;
     if negb (e <? limit) then mret (Some false)
     else
       _ ← reap;
       k ← killpg inspect g None;
       match k with
       | NoSuchGroup => mret (Some true)
       | Delivered => _ ← sleep 10; mret None
       end).

(** Ask the group to stop, then kill it, and return once it is seen empty; both supervision.rs and
    build.rs have it, with messages of their own. *)
Definition drain_group (fuel : nat) (signalling inspect exhausted : string) (reap_term reap_kill : W unit)
    (grace limit g : Z) : W unit :=
  _ ← killpg signalling g (Some SIGTERM);
  started ← instant_now;
  b ← drain_loop fuel inspect reap_term g started grace;
  if b : bool then mret tt
  else
    _ ← killpg signalling g (Some SIGKILL);
    started ← instant_now;
    b ← drain_loop fuel inspect reap_kill g started limit;
    if b : bool then mret tt else fail (State exhausted).

(** getppid *)
Definition has_parent (expected : Z) : W bool :=
  act (fun w => (Ok (match w_procs w !! self w with
                     | Some p => bool_decide (ps_parent p = expected)
                     | None => false
                     end), w)).

(** ** File locks *)

(** fs::create_dir *)
Definition sys_create_dir (p : path) : sys unit :=
  syscall (fun s =>
    match resolve_parent (io_nodes s) p with
    | None => (Err FilesystemLoop, s)
    | Some r =>
        match at_path (io_nodes s) r with
        | Some _ => (Err AlreadyExists, s)
        | None =>
            match at_path (io_nodes s) (removelast r) with
            | Some (Dir _ _) => (Ok tt, io_set (<[r := Dir (pr_euid (io_proc s)) 493]> (io_nodes s)) s)
            | _ => (Err NotFound, s)
            end
        end
    end).

(** fs::remove_dir_all *)
Definition sys_remove_dir_all (p : path) : sys unit :=
  syscall (fun s =>
    match resolve_parent (io_nodes s) p with
    | None => (Err FilesystemLoop, s)
    | Some r =>
        match at_path (io_nodes s) r with
        | Some (Dir _ _) =>
            (Ok tt, io_set (filter (fun kv : path * node => ~ r `prefix_of` kv.1) (io_nodes s)) s)
        | Some _ => (Err NotADirectory, s)
        | None => (Err NotFound, s)
        end
    end).

(** open for reading and writing, creating the file *)
Definition sys_open_create (p : path) : sys unit :=
  syscall (fun s =>
    match resolve (io_nodes s) p with
    | None => (Err FilesystemLoop, s)
    | Some r =>
        match at_path (io_nodes s) r with
        | Some (File _ _ _) => (Ok tt, s)
        | Some (Dir _ _) => (Err IsADirectory, s)
        | Some (Symlink _) => (Err FilesystemLoop, s)
        | None =>
            match at_path (io_nodes s) (removelast r) with
            | Some (Dir _ _) =>
                (Ok tt, io_set (<[r := File EmptyString (pr_euid (io_proc s)) 420]> (io_nodes s)) s)
            | _ => (Err NotFound, s)
            end
        end
    end).

(** [File::try_lock]: [false] when another holder has it *)
Definition try_lock (p : path) : W (result bool io_error) :=
  act (fun w =>
    match io_faults (w_io w) (io_ops (w_io w)) with
    | Some e => (Ok (Err e), set_wio (io_step (w_io w)) w)
    | None =>
        let w := set_wio (io_step (w_io w)) w in
        match w_locks w !! p with
        | None => (Ok (Ok true), set_locks (<[p := self w]> (w_locks w)) w)
        | Some _ => (Ok (Ok false), w)
        end
    end).
(** Closing the file releases the lock. *)
Definition unlock (p : path) : W unit :=
  fun w => (Some (Ok tt), set_locks (if bool_decide (w_locks w !! p = Some (self w)) then delete p (w_locks w)
                                     else w_locks w) w).
(** [File::lock] *)
Definition lock_file (fuel : nat) (operation : string) (p : path) : W unit :=
  repeat_until fuel (r ← try_lock p;
    match r with
    | Err e => fail (Io operation e)
    | Ok true => mret (Some tt)
    | Ok false => mret None
    end).
End operations.

(** ** Program logic

    [wwp I m w Q]: run from [w], the program keeps [I], also where its fuel runs out, and if it returns then
    [Q] holds of its result. *)

Definition wwp {A} (I : world -> Prop) (m : W A) (w : world) (Q : result A BenchError -> world -> Prop) : Prop :=
  I (m w).2 /\ match (m w).1 with Some r => Q r (m w).2 | None => True end.

Section rules.
Context `{Environment} (I : world -> Prop).
Implicit Types (w : world).

Lemma wwp_ret {A} (x : A) w (Q : result A BenchError -> world -> Prop) : I w -> Q (Ok x) w -> wwp I (mret x) w Q.
Proof. by split. Qed.
Lemma wwp_fail {A} e w (Q : result A BenchError -> world -> Prop) : I w -> Q (Err e) w -> wwp I (fail e) w Q.
Proof. by split. Qed.
Lemma wwp_lift {A} r w (Q : result A BenchError -> world -> Prop) : I w -> Q r w -> wwp I (wlift r) w Q.
Proof. by split. Qed.
Lemma wwp_mono {A} (m : W A) w (Q Q' : result A BenchError -> world -> Prop) :
  wwp I m w Q -> (forall r w', I w' -> Q r w' -> Q' r w') -> wwp I m w Q'.
Proof. intros [Hi Hq] Hm. split; [done|]. destruct (m w).1; [by apply Hm|done]. Qed.
Lemma wwp_bind {A B} (m : W A) (k : A -> W B) w Q :
  wwp I m w (fun r w' => match r with Ok x => wwp I (k x) w' Q | Err e => Q (Err e) w' end) ->
  wwp I (mbind k m) w Q.
Proof. intros [Hi Hq]. unfold wwp, mbind, W_bind. by destruct (m w) as [[[x|e]|] w']. Qed.
Lemma wwp_attempt {A} (m : W A) w Q :
  wwp I m w (fun r w' => Q (Ok r) w') -> wwp I (attempt m) w Q.
Proof. intros [Hi Hq]. unfold wwp, attempt. by destruct (m w) as [[r|] w']. Qed.
Lemma wwp_and {A} (m : W A) w (Q Q' : result A BenchError -> world -> Prop) :
  wwp I m w Q -> wwp I m w Q' -> wwp I m w (fun r w' => Q r w' /\ Q' r w').
Proof. intros [Hi H1] [_ H2]. split; [done|]. by destruct (m w).1. Qed.

(** A loop keeps [J], an invariant of its head. *)
Lemma wwp_repeat {A} (J : world -> Prop) fuel (body : W (option A)) w Q :
  J w -> (forall w, J w -> I w) ->
  (forall w, J w -> wwp I body w (fun r w' =>
     match r with Ok None => J w' | Ok (Some x) => Q (Ok x) w' | Err e => Q (Err e) w' end)) ->
  wwp I (repeat_until fuel body) w Q.
Proof.
  intros HJ HJI Hb. revert w HJ. induction fuel as [|f IH]; intros w HJ; [by split; [apply HJI|]|].
  cbn [repeat_until]. apply wwp_bind. eapply wwp_mono; [by apply Hb|].
  intros [[x|]|e] w' Hi Hw; [by apply wwp_ret|by apply IH|done].
Qed.

Lemma wwp_act {A} (f : world -> result A BenchError * world) w (Q : result A BenchError -> world -> Prop) :
  I (f (env_turn w)).2 -> Q (f (env_turn w)).1 (f (env_turn w)).2 -> wwp I (act f) w Q.
Proof. unfold wwp, act. by destruct (f (env_turn w)). Qed.
Lemma wwp_wio {A} (m : IO A) w (Q : result A BenchError -> world -> Prop) :
  iwp m (w_io (env_turn w)) (fun r s => I (set_wio s (env_turn w)) /\ Q r (set_wio s (env_turn w))) ->
  wwp I (wio m) w Q.
Proof.
  unfold iwp. intros [Hi Hq]. apply wwp_act; by destruct (m (w_io (env_turn w))).
Qed.
End rules.

Lemma elem_of_members w g pid :
  pid ∈ members w g <-> exists p, w_procs w !! pid = Some p /\ ps_group p = g.
Proof.
  unfold members. rewrite list_elem_of_fmap. split.
  - intros ([x p] & -> & Hin). apply list_elem_of_filter in Hin as [Hg Hin].
    apply elem_of_map_to_list in Hin. by exists p.
  - intros (p & Hp & Hg). exists (pid, p). split; [done|]. apply list_elem_of_filter. split; [done|].
    by apply elem_of_map_to_list.
Qed.

Lemma group_emptyb_spec w g : group_emptyb w g = true <-> group_empty w g.
Proof.
  unfold group_emptyb, group_empty. rewrite bool_decide_eq_true. split.
  - intros Hm pid p Hp Hg. assert (Hin : pid ∈ members w g) by (apply elem_of_members; by exists p).
    rewrite Hm in Hin. by apply elem_of_nil in Hin.
  - intros He. destruct (members w g) as [|pid l] eqn:E; [done|]. exfalso.
    assert (Hin : pid ∈ members w g) by (rewrite E; apply list_elem_of_here).
    apply elem_of_members in Hin as (p & Hp & Hg). by destruct (He pid p Hp).
Qed.
