(* ===== verification/ProcessProofs.v ===== *)
(** * Draining process groups: rules and specifications over [Process]

    The rules of the operations for invariants that the operating system's bookkeeping cannot break, the bound
    on loops that watch the clock, and what [drain_group] guarantees. *)

From stdpp Require Import pretty.
From S2P Require Import Prelude BenchFs Process.
Open Scope Z_scope.

(** ** Invariants of the files and the processes

    [I] survives a turn of the others and the bookkeeping of the program's own calls. *)
Class Quiet `{Environment} (I : world -> Prop) := {
  quiet_turn w : I w -> I (env_turn w);
  quiet_now t w : I w -> w_now w <= t -> I (set_now t w);
  quiet_io s w : I w -> same (w_io w) s -> I (set_wio s w);
  quiet_reap pid st w : I w ->
    I (set_procs (delete pid (w_procs w)) (set_reaped (<[pid := st]> (w_reaped w)) w));
}.

#[export] Instance quiet_true `{Environment} : Quiet (fun _ => True).
Proof. by split. Qed.
#[export] Instance quiet_and `{Environment} I J : Quiet I -> Quiet J -> Quiet (fun w => I w /\ J w).
Proof.
  intros HI HJ. split.
  - intros w [A B]. split; by apply quiet_turn.
  - intros t w [A B] Ht. split; by apply quiet_now.
  - intros s w [A B] Hs. split; by apply quiet_io.
  - intros pid st w [A B]. split; by apply quiet_reap.
Qed.

Section ops.
Context `{Environment} (I : world -> Prop) `{!Quiet I}.

Lemma quiet_syscall w : I w -> I (set_wio (io_step (w_io (env_turn w))) (env_turn w)).
Proof. intros Hi. apply quiet_io; [by apply quiet_turn|apply same_step]. Qed.

Lemma turn_faults w : no_faults (w_io w) -> no_faults (w_io (env_turn w)).
Proof. done. Qed.

(** A call that keeps [I] when it is not made to fail. *)
Lemma wwp_pcall {A} op (f : world -> result A io_error * world) w (Q : result A BenchError -> world -> Prop) :
  I w ->
  (forall e w', I w' -> Q (Err (Io op e)) w') ->
  (forall w1, I w1 -> w_now w <= w_now w1 -> w1 = set_wio (io_step (w_io (env_turn w))) (env_turn w) ->
     I (f w1).2 /\ forall x, (f w1).1 = Ok x -> Q (Ok x) (f w1).2) ->
  wwp I (pcall op f) w Q.
Proof.
  intros Hi He Hf. pose proof (quiet_syscall w Hi) as Hs.
  assert (Hnow : w_now w <= w_now (set_wio (io_step (w_io (env_turn w))) (env_turn w))) by (simpl; lia).
  unfold pcall. apply wwp_act.
  - destruct (io_faults _ _); [done|]. destruct (Hf _ Hs Hnow eq_refl) as [H1 _]. by destruct (f _) as [[]].
  - destruct (io_faults _ _) as [e|]; [by apply He|]. destruct (Hf _ Hs Hnow eq_refl) as [H1 H2].
    destruct (f _) as [[x|e] w']; [by apply H2|by apply He].
Qed.

Lemma wwp_now w (Q : result Z BenchError -> world -> Prop) :
  I w -> (forall w', I w' -> w_now w <= w_now w' -> Q (Ok (w_now w')) w') -> wwp I instant_now w Q.
Proof.
  intros Hi HQ. pose proof (quiet_turn w Hi) as Ht. apply wwp_act; [done|]. apply HQ; [done|]. simpl. lia.
Qed.
Lemma wwp_elapsed started w (Q : result Z BenchError -> world -> Prop) :
  I w -> (forall w', I w' -> w_now w <= w_now w' -> Q (Ok (w_now w' - started)) w') ->
  wwp I (elapsed started) w Q.
Proof.
  intros Hi HQ. apply wwp_bind. apply wwp_now; [done|]. intros w' Hi' Hle. apply wwp_ret; [done|by apply HQ].
Qed.
Lemma wwp_sleep ms w (Q : result unit BenchError -> world -> Prop) :
  0 <= ms -> I w -> (forall w', I w' -> w_now w + ms <= w_now w' -> Q (Ok tt) w') -> wwp I (sleep ms) w Q.
Proof.
  intros Hms Hi HQ. pose proof (quiet_turn w Hi) as Ht.
  assert (I (set_now (w_now (env_turn w) + ms) (env_turn w))) by (apply quiet_now; [done|lia]).
  apply wwp_act; [done|]. apply HQ; [done|]. simpl. lia.
Qed.
Lemma wwp_flag w (Q : result bool BenchError -> world -> Prop) :
  I w -> (forall b w', I w' -> Q (Ok b) w') -> wwp I flag_load w Q.
Proof. intros Hi HQ. pose proof (quiet_turn w Hi). apply wwp_act; [done|by apply HQ]. Qed.

(** A program that only reads files. *)
Lemma wwp_ro {A} (m : IO A) w (Q : result A BenchError -> world -> Prop) :
  ro m -> I w ->
  (forall s', same (w_io (env_turn w)) s' -> I (set_wio s' (env_turn w)) ->
     Q (m (w_io (env_turn w))).1 (set_wio s' (env_turn w))) ->
  wwp I (wio m) w Q.
Proof.
  intros Hro Hi HQ. apply wwp_wio. pose proof (Hro (w_io (env_turn w))) as Hs. unfold iwp.
  assert (Hk : I (set_wio (m (w_io (env_turn w))).2 (env_turn w))).
  { apply quiet_io; [by apply quiet_turn|exact Hs]. }
  split; [done|by apply HQ].
Qed.
Lemma wwp_exists p w (Q : result bool BenchError -> world -> Prop) :
  I w ->
  (forall b w', I w' -> (b = true -> is_Some (stat (w_nodes w') p)) -> Q (Ok b) w') ->
  wwp I (wexists p) w Q.
Proof.
  intros Hi HQ. apply wwp_ro; [apply ro_exists|done|]. intros s' [Hk Hn] Hi'.
  assert (Hx : forall s, exists b, (sys_exists p s).1 = Ok b /\ (b = true -> is_Some (stat (io_nodes s) p))).
  { intros s. unfold sys_exists, syscall. destruct (io_faults _ _); [by exists false|].
    cbn [io_nodes io_step]. destruct (stat _ p); [exists true|exists false]; naive_solver. }
  destruct (Hx (w_io (env_turn w))) as (b & -> & Hb). apply HQ; [done|].
  cbn [w_io set_wio]. by rewrite Hn.
Qed.

(** [killpg]: a missing group is an empty one. *)
Lemma wwp_killpg msg g sig w (Q : result killed BenchError -> world -> Prop) :
  I w ->
  (forall s w', sig = Some s -> I w' -> w_now w <= w_now w' -> I (log_event (EvSignal g s) w')) ->
  (forall w', I w' -> ~ no_faults (w_io w) -> Q (Err (State msg)) w') ->
  (forall w', I w' -> w_now w <= w_now w' -> group_empty w' g -> Q (Ok NoSuchGroup) w') ->
  (forall w', I w' -> w_now w <= w_now w' -> ~ group_empty (env_turn w) g ->
     (forall s, sig = Some s -> EvSignal g s ∈ w_log w') -> Q (Ok Delivered) w') ->
  wwp I (killpg msg g sig) w Q.
Proof.
  intros Hi Hl He Hn Hd. pose proof (quiet_syscall w Hi) as Hs. unfold killpg.
  set (w1 := set_wio (io_step (w_io (env_turn w))) (env_turn w)) in *.
  assert (Hnow : w_now w <= w_now w1) by (simpl; lia).
  apply wwp_act; cbv zeta; fold w1; destruct (io_faults _ _) as [e|] eqn:Ef; [done| | |].
  - destruct (group_emptyb w1 g); [done|]. destruct sig as [s|]; [by apply Hl|done].
  - apply He; [done|]. intros Hnf. specialize (Hnf (io_ops (w_io w)) (Nat.le_refl _)).
    change (io_faults (w_io w) (io_ops (w_io w)) = Some e) in Ef. by rewrite Hnf in Ef.
  - destruct (group_emptyb w1 g) eqn:E; [apply Hn; [done..|by apply group_emptyb_spec]|].
    assert (Hne : ~ group_empty (env_turn w) g).
    { intros Hg. assert (Hb : group_emptyb w1 g = true) by (apply group_emptyb_spec; exact Hg). congruence. }
    destruct sig as [s|]; apply Hd; try done; [by apply Hl|].
    intros s' [= ->]. apply list_elem_of_here.
Qed.
Lemma wwp_probe msg g w (Q : result killed BenchError -> world -> Prop) :
  I w ->
  (forall w', I w' -> ~ no_faults (w_io w) -> Q (Err (State msg)) w') ->
  (forall w', I w' -> w_now w <= w_now w' -> group_empty w' g -> Q (Ok NoSuchGroup) w') ->
  (forall w', I w' -> w_now w <= w_now w' -> ~ group_empty (env_turn w) g -> Q (Ok Delivered) w') ->
  wwp I (killpg msg g None) w Q.
Proof. intros Hi He Hn Hd. apply wwp_killpg; [done..|]. intros w' H' Hle Hne _. by apply Hd. Qed.

Lemma wwp_try_wait op pid w (Q : result (option ExitStatus) BenchError -> world -> Prop) :
  I w -> (forall e w', I w' -> Q (Err (Io op e)) w') ->
  (forall o w', I w' -> (forall st, o = Some st -> w_reaped w' !! pid = Some st) -> Q (Ok o) w') ->
  wwp I (try_wait op pid) w Q.
Proof.
  intros Hi He Hok. apply wwp_pcall; [done|done|]. intros w1 H1 _ _.
  destruct (w_reaped w1 !! pid) as [st|] eqn:Er.
  { split; [done|]. intros x [= <-]. apply Hok; [done|]. by intros ? [= <-]. }
  destruct (w_procs w1 !! pid) as [p|]; [|by split].
  destruct (ps_exit p) as [st|]; cbn [fst snd].
  - assert (H2 := quiet_reap pid st w1 H1). split; [done|]. intros x [= <-]. apply Hok; [done|].
    intros st' [= <-]. simpl. by rewrite lookup_insert_eq.
  - split; [done|]. intros x [= <-]. by apply Hok.
Qed.
Lemma wwp_wait_child fuel op pid w (Q : result ExitStatus BenchError -> world -> Prop) :
  I w -> (forall e w', I w' -> Q (Err (Io op e)) w') ->
  (forall st w', I w' -> w_reaped w' !! pid = Some st -> Q (Ok st) w') ->
  wwp I (wait_child fuel op pid) w Q.
Proof.
  intros Hi He Hok. apply (wwp_repeat I I); [done..|]. intros w1 H1. apply wwp_try_wait; [done|by intros; apply He|].
  intros [st|] w2 H2 Hr; [|done]. apply Hok; [done|by apply Hr].
Qed.

(** Locks, for an invariant that does not speak of them. *)
Lemma wwp_try_lock p w (Q : result (result bool io_error) BenchError -> world -> Prop) :
  (forall ls w, I w -> I (set_locks ls w)) -> I w ->
  (forall r w', I w' -> w_now w <= w_now w' -> (r = Ok true -> w_locks w' !! p = Some (self w')) -> Q (Ok r) w') ->
  wwp I (try_lock p) w Q.
Proof.
  intros HL Hi HQ. pose proof (quiet_syscall w Hi) as Hs. unfold try_lock.
  set (w1 := set_wio (io_step (w_io (env_turn w))) (env_turn w)) in *.
  assert (Hnow : w_now w <= w_now w1) by (simpl; lia).
  apply wwp_act; cbv zeta; fold w1; (destruct (io_faults _ _); [by try apply HQ|]);
    destruct (w_locks w1 !! p); try apply HQ; try done; try by apply HL.
  intros _. cbn [w_locks set_locks]. apply lookup_insert_eq.
Qed.
Lemma wwp_lock_file fuel op p w (Q : result unit BenchError -> world -> Prop) :
  (forall ls w, I w -> I (set_locks ls w)) -> I w ->
  (forall e w', I w' -> Q (Err (Io op e)) w') ->
  (forall w', I w' -> w_locks w' !! p = Some (self w') -> Q (Ok tt) w') ->
  wwp I (lock_file fuel op p) w Q.
Proof.
  intros HL Hi He Hok. apply (wwp_repeat I I); [done..|]. intros w1 H1.
  apply wwp_bind, wwp_try_lock; [done..|]. intros [[]|e] w2 H2 _ Hl.
  - apply wwp_ret; [done|]. apply Hok; [done|by apply Hl].
  - by apply wwp_ret.
  - apply wwp_fail; [done|by apply He].
Qed.

(** *** Draining a group *)

Lemma wwp_drain_loop fuel msg reap g started limit w (Q : result bool BenchError -> world -> Prop) :
  I w ->
  (forall w, I w -> wwp I reap w (fun r w' => forall e, r = Err e -> Q (Err e) w')) ->
  (forall w', I w' -> Q (Err (State msg)) w') ->
  (forall w', I w' -> group_empty w' g -> Q (Ok true) w') ->
  (forall w', I w' -> limit <= w_now w' - started -> Q (Ok false) w') ->
  wwp I (drain_loop fuel msg reap g started limit) w Q.
Proof.
  intros Hi Hr He Ht Hf. apply (wwp_repeat I I); [done..|]. intros w1 H1.
  apply wwp_bind, wwp_elapsed; [done|]. intros w2 H2 _.
  destruct (Z.ltb_spec (w_now w2 - started) limit); cbn [negb]; [|by apply wwp_ret; [done|apply Hf]].
  apply wwp_bind. eapply wwp_mono; [by apply Hr|]. intros [[]|e] w3 H3 Hq; [|by apply Hq].
  apply wwp_bind, wwp_probe; [done|by intros; apply He| |].
  - intros w4 H4 _ Hg. apply wwp_ret; [done|by apply Ht].
  - intros w4 H4 _ _. apply wwp_bind, wwp_sleep; [done|done|]. intros w5 H5 _. by apply wwp_ret.
Qed.
End ops.

Definition later (t : Z) (w : world) : Prop := t <= w_now w.
#[export] Instance quiet_later `{Environment} t : Quiet (later t).
Proof. unfold later. split; simpl; intros; lia. Qed.

(** Success means the group was seen empty, at the end. The group is killed only after the grace period. *)
Lemma wwp_drain_group `{Environment} (I : world -> Prop) `{!Quiet I} fuel m1 m2 m3 r1 r2 grace limit g w
    (Q : result unit BenchError -> world -> Prop) :
  I w -> 0 <= grace -> 0 <= limit ->
  (forall w, I w -> I (log_event (EvSignal g SIGTERM) w)) ->
  (forall w', I w' -> w_now w + grace <= w_now w' -> I (log_event (EvSignal g SIGKILL) w')) ->
  (forall w, I w -> wwp I r1 w (fun r w' => forall e, r = Err e -> Q (Err e) w')) ->
  (forall w, I w -> wwp I r2 w (fun r w' => forall e, r = Err e -> Q (Err e) w')) ->
  (forall m w', I w' -> m = m1 \/ m = m2 -> Q (Err (State m)) w') ->
  (forall w', I w' -> w_now w + grace + limit <= w_now w' -> Q (Err (State m3)) w') ->
  (forall w', I w' -> group_empty w' g -> Q (Ok tt) w') ->
  wwp I (drain_group fuel m1 m2 m3 r1 r2 grace limit g) w Q.
Proof.
  intros Hi Hg Hl Hterm Hkill Hr1 Hr2 He Hx Hok.
  assert (Hm1 : forall w', I w' -> Q (Err (State m1)) w') by (intros; apply He; auto).
  assert (Hm2 : forall w', I w' -> Q (Err (State m2)) w') by (intros; apply He; auto).
  unfold drain_group. apply wwp_bind, (wwp_killpg I); [done|intros s w' [= <-] ? _; by apply Hterm|by intros; apply Hm1| |];
    intros w1 H1 T1 _; [|intros _].
  all: apply wwp_bind, (wwp_now I); [done|]; intros w2 H2 T2.
  all: apply wwp_bind, (wwp_drain_loop I); [done| |done|by intros; apply wwp_ret; [|apply Hok]|].
  1, 3: intros w3 H3; eapply wwp_mono; [by apply Hr1|]; intros r w' _ Hq e Heq; by apply Hq.
  all: intros w3 H3 T3; apply wwp_bind, (wwp_killpg I);
    [done|intros s w' [= <-] ? T4; apply Hkill; [done|lia]|by intros; apply Hm1| |];
    intros w4 H4 T4 _; [|intros _].
  all: apply wwp_bind, (wwp_now I); [done|]; intros w5 H5 T5.
  all: apply wwp_bind, (wwp_drain_loop I); [done| |done|by intros; apply wwp_ret; [|apply Hok]|].
  1, 3, 5, 7: intros w6 H6; eapply wwp_mono; [by apply Hr2|]; intros r w' _ Hq e Heq; by apply Hq.
  all: intros w6 H6 T6; apply wwp_fail; [done|apply Hx; [done|lia]].
Qed.

(** ** Termination *)

Definition returns {A} (m : W A) (w : world) : Prop := (m w).1 <> None.

Section returns.
Context `{Environment}.

Lemma returns_bind {A B} (m : W A) (k : A -> W B) w :
  returns m w -> (forall x w', m w = (Some (Ok x), w') -> returns (k x) w') -> returns (mbind k m) w.
Proof.
  unfold returns, mbind, W_bind. intros Hm Hk. destruct (m w) as [[[x|e]|] w'] eqn:E; [|done..].
  by apply Hk.
Qed.
Lemma returns_act {A} (f : world -> result A BenchError * world) w : returns (act f) w.
Proof. unfold returns, act. by destruct (f (env_turn w)). Qed.
Lemma returns_attempt {A} (m : W A) w : returns m w -> returns (attempt m) w.
Proof. unfold returns, attempt. by destruct (m w) as [[]]. Qed.
Lemma returns_ret {A} (x : A) w : returns (mret x) w.
Proof. done. Qed.
Lemma returns_fail {A} e w : returns (fail (A := A) e) w.
Proof. done. Qed.

(** A loop whose every round sleeps ten milliseconds and starts before the deadline. *)
Lemma returns_timed {A} fuel (body : W (option A)) deadline w :
  (forall w, returns body w) ->
  (forall w w', body w = (Some (Ok None), w') -> w_now w + 10 <= w_now w' /\ w_now w < deadline) ->
  (0 < fuel)%nat -> deadline - w_now w + 10 <= 10 * Z.of_nat fuel ->
  returns (repeat_until fuel body) w.
Proof.
  intros Hr Hb. revert w. induction fuel as [|f IH]; intros w Hf Hd; [lia|]. cbn [repeat_until].
  apply returns_bind; [done|]. intros [x|] w' E; [done|]. destruct (Hb _ _ E) as [H1 H2].
  apply IH; lia.
Qed.
End returns.
#[export] Hint Resolve returns_act returns_ret returns_fail returns_attempt : snz.

Ltac returns_tac := repeat first [progress intros | apply returns_bind | case_match | solve [eauto with snz]].

Lemma wwp_elim {A} I (m : W A) w Q r w' : wwp I m w Q -> m w = (Some r, w') -> I w' /\ Q r w'.
Proof. intros [Hi Hq] E. rewrite E in Hi, Hq. by split. Qed.

Lemma wwp_impl {A} (I J : world -> Prop) (m : W A) w (Q Q' : result A BenchError -> world -> Prop) :
  wwp I m w Q -> (forall w, I w -> J w) -> (forall r w', I w' -> Q r w' -> Q' r w') -> wwp J m w Q'.
Proof.
  intros [Hi Hq] HIJ Hm. split; [by apply HIJ|]. destruct (m w).1; [by apply Hm|done].
Qed.

Lemma wwp_meet {A} (I J : world -> Prop) (m : W A) w (Q Q' : result A BenchError -> world -> Prop) :
  wwp I m w Q -> wwp J m w Q' -> wwp I m w (fun r w' => Q r w' /\ Q' r w').
Proof. intros [Hi H1] [_ H2]. split; [done|]. by destruct (m w).1. Qed.

(** Total correctness: it also returns. *)
Definition twp {A} (I : world -> Prop) (m : W A) (w : world) (Q : result A BenchError -> world -> Prop) : Prop :=
  wwp I m w Q /\ returns m w.

Lemma twp_ret {A} (I : world -> Prop) (x : A) w (Q : result A BenchError -> world -> Prop) :
  I w -> Q (Ok x) w -> twp I (mret x) w Q.
Proof. by split; [apply wwp_ret|]. Qed.
Lemma twp_bind {A B} I (m : W A) (k : A -> W B) w Q :
  twp I m w (fun r w' => match r with Ok x => twp I (k x) w' Q | Err e => Q (Err e) w' end) ->
  twp I (mbind k m) w Q.
Proof.
  unfold twp, wwp, returns, mbind, W_bind. intros [[Hi Hq] Hr].
  destruct (m w) as [[[x|e]|] w']; [by destruct Hq|by split|done].
Qed.
Lemma twp_mono {A} I (m : W A) w (Q Q' : result A BenchError -> world -> Prop) :
  twp I m w Q -> (forall r w', I w' -> Q r w' -> Q' r w') -> twp I m w Q'.
Proof. intros [Hw Hr] Hm. split; [by eapply wwp_mono|done]. Qed.
Lemma twp_run {A} I (m : W A) w Q : twp I m w Q -> exists r w', m w = (Some r, w') /\ I w' /\ Q r w'.
Proof. unfold twp, wwp, returns. intros [[Hi Hq] Hr]. destruct (m w) as [[r|] w']; [|done]. by exists r, w'. Qed.

(** A program that never turns the clock back and always returns. *)
Definition prompt_call `{Environment} {A} (m : W A) : Prop :=
  (forall w, returns m w) /\ forall t w, later t w -> wwp (later t) m w (fun _ _ => True).

Lemma prompt_ret `{Environment} {A} (x : A) : prompt_call (mret x).
Proof. split; [done|]. intros t w Ht. by apply wwp_ret. Qed.
Lemma prompt_try_wait `{Environment} op pid : prompt_call (try_wait op pid).
Proof. split; [intros w; apply returns_act|]. intros t w Ht. by apply (wwp_try_wait (later t)). Qed.

Section drain_returns.
Context `{Environment}.

Lemma drain_loop_returns fuel msg reap g started limit w :
  prompt_call reap -> (0 < fuel)%nat -> started + limit - w_now w + 10 <= 10 * Z.of_nat fuel ->
  returns (drain_loop fuel msg reap g started limit) w.
Proof.
  intros [Hr Ht] Hf Hd. apply (returns_timed _ _ (started + limit)); [| |done|done].
  - intros w1. apply returns_bind; [apply returns_bind; [apply returns_act|done]|]. intros e w2 _.
    case_match; [done|]. apply returns_bind; [apply Hr|]. intros _ w3 _.
    apply returns_bind; [apply returns_act|]. intros [] w4 _; [|done].
    apply returns_bind; [apply returns_act|done].
  - intros w1 w5 E. set (I := later (w_now w1)).
    assert (Hw : wwp I (e ← elapsed started;
      if negb (e <? limit) then mret (Some false)
      else _ ← reap; k ← killpg msg g None;
           match k with NoSuchGroup => mret (Some true) | Delivered => _ ← sleep 10; mret None end) w1
      (fun r w' => r = Ok None -> w_now w1 + 10 <= w_now w' /\ w_now w1 < started + limit)).
    { apply wwp_bind, (wwp_elapsed I); [unfold I, later; lia|]. intros w2 H2 T2.
      destruct (Z.ltb_spec (w_now w2 - started) limit); cbn [negb]; [|by apply wwp_ret].
      apply wwp_bind. eapply wwp_mono; [by apply Ht|]. intros [[]|e] w3 H3 _; [|done].
      apply wwp_bind, (wwp_probe I); [done|done|intros; by apply wwp_ret|]. intros w4 H4 _ _.
      apply wwp_bind, (wwp_sleep I); [done|done|]. intros w6 H6 T6. apply wwp_ret; [done|].
      unfold I, later in *. lia. }
    by apply (wwp_elim _ _ _ _ _ _ Hw E).
Qed.

Lemma now_is w t w' : instant_now w = (Some (Ok t), w') -> t = w_now w'.
Proof. unfold instant_now, act. by intros [= <- <-]. Qed.

Lemma drain_group_returns fuel m1 m2 m3 r1 r2 grace limit g w :
  prompt_call r1 -> prompt_call r2 -> 0 <= grace -> 0 <= limit ->
  grace + 10 <= 10 * Z.of_nat fuel -> limit + 10 <= 10 * Z.of_nat fuel ->
  returns (drain_group fuel m1 m2 m3 r1 r2 grace limit g) w.
Proof.
  intros H1 H2 Hg Hl Fg Fl. unfold drain_group.
  apply returns_bind; [apply returns_act|]. intros _ w1 _.
  apply returns_bind; [apply returns_act|]. intros t1 w2 E2. apply now_is in E2 as ->.
  apply returns_bind; [apply drain_loop_returns; [done|lia|lia]|]. intros [] w3 _; [done|].
  apply returns_bind; [apply returns_act|]. intros _ w4 _.
  apply returns_bind; [apply returns_act|]. intros t2 w5 E5. apply now_is in E5 as ->.
  apply returns_bind; [apply drain_loop_returns; [done|lia|lia]|]. by intros [] w6 _.
Qed.
End drain_returns.

(** ** Liveness *)

(** The kernel does what it is asked: a group that was sent SIGKILL is empty from the next turn on, and
    nobody joins an empty group. *)
Definition kills `{Environment} (g : Z) : Prop :=
  forall w, EvSignal g SIGKILL ∈ w_log w -> group_empty (env_turn w) g.
Definition stays_empty `{Environment} (g : Z) : Prop :=
  forall w, group_empty w g -> group_empty (env_turn w) g.
(** Between two operations less than [ms] milliseconds pass. *)
Definition prompt_within `{Environment} (ms : Z) : Prop :=
  forall w, w_now (env_turn w) < w_now w + ms.

Section liveness.
Context `{Environment} (g : Z) (Hk : kills g) (Hs : stays_empty g).

(** Faultless, and once killed or seen empty, empty forever. *)
Definition calm_world (w : world) : Prop := no_faults (w_io w).
#[local] Instance quiet_calm : Quiet calm_world.
Proof.
  unfold calm_world. split; try done. intros s w Hnf Hsame. by eapply no_faults_same.
Qed.
Definition dying (w : world) : Prop := EvSignal g SIGKILL ∈ w_log w \/ group_empty w g.
#[local] Instance quiet_dying : Quiet dying.
Proof.
  unfold dying. split.
  - intros w [Hl|He]; [by left|right; by apply Hs].
  - done.
  - done.
  - intros pid st w [Hl|He]; [by left|right]. intros p q Hp. simpl in Hp.
    apply lookup_delete_Some in Hp as [_ Hp]. by apply (He p q).
Qed.

Lemma dying_turn w : dying w -> group_empty (env_turn w) g.
Proof. intros [Hl|He]; [by apply Hk|by apply Hs]. Qed.

Definition doomed (w : world) : Prop := calm_world w /\ dying w.

(** The first observation after the kill finds the group empty, if it is made within the limit. *)
Lemma drain_loop_killed fuel msg limit w started :
  doomed w -> w_now (env_turn w) - started < limit ->
  wwp doomed (drain_loop fuel msg (mret tt) g started limit) w
    (fun r w' => r = Ok true /\ group_empty w' g).
Proof.
  intros HI Ht. unfold drain_loop. destruct fuel as [|f]; [by split|]. cbn [repeat_until].
  apply wwp_bind, wwp_bind. unfold elapsed. apply wwp_bind.
  assert (HI' : doomed (env_turn w)) by (by apply (quiet_turn w HI)).
  apply wwp_act; [done|]. cbn [fst snd]. apply wwp_ret; [done|].
  rewrite (proj2 (Z.ltb_lt _ _)) by done. cbn [negb]. apply wwp_bind, wwp_ret; [done|].
  apply wwp_bind, (wwp_probe doomed); [done| | |].
  - intros w1 _ Hn. destruct Hn. apply HI'.
  - intros w1 H1 _ He. apply wwp_ret; [done|]. by apply wwp_ret.
  - intros w1 _ _ Hne. destruct Hne. apply dying_turn, HI'.
Qed.

(** Without faults the group ends up empty. *)
Lemma drain_group_live fuel m1 m2 m3 grace limit w :
  calm_world w -> 0 <= grace -> prompt_within limit ->
  wwp calm_world (drain_group fuel m1 m2 m3 (mret tt) (mret tt) grace limit g) w
    (fun r w' => r = Ok tt /\ group_empty w' g).
Proof.
  intros Hc Hg Hp.
  assert (Hok : forall (w' : world), calm_world w' -> group_empty w' g ->
    wwp calm_world (mret tt) w' (fun r w' => r = Ok tt /\ group_empty w' g)) by (intros; by apply wwp_ret).
  assert (Hlog : forall (s : signal) w', calm_world w' -> calm_world (log_event (EvSignal g s) w')) by done.
  unfold drain_group. apply wwp_bind, (wwp_killpg calm_world);
    [done|by intros; apply Hlog|by intros ? ? []| |]; intros w1 C1 _ _; [|intros _].
  all: apply wwp_bind, (wwp_now calm_world); [done|]; intros w2 C2 _; apply wwp_bind.
  all: assert (Hl : wwp calm_world (drain_loop fuel m2 (mret tt) g (w_now w2) grace) w2
      (fun r w' => r = Ok false \/ (r = Ok true /\ group_empty w' g))).
  1, 3: unfold drain_loop; apply (wwp_repeat calm_world calm_world); [done..|]; intros w3 C3;
    apply wwp_bind, (wwp_elapsed calm_world); [done|]; intros w4 C4 _;
    destruct (negb _); [by apply wwp_ret; [|left]|];
    apply wwp_bind, wwp_ret; [done|];
    apply wwp_bind, (wwp_probe calm_world); [done|by intros ? ? []| |];
    [intros; apply wwp_ret; [done|by right]|intros w5 C5 _ _];
    apply wwp_bind, (wwp_sleep calm_world); [done|done|]; intros w6 C6 _; by apply wwp_ret.
  all: eapply wwp_mono; [exact Hl|]; intros r w3 C3 [->|[-> He]]; [|by apply Hok].
  all: apply wwp_bind, (wwp_killpg calm_world); [done|by intros; apply Hlog|by intros ? ? []| |].
  1, 3: intros w4 C4 _ He; apply wwp_bind; unfold instant_now; apply wwp_act;
    [by apply quiet_turn|]; cbn [fst snd]; apply wwp_bind;
    (eapply wwp_impl; [apply drain_loop_killed; [split; [by apply quiet_turn|by right; apply Hs]|]|by intros ? []|]);
    [specialize (Hp (env_turn w4)); lia|intros r w5 [C5 _] [-> He5]; by apply Hok].
  all: intros w4 C4 _ _ Hlg; apply wwp_bind; unfold instant_now; apply wwp_act;
    [by apply quiet_turn|]; cbn [fst snd]; apply wwp_bind;
    (eapply wwp_impl; [apply drain_loop_killed; [split; [by apply quiet_turn|left; by apply Hlg]|]|by intros ? []|]);
    [specialize (Hp (env_turn w4)); lia|intros r w5 [C5 _] [-> He5]; by apply Hok].
Qed.
End liveness.

(** ** Starting a child, and steps inside a stronger invariant *)

Section spawning.
Context `{Environment}.

Definition spawned (pid : Z) (argv : list string) (w : world) : world :=
  log_event (EvSpawn pid argv) (set_procs (<[pid := mkProcess pid (self w) None]> (w_procs w))
    (set_reaped (delete pid (w_reaped w)) w)).

Lemma wwp_spawn (J I : world -> Prop) `{!Quiet J} op argv w (Q : result Z BenchError -> world -> Prop) :
  (forall w, J w -> I w) -> J w -> (forall e w', J w' -> Q (Err (Io op e)) w') ->
  (forall w1 pid, J w1 -> I (spawned pid argv w1) /\ Q (Ok pid) (spawned pid argv w1)) ->
  wwp I (spawn op argv) w Q.
Proof.
  intros HJ Hi He Hok. pose proof (quiet_syscall J w Hi) as Hs. unfold spawn, pcall.
  apply wwp_act; (destruct (io_faults _ _) as [e|]; [try by apply HJ; try by apply He|]); cbv zeta.
  - destruct (bool_decide _ && _); [by apply Hok|by apply HJ].
  - by apply He.
  - destruct (bool_decide _ && _); [by apply Hok|by apply He].
Qed.
(** A step inside a stronger invariant. *)
Lemma wwp_within {A} (J I : world -> Prop) (m : W A) w (Q : result A BenchError -> world -> Prop) :
  (forall w, J w -> I w) -> wwp J m w Q -> wwp I m w Q.
Proof. intros HJ Hm. eapply wwp_impl; [exact Hm|exact HJ|done]. Qed.
End spawning.
