(* ===== verification/Journal.v ===== *)
(** * The operation journal (tools/benchctl/src/journal.rs)

    Journals record an operation's request, the cpuidle inventory it changes and the stages it
    went through. serde_json and SHA-256 are third-party: they are the parameters of
    the class [Serde], and what the code relies on (a journal that was encoded decodes to
    itself) is the class [SerdeLaws]. *)

From S2P Require Import Prelude BenchFs.
From Stdlib Require Import Ascii.
Open Scope Z_scope.

Definition JOURNAL_VERSION : string := "benchctl-journal-v1".

(** ** Data *)

Record Actor := mkActor { a_uid : Z; a_gid : Z }.

Record Request := mkRequest {
  rq_receipt : path;
  rq_accepted_receipt : path;
  rq_receipt_digest : string;
  rq_accepted_executable : path;
  rq_executable_digest : string;
  rq_cpus : list N;
  rq_timeout_seconds : Z;
  rq_workload : list string;
  rq_workload_actor : Actor;
}.

Record IdleEntry := mkIdle {
  ie_cpu : N;
  ie_state : Z;
  ie_name : string;
  ie_disable_path : path;
  ie_original : string;
  ie_desired : string;
}.

Inductive Stage := Prepared | Applied | WorkloadStarted | WorkloadFinished | Draining
  | Restoring | Restored | Recoverable | RestoreConflict.

Inductive TerminalOutcome := TO_Success | TO_Failed (status : string) | TO_TimedOut | TO_Cancelled.

Record Transition := mkTransition {
  tr_stage : Stage;
  tr_coordinator : Actor;
  tr_unix_millis : Z;
}.

Record Journal := mkJournal {
  j_version : string;
  j_operation_id : string;
  j_request : Request;
  j_request_hash : string;
  j_coordinator : Actor;
  j_boot_id : string;
  j_entries : list IdleEntry;
  j_outcome : option TerminalOutcome;
  j_transitions : list Transition;
}.

#[export] Instance Actor_eq_dec : EqDecision Actor.
Proof. solve_decision. Defined.
#[export] Instance Request_eq_dec : EqDecision Request.
Proof. solve_decision. Defined.
#[export] Instance IdleEntry_eq_dec : EqDecision IdleEntry.
Proof. solve_decision. Defined.
#[export] Instance Stage_eq_dec : EqDecision Stage.
Proof. solve_decision. Defined.
#[export] Instance TerminalOutcome_eq_dec : EqDecision TerminalOutcome.
Proof. solve_decision. Defined.
#[export] Instance Transition_eq_dec : EqDecision Transition.
Proof. solve_decision. Defined.
#[export] Instance Journal_eq_dec : EqDecision Journal.
Proof. solve_decision. Defined.

(** ** Serialization and hashing *)

Class Serde := {
  request_to_vec : Request -> option string;
  journal_to_vec_pretty : Journal -> option string;
  journal_from_slice : string -> option Journal;
  sha256_hex : string -> string;
}.

Class SerdeLaws `{Serde} := {
  journal_roundtrip : forall j b, journal_to_vec_pretty j = Some b -> journal_from_slice b = Some j;
}.

(** ** Operations *)

Definition set_entries (es : list IdleEntry) (j : Journal) : Journal :=
  mkJournal (j_version j) (j_operation_id j) (j_request j) (j_request_hash j) (j_coordinator j)
    (j_boot_id j) es (j_outcome j) (j_transitions j).
Definition set_outcome (o : TerminalOutcome) (j : Journal) : Journal :=
  mkJournal (j_version j) (j_operation_id j) (j_request j) (j_request_hash j) (j_coordinator j)
    (j_boot_id j) (j_entries j) (Some o) (j_transitions j).
Definition push_transition (t : Transition) (j : Journal) : Journal :=
  mkJournal (j_version j) (j_operation_id j) (j_request j) (j_request_hash j) (j_coordinator j)
    (j_boot_id j) (j_entries j) (j_outcome j) (j_transitions j ++ [t]).

Section journal.
Context `{Serde}.

Definition hex_digest (bytes : string) : string := sha256_hex bytes.

(** [Request::digest] *)
Definition digest (r : Request) : result string BenchError :=
  match request_to_vec r with
  | Some encoded => Ok (hex_digest encoded)
  | None => Err (Json "hashing request")
  end.

(** [Journal::new] *)
Definition journal_new (operation_id : string) (request : Request) (coordinator : Actor)
    (boot_id : string) : IO Journal :=
  request_hash ← lift (digest request);
  t ← now_millis;
  mret {| j_version := JOURNAL_VERSION;
          j_operation_id := operation_id;
          j_request := request;
          j_request_hash := request_hash;
          j_coordinator := coordinator;
          j_boot_id := boot_id;
          j_entries := [];
          j_outcome := None;
          j_transitions := [mkTransition Prepared coordinator t] |}.

(** [Journal::stage] *)
Definition stage (j : Journal) : Stage :=
  match last (j_transitions j) with Some t => tr_stage t | None => Prepared end.

(** [Journal::transition] *)
Definition transition (s : Stage) (actor : Actor) (j : Journal) : IO Journal :=
  t ← now_millis; mret (push_transition (mkTransition s actor t) j).

(** [Journal::validate] *)
Definition validate (j : Journal) : result unit BenchError :=
  if negb (bool_decide (j_version j = JOURNAL_VERSION))
  then Err (State ("unsupported journal version: " +:+ j_version j)%string)
  else
    match digest (j_request j) with
    | Err e => Err e
    | Ok d =>
        if negb (bool_decide (j_request_hash j = d))
        then Err (State "journal request hash does not match its request")
        else if bool_decide (j_transitions j = [])
        then Err (State "journal has no transition")
        else Ok tt
    end.

(** [load] *)
Definition load_journal (p : path) : IO Journal :=
  bytes ← io_op "reading journal" (sys_read p);
  match journal_from_slice bytes with
  | None => throw (Json "reading journal")
  | Some j => _ ← lift (validate j); mret j
  end.

(** [store] *)
Definition store_journal (p : path) (j : Journal) : IO unit :=
  _ ← lift (validate j);
  match journal_to_vec_pretty j with
  | None => throw (Json "serializing journal")
  | Some bytes => atomic_write p bytes
  end.
End journal.

(** [value.is_ascii_alphanumeric() || value == b'-' || value == b'_'] *)
Definition id_byte (c : ascii) : bool :=
  let n := Ascii.nat_of_ascii c in
  (((48 <=? n) && (n <=? 57)) || ((65 <=? n) && (n <=? 90)) || ((97 <=? n) && (n <=? 122))
   || (n =? 45) || (n =? 95))%nat.

Fixpoint all_bytes (f : ascii -> bool) (s : string) : bool :=
  match s with EmptyString => true | String c r => f c && all_bytes f r end.

Definition journal_path (state_root : path) (operation_id : string) : result path BenchError :=
  if bool_decide (operation_id = EmptyString) || negb (all_bytes id_byte operation_id)
  then Err (Usage "operation id must contain only ASCII letters, digits, '-' or '_'")
  else Ok (state_root ++ [(operation_id +:+ ".json")%string]).

Definition actor : IO Actor := get_proc (fun p => mkActor (pr_euid p) (pr_egid p)).

Definition BOOT_ID_PATH : path := ["proc"; "sys"; "kernel"; "random"; "boot_id"].
Definition boot_id : IO string :=
  v ← io_op "reading boot identity" (sys_read BOOT_ID_PATH); mret (trim v).

(** ** Lemmas *)

Lemma string_app_inj_l (a b s : string) : (a +:+ s = b +:+ s)%string -> a = b.
Proof.
  assert (Hlen : forall a : string, (String.length (a +:+ s) = String.length a + String.length s)%nat).
  { intros x. induction x as [|c x IH]; simpl; [done|]. by rewrite IH. }
  revert b. induction a as [|c a IH]; intros [|c' b] Heq; simpl in Heq.
  - done.
  - apply (f_equal String.length) in Heq. simpl in Heq. rewrite !Hlen in Heq. simpl in Heq. lia.
  - apply (f_equal String.length) in Heq. simpl in Heq. rewrite ?Hlen in Heq. simpl in Heq. lia.
  - injection Heq as -> Heq. f_equal. auto.
Qed.

Lemma all_bytes_app f a b : all_bytes f (a +:+ b)%string = all_bytes f a && all_bytes f b.
Proof. induction a as [|c a IH]; simpl; [done|]. by rewrite IH, andb_assoc. Qed.

(** The bytes of a journal's file name: those of the id, and the dot. *)
Definition name_byte (c : ascii) : bool := id_byte c || bool_decide (c = "."%char).

Lemma all_bytes_mono (f g : ascii -> bool) s :
  (forall c, f c = true -> g c = true) -> all_bytes f s = true -> all_bytes g s = true.
Proof.
  intros Hfg. induction s as [|c s IH]; simpl; [done|]. intros H. bool_facts. by rewrite Hfg, IH.
Qed.

Section laws.
Context `{SerdeLaws}.

Lemma ro_load p : ro (load_journal p).
Proof. unfold load_journal. ro_tac. Qed.

Lemma validate_ok j :
  validate j = Ok tt <->
  j_version j = JOURNAL_VERSION /\ digest (j_request j) = Ok (j_request_hash j) /\
  j_transitions j <> [].
Proof.
  unfold validate. destruct (decide (j_version j = JOURNAL_VERSION)) as [Hv|Hv];
    [rewrite bool_decide_true by done|rewrite bool_decide_false by done]; simpl; [|naive_solver].
  destruct (digest (j_request j)) as [h|e]; [|naive_solver].
  destruct (decide (j_request_hash j = h)) as [Hh|Hh];
    [rewrite bool_decide_true by done|rewrite bool_decide_false by done]; simpl; [|naive_solver].
  destruct (decide (j_transitions j = [])) as [Ht|Ht];
    [rewrite bool_decide_true by done|rewrite bool_decide_false by done]; naive_solver.
Qed.

(** Storing replaces the journal's file atomically; it succeeds when nothing fails. *)
Lemma store_journal_spec d n j s :
  dir_path (io_nodes s) d -> n <> ".." ->
  (forall u m, io_nodes s !! (d ++ [n]) <> Some (Dir u m)) ->
  iwp (store_journal (d ++ [n]) j) s (fun r s' =>
    kept s s' /\
    (io_nodes s' = io_nodes s \/
     exists b, journal_to_vec_pretty j = Some b /\
       io_nodes s' = <[d ++ [n] := File b (pr_euid (io_proc s)) 384]> (io_nodes s)) /\
    (r = Ok tt -> validate j = Ok tt /\ exists b, journal_to_vec_pretty j = Some b /\
       io_nodes s' = <[d ++ [n] := File b (pr_euid (io_proc s)) 384]> (io_nodes s)) /\
    (no_faults s -> validate j = Ok tt -> is_Some (journal_to_vec_pretty j) -> r = Ok tt)).
Proof.
  intros Hd Hn Hnd. unfold store_journal. apply iwp_bind. unfold iwp at 1, lift. simpl.
  destruct (validate j) as [[]|e] eqn:Ev.
  2: { split; [apply kept_refl|]. split; [by left|]. split; [done|]. done. }
  destruct (journal_to_vec_pretty j) as [b|] eqn:Eb.
  2: { split; [apply kept_refl|]. split; [by left|]. split; [done|]. intros _ _ []; done. }
  eapply iwp_mono; [by apply atomic_write_spec|].
  intros r s' (Hk & Hor & Hok & Hnf). split; [done|].
  split; [destruct Hor; [by left|right; eauto]|]. split; [eauto|]. auto.
Qed.

(** What was stored is what is loaded. *)
Lemma load_stored d n j b u m s :
  plain (io_nodes s) (d ++ [n]) -> io_nodes s !! (d ++ [n]) = Some (File b u m) ->
  journal_to_vec_pretty j = Some b -> validate j = Ok tt -> no_faults s ->
  gives (load_journal (d ++ [n])) s (Ok j).
Proof.
  intros Hp Hf Hb Hv Hnf. unfold load_journal. eapply (gives_bind _ _ _ b); [done| |].
  - apply gives_sys; [done|]. simpl. rewrite resolve_plain by done. by rewrite at_path_snoc, Hf.
  - intros s1 Hnf1 Hs1. rewrite (journal_roundtrip j b Hb). rewrite Hv.
    exists s1. split; [done|apply same_refl].
Qed.
End laws.

(** ** A concrete serialization for the witnesses: the stages of a journal that is otherwise
    [base] *)

Definition stage_char (s : Stage) : ascii :=
  match s with
  | Prepared => "p" | Applied => "a" | WorkloadStarted => "s" | WorkloadFinished => "f"
  | Draining => "d" | Restoring => "r" | Restored => "R" | Recoverable => "v"
  | RestoreConflict => "c"
  end%char.
Definition char_stage (c : ascii) : option Stage :=
  match c with
  | "p" => Some Prepared | "a" => Some Applied | "s" => Some WorkloadStarted
  | "f" => Some WorkloadFinished | "d" => Some Draining | "r" => Some Restoring
  | "R" => Some Restored | "v" => Some Recoverable | "c" => Some RestoreConflict
  | _ => None
  end%char.
Fixpoint encode_stages (l : list Stage) : string :=
  match l with [] => EmptyString | s :: l => String (stage_char s) (encode_stages l) end.
Fixpoint decode_stages (s : string) : option (list Stage) :=
  match s with
  | EmptyString => Some []
  | String c r => st ← char_stage c; l ← decode_stages r; Some (st :: l)
  end.
Lemma decode_encode l : decode_stages (encode_stages l) = Some l.
Proof. induction l as [|s l IH]; [done|]. simpl. rewrite IH. by destruct s. Qed.

Definition set_transitions (ts : list Transition) (j : Journal) : Journal :=
  mkJournal (j_version j) (j_operation_id j) (j_request j) (j_request_hash j) (j_coordinator j)
    (j_boot_id j) (j_entries j) (j_outcome j) ts.

Section concrete_serde.
Context (base : Journal) (a : Actor) (t : Z).
Definition of_stages (l : list Stage) : Journal :=
  set_transitions ((fun s => mkTransition s a t) <$> l) base.
Definition stages_of (j : Journal) : list Stage := tr_stage <$> j_transitions j.
Definition stage_serde : Serde := {|
  request_to_vec := fun _ => Some "request"%string;
  journal_to_vec_pretty j :=
    if bool_decide (j = of_stages (stages_of j)) then Some (encode_stages (stages_of j)) else None;
  journal_from_slice s := of_stages <$> decode_stages s;
  sha256_hex s := s |}.
Lemma stage_serde_laws : @SerdeLaws stage_serde.
Proof.
  split. cbn. intros j b. case_bool_decide as Hj; [|done]. intros [= <-].
  rewrite decode_encode. simpl. by rewrite <- Hj.
Qed.
End concrete_serde.

Definition demo_request : Request :=
  mkRequest ["r"] ["run"; "x.receipt"] "d" ["run"; "x.executable"] "e" [2%N] 5 ["w"] (mkActor 0 0).
Definition demo_journal : Journal :=
  mkJournal JOURNAL_VERSION "x" demo_request "request" (mkActor 0 0) "boot" [] None
    [mkTransition Prepared (mkActor 0 0) 0].
Definition demo_serde : Serde := stage_serde demo_journal (mkActor 0 0) 0.
Definition demo_proc : proc := mkProc 0 0 77 [] ∅ ["benchctl"].
Definition demo_state (ns : nodes) (faults : nat -> option io_error) : iost :=
  mkIo ns faults 0 (fun l => l) 0 [] demo_proc.

(** ** The properties *)

(** A journal's path stays inside the state directory: an accepted operation id gives one
    file directly in it, with a name made of letters, digits, dashes, underscores and the
    .json suffix (so no separator and no "..") and different ids give different files; every
    other id is refused. *)
Theorem journal_path_contained (state_root p : path) (id : string) :
  (journal_path state_root id = Ok p <->
     id <> EmptyString /\ all_bytes id_byte id = true /\
     p = state_root ++ [(id +:+ ".json")%string]) /\
  (journal_path state_root id = Ok p ->
     all_bytes name_byte (id +:+ ".json")%string = true /\ (id +:+ ".json")%string <> ".."%string /\
     forall id', journal_path state_root id' = Ok p -> id' = id).
Proof.
  assert (Hiff : forall i, journal_path state_root i = Ok p <->
    i <> EmptyString /\ all_bytes id_byte i = true /\ p = state_root ++ [(i +:+ ".json")%string]).
  { intros i. unfold journal_path. case_bool_decide; destruct (all_bytes id_byte i); simpl; naive_solver. }
  split; [apply Hiff|]. intros Hp. apply Hiff in Hp as (Hne & Hb & ->). split; [|split].
  - rewrite all_bytes_app. apply andb_true_iff. split; [|done].
    eapply all_bytes_mono; [|done]. intros c Hc. unfold name_byte. by rewrite Hc.
  - intros Heq. destruct id as [|c1 [|c2 id]]; simpl in Heq; [done| |].
    + by injection Heq.
    + injection Heq as -> -> Hrest. simpl in Hb. bool_facts. done.
  - intros id' Hid. apply Hiff in Hid as (_ & _ & Heq). apply app_inj_tail in Heq as [_ Heq].
    by apply string_app_inj_l in Heq.
Qed.

Lemma journal_path_contained_witness :
  journal_path ["run"] "op-1" = Ok ["run"; "op-1.json"] /\
  forall id', journal_path ["run"] id' = Ok ["run"; "op-1.json"] -> id' = "op-1"%string.
Proof.
  split; [reflexivity|].
  refine (proj2 (proj2 (proj2 (journal_path_contained ["run"] ["run"; "op-1.json"] "op-1") _))).
  reflexivity.
Defined.

(** C38: Storing a journal is atomic and durable. Whatever system call fails, the journal's file
    afterwards has either its previous content or the complete new journal, and no other
    file changes; if the call succeeds, loading the file again (without faults) returns
    exactly the journal that was stored, and without faults a valid, serializable journal
    is always stored. *)
Theorem journal_store_load `{SerdeLaws} (d : path) (n : string) (j : Journal) (s : iost) :
  dir_path (io_nodes s) d -> n <> ".." ->
  (forall u m, io_nodes s !! (d ++ [n]) <> Some (Dir u m)) ->
  let '(r, s') := store_journal (d ++ [n]) j s in
  (forall q, q <> d ++ [n] -> io_nodes s' !! q = io_nodes s !! q) /\
  (io_nodes s' = io_nodes s \/
   exists b, journal_to_vec_pretty j = Some b /\
     io_nodes s' !! (d ++ [n]) = Some (File b (pr_euid (io_proc s)) 384)) /\
  (r = Ok tt -> forall faults', (forall k, faults' k = None) ->
     (load_journal (d ++ [n])
        (mkIo (io_nodes s') faults' 0 (io_order s') (io_millis s') (io_out s') (io_proc s'))).1 = Ok j) /\
  (no_faults s -> validate j = Ok tt -> is_Some (journal_to_vec_pretty j) -> r = Ok tt).
Proof.
  intros Hd Hn Hnd. pose proof (store_journal_spec d n j s Hd Hn Hnd) as Hs. unfold iwp in Hs.
  destruct (store_journal (d ++ [n]) j s) as [r s']. simpl in Hs.
  destruct Hs as (Hk & Hor & Hok & Hnf). split_and!.
  - intros q Hq. destruct Hor as [->|(b & _ & ->)]; [done|]. by rewrite lookup_insert_ne.
  - destruct Hor as [?|(b & Hb & ->)]; [by left|right]. exists b. by rewrite lookup_insert_eq.
  - intros Hr faults' Hf. destruct (Hok Hr) as (Hv & b & Hb & Hns).
    edestruct (load_stored d n j b) as (s2 & Hl & _); [| |done|done| |by rewrite Hl]; simpl.
    + rewrite Hns. eapply plain_snoc; [|done|by rewrite lookup_insert_eq].
      eapply plain_eq; [by apply dir_path_plain|]. intros q [k ->]. rewrite lookup_insert_ne; [done|].
      intros Hbad. apply (f_equal length) in Hbad. rewrite !length_app in Hbad. simpl in Hbad. lia.
    + by rewrite Hns, lookup_insert_eq.
    + intros k _. apply Hf.
  - done.
Qed.

Definition run_nodes : nodes := {[ ["run"] := Dir 0 448 ]}.
Lemma run_dir : dir_path run_nodes ["run"].
Proof.
  intros q c r Hq. destruct q as [|? [|]]; [|by simplify_eq..]. injection Hq as <- <-.
  split; [done|]. by exists 0, 448.
Qed.

Lemma journal_store_load_witness :
  exists s', @store_journal demo_serde ["run"; "x.json"] demo_journal
      (demo_state run_nodes (fun _ => None)) = (Ok tt, s') /\
    (@load_journal demo_serde ["run"; "x.json"]
      (mkIo (io_nodes s') (fun _ => None) 0 (io_order s') (io_millis s') (io_out s') (io_proc s'))).1
      = Ok demo_journal.
Proof.
  pose proof (@journal_store_load demo_serde (stage_serde_laws _ _ _) ["run"] "x.json" demo_journal
    (demo_state run_nodes (fun _ => None)) run_dir) as H.
  destruct (@store_journal demo_serde (["run"] ++ ["x.json"]) demo_journal
    (demo_state run_nodes (fun _ => None))) as [r s'] eqn:E.
  destruct H as (_ & _ & Hl & Hok); [discriminate|intros u m; vm_compute; discriminate|].
  assert (r = Ok tt) as Hr by (apply Hok; [done|reflexivity|vm_compute; eexists; reflexivity]).
  subst r. exists s'. split; [exact E|]. apply Hl; [reflexivity|intros k; reflexivity].
Defined.
