(* ===== verification/Receipt.v ===== *)
(** * Build receipts (tools/benchctl/src/receipt.rs)

    A receipt records what an official benchmark executable was built from; its build id is a
    digest of every other field. serde_json's encoding of a receipt and of the identity
    tuple ([ReceiptSerde]), SHA-256 ([sha256_hex]) and git ([GitOs]) are external. *)

From stdpp Require Import pretty sorting.
From S2P Require Import Prelude BenchFs Journal.
Open Scope Z_scope.

Definition RECEIPT_VERSION : string := "benchctl-build-receipt-v1".
(** [env!("CARGO_PKG_VERSION")] *)
Definition CARGO_PKG_VERSION : string := "0.1.0".

Record BuildProvenance := mkProvenance {
  bp_manifest_path : rpath;
  bp_repository : rpath;
  bp_source_commit : string;
  bp_lockfile_path : rpath;
  bp_lockfile_sha256 : string;
  bp_package_id : string;
  bp_rustc : string;
  bp_rustup_toolchain : string;
  bp_target_triple : string;
}.

Record BuildReceipt := mkReceipt {
  br_version : string;
  br_build_id : string;
  br_manifest_path : rpath;
  br_repository : rpath;
  br_source_commit : string;
  br_source_clean : bool;
  br_lockfile_path : rpath;
  br_lockfile_sha256 : string;
  br_package_id : string;
  br_bench : string;
  br_features : list string;
  br_profile : string;
  br_rustc : string;
  br_rustup_toolchain : string;
  br_target_triple : string;
  br_benchctl_version : string;
  br_benchctl_executable_sha256 : string;
  br_executable : rpath;
  br_executable_sha256 : string;
  br_built_unix_millis : Z;
}.
#[export] Instance BuildReceipt_eq_dec : EqDecision BuildReceipt.
Proof. solve_decision. Defined.

(** The tuple [identity_digest] serializes: every field but the build id. *)
Definition Identity : Type :=
  (string * rpath * rpath * string * bool * rpath * string * string * string * list string)
  * (string * string * string * string * string * string * rpath * string * Z).

Definition identity_fields (r : BuildReceipt) : Identity :=
  ((br_version r, br_manifest_path r, br_repository r, br_source_commit r, br_source_clean r,
    br_lockfile_path r, br_lockfile_sha256 r, br_package_id r, br_bench r, br_features r),
   (br_profile r, br_rustc r, br_rustup_toolchain r, br_target_triple r, br_benchctl_version r,
    br_benchctl_executable_sha256 r, br_executable r, br_executable_sha256 r, br_built_unix_millis r)).

Definition set_build_id (id : string) (r : BuildReceipt) : BuildReceipt :=
  mkReceipt (br_version r) id (br_manifest_path r) (br_repository r) (br_source_commit r)
    (br_source_clean r) (br_lockfile_path r) (br_lockfile_sha256 r) (br_package_id r) (br_bench r)
    (br_features r) (br_profile r) (br_rustc r) (br_rustup_toolchain r) (br_target_triple r)
    (br_benchctl_version r) (br_benchctl_executable_sha256 r) (br_executable r)
    (br_executable_sha256 r) (br_built_unix_millis r).

Lemma identity_determines r1 r2 :
  identity_fields r1 = identity_fields r2 -> br_build_id r1 = br_build_id r2 -> r1 = r2.
Proof.
  destruct r1, r2. unfold identity_fields. cbn [br_build_id]. intros Hf Hid.
  injection Hf; intros. subst. reflexivity.
Qed.

(** serde_json: encoding fails for a path that is not UTF-8, decoding for malformed text. *)
Class ReceiptSerde := {
  identity_to_vec : Identity -> option string;
  receipt_to_vec_pretty : BuildReceipt -> option string;
  receipt_from_slice : string -> option BuildReceipt;
}.
(** Decoding inverts encoding, and different tuples are encoded differently. *)
Class ReceiptSerdeLaws `{ReceiptSerde} := {
  receipt_roundtrip r b : receipt_to_vec_pretty r = Some b -> receipt_from_slice b = Some r;
  identity_inj i i' b : identity_to_vec i = Some b -> identity_to_vec i' = Some b -> i = i';
}.

(** [Command::new("git") ... .output()]: repository, arguments and the identity it is run as;
    its success, the rendering of its status, and its output when that is UTF-8. *)
Class GitOs :=
  git_output : rpath -> list string -> option (Z * Z) -> result (bool * string * option string) io_error.

(** [features.sort(); features.dedup()] *)
Fixpoint dedup_strings (l : list string) : list string :=
  match l with
  | [] => []
  | x :: r => match r with
              | y :: _ => if bool_decide (x = y) then dedup_strings r else x :: dedup_strings r
              | [] => [x]
              end
  end.
(** [!features.windows(2).any(|pair| pair[0] >= pair[1])] *)
Fixpoint ascending (l : list string) : bool :=
  match l with
  | [] => true
  | x :: r => match r with y :: _ => negb (string_leb y x) && ascending r | [] => true end
  end.

(** [lockfile_path.starts_with(&repository)] *)
Definition starts_with (p root : rpath) : bool :=
  match p, root with
  | Absolute p, Absolute r | Relative p, Relative r => bool_decide (r `prefix_of` p)
  | _, _ => false
  end.

Section receipt.
Context `{Serde} `{ReceiptSerde} `{GitOs}.

Definition file_digest (p : rpath) (operation : string) : IO string :=
  bytes ← io_op operation (sys_read_at p); mret (hex_digest bytes).
Definition receipt_digest (p : path) : IO string := file_digest (Absolute p) "digesting build receipt".

Definition identity_digest (r : BuildReceipt) : result string BenchError :=
  match identity_to_vec (identity_fields r) with
  | None => Err (Json "creating build identity")
  | Some b => Ok (hex_digest b)
  end.

Definition benchctl_digest : IO string :=
  exe ← io_op "resolving Benchctl executable" (syscall (fun s => (Ok (pr_exe (io_proc s)), s)));
  file_digest (Absolute exe) "digesting Benchctl executable".

(** [BuildReceipt::new] *)
Definition receipt_new (p : BuildProvenance) (bench : string) (features : list string) (executable : rpath)
  : IO BuildReceipt :=
  let features := dedup_strings (merge_sort string_leb features) in
  executable_sha256 ← file_digest executable "digesting receipt executable";
  benchctl_executable_sha256 ← benchctl_digest;
  t ← now_millis;
  let receipt := {|
    br_version := RECEIPT_VERSION;
    br_build_id := EmptyString;
    br_manifest_path := bp_manifest_path p;
    br_repository := bp_repository p;
    br_source_commit := bp_source_commit p;
    br_source_clean := true;
    br_lockfile_path := bp_lockfile_path p;
    br_lockfile_sha256 := bp_lockfile_sha256 p;
    br_package_id := bp_package_id p;
    br_bench := bench;
    br_features := features;
    br_profile := "bench";
    br_rustc := bp_rustc p;
    br_rustup_toolchain := bp_rustup_toolchain p;
    br_target_triple := bp_target_triple p;
    br_benchctl_version := CARGO_PKG_VERSION;
    br_benchctl_executable_sha256 := benchctl_executable_sha256;
    br_executable := executable;
    br_executable_sha256 := executable_sha256;
    br_built_unix_millis := t |} in
  id ← lift (identity_digest receipt);
  mret (set_build_id id receipt).

Definition is_empty (s : string) : bool := bool_decide (s = EmptyString).

(** The field checks of [verify_identity]. *)
Definition identity_invalid (r : BuildReceipt) : bool :=
  negb (bool_decide (br_profile r = "bench"%string))
  || negb (bool_decide (br_benchctl_version r = CARGO_PKG_VERSION))
  || is_empty (br_bench r) || is_empty (br_package_id r) || is_empty (br_source_commit r)
  || is_empty (br_lockfile_sha256 r) || is_empty (br_rustc r) || is_empty (br_rustup_toolchain r)
  || is_empty (br_target_triple r)
  || negb (is_absolute (br_manifest_path r)) || negb (is_absolute (br_repository r))
  || negb (is_absolute (br_lockfile_path r))
  || negb (starts_with (br_lockfile_path r) (br_repository r))
  || negb (is_absolute (br_executable r))
  || existsb is_empty (br_features r) || negb (ascending (br_features r)).

Definition verify_identity (r : BuildReceipt) : IO unit :=
  if negb (bool_decide (br_version r = RECEIPT_VERSION))
  then throw (Preflight ("unsupported build receipt version: " +:+ br_version r))
  else if negb (br_source_clean r) then throw (Preflight "official build receipt is not clean")
  else if identity_invalid r
  then throw (Preflight "build receipt has incomplete or invalid identity fields")
  else
    actual_benchctl ← benchctl_digest;
    if negb (bool_decide (actual_benchctl = br_benchctl_executable_sha256 r))
    then throw (Preflight "build receipt belongs to a different Benchctl executable")
    else
      d ← lift (identity_digest r);
      if negb (bool_decide (d = br_build_id r))
      then throw (Preflight "build receipt identity digest does not match its fields")
      else mret tt.

(** [BuildReceipt::verify] *)
Definition verify_receipt (r : BuildReceipt) : IO unit :=
  _ ← verify_identity r;
  actual ← file_digest (br_executable r) "digesting receipt executable";
  if negb (bool_decide (actual = br_executable_sha256 r))
  then throw (Preflight "receipt executable digest no longer matches")
  else mret tt.

Definition git_stdout (repository : rpath) (arguments : list string) (uid gid : Z) : IO string :=
  euid ← get_proc pr_euid;
  '(success, status, out) ← io_op "running Git receipt verification"
    (syscall (fun s => (git_output repository arguments (if euid =? 0 then Some (uid, gid) else None), s)));
  if negb success then throw (Preflight ("Git receipt verification exited with " +:+ status))
  else match out with
       | None => throw (Preflight "Git emitted non-UTF-8 output")
       | Some text => mret text
       end.

Definition verify_checkout_as (r : BuildReceipt) (uid gid : Z) : IO unit :=
  commit ← git_stdout (br_repository r) ["rev-parse"; "--verify"; "HEAD"]%string uid gid;
  if negb (bool_decide (trim commit = br_source_commit r))
  then throw (Preflight "checked-out commit differs from the build receipt")
  else
    st ← git_stdout (br_repository r) ["status"; "--porcelain"; "--untracked-files=all"]%string uid gid;
    if negb (is_empty st)
    then throw (Preflight "official run requires the clean checkout recorded by the build receipt")
    else
      actual_lock ← file_digest (br_lockfile_path r) "digesting current Cargo.lock";
      if negb (bool_decide (actual_lock = br_lockfile_sha256 r))
      then throw (Preflight "Cargo.lock differs from the build receipt")
      else mret tt.

(** [load], [load_accepted] and [store] *)
Definition load_receipt (p : path) : IO BuildReceipt :=
  bytes ← io_op "reading build receipt" (sys_read p);
  match receipt_from_slice bytes with
  | None => throw (Json "reading build receipt")
  | Some r => _ ← verify_receipt r; mret r
  end.
Definition load_accepted (p : path) : IO BuildReceipt :=
  bytes ← io_op "reading accepted build receipt" (sys_read p);
  match receipt_from_slice bytes with
  | None => throw (Json "reading accepted build receipt")
  | Some r => _ ← verify_identity r; mret r
  end.
Definition store_receipt (p : path) (r : BuildReceipt) : IO unit :=
  match receipt_to_vec_pretty r with
  | None => throw (Json "serializing build receipt")
  | Some bytes => atomic_write p bytes
  end.
End receipt.

(** ** The order of strings, and the features of a new receipt *)

Lemma nat_of_ascii_inj c d : Ascii.nat_of_ascii c = Ascii.nat_of_ascii d -> c = d.
Proof. intros E. rewrite <- (Ascii.ascii_nat_embedding c), <- (Ascii.ascii_nat_embedding d). by rewrite E. Qed.

Lemma string_leb_cons x y a b :
  string_leb (String x a) (String y b) = true <->
  (Ascii.nat_of_ascii x < Ascii.nat_of_ascii y)%nat \/ (x = y /\ string_leb a b = true).
Proof.
  simpl. rewrite orb_true_iff, andb_true_iff, Nat.ltb_lt, Nat.eqb_eq.
  split; (intros [?|[E ?]]; [by left|right]); [by apply nat_of_ascii_inj in E|by subst].
Qed.

Lemma string_leb_total a b : string_leb a b = true \/ string_leb b a = true.
Proof.
  revert b. induction a as [|x a IH]; intros [|y b]; [by left..|by right|].
  rewrite !string_leb_cons. destruct (Nat.lt_total (Ascii.nat_of_ascii x) (Ascii.nat_of_ascii y)) as [?|[E|?]];
    [by left; left| |by right; left].
  apply nat_of_ascii_inj in E as ->. destruct (IH b); [left|right]; by right.
Qed.
Lemma string_leb_trans a b c : string_leb a b = true -> string_leb b c = true -> string_leb a c = true.
Proof.
  revert b c. induction a as [|x a IH]; intros [|y b] [|z c]; try done.
  rewrite !string_leb_cons. intros [?|[-> ?]] [?|[-> ?]]; [left; lia|by left|by left|right]. eauto.
Qed.
Lemma string_leb_antisym a b : string_leb a b = true -> string_leb b a = true -> a = b.
Proof.
  revert b. induction a as [|x a IH]; intros [|y b]; try done.
  rewrite !string_leb_cons. intros [?|[-> ?]] [?|[E ?]]; try lia; [by subst; lia|]. f_equal. auto.
Qed.

Lemma sort_strings_sorted l : StronglySorted (fun a b => string_leb a b = true) (merge_sort string_leb l).
Proof.
  assert (Ht : Total string_leb).
  { intros a b. destruct (string_leb_total a b) as [->| ->]; [by left|by right]. }
  assert (Htr : Transitive string_leb).
  { intros a b c H1 H2. apply Is_true_true. eapply string_leb_trans; by apply Is_true_true. }
  pose proof (StronglySorted_merge_sort string_leb l) as Hs.
  induction Hs as [|x r Hr IH Hx]; constructor; [done|].
  eapply Forall_impl; [exact Hx|]. intros y Hy. by apply Is_true_true.
Qed.

Lemma dedup_strings_head x l : exists r, dedup_strings (x :: l) = x :: r.
Proof.
  revert x. induction l as [|y l IH]; intros x; [by exists []|]. cbn [dedup_strings].
  case_bool_decide as E; [subst; apply IH|by eexists].
Qed.

Lemma dedup_ascending l :
  StronglySorted (fun a b => string_leb a b = true) l -> ascending (dedup_strings l) = true.
Proof.
  induction 1 as [|x l Hl IH Hx]; [done|]. destruct l as [|y l]; [done|].
  change (dedup_strings (x :: y :: l)) with
    (if bool_decide (x = y) then dedup_strings (y :: l) else x :: dedup_strings (y :: l)).
  case_bool_decide as E; [done|]. destruct (dedup_strings_head y l) as [r Hr]. rewrite Hr in *.
  change (negb (string_leb y x) && ascending (y :: r) = true). rewrite IH, andb_true_r.
  apply Forall_cons in Hx as [Hxy _]. destruct (string_leb y x) eqn:Eyx; [|done].
  destruct E. by apply string_leb_antisym.
Qed.

Lemma dedup_strings_sub l x : x ∈ dedup_strings l -> x ∈ l.
Proof.
  induction l as [|y l IH]; [done|]. destruct l as [|z l]; [done|].
  change (dedup_strings (y :: z :: l)) with
    (if bool_decide (y = z) then dedup_strings (z :: l) else y :: dedup_strings (z :: l)).
  case_bool_decide; set_solver.
Qed.

(** ** What digesting a file means *)

Definition content (ns : nodes) (p : path) : option string :=
  r ← resolve ns p; match at_path ns r with Some (File c _ _) => Some c | _ => None end.

Section digests.
Context `{Serde} `{ReceiptSerde} `{GitOs}.

Lemma sys_read_content s p c : content (io_nodes s) p = Some c ->
  (match resolve (io_nodes s) p with
   | None => Err FilesystemLoop
   | Some r => match at_path (io_nodes s) r with
               | Some (File c _ _) => Ok c | Some (Dir _ _) => Err IsADirectory | _ => Err NotFound end
   end : result string io_error) = Ok c.
Proof. unfold content. destruct (resolve _ p) as [r|]; [|done]. simpl. destruct (at_path _ r) as [[]|]; naive_solver. Qed.

Lemma read_content op p s :
  iwp (io_op op (sys_read p)) s (fun r s' => same s s' /\
    forall c, r = Ok c -> content (io_nodes s) p = Some c).
Proof.
  apply iwp_sys.
  - intros e _. split; [apply same_step|done].
  - intros c s' Hc. simpl in Hc. injection Hc as Hc <-. split; [apply same_step|]. intros c' [= <-].
    unfold content. destruct (resolve _ p) as [r|]; [|done]. simpl. destruct (at_path _ r) as [[]|]; by simplify_eq.
  - intros e s' He. simpl in He. injection He as _ <-. split; [apply same_step|done].
Qed.

Lemma read_gives op p s c :
  no_faults s -> content (io_nodes s) p = Some c -> gives (io_op op (sys_read p)) s (Ok c).
Proof. intros Hnf Hc. apply gives_sys; [done|]. simpl. by rewrite (sys_read_content _ _ _ Hc). Qed.

Lemma read_at_content op p s :
  iwp (io_op op (sys_read_at p)) s (fun r s' => same s s' /\
    forall c, r = Ok c -> content (io_nodes s) (at_cwd (pr_cwd (io_proc s)) p) = Some c).
Proof. exact (read_content op (at_cwd (pr_cwd (io_proc s)) p) s). Qed.
Lemma read_at_gives op p s c :
  no_faults s -> content (io_nodes s) (at_cwd (pr_cwd (io_proc s)) p) = Some c ->
  gives (io_op op (sys_read_at p)) s (Ok c).
Proof. exact (read_gives op (at_cwd (pr_cwd (io_proc s)) p) s c). Qed.

Lemma file_digest_spec p op s :
  iwp (file_digest p op) s (fun r s' => same s s' /\ forall h, r = Ok h ->
    exists c, content (io_nodes s) (at_cwd (pr_cwd (io_proc s)) p) = Some c /\ h = hex_digest c).
Proof.
  apply iwp_bind. eapply iwp_mono; [apply read_at_content|].
  intros [c|e] s' [Hs Hc]; [|by split]. unfold iwp. simpl. split; [done|]. intros h [= <-]. eauto.
Qed.
Lemma file_digest_gives p op s c :
  no_faults s -> content (io_nodes s) (at_cwd (pr_cwd (io_proc s)) p) = Some c ->
  gives (file_digest p op) s (Ok (hex_digest c)).
Proof.
  intros Hnf Hc. eapply gives_bind; [done|by apply read_at_gives|]. intros s' _ _. apply gives_ret.
Qed.

(** The benchctl executable of the running process. *)
Definition exe_content (s : iost) : option string := content (io_nodes s) (pr_exe (io_proc s)).

Lemma benchctl_digest_spec s :
  iwp benchctl_digest s (fun r s' => same s s' /\ forall h, r = Ok h ->
    exists c, exe_content s = Some c /\ h = hex_digest c).
Proof.
  unfold benchctl_digest. apply iwp_bind, iwp_sys.
  - intros e _. split; [apply same_step|done].
  - intros exe s1 He. injection He as <- <-. eapply iwp_mono; [apply file_digest_spec|].
    intros r s2 [Hs Hr]. split; [eapply same_trans; [apply same_step|done]|done].
  - intros e s1 He. done.
Qed.
Lemma benchctl_digest_gives s c :
  no_faults s -> exe_content s = Some c -> gives benchctl_digest s (Ok (hex_digest c)).
Proof.
  intros Hnf Hc. eapply (gives_bind _ _ _ (pr_exe (io_proc s))); [done|by apply gives_sys|].
  intros s1 N1 [K1 E1]. apply file_digest_gives; [done|]. simpl. by rewrite E1.
Qed.
End digests.

Section verification.
Context `{SE : Serde} `{RS : ReceiptSerde} `{GO : GitOs}.

(** What [verify_identity] establishes in [s]. *)
Definition identity_ok (s : iost) (r : BuildReceipt) : Prop :=
  br_version r = RECEIPT_VERSION /\ br_source_clean r = true /\ identity_invalid r = false /\
  (exists c, exe_content s = Some c /\ br_benchctl_executable_sha256 r = hex_digest c) /\
  identity_digest r = Ok (br_build_id r).
(** And [verify]: the executable on disk is the one that was built. *)
Definition executable_ok (s : iost) (r : BuildReceipt) : Prop :=
  exists c, content (io_nodes s) (at_cwd (pr_cwd (io_proc s)) (br_executable r)) = Some c /\
    br_executable_sha256 r = hex_digest c.

Lemma identity_ok_same s s' r : same s s' -> identity_ok s' r <-> identity_ok s r.
Proof. intros [K E]. unfold identity_ok, exe_content. by rewrite E, (kept_proc _ _ K). Qed.
Lemma executable_ok_same s s' r : same s s' -> executable_ok s' r <-> executable_ok s r.
Proof. intros [K E]. unfold executable_ok. by rewrite E, (kept_proc _ _ K). Qed.

Lemma verify_identity_spec r s :
  iwp (verify_identity r) s (fun res s' => same s s' /\ (res = Ok tt -> identity_ok s r)).
Proof.
  unfold verify_identity.
  case_bool_decide as Hv; cbn [negb]; [|by split; [apply same_refl|]].
  destruct (br_source_clean r) eqn:Hc; cbn [negb]; [|by split; [apply same_refl|]].
  destruct (identity_invalid r) eqn:Hi; [by split; [apply same_refl|]|].
  apply iwp_bind. eapply iwp_mono; [apply benchctl_digest_spec|].
  intros [h|e] s1 [H1 R1]; [|by split]. destruct (R1 h eq_refl) as (c & Hex & ->).
  case_bool_decide as Hb; simpl; [|by split].
  apply iwp_bind. unfold iwp at 1, lift. simpl.
  destruct (identity_digest r) as [d|e] eqn:Ed; [|by split].
  case_bool_decide as Hd; simpl; split; try done. intros _. subst d. unfold identity_ok. eauto 10.
Qed.

Lemma verify_identity_gives r s :
  no_faults s -> identity_ok s r -> gives (verify_identity r) s (Ok tt).
Proof.
  intros Hnf (Hv & Hc & Hi & (c & Hex & Hb) & Hd). unfold verify_identity.
  rewrite bool_decide_true, Hc, Hi by done. simpl.
  eapply gives_bind; [done|by apply benchctl_digest_gives|]. intros s1 N1 H1.
  rewrite bool_decide_true by done. simpl. rewrite Hd.
  eapply (gives_bind _ _ _ (br_build_id r)); [done|by exists s1; split; [|apply same_refl]|].
  intros s2 _ _. rewrite bool_decide_true by done. apply gives_ret.
Qed.

Lemma verify_receipt_spec r s :
  iwp (verify_receipt r) s (fun res s' => same s s' /\ (res = Ok tt -> identity_ok s r /\ executable_ok s r)).
Proof.
  apply iwp_bind. eapply iwp_mono; [apply verify_identity_spec|].
  intros [[]|e] s1 [H1 R1]; [|by split]. apply iwp_bind. eapply iwp_mono; [apply file_digest_spec|].
  intros [h|e] s2 [H2 R2]; pose proof (same_trans _ _ _ H1 H2) as H12; [|by split].
  destruct (R2 h eq_refl) as (c & Hc & ->). case_bool_decide as Hd; simpl; (split; [done|]); [|done].
  intros _. split; [by apply R1|]. refine (proj1 (executable_ok_same s s1 r H1) _). by exists c.
Qed.

Lemma verify_receipt_gives r s :
  no_faults s -> identity_ok s r -> executable_ok s r -> gives (verify_receipt r) s (Ok tt).
Proof.
  intros Hnf Hi He. eapply gives_bind; [done|by apply verify_identity_gives|]. intros s1 N1 H1.
  apply (proj2 (executable_ok_same s s1 r H1)) in He. destruct He as (c & Hc & Hh).
  eapply gives_bind; [done|by apply file_digest_gives|]. intros s2 _ _.
  rewrite bool_decide_true by done. apply gives_ret.
Qed.

(** *** The checkout *)

Lemma git_stdout_spec repository args uid gid s :
  iwp (git_stdout repository args uid gid) s (fun res s' => same s s' /\
    forall out, res = Ok out -> exists st, git_output repository args
      (if pr_euid (io_proc s) =? 0 then Some (uid, gid) else None) = Ok (true, st, Some out)).
Proof.
  unfold git_stdout. apply iwp_bind. unfold iwp at 1, get_proc. simpl. apply iwp_bind, iwp_sys.
  - intros e _. split; [apply same_step|done].
  - intros [[[] st] out] s1 Hs; injection Hs as Hg <-; [|by split; [apply same_step|]].
    destruct out as [out|]; unfold iwp; simpl; (split; [apply same_step|]); [|done].
    intros o [= <-]. eauto.
  - intros e s1 Hs. injection Hs as _ <-. split; [apply same_step|done].
Qed.

Lemma verify_checkout_spec r uid gid s :
  let who := if pr_euid (io_proc s) =? 0 then Some (uid, gid) else None in
  iwp (verify_checkout_as r uid gid) s (fun res s' => same s s' /\ (res = Ok tt ->
    (exists st out, git_output (br_repository r) ["rev-parse"; "--verify"; "HEAD"]%string who
       = Ok (true, st, Some out) /\ trim out = br_source_commit r) /\
    (exists st, git_output (br_repository r) ["status"; "--porcelain"; "--untracked-files=all"]%string who
       = Ok (true, st, Some EmptyString)) /\
    exists c, content (io_nodes s) (at_cwd (pr_cwd (io_proc s)) (br_lockfile_path r)) = Some c /\
      br_lockfile_sha256 r = hex_digest c)).
Proof.
  intros who. apply iwp_bind. eapply iwp_mono; [apply git_stdout_spec|]. intros [c1|e] s1 [S1 R1]; [|by split].
  destruct (R1 c1 eq_refl) as [st1 G1]. case_bool_decide as Hc; simpl; [|by split].
  apply iwp_bind. eapply iwp_mono; [apply git_stdout_spec|].
  intros [c2|e] s2 [S2 R2]; pose proof (same_trans _ _ _ S1 S2) as S12; [|by split].
  destruct (R2 c2 eq_refl) as [st2 G2]. rewrite (kept_proc _ _ (proj1 S1)) in G2.
  unfold is_empty. case_bool_decide as He; simpl; [|by split]. subst c2.
  apply iwp_bind. eapply iwp_mono; [apply file_digest_spec|].
  intros [h|e] s3 [S3 R3]; pose proof (same_trans _ _ _ S12 S3) as S13; [|by split].
  destruct (R3 h eq_refl) as (c & Hk & ->). rewrite (proj2 S12), (kept_proc _ _ (proj1 S12)) in Hk.
  case_bool_decide as Hl; simpl; (split; [done|]); [|done]. intros _. split; [by exists st1, c1|].
  split; [by exists st2|]. by exists c.
Qed.

(** *** New receipts *)

Definition provenance_ok (p : BuildProvenance) (bench : string) (features : list string) (executable : rpath)
  : Prop :=
  bench <> EmptyString /\ bp_package_id p <> EmptyString /\ bp_source_commit p <> EmptyString /\
  bp_lockfile_sha256 p <> EmptyString /\ bp_rustc p <> EmptyString /\ bp_rustup_toolchain p <> EmptyString /\
  bp_target_triple p <> EmptyString /\ is_absolute (bp_manifest_path p) = true /\
  is_absolute (bp_repository p) = true /\ is_absolute (bp_lockfile_path p) = true /\
  starts_with (bp_lockfile_path p) (bp_repository p) = true /\ is_absolute executable = true /\
  Forall (fun f => f <> EmptyString) features.

Lemma new_features_ok features :
  Forall (fun f => f <> EmptyString) features ->
  existsb is_empty (dedup_strings (merge_sort string_leb features)) = false.
Proof.
  intros Hf. apply not_true_is_false. rewrite existsb_exists. intros (x & Hin & Hx).
  apply list_elem_of_In, dedup_strings_sub in Hin. rewrite merge_sort_Permutation in Hin.
  rewrite Forall_forall in Hf. apply (Hf x Hin). by apply bool_decide_eq_true in Hx.
Qed.

Lemma new_receipt_spec p bench features executable s :
  provenance_ok p bench features executable ->
  iwp (receipt_new p bench features executable) s (fun res s' => same s s' /\
    forall r, res = Ok r -> identity_ok s r /\ executable_ok s r /\ br_executable r = executable).
Proof.
  intros (H1 & H2 & H3 & H4 & H5 & H6 & H7 & H8 & H9 & H10 & H11 & H12 & H13). unfold receipt_new.
  apply iwp_bind. eapply iwp_mono; [apply file_digest_spec|].
  intros [h|e] s1 [S1 R1]; [|by split]. destruct (R1 h eq_refl) as (c & Hc & ->).
  apply iwp_bind. eapply iwp_mono; [apply benchctl_digest_spec|].
  intros [b|e] s2 [S2 R2]; pose proof (same_trans _ _ _ S1 S2) as S12; [|by split].
  destruct (R2 b eq_refl) as (c2 & Hc2 & ->).
  unfold iwp, mbind, IO_bind, now_millis, lift. cbn [fst snd].
  set (r0 := mkReceipt _ _ _ _ _ _ _ _ _ _ _ _ _ _ _ _ _ _ _ _).
  destruct (identity_digest r0) as [id|e] eqn:Eid; simpl; (split; [done|]); [|done].
  intros r [= <-]. split; [|split; [by exists c|done]].
  split; [done|]. split; [done|]. split; [|split; [|exact Eid]].
  - subst r0. unfold identity_invalid, set_build_id.
    cbn [br_profile br_benchctl_version br_bench br_package_id br_source_commit br_lockfile_sha256 br_rustc
      br_rustup_toolchain br_target_triple br_manifest_path br_repository br_lockfile_path br_executable br_features].
    rewrite new_features_ok, dedup_ascending by auto using sort_strings_sorted.
    unfold is_empty. rewrite !(bool_decide_false (_ = EmptyString)) by done.
    rewrite !bool_decide_true by done. by rewrite H8, H9, H10, H11, H12.
  - exists c2. split; [|done]. unfold exe_content in *. by rewrite <- (proj2 S1), <- (kept_proc _ _ (proj1 S1)).
Qed.
End verification.

(** Writing a file does not change what another plain path reads. *)
Lemma content_insert ns q p c u m :
  plain ns p -> p <> q -> content (<[q := File c u m]> ns) p = content ns p.
Proof.
  intros Hp Hne. unfold content. rewrite !resolve_plain by auto using plain_insert. simpl.
  unfold at_path. case_bool_decide; [done|]. by rewrite lookup_insert_ne.
Qed.
Lemma content_plain ns p c u m : plain ns p -> ns !! p = Some (File c u m) -> p <> [] -> content ns p = Some c.
Proof.
  intros Hp Hf Hne. unfold content. rewrite resolve_plain by done. simpl. unfold at_path.
  by rewrite bool_decide_false, Hf.
Qed.

(** ** A concrete instance for the witnesses *)

Definition demo_provenance : BuildProvenance :=
  mkProvenance (Absolute ["repo"; "Cargo.toml"]%string) (Absolute ["repo"]%string) "c0ffee"
    (Absolute ["repo"; "Cargo.lock"]%string) "10c4" "pkg" "rustc" "stable" "x86_64".
Definition demo_nodes : nodes := list_to_map
  [(["run"]%string, Dir 0 448); (["bench"]%string, File "bits" 0 365); (["benchctl"]%string, File "tool" 0 365)].
Definition demo_receipt : BuildReceipt :=
  mkReceipt RECEIPT_VERSION "id" (Absolute ["repo"; "Cargo.toml"]%string) (Absolute ["repo"]%string) "c0ffee" true
    (Absolute ["repo"; "Cargo.lock"]%string) "10c4" "pkg" "wake" ["a"; "b"]%string "bench" "rustc" "stable" "x86_64"
    CARGO_PKG_VERSION "tool" (Absolute ["bench"]%string) "bits" 0.
(** One receipt, encoded as a constant. *)
Definition one_receipt : ReceiptSerde := {|
  identity_to_vec i := if bool_decide (i = identity_fields demo_receipt) then Some "id"%string else None;
  receipt_to_vec_pretty r := if bool_decide (r = demo_receipt) then Some "receipt"%string else None;
  receipt_from_slice b := if bool_decide (b = "receipt"%string) then Some demo_receipt else None;
|}.
Lemma one_receipt_laws : @ReceiptSerdeLaws one_receipt.
Proof.
  split; cbn.
  - intros r b. case_bool_decide as Hr; [|done]. intros [= <-]. by subst.
  - intros i i' b. case_bool_decide as H1; [|done]. case_bool_decide as H2; [|done]. congruence.
Qed.

(** ** The properties *)

(** What a loaded receipt guarantees. If loading succeeds (whatever system calls fail on the way),
    nothing was written, the receipt has this version, a clean source and complete, absolute and
    strictly sorted identity fields with the lockfile inside the repository, its
    build id is the digest of its fields, the running benchctl is the one that made it, and the
    executable on disk has exactly the recorded digest. *)
Theorem load_receipt_sound `{SE : Serde} `{RS : ReceiptSerde} (p : path) (s s' : iost) (r : BuildReceipt) :
  load_receipt p s = (Ok r, s') ->
  io_nodes s' = io_nodes s /\ identity_ok s r /\ executable_ok s r.
Proof.
  intros Hl. assert (Hw : iwp (load_receipt p) s (fun res s' => same s s' /\
    forall r, res = Ok r -> identity_ok s r /\ executable_ok s r)).
  { apply iwp_bind. eapply iwp_mono; [apply read_content|]. intros [b|e] s1 [H1 _]; [|by split].
    destruct (receipt_from_slice b) as [r1|]; [|by split].
    apply iwp_bind. eapply iwp_mono; [apply verify_receipt_spec|].
    intros [[]|e] s2 [H2 R2]; pose proof (same_trans _ _ _ H1 H2) as H12; [|by split].
    unfold iwp. simpl. split; [done|]. intros r2 [= <-]. destruct (R2 eq_refl) as [Hi He].
    split; [exact (proj1 (identity_ok_same s s1 r1 H1) Hi)|exact (proj1 (executable_ok_same s s1 r1 H1) He)]. }
  apply (iwp_run _ _ _ _ _ Hw) in Hl as [[_ Hn] Hr]. split; [done|]. by apply Hr.
Qed.

Lemma load_receipt_sound_witness :
  exists s', @load_receipt demo_serde one_receipt ["run"; "r"]%string
      (demo_state (<[["run"; "r"]%string := File "receipt" 0 384]> demo_nodes) (fun _ => None))
      = (Ok demo_receipt, s') /\
    @executable_ok demo_serde
      (demo_state (<[["run"; "r"]%string := File "receipt" 0 384]> demo_nodes) (fun _ => None)) demo_receipt.
Proof.
  assert (Hi : (@load_receipt demo_serde one_receipt ["run"; "r"]%string
      (demo_state (<[["run"; "r"]%string := File "receipt" 0 384]> demo_nodes) (fun _ => None))).1 = Ok demo_receipt)
    by (vm_compute; reflexivity).
  destruct (@load_receipt demo_serde one_receipt ["run"; "r"]%string
      (demo_state (<[["run"; "r"]%string := File "receipt" 0 384]> demo_nodes) (fun _ => None))) as [r s'] eqn:E.
  simpl in Hi. subst r. exists s'. split; [reflexivity|].
  apply (@load_receipt_sound demo_serde one_receipt _ _ _ _ E).
Defined.

(** C40: A new receipt is accepted. A receipt made for a well-formed provenance and stored next to nothing
    else passes every check of a later load, which returns exactly it, as long as the
    executable and benchctl stay in place: in particular its features, sorted and
    deduplicated, satisfy the strict-order check. *)
Theorem new_receipt_loads `{SE : Serde} `{RL : ReceiptSerdeLaws}
    (p : BuildProvenance) (bench : string) (features : list string) (exe d : path) (n : string)
    (r : BuildReceipt) (b : string) (s s1 : iost) :
  provenance_ok p bench features (Absolute exe) ->
  receipt_new p bench features (Absolute exe) s = (Ok r, s1) -> receipt_to_vec_pretty r = Some b ->
  no_faults s1 -> dir_path (io_nodes s) d -> n <> ".."%string ->
  (forall u m, io_nodes s !! (d ++ [n]) <> Some (Dir u m)) ->
  plain (io_nodes s) exe -> exe <> d ++ [n] ->
  plain (io_nodes s) (pr_exe (io_proc s)) -> pr_exe (io_proc s) <> d ++ [n] ->
  exists s2 s3, store_receipt (d ++ [n]) r s1 = (Ok tt, s2) /\ load_receipt (d ++ [n]) s2 = (Ok r, s3).
Proof.
  intros Hp Hnew Hb Hnf Hd Hn Hnd Hpe Hne Hpx Hnx.
  apply (iwp_run _ _ _ _ _ (new_receipt_spec _ _ _ _ s Hp)) in Hnew as [[K1 E1] Hr].
  destruct (Hr r eq_refl) as (Hi & (c & Hc & Hh) & Hex).
  pose proof (atomic_write_spec d n b s1) as Hw. rewrite E1 in Hw. specialize (Hw Hd Hn Hnd).
  unfold store_receipt. rewrite Hb. unfold iwp in Hw.
  destruct (atomic_write (d ++ [n]) b s1) as [res s2]. simpl in Hw. destruct Hw as (K2 & _ & Hok & Hall).
  rewrite (Hall Hnf) in *. specialize (Hok eq_refl). exists s2.
  assert (K : kept s s2) by (by eapply kept_trans). set (ns := <[d ++ [n] := _]> (io_nodes s)) in *.
  assert (Hpl : plain ns (d ++ [n])).
  { eapply plain_snoc; [by apply plain_insert, dir_path_plain|done|]. intros t. unfold ns. by rewrite lookup_insert_eq. }
  assert (Hg : gives (load_receipt (d ++ [n])) s2 (Ok r)).
  { pose proof (no_faults_kept _ _ K2 Hnf) as N2. eapply gives_bind; [done| |].
    - apply read_gives; [done|]. rewrite Hok.
      eapply content_plain; [done|unfold ns; by rewrite lookup_insert_eq|by destruct d].
    - intros s3 N3 S3. rewrite (receipt_roundtrip r b Hb).
      eapply gives_bind; [done| |intros s4 _ _; apply gives_ret].
      apply verify_receipt_gives; [done| |].
      + apply (proj2 (identity_ok_same _ _ _ S3)). destruct Hi as (V & C & I & (c2 & X & Y) & D).
        split; [done|]. split; [done|]. split; [done|]. split; [|done]. exists c2. split; [|done].
        unfold exe_content in *. rewrite Hok, (kept_proc _ _ K). unfold ns. by rewrite content_insert.
      + apply (proj2 (executable_ok_same _ _ _ S3)). exists c. split; [|done].
        rewrite Hok, (kept_proc _ _ K), Hex. unfold ns. simpl. rewrite content_insert by done.
        by rewrite Hex in Hc. }
  destruct Hg as (s3 & Hl & _). by exists s3.
Qed.

Lemma plain_one (ns : nodes) (c : string) :
  c <> ".."%string -> (forall t, ns !! [c] <> Some (Symlink t)) -> plain ns [c].
Proof. intros Hc Hn. apply (plain_snoc ns []); [apply plain_nil|done|done]. Qed.
Lemma demo_run_dir : dir_path demo_nodes ["run"]%string.
Proof.
  intros q c r Hq. destruct q as [|? [|]]; [|by simplify_eq..]. injection Hq as <- <-.
  split; [done|]. by exists 0, 448.
Qed.

Definition demo_new : result BuildReceipt BenchError * iost :=
  @receipt_new demo_serde one_receipt demo_provenance "wake" ["b"; "a"; "b"]%string (Absolute ["bench"]%string)
    (demo_state demo_nodes (fun _ => None)).

Lemma new_receipt_loads_witness :
  exists s2 s3,
    @receipt_new demo_serde one_receipt demo_provenance "wake" ["b"; "a"; "b"]%string (Absolute ["bench"]%string)
      (demo_state demo_nodes (fun _ => None)) = (Ok demo_receipt, demo_new.2) /\
    @store_receipt one_receipt ["run"; "r"]%string demo_receipt demo_new.2 = (Ok tt, s2) /\
    @load_receipt demo_serde one_receipt ["run"; "r"]%string s2 = (Ok demo_receipt, s3).
Proof.
  assert (Hn : @receipt_new demo_serde one_receipt demo_provenance "wake" ["b"; "a"; "b"]%string
      (Absolute ["bench"]%string) (demo_state demo_nodes (fun _ => None)) = (Ok demo_receipt, demo_new.2))
    by (apply run_by_result; vm_compute; reflexivity).
  destruct (@new_receipt_loads demo_serde one_receipt one_receipt_laws demo_provenance "wake"
    ["b"; "a"; "b"]%string ["bench"]%string ["run"]%string "r" demo_receipt "receipt"
    (demo_state demo_nodes (fun _ => None)) demo_new.2) as (s2 & s3 & Hs & Hl).
  - repeat split; try discriminate; repeat constructor; discriminate.
  - exact Hn.
  - vm_compute. reflexivity.
  - intros k _. reflexivity.
  - exact demo_run_dir.
  - discriminate.
  - intros u m. vm_compute. discriminate.
  - apply plain_one; [discriminate|]. intros t. vm_compute. discriminate.
  - discriminate.
  - apply plain_one; [discriminate|]. intros t. vm_compute. discriminate.
  - discriminate.
  - exists s2, s3. split; [exact Hn|]. split; [exact Hs|exact Hl].
Defined.

(** A receipt cannot be altered without notice. Two receipts that both pass the identity check and
    have the same build id agree in every other field as well, unless two different
    byte strings with the same SHA-256 digest have been found. *)
Theorem receipt_tamper_evident `{SE : Serde} `{RL : ReceiptSerdeLaws}
    (r1 r2 : BuildReceipt) (s1 s2 s1' s2' : iost) :
  verify_identity r1 s1 = (Ok tt, s1') -> verify_identity r2 s2 = (Ok tt, s2') ->
  br_build_id r1 = br_build_id r2 ->
  r1 = r2 \/ exists b1 b2, b1 <> b2 /\ hex_digest b1 = hex_digest b2.
Proof.
  intros H1 H2 Hid.
  apply (iwp_run _ _ _ _ _ (verify_identity_spec _ s1)) in H1 as [_ H1].
  apply (iwp_run _ _ _ _ _ (verify_identity_spec _ s2)) in H2 as [_ H2].
  destruct (H1 eq_refl) as (_ & _ & _ & _ & D1). destruct (H2 eq_refl) as (_ & _ & _ & _ & D2).
  unfold identity_digest in *.
  destruct (identity_to_vec (identity_fields r1)) as [b1|] eqn:B1; [|done].
  destruct (identity_to_vec (identity_fields r2)) as [b2|] eqn:B2; [|done].
  destruct (decide (b1 = b2)) as [<-|Hne]; [left|right; exists b1, b2; split; [done|congruence]].
  apply identity_determines; [|done]. exact (identity_inj _ _ _ B1 B2).
Qed.

Lemma receipt_tamper_evident_witness :
  demo_receipt = demo_receipt \/ exists b1 b2, b1 <> b2 /\ @hex_digest demo_serde b1 = @hex_digest demo_serde b2.
Proof.
  assert (Hv : @verify_identity demo_serde one_receipt demo_receipt (demo_state demo_nodes (fun _ => None))
    = (Ok tt, (@verify_identity demo_serde one_receipt demo_receipt (demo_state demo_nodes (fun _ => None))).2))
    by (apply run_by_result; vm_compute; reflexivity).
  exact (@receipt_tamper_evident demo_serde one_receipt one_receipt_laws demo_receipt demo_receipt _ _ _ _
    Hv Hv eq_refl).
Defined.

(** An accepted checkout is the one of the receipt. If the checkout check succeeds, nothing was
    written, git (run as the invoking user when benchctl is root) reported the receipt's commit and an empty
    status including untracked files, and Cargo.lock has the recorded digest. *)
Theorem verify_checkout_sound `{SE : Serde} `{GO : GitOs}
    (r : BuildReceipt) (uid gid : Z) (s s' : iost) :
  verify_checkout_as r uid gid s = (Ok tt, s') ->
  let who := if pr_euid (io_proc s) =? 0 then Some (uid, gid) else None in
  io_nodes s' = io_nodes s /\
  (exists st out, git_output (br_repository r) ["rev-parse"; "--verify"; "HEAD"]%string who
     = Ok (true, st, Some out) /\ trim out = br_source_commit r) /\
  (exists st, git_output (br_repository r) ["status"; "--porcelain"; "--untracked-files=all"]%string who
     = Ok (true, st, Some EmptyString)) /\
  exists c, content (io_nodes s) (at_cwd (pr_cwd (io_proc s)) (br_lockfile_path r)) = Some c /\
    br_lockfile_sha256 r = hex_digest c.
Proof.
  intros Hv who. pose proof (verify_checkout_spec r uid gid s) as Hw. unfold iwp in Hw. rewrite Hv in Hw.
  destruct Hw as [[_ Hn] Hr]. split; [done|]. by apply Hr.
Qed.

(** Git reports commit c0ffee and a clean tree. *)
Definition demo_git : GitOs := fun _ args _ =>
  Ok (true, "exit status: 0"%string,
      Some (if bool_decide (head args = Some "rev-parse"%string) then "c0ffee"%string else EmptyString)).

Lemma verify_checkout_sound_witness :
  let s := demo_state (<[["repo"; "Cargo.lock"]%string := File "10c4" 0 420]> demo_nodes) (fun _ => None) in
  exists s', @verify_checkout_as demo_serde demo_git demo_receipt 1000 1000 s = (Ok tt, s') /\
    exists c, content (io_nodes s) ["repo"; "Cargo.lock"]%string = Some c /\ "10c4"%string = @hex_digest demo_serde c.
Proof.
  intros s. assert (Hv : (@verify_checkout_as demo_serde demo_git demo_receipt 1000 1000 s).1 = Ok tt)
    by (vm_compute; reflexivity).
  destruct (@verify_checkout_as demo_serde demo_git demo_receipt 1000 1000 s) as [r s'] eqn:E.
  simpl in Hv. subst r. exists s'. split; [reflexivity|].
  pose proof (@verify_checkout_sound demo_serde demo_git demo_receipt 1000 1000 s s' E) as (_ & _ & _ & H).
  exact H.
Defined.
