(* ===== verification/Cpuidle.v ===== *)
(** * Controlled cpuidle operations (tools/benchctl/src/cpuidle.rs)

    The inventory of the idle states of the requested CPUs, applying the POLL/C1 policy,
    restoring the recorded values, selecting journals, and the three commands
    run, status and recover. The supervision of the workload is used through an interface
    ([SupervisionOps], supervision.rs); the file lock's outcome and the exit status of a sudo
    child come from the operating system ([BenchOs]). *)

From S2P Require Import Prelude BenchFs Journal Receipt.
From stdpp Require Import pretty sorting.
From Stdlib Require Import Ascii.
Open Scope Z_scope.

Definition REAL_SYSFS_ROOT : path := ["sys"; "devices"; "system"; "cpu"].
Definition REAL_STATE_ROOT : path := ["run"; "benchctl"; "operations"].
Definition CPUIDLE_LOCK : path := ["run"; "lock"; "benchctl-cpuidle.lock"].
Definition RECOVERY_LOCK_WAIT_MS : Z := 10000.

Definition is_real_root (p : path) : bool := bool_decide (p = REAL_SYSFS_ROOT).

(** ** Reading and writing one value *)

Definition read_trimmed (p : path) (operation : string) : IO string :=
  v ← io_op operation (sys_read p); mret (trim v).

Definition read_bit (p : path) : IO string :=
  value ← read_trimmed p "reading cpuidle value";
  if negb (bool_decide (value = "0")) && negb (bool_decide (value = "1"))
  then throw (State ("cpuidle value is not 0 or 1: " +:+ display p))
  else mret value.

Definition write_bit (p : path) (value : string) : IO unit :=
  _ ← io_op "writing cpuidle value" (sys_write p (value +:+ String "010"%char EmptyString));
  actual ← read_bit p;
  if negb (bool_decide (actual = value))
  then throw (State ("cpuidle readback failed for " +:+ display p +:+ ": expected " +:+ value
                     +:+ ", found " +:+ actual))
  else mret tt.

Definition reject_symlink (p : path) : IO unit :=
  n ← io_op "inspecting controlled path" (sys_lstat p);
  if is_symlink n then throw (Preflight ("symbolic links are rejected: " +:+ display p))
  else mret tt.

(** ** The inventory *)

(** [sort_by_key(|entry| entry.state)], stable *)
Fixpoint insert_entry (e : IdleEntry) (l : list IdleEntry) : list IdleEntry :=
  match l with
  | [] => [e]
  | x :: r => if ie_state x <=? ie_state e then x :: insert_entry e r else e :: x :: r
  end.
Definition sort_by_state (l : list IdleEntry) : list IdleEntry :=
  foldl (fun acc e => insert_entry e acc) [] l.

(** The idle state in directory [item] of [root], unless its name does not start with "state". *)
Definition inventory_item (cpu : N) (root : path) (item : string) : IO (option IdleEntry) :=
  match str_strip_prefix "state" item with
  | None => mret None
  | Some index =>
      match parse_unsigned u64_max index with
      | None => throw (Preflight ("invalid cpuidle state directory: " +:+ index))
      | Some state =>
          let state_root := root ++ [item] in
          _ ← reject_symlink state_root;
          let name_path := state_root ++ ["name"] in
          let disable_path := state_root ++ ["disable"] in
          _ ← reject_symlink name_path;
          _ ← reject_symlink disable_path;
          name ← read_trimmed name_path "reading cpuidle state name";
          original ← read_bit disable_path;
          let desired :=
            if bool_decide (name = "POLL") || bool_decide (name = "C1") then "0" else "1" in
          mret (Some (mkIdle cpu state name disable_path original desired))
      end
  end.

(** The loop over one CPU's directory, its counters and the entries pushed so far. *)
Fixpoint inventory_items (cpu : N) (root : path) (items : list string) (poll_count c1_count : nat)
    (cpu_entries : list IdleEntry) : IO (nat * nat * list IdleEntry) :=
  match items with
  | [] => mret (poll_count, c1_count, cpu_entries)
  | item :: items =>
      o ← inventory_item cpu root item;
      match o with
      | None => inventory_items cpu root items poll_count c1_count cpu_entries
      | Some e =>
          let poll_count := if bool_decide (ie_name e = "POLL") then S poll_count else poll_count in
          let c1_count := if bool_decide (ie_name e = "C1") then S c1_count else c1_count in
          inventory_items cpu root items poll_count c1_count (cpu_entries ++ [e])
      end
  end.

Definition cpu_dir (sysfs_root : path) (cpu : N) : path := sysfs_root ++ ["cpu" +:+ pretty cpu].
Definition cpuidle_dir (sysfs_root : path) (cpu : N) : path := cpu_dir sysfs_root cpu ++ ["cpuidle"].

Definition inventory_cpu (sysfs_root : path) (cpu : N) : IO (list IdleEntry) :=
  _ ← reject_symlink (cpu_dir sysfs_root cpu);
  let root := cpuidle_dir sysfs_root cpu in
  _ ← reject_symlink root;
  items ← io_op "reading cpuidle inventory" (sys_read_dir root);
  '(poll_count, c1_count, cpu_entries) ← inventory_items cpu root items 0 0 [];
  if bool_decide (cpu_entries = []) || negb (poll_count =? 1)%nat || negb (c1_count =? 1)%nat
  then throw (Preflight ("CPU " +:+ pretty cpu +:+ " must expose exact POLL and C1 cpuidle states"))
  else mret (sort_by_state cpu_entries).

Fixpoint inventory (sysfs_root : path) (cpus : list N) : IO (list IdleEntry) :=
  match cpus with
  | [] => mret []
  | cpu :: cpus =>
      es ← inventory_cpu sysfs_root cpu;
      rest ← inventory sysfs_root cpus;
      mret (es ++ rest)
  end.

(** [dedup] *)
Fixpoint dedup (l : list N) : list N :=
  match l with
  | [] => []
  | x :: r => match r with
              | y :: _ => if bool_decide (x = y) then dedup r else x :: dedup r
              | [] => [x]
              end
  end.

Definition entry_matches (l r : IdleEntry) : bool :=
  bool_decide (ie_cpu l = ie_cpu r) && bool_decide (ie_state l = ie_state r)
  && bool_decide (ie_name l = ie_name r) && bool_decide (ie_disable_path l = ie_disable_path r).

Definition validate_inventory (sysfs_root : path) (recorded : list IdleEntry) : IO unit :=
  let cpus := dedup (merge_sort N.le (ie_cpu <$> recorded)) in
  current ← inventory sysfs_root cpus;
  if negb (length current =? length recorded)%nat
     || existsb (fun p => negb (entry_matches p.1 p.2)) (zip current recorded)
  then throw (State "current cpuidle inventory differs from the journal")
  else mret tt.

(** ** Applying and restoring *)

Fixpoint apply_entries (entries : list IdleEntry) : IO unit :=
  match entries with
  | [] => mret tt
  | e :: es =>
      current ← read_bit (ie_disable_path e);
      if negb (bool_decide (current = ie_original e))
      then throw (State ("cpuidle value changed before apply: " +:+ display (ie_disable_path e)))
      else
        _ ← write_bit (ie_disable_path e) (ie_desired e);
        apply_entries es
  end.

Definition apply (sysfs_root : path) (entries : list IdleEntry) : IO unit :=
  _ ← validate_inventory sysfs_root entries;
  apply_entries entries.

Section restore.
Context `{Serde}.

(** Record a conflict in the journal and fail; the same block three times in [restore]. *)
Definition restore_conflict {A} (p : path) (j : Journal) (conflict_path : path)
    (expected actual : string) : IO A :=
  a ← actor;
  j ← transition RestoreConflict a j;
  _ ← store_journal p j;
  throw (RestoreConflictError conflict_path expected actual).

(** [current != original && current != desired] *)
Definition foreign (e : IdleEntry) (current : string) : bool :=
  negb (bool_decide (current = ie_original e)) && negb (bool_decide (current = ie_desired e)).
Definition expected_values (e : IdleEntry) : string := ie_original e +:+ " or " +:+ ie_desired e.

(** The first loop: read only. *)
Fixpoint check_entries (p : path) (j : Journal) (entries : list IdleEntry) : IO unit :=
  match entries with
  | [] => mret tt
  | e :: es =>
      current ← read_bit (ie_disable_path e);
      if foreign e current
      then restore_conflict p j (ie_disable_path e) (expected_values e) current
      else check_entries p j es
  end.

(** The second loop: write the originals back. *)
Fixpoint restore_entries (p : path) (j : Journal) (entries : list IdleEntry) : IO unit :=
  match entries with
  | [] => mret tt
  | e :: es =>
      current ← read_bit (ie_disable_path e);
      if foreign e current
      then restore_conflict p j (ie_disable_path e) (expected_values e) current
      else
        _ ← (if bool_decide (current = ie_desired e) && negb (bool_decide (current = ie_original e))
             then write_bit (ie_disable_path e) (ie_original e) else mret tt);
        restore_entries p j es
  end.

(** The third loop: read the originals. *)
Fixpoint verify_entries (p : path) (j : Journal) (entries : list IdleEntry) : IO unit :=
  match entries with
  | [] => mret tt
  | e :: es =>
      actual ← read_bit (ie_disable_path e);
      if negb (bool_decide (actual = ie_original e))
      then restore_conflict p j (ie_disable_path e) (ie_original e) actual
      else verify_entries p j es
  end.

(** [restore]; the mutated journal is the result (no caller uses it after an error). *)
Definition restore (sysfs_root p : path) (j : Journal) : IO Journal :=
  _ ← validate_inventory sysfs_root (j_entries j);
  _ ← check_entries p j (j_entries j);
  a ← actor;
  j ← transition Restoring a j;
  _ ← store_journal p j;
  _ ← restore_entries p j (j_entries j);
  _ ← validate_inventory sysfs_root (j_entries j);
  _ ← verify_entries p j (j_entries j);
  a ← actor;
  j ← transition Restored a j;
  _ ← store_journal p j;
  mret j.
End restore.

(** ** Journals on disk *)

(** [path.extension().and_then(to_str) == Some("json")]: the part after the last dot of the
    file name, which must not be its first byte. *)
Fixpoint after_last_dot (s : string) : option string :=
  match s with
  | EmptyString => None
  | String c r =>
      match after_last_dot r with
      | Some e => Some e
      | None => if bool_decide (c = "."%char) then Some r else None
      end
  end.
Definition extension (file_name : string) : option string :=
  match file_name with
  | EmptyString => None
  | String _ r => if bool_decide (file_name = "..") then None else after_last_dot r
  end.

Section journals.
Context `{Serde}.

Fixpoint select_loop (state_root : path) (recoverable_only : bool) (names : list string)
    (paths : list string) : IO (list string) :=
  match names with
  | [] => mret paths
  | n :: names =>
      if negb (bool_decide (extension n = Some "json"))
      then select_loop state_root recoverable_only names paths
      else
        skip ← (if recoverable_only : bool
                then j ← load_journal (state_root ++ [n]); mret (bool_decide (stage j = Restored))
                else mret false);
        if skip : bool then select_loop state_root recoverable_only names paths
        else select_loop state_root recoverable_only names (paths ++ [n])
  end.

Definition select_journals (state_root : path) (operation_id : option string)
    (recoverable_only : bool) : IO (list path) :=
  match operation_id with
  | Some id =>
      p ← lift (journal_path state_root id);
      x ← sys_exists p;
      mret (if x : bool then [p] else [])
  | None =>
      x ← sys_exists state_root;
      if negb x then mret []
      else
        names ← io_op "listing operation state" (sys_read_dir state_root);
        paths ← select_loop state_root recoverable_only names [];
        mret ((fun n => state_root ++ [n]) <$> merge_sort string_leb paths)
  end.

Fixpoint require_finished (paths : list path) : IO unit :=
  match paths with
  | [] => mret tt
  | p :: paths =>
      j ← load_journal p;
      if negb (bool_decide (stage j = Restored))
      then throw (RecoveryRequired (j_operation_id j))
      else require_finished paths
  end.

Definition require_no_unfinished_journal (state_root : path) : IO unit :=
  paths ← select_journals state_root None false;
  require_finished paths.
End journals.

(** ** Outcomes *)

(** [supervision::Outcome] *)
Inductive Outcome := O_Success | O_Failed (status : string) | O_TimedOut | O_Cancelled.

Definition terminal_outcome (o : Outcome) : TerminalOutcome :=
  match o with
  | O_Success => TO_Success
  | O_Failed s => TO_Failed s
  | O_TimedOut => TO_TimedOut
  | O_Cancelled => TO_Cancelled
  end.

Definition replay_outcome (j : Journal) : IO unit :=
  match j_outcome j with
  | Some TO_Success => println (j_operation_id j +:+ ": completed")
  | Some (TO_Failed s) => throw (Workload s)
  | Some TO_TimedOut => throw (Workload "timeout elapsed")
  | Some TO_Cancelled => throw (Workload "cancelled by signal")
  | None => throw (State ("operation " +:+ j_operation_id j
                          +:+ " was restored without a recorded workload outcome"))
  end.

(** The result of a finished run, in the same words. *)
Definition report_outcome (o : Outcome) : IO unit :=
  match o with
  | O_Success => mret tt
  | O_Failed s => throw (Workload s)
  | O_TimedOut => throw (Workload "timeout elapsed")
  | O_Cancelled => throw (Workload "cancelled by signal")
  end.

(** ** The other components, and the operating system *)

Record CoordinateRequest := mkCoordinate {
  cr_state_root : path;
  cr_operation_id : string;
  cr_receipt : path;
  cr_executable : path;
  cr_workload : list string;
  cr_uid : Z;
  cr_gid : Z;
  cr_timeout : Z;
  cr_client_watch : option Z;
  cr_production_control : bool;
}.

Class SupervisionOps := {
  require_inactive : path -> IO unit;
  client_watch : option Z -> IO (option Z);
  coordinate : CoordinateRequest -> IO Outcome;
  recover_outcome : path -> string -> IO (option Outcome);
  cleanup_runtime : path -> string -> IO unit;
}.

(** Where an error message of the source quotes another error (the rendering of an io::Error, of an
    exit status, of a nested failure), the model keeps the fixed words only.
    [lock_outcome wait]: what [acquire_lock] returns; [command_status]: the success and the rendering
    of a child's exit status; [seam_wait]: the wait of the test seam. *)
Class BenchOs := {
  lock_outcome : bool -> result unit BenchError;
  command_status : list string -> result (bool * string) io_error;
  seam_wait : path -> result unit BenchError;
}.

(** The loop of [acquire_lock]: attempt [n]'s result of try_lock and the time elapsed then. *)
Fixpoint acquire_lock (fuel : nat) (try_lock : nat -> result unit io_error) (elapsed_ms : nat -> Z)
    (n : nat) (wait : bool) (label : string) : option (result unit BenchError) :=
  match fuel with
  | O => None
  | S f =>
      match try_lock n with
      | Ok _ => Some (Ok tt)
      | Err e =>
          if bool_decide (e = WouldBlock) && wait && (elapsed_ms n <? RECOVERY_LOCK_WAIT_MS)
          then acquire_lock f try_lock elapsed_ms (S n) wait label
          else Some (Err (State label))
      end
  end.

(** ** Paths, identity, privileges *)

Definition absolute (p : rpath) : IO path :=
  match p with
  | Absolute p => mret p
  | Relative p =>
      cwd ← io_op "resolving current directory" (syscall (fun s => (Ok (pr_cwd (io_proc s)), s)));
      mret (cwd ++ p)
  end.

(** [Path::new] of a string: its components, without empty ones and dots. *)
Fixpoint split_slash (cur : string) (s : string) : list string :=
  match s with
  | EmptyString => [cur]
  | String c r => if bool_decide (c = "/"%char) then cur :: split_slash EmptyString r
                  else split_slash (cur +:+ String c EmptyString) r
  end.
Definition rpath_of_string (s : string) : rpath :=
  let parts := filter (fun c => c <> EmptyString /\ c <> ".") (split_slash EmptyString s) in
  match s with String "/" _ => Absolute parts | _ => Relative parts end.

Definition sys_canonicalize (p : path) : sys path :=
  syscall (fun s =>
    (match resolve (io_nodes s) p with
     | None => Err FilesystemLoop
     | Some r => match at_path (io_nodes s) r with Some _ => Ok r | None => Err NotFound end
     end, s)).

Definition absolute_existing (p : rpath) (operation : string) : IO path :=
  a ← absolute p; io_op operation (sys_canonicalize a).

Definition absolute_without_existing (p : rpath) : IO path :=
  a ← absolute p;
  if bool_decide (a = []) || existsb (fun c => bool_decide (c = "..")) a
  then throw (Preflight "state root must be an absolute non-root path without traversal")
  else mret a.

Definition parse_sudo_id (name : string) : IO Z :=
  env ← get_proc pr_env;
  match env !! name with
  | None => throw (Preflight (name +:+ " is required from sudo"))
  | Some v =>
      match parse_unsigned u32_max v with
      | None => throw (Preflight (name +:+ " is malformed"))
      | Some id => mret id
      end
  end.

Definition invoking_actor (sysfs_root : path) : IO Actor :=
  euid ← get_proc pr_euid;
  if negb (is_real_root sysfs_root) || negb (euid =? 0) then actor
  else
    uid ← parse_sudo_id "SUDO_UID";
    gid ← parse_sudo_id "SUDO_GID";
    mret (mkActor uid gid).

Definition require_coordinator_privilege (sysfs_root : path) (coordinator : bool) : IO unit :=
  euid ← get_proc pr_euid;
  if is_real_root sysfs_root && (negb coordinator || negb (euid =? 0))
  then throw (Preflight "real sysfs operations require the hidden privileged coordinator")
  else mret tt.

Definition validate_production_state_root (sysfs_root state_root : path) : IO unit :=
  if is_real_root sysfs_root && negb (bool_decide (state_root = REAL_STATE_ROOT))
  then throw (Preflight
    "real sysfs operations require the fixed root-owned Benchctl state directory")
  else mret tt.

(** 0o700 is 448, 0o777 is 511, 0o666 is 438, 0o600 is 384, 0o555 is 365. *)
Definition node_uid (n : node) : Z :=
  match n with File _ u _ => u | Dir u _ => u | Symlink _ => 0 end.
Definition node_mode (n : node) : Z :=
  match n with File _ _ m => m | Dir _ m => m | Symlink _ => 511 end.

Definition secure_state_directory (p : path) : IO unit :=
  _ ← io_op "securing operation state directory" (sys_chmod p 448);
  n ← io_op "inspecting operation state directory" (sys_lstat p);
  if is_symlink n || negb (is_dir n)
  then throw (Preflight "operation state root must be a real directory")
  else
    euid ← get_proc pr_euid;
    if negb (node_uid n =? euid) || negb (Z.land (node_mode n) 511 =? 448)
    then throw (Preflight
      "operation state root must be owned by the coordinator with mode 0700")
    else mret tt.

(** open with O_CREAT and O_NOFOLLOW *)
Definition sys_open_lock (p : path) : sys node :=
  syscall (fun s =>
    match resolve_parent (io_nodes s) p with
    | None => (Err FilesystemLoop, s)
    | Some r =>
        match at_path (io_nodes s) r with
        | Some (Symlink _) => (Err FilesystemLoop, s)
        | Some (Dir _ _) => (Err IsADirectory, s)
        | Some n => (Ok n, s)
        | None =>
            match at_path (io_nodes s) (removelast r) with
            | Some (Dir _ _) =>
                let n := File EmptyString (pr_euid (io_proc s)) 420 in
                (Ok n, io_set (<[r := n]> (io_nodes s)) s)
            | _ => (Err NotFound, s)
            end
        end
    end).

Definition lock_for `{BenchOs} (sysfs_root : path) (wait : bool) : IO unit :=
  euid ← get_proc pr_euid;
  let '(p, expected_uid, expected_mode) :=
    if is_real_root sysfs_root then (CPUIDLE_LOCK, 0, 438)
    else (sysfs_root ++ [".benchctl-cpuidle.lock"], euid, 384) in
  _ ← io_op "creating lock directory" (sys_create_dir_all (removelast p));
  m ← try (io_op "inspecting cpuidle lock" (sys_lstat p));
  existed ←
    (match m with
     | Ok n => if is_symlink n
               then throw (Preflight ("symbolic links are rejected: " +:+ display p))
               else mret true
     | Err (Io _ NotFound) => mret false
     | Err e => throw e
     end);
  _ ← io_op "opening cpuidle lock" (sys_open_lock p);
  _ ← (if negb existed then io_op "securing cpuidle lock" (sys_chmod p expected_mode) else mret tt);
  n ← io_op "inspecting cpuidle lock" (sys_lstat p);
  if (match n with File _ _ _ => false | _ => true end)
     || negb (node_uid n =? expected_uid) || negb (Z.land (node_mode n) 511 =? expected_mode)
  then throw (Preflight "global cpuidle lock has unsafe ownership or mode")
  else lift (lock_outcome wait).

(** ** The commands *)

Record RunRequest (P : Type) := mkRun {
  rr_operation_id : option string;
  rr_receipt_path : P;
  rr_cpus : list N;
  rr_timeout : Z;
  rr_workload : list string;
  rr_sysfs_root : P;
  rr_state_root : P;
  rr_coordinator : bool;
  rr_client_pid : option Z;
}.
Arguments mkRun {P} _ _ _ _ _ _ _ _ _.
Arguments rr_operation_id {P} _.
Arguments rr_receipt_path {P} _.
Arguments rr_cpus {P} _.
Arguments rr_timeout {P} _.
Arguments rr_workload {P} _.
Arguments rr_sysfs_root {P} _.
Arguments rr_state_root {P} _.
Arguments rr_coordinator {P} _.
Arguments rr_client_pid {P} _.

Record ControlRequest := mkControl {
  ct_operation_id : option string;
  ct_sysfs_root : rpath;
  ct_state_root : rpath;
  ct_coordinator : bool;
}.

Definition new_operation_id : IO string :=
  millis ← now_millis;
  pid ← get_proc pr_pid;
  mret (pretty (Z.to_N millis) +:+ "-" +:+ pretty (Z.to_N pid)).

Definition stage_debug (s : Stage) : string :=
  match s with
  | Prepared => "Prepared"
  | Applied => "Applied"
  | WorkloadStarted => "WorkloadStarted"
  | WorkloadFinished => "WorkloadFinished"
  | Draining => "Draining"
  | Restoring => "Restoring"
  | Restored => "Restored"
  | Recoverable => "Recoverable"
  | RestoreConflict => "RestoreConflict"
  end.

Section commands.
Context `{Serde} `{ReceiptSerde} `{GitOs} `{SupervisionOps} `{BenchOs}.

Definition forward_status (command : list string) (label : string) : IO unit :=
  '(success, status) ←
    io_op "starting privileged coordinator" (syscall (fun s => (command_status command, s)));
  if success : bool then mret tt else throw (Workload (label +:+ " exited with " +:+ status)).

Definition current_exe : IO path :=
  io_op "resolving benchctl executable" (syscall (fun s => (Ok (pr_exe (io_proc s)), s))).

Definition sudo_run (r : RunRequest path) : IO unit :=
  executable ← current_exe;
  pid ← get_proc pr_pid;
  forward_status
    (["sudo"; "--"; display executable; "run"; "--coordinator"; "--client-pid";
      pretty (Z.to_N pid); "--receipt"; display (rr_receipt_path r);
      "--cpuidle"; "poll-c1"; "--timeout"; pretty (Z.to_N (rr_timeout r));
      "--sysfs-root"; display (rr_sysfs_root r); "--state-root"; display (rr_state_root r)]
     ++ (match rr_operation_id r with Some id => ["--operation-id"; id] | None => [] end)
     ++ concat ((fun cpu => ["--cpu"; pretty cpu]) <$> rr_cpus r)
     ++ ["--"] ++ rr_workload r)
    "privileged coordinator".

Definition sudo_control (action : string) (operation_id : option string)
    (sysfs_root state_root : path) : IO unit :=
  executable ← current_exe;
  forward_status
    (["sudo"; "--"; display executable; action; "--coordinator"; "--sysfs-root";
      display sysfs_root; "--state-root"; display state_root]
     ++ (match operation_id with Some id => [id] | None => [] end))
    "privileged coordinator".

Definition pause_after_executable_snapshot_for_test (sysfs_root : path) : IO unit :=
  if is_real_root sysfs_root then mret tt
  else
    env ← get_proc pr_env;
    match env !! "BENCHCTL_TEST_EXECUTABLE_SNAPSHOT_READY" with
    | None => mret tt
    | Some ready =>
        match env !! "BENCHCTL_TEST_EXECUTABLE_SNAPSHOT_RELEASE" with
        | None => throw (Usage "executable snapshot test seam requires a release path")
        | Some release =>
            ready ← absolute (rpath_of_string ready);
            release ← absolute (rpath_of_string release);
            _ ← atomic_write ready ("ready" +:+ String "010"%char EmptyString);
            lift (seam_wait release)
        end
    end.

Definition reconcile_runtime_outcome (state_root p : path) (j : Journal) : IO Journal :=
  match j_outcome j with
  | Some _ => mret j
  | None =>
      o ← recover_outcome state_root (j_operation_id j);
      match o with
      | None => mret j
      | Some o =>
          let j := set_outcome (terminal_outcome o) j in
          _ ← store_journal p j;
          mret j
      end
  end.

Fixpoint print_journals (paths : list path) : IO unit :=
  match paths with
  | [] => mret tt
  | p :: paths =>
      j ← load_journal p;
      _ ← println (j_operation_id j +:+ String "009"%char EmptyString +:+ stage_debug (stage j));
      print_journals paths
  end.

Definition status (r : ControlRequest) : IO unit :=
  sysfs_root ← absolute_existing (ct_sysfs_root r) "canonicalizing sysfs root";
  state_root ← absolute_without_existing (ct_state_root r);
  _ ← validate_production_state_root sysfs_root state_root;
  if is_real_root sysfs_root && negb (ct_coordinator r)
  then sudo_control "status" (ct_operation_id r) sysfs_root state_root
  else
    _ ← require_coordinator_privilege sysfs_root (ct_coordinator r);
    journals ← select_journals state_root (ct_operation_id r) false;
    if bool_decide (journals = []) then println "no benchctl operations"
    else print_journals journals.

Definition recover (r : ControlRequest) : IO unit :=
  sysfs_root ← absolute_existing (ct_sysfs_root r) "canonicalizing sysfs root";
  state_root ← absolute_without_existing (ct_state_root r);
  _ ← validate_production_state_root sysfs_root state_root;
  if is_real_root sysfs_root && negb (ct_coordinator r)
  then sudo_control "recover" (ct_operation_id r) sysfs_root state_root
  else
    _ ← require_coordinator_privilege sysfs_root (ct_coordinator r);
    _ ← io_op "creating operation state directory" (sys_create_dir_all state_root);
    _ ← secure_state_directory state_root;
    _ ← lock_for sysfs_root true;
    _ ← require_inactive state_root;
    paths ← select_journals state_root (ct_operation_id r) true;
    match paths with
    | [p] =>
        j ← load_journal p;
        if bool_decide (stage j = Restored) then
          _ ← cleanup_runtime state_root (j_operation_id j);
          println (j_operation_id j +:+ ": AlreadyRestored")
        else
          boot ← boot_id;
          if negb (bool_decide (j_boot_id j = boot))
          then throw (State
            "operation belongs to another Linux boot; automatic recovery is refused")
          else
            j ← reconcile_runtime_outcome state_root p j;
            j ← restore sysfs_root p j;
            _ ← cleanup_runtime state_root (j_operation_id j);
            println (j_operation_id j +:+ ": restored")
    | [] => throw (State "there is no recoverable operation")
    | _ => throw (State "more than one operation is recoverable; provide an operation ID")
    end.

(** The part of [coordinate_run] that snapshots the accepted receipt and executable. *)
Definition snapshot_accepted (r : RunRequest path) (receipt : BuildReceipt) (receipt_hash : string)
    (accepted_receipt accepted_executable : path) : IO unit :=
  receipt_bytes ← io_op "snapshotting accepted build receipt" (sys_read (rr_receipt_path r));
  _ ← atomic_write accepted_receipt receipt_bytes;
  d ← receipt_digest accepted_receipt;
  changed ← (if negb (bool_decide (d = receipt_hash)) then mret true
             else r ← load_receipt accepted_receipt; mret (negb (bool_decide (r = receipt))));
  if changed : bool
  then throw (Preflight "build receipt changed while it was being accepted")
  else
    executable_bytes ←
      io_op "snapshotting accepted executable" (sys_read_at (br_executable receipt));
    _ ← atomic_write accepted_executable executable_bytes;
    _ ← io_op "securing accepted executable snapshot" (sys_chmod accepted_executable 365);
    d ← file_digest (Absolute accepted_executable) "digesting accepted executable snapshot";
    if negb (bool_decide (d = br_executable_sha256 receipt))
    then throw (Preflight "benchmark executable changed while it was being accepted")
    else mret tt.

(** The part after the journal is on disk: apply, run the workload, restore. *)
Definition run_journaled (r : RunRequest path) (p : path) (operation_id : string)
    (coordinator workload_actor : Actor) (accepted_receipt accepted_executable : path)
    (watch : option Z) (j : Journal) : IO unit :=
  applied ← try (apply (rr_sysfs_root r) (j_entries j));
  match applied with
  | Err error =>
      restored ← try (restore (rr_sysfs_root r) p j);
      match restored with
      | Ok _ => throw error
      | Err _ => throw (State "apply failed; cleanup also failed")
      end
  | Ok _ =>
      j ← transition Applied coordinator j;
      _ ← store_journal p j;
      j ← transition WorkloadStarted coordinator j;
      _ ← store_journal p j;
      outcome ← try (coordinate
        {| cr_state_root := rr_state_root r;
           cr_operation_id := operation_id;
           cr_receipt := accepted_receipt;
           cr_executable := accepted_executable;
           cr_workload := rr_workload r;
           cr_uid := a_uid workload_actor;
           cr_gid := a_gid workload_actor;
           cr_timeout := rr_timeout r;
           cr_client_watch := watch;
           cr_production_control := is_real_root (rr_sysfs_root r) |});
      match outcome with
      | Err error =>
          j ← reconcile_runtime_outcome (rr_state_root r) p j;
          a ← actor;
          j ← transition Recoverable a j;
          _ ← store_journal p j;
          throw error
      | Ok workload_status =>
          j ← transition WorkloadFinished coordinator
                (set_outcome (terminal_outcome workload_status) j);
          a ← actor;
          j ← transition Draining a j;
          _ ← store_journal p j;
          _ ← restore (rr_sysfs_root r) p j;
          _ ← cleanup_runtime (rr_state_root r) operation_id;
          report_outcome workload_status
      end
  end.

Definition coordinate_run (r : RunRequest path) : IO unit :=
  if bool_decide (rr_cpus r = []) then throw (Usage "at least one CPU is required")
  else
    let sorted := merge_sort N.le (rr_cpus r) in
    let cpus := dedup sorted in
    if negb (length sorted =? length cpus)%nat then throw (Usage "CPU IDs must be distinct")
    else
      _ ← io_op "creating operation state directory" (sys_create_dir_all (rr_state_root r));
      _ ← secure_state_directory (rr_state_root r);
      _ ← lock_for (rr_sysfs_root r) false;
      _ ← require_inactive (rr_state_root r);
      workload_actor ← invoking_actor (rr_sysfs_root r);
      receipt ← load_receipt (rr_receipt_path r);
      _ ← verify_checkout_as receipt (a_uid workload_actor) (a_gid workload_actor);
      receipt_hash ← receipt_digest (rr_receipt_path r);
      operation_id ← (match rr_operation_id r with Some id => mret id | None => new_operation_id end);
      p ← lift (journal_path (rr_state_root r) operation_id);
      let accepted_receipt := rr_state_root r ++ [operation_id +:+ ".receipt"] in
      let accepted_executable := rr_state_root r ++ [operation_id +:+ ".executable"] in
      let recorded := {|
        rq_receipt := rr_receipt_path r;
        rq_accepted_receipt := accepted_receipt;
        rq_receipt_digest := receipt_hash;
        rq_accepted_executable := accepted_executable;
        rq_executable_digest := br_executable_sha256 receipt;
        rq_cpus := cpus;
        rq_timeout_seconds := rr_timeout r;
        rq_workload := rr_workload r;
        rq_workload_actor := workload_actor |} in
      x ← sys_exists p;
      if x : bool then
        existing ← load_journal p;
        d ← lift (digest recorded);
        if negb (bool_decide (j_request_hash existing = d)) then throw (RequestConflict operation_id)
        else if bool_decide (stage existing = Restored) then replay_outcome existing
        else throw (RecoveryRequired operation_id)
      else
        _ ← require_no_unfinished_journal (rr_state_root r);
        watch ← client_watch (rr_client_pid r);
        _ ← snapshot_accepted r receipt receipt_hash accepted_receipt accepted_executable;
        _ ← pause_after_executable_snapshot_for_test (rr_sysfs_root r);
        coordinator ← actor;
        boot ← boot_id;
        j ← journal_new operation_id recorded coordinator boot;
        entries ← inventory (rr_sysfs_root r) cpus;
        let j := set_entries entries j in
        _ ← store_journal p j;
        _ ← println ("operation: " +:+ operation_id);
        run_journaled r p operation_id coordinator workload_actor accepted_receipt
          accepted_executable watch j.

Definition run (r : RunRequest rpath) : IO unit :=
  receipt_path ← absolute (rr_receipt_path r);
  sysfs_root ← absolute_existing (rr_sysfs_root r) "canonicalizing sysfs root";
  state_root ← absolute_without_existing (rr_state_root r);
  let r := mkRun (rr_operation_id r) receipt_path (rr_cpus r) (rr_timeout r) (rr_workload r)
             sysfs_root state_root (rr_coordinator r) (rr_client_pid r) in
  _ ← validate_production_state_root sysfs_root state_root;
  if is_real_root sysfs_root && negb (rr_coordinator r) then sudo_run r
  else
    _ ← require_coordinator_privilege sysfs_root (rr_coordinator r);
    if is_real_root sysfs_root && bool_decide (rr_client_pid r = None)
    then throw (Preflight "privileged run coordinator requires its unprivileged client PID")
    else coordinate_run r.
End commands.
