(* ===== verification/CpuidleProofs.v ===== *)
(** * What the cpuidle operations guarantee

    The inventory as a declarative predicate ([inv_ok]) that a run of [inventory] establishes
    and that makes it succeed again; safety of apply and restore under arbitrary faults; and
    recovery: after an apply that failed anywhere, restore brings every value back. *)

From S2P Require Import Prelude BenchFs Journal Cpuidle.
From stdpp Require Import pretty sorting.
From Stdlib Require Import Ascii.
Open Scope Z_scope.

(** ** Values *)

Definition is_bit (v : string) : Prop := v = "0"%string \/ v = "1"%string.

(** The file at [p] and the bit it holds. *)
Definition bit_at (ns : nodes) (p : path) (v : string) : Prop :=
  exists c u m, at_path ns p = Some (File c u m) /\ trim c = v /\ is_bit v.

Definition bit_line (v : string) : string := (v +:+ String "010"%char EmptyString)%string.

Lemma trim_bit_line v : is_bit v -> trim (bit_line v) = v.
Proof. by intros [->| ->]. Qed.

Lemma bit_at_fun ns p v w : bit_at ns p v -> bit_at ns p w -> v = w.
Proof. intros (c & u & m & H1 & <- & _) (c' & u' & m' & H2 & <- & _). by simplify_eq. Qed.

Lemma ro_read_trimmed p op : ro (read_trimmed p op).
Proof. unfold read_trimmed. ro_tac. Qed.

Lemma ro_read_bit p : ro (read_bit p).
Proof. unfold read_bit. pose proof (ro_read_trimmed p). ro_tac. Qed.

Lemma ro_reject_symlink p : ro (reject_symlink p).
Proof. unfold reject_symlink. ro_tac. Qed.

#[export] Hint Resolve ro_read_trimmed ro_read_bit ro_reject_symlink : snz.

(** A successful read of a plain path. *)
Lemma read_trimmed_spec p op s :
  plain (io_nodes s) p ->
  iwp (read_trimmed p op) s (fun r s' => same s s' /\ forall v, r = Ok v ->
    exists c u m, at_path (io_nodes s) p = Some (File c u m) /\ trim c = v).
Proof.
  intros Hp. apply iwp_bind, iwp_sys.
  - intros e _. split; [apply same_step|done].
  - intros c s' Hc. simpl in Hc. rewrite resolve_plain in Hc by done.
    destruct (at_path _ p) as [[c' u m| |]|] eqn:E; simplify_eq.
    split; [apply same_step|]. intros v [= <-]. eauto.
  - intros e s' He. simpl in He. injection He as _ <-. split; [apply same_step|done].
Qed.

Lemma read_trimmed_gives p op s c u m :
  no_faults s -> plain (io_nodes s) p -> at_path (io_nodes s) p = Some (File c u m) ->
  gives (read_trimmed p op) s (Ok (trim c)).
Proof.
  intros Hnf Hp Hf. eapply (gives_bind _ _ _ c); [done| |intros s' _ _; apply gives_ret].
  apply gives_sys; [done|]. simpl. by rewrite resolve_plain, Hf.
Qed.

Lemma read_bit_spec p s :
  plain (io_nodes s) p ->
  iwp (read_bit p) s (fun r s' => same s s' /\ forall v, r = Ok v -> bit_at (io_nodes s) p v).
Proof.
  intros Hp. apply iwp_bind. eapply iwp_mono; [by apply read_trimmed_spec|].
  intros [v|e] s' [Hs Hv]; [|done]. destruct (Hv v eq_refl) as (c & u & m & Hf & Ht).
  unfold iwp. repeat case_bool_decide; simpl; split; try done; intros v' [= <-];
    exists c, u, m; (split; [done|]); (split; [done|]); by (left + right).
Qed.

Lemma read_bit_gives p s v :
  no_faults s -> plain (io_nodes s) p -> bit_at (io_nodes s) p v -> gives (read_bit p) s (Ok v).
Proof.
  intros Hnf Hp (c & u & m & Hf & Ht & Hb).
  eapply gives_bind; [done|by eapply read_trimmed_gives|].
  intros s' _ _. rewrite Ht. destruct Hb as [->| ->]; apply gives_ret.
Qed.

(** Writing a bit to a file: one node changes, to the new value, or nothing does. *)
Lemma write_bit_spec p v c u m s :
  plain (io_nodes s) p -> p <> [] -> io_nodes s !! p = Some (File c u m) -> is_bit v ->
  iwp (write_bit p v) s (fun r s' => kept s s' /\
    (io_nodes s' = io_nodes s \/ io_nodes s' = <[p := File (bit_line v) u m]> (io_nodes s)) /\
    (r = Ok tt -> io_nodes s' = <[p := File (bit_line v) u m]> (io_nodes s)) /\
    (no_faults s -> r = Ok tt)).
Proof.
  intros Hp Hne Hf Hb. set (ns' := <[p := File (bit_line v) u m]> (io_nodes s)).
  assert (Hat : at_path (io_nodes s) p = Some (File c u m)).
  { unfold at_path. by rewrite bool_decide_false. }
  assert (Hbit : bit_at ns' p v).
  { exists (bit_line v), u, m. split; [|split; [by apply trim_bit_line|done]].
    unfold at_path, ns'. rewrite bool_decide_false by done. by rewrite lookup_insert_eq. }
  apply iwp_bind. apply iwp_sys.
  - intros e He. split; [apply same_step|]. split; [by left|]. split; [done|].
    intros Hnf. by rewrite Hnf in He by done.
  - intros x s' Hx. simpl in Hx. rewrite resolve_plain, Hat in Hx by done. simplify_eq.
    fold (bit_line v). fold ns'. set (s1 := io_set ns' (io_step s)).
    assert (Hk1 : kept s s1) by (eapply kept_trans; [apply same_step|apply kept_set]).
    assert (Hp1 : plain (io_nodes s1) p) by (by apply plain_insert).
    apply iwp_bind. eapply iwp_mono.
    { apply iwp_and; [by apply read_bit_spec|apply iwp_self]. }
    intros r s2 [[Hs2 Hr] Heq].
    assert (Hns : io_nodes s2 = ns') by (by rewrite (proj2 Hs2)).
    assert (Hk2 : kept s s2) by (eapply kept_trans; [done|apply Hs2]).
    destruct r as [actual|e].
    + pose proof (bit_at_fun _ _ _ _ Hbit (Hr actual eq_refl)) as <-.
      unfold iwp. rewrite bool_decide_true by done. simpl. split; [done|]. split; [by right|]. done.
    + split; [done|]. split; [by right|]. split; [done|]. intros Hnf.
      destruct (read_bit_gives p s1 v) as (s3 & H3 & _); [by eapply no_faults_kept|done|done|].
      by rewrite H3 in Heq.
  - intros e s' He. simpl in He. rewrite resolve_plain, Hat in He by done. done.
Qed.

(** ** The inventory, declaratively *)

(** [p] exists and is not a symbolic link. *)
Definition real_node (ns : nodes) (p : path) : Prop :=
  exists n, ns !! p = Some n /\ is_symlink n = false.

Lemma reject_symlink_spec p c s :
  plain (io_nodes s) p ->
  iwp (reject_symlink (p ++ [c])) s (fun r s' => same s s' /\
    (r = Ok tt -> real_node (io_nodes s) (p ++ [c]))).
Proof.
  intros Hp. apply iwp_bind, iwp_sys.
  - intros e _. split; [apply same_step|done].
  - intros n s' Hn. simpl in Hn. rewrite resolve_parent_plain, at_path_snoc in Hn by done.
    destruct (io_nodes s !! (p ++ [c])) as [n'|] eqn:E; simplify_eq/=.
    unfold iwp. destruct (is_symlink n) eqn:El; simpl; (split; [apply same_step|]); [done|].
    intros _. by exists n.
  - intros e s' He. simpl in He. injection He as _ <-. split; [apply same_step|done].
Qed.

Lemma reject_symlink_gives p c s :
  no_faults s -> plain (io_nodes s) p -> real_node (io_nodes s) (p ++ [c]) ->
  gives (reject_symlink (p ++ [c])) s (Ok tt).
Proof.
  intros Hnf Hp (n & Hn & Hl). eapply (gives_bind _ _ _ n); [done| |].
  - apply gives_sys; [done|]. cbn [io_nodes io_step].
    rewrite resolve_parent_plain, at_path_snoc by done. by rewrite Hn.
  - intros s' _ _. rewrite Hl. apply gives_ret.
Qed.

Lemma plain_real ns p c : plain ns p -> c <> ".."%string -> real_node ns (p ++ [c]) -> plain ns (p ++ [c]).
Proof.
  intros Hp Hc (n & Hn & Hl). apply plain_snoc; [done|done|]. intros t Ht. by simplify_eq.
Qed.

Definition desired_for (name : string) : string :=
  if bool_decide (name = "POLL"%string) || bool_decide (name = "C1"%string) then "0" else "1".

(** What an entry of a CPU's cpuidle directory contributes. *)
Definition item_ok (ns : nodes) (cpu : N) (root : path) (item : string) (o : option IdleEntry) : Prop :=
  match str_strip_prefix "state" item with
  | None => o = None
  | Some index => exists state name original c u m,
      parse_unsigned u64_max index = Some state /\
      real_node ns (root ++ [item]) /\
      real_node ns ((root ++ [item]) ++ ["name"]) /\
      real_node ns ((root ++ [item]) ++ ["disable"]) /\
      ns !! ((root ++ [item]) ++ ["name"]) = Some (File c u m) /\ trim c = name /\
      bit_at ns ((root ++ [item]) ++ ["disable"]) original /\
      o = Some (mkIdle cpu state name ((root ++ [item]) ++ ["disable"]) original (desired_for name))
  end.

Lemma state_item_not_dots item index : str_strip_prefix "state" item = Some index -> item <> ".."%string.
Proof. by intros H ->. Qed.

Lemma inventory_item_spec cpu root item s :
  plain (io_nodes s) root ->
  iwp (inventory_item cpu root item) s (fun r s' => same s s' /\
    forall o, r = Ok o -> item_ok (io_nodes s) cpu root item o).
Proof.
  intros Hp. unfold inventory_item, item_ok.
  destruct (str_strip_prefix "state" item) as [index|] eqn:Ei.
  2: { unfold iwp. simpl. split; [apply same_refl|]. by intros o [= <-]. }
  destruct (parse_unsigned u64_max index) as [st|] eqn:Est.
  2: { unfold iwp. simpl. split; [apply same_refl|done]. }
  pose proof (state_item_not_dots _ _ Ei) as Hdots.
  apply iwp_bind. eapply iwp_mono; [by apply reject_symlink_spec|]. intros [[]|e] s1 [H1 R1]; [|done].
  specialize (R1 eq_refl). pose proof (plain_real _ _ _ Hp Hdots R1) as Hp1.
  apply iwp_bind. eapply iwp_mono; [apply reject_symlink_spec; by rewrite (proj2 H1)|].
  intros [[]|e] s2 [H2 R2]; [|by split; [eapply same_trans|]].
  specialize (R2 eq_refl). rewrite (proj2 H1) in R2. pose proof (same_trans _ _ _ H1 H2) as H12.
  apply iwp_bind. eapply iwp_mono; [apply reject_symlink_spec; by rewrite (proj2 H12)|].
  intros [[]|e] s3 [H3 R3]; [|by split; [eapply same_trans|]].
  specialize (R3 eq_refl). rewrite (proj2 H12) in R3. pose proof (same_trans _ _ _ H12 H3) as H13.
  apply iwp_bind. eapply iwp_mono.
  { apply read_trimmed_spec. rewrite (proj2 H13). by apply plain_real. }
  intros [name|e] s4 [H4 R4]; [|by split; [eapply same_trans|]].
  destruct (R4 name eq_refl) as (c & u & m & Hn & Ht). rewrite (proj2 H13), at_path_snoc in Hn.
  pose proof (same_trans _ _ _ H13 H4) as H14.
  apply iwp_bind. eapply iwp_mono.
  { apply read_bit_spec. rewrite (proj2 H14). by apply plain_real. }
  intros [orig|e] s5 [H5 R5]; [|by split; [eapply same_trans|]].
  specialize (R5 orig eq_refl). rewrite (proj2 H14) in R5.
  unfold iwp. simpl. split; [by eapply same_trans|]. intros o [= <-].
  by exists st, name, orig, c, u, m.
Qed.

Lemma inventory_item_gives cpu root item o s :
  no_faults s -> plain (io_nodes s) root -> item_ok (io_nodes s) cpu root item o ->
  gives (inventory_item cpu root item) s (Ok o).
Proof.
  intros Hnf Hp. unfold inventory_item, item_ok.
  destruct (str_strip_prefix "state" item) as [index|] eqn:Ei; [|intros ->; apply gives_ret].
  intros (st & name & orig & c & u & m & Hst & R1 & R2 & R3 & Hn & Ht & Hb & ->).
  rewrite Hst. pose proof (state_item_not_dots _ _ Ei) as Hdots.
  pose proof (plain_real _ _ _ Hp Hdots R1) as Hp1.
  assert (Hp2 : plain (io_nodes s) ((root ++ [item]) ++ ["name"])) by (by apply plain_real).
  assert (Hp3 : plain (io_nodes s) ((root ++ [item]) ++ ["disable"])) by (by apply plain_real).
  eapply gives_bind; [done|by apply reject_symlink_gives|]. intros s1 N1 [_ E1].
  eapply gives_bind; [done|apply reject_symlink_gives; [done|by rewrite E1..]|]. intros s2 N2 [_ E2].
  rewrite E1 in E2.
  eapply gives_bind; [done|apply reject_symlink_gives; [done|by rewrite E2..]|]. intros s3 N3 [_ E3].
  rewrite E2 in E3.
  eapply gives_bind; [done|eapply read_trimmed_gives; [done|by rewrite E3|by rewrite E3, at_path_snoc]|].
  intros s4 N4 [_ E4]. rewrite E3 in E4.
  eapply gives_bind; [done|eapply read_bit_gives; [done|by rewrite E4..]|].
  intros s5 N5 _. rewrite Ht. apply gives_ret.
Qed.

Definition named (n : string) (e : IdleEntry) : bool := bool_decide (ie_name e = n).
Definition count_named (n : string) (es : list IdleEntry) : nat := length (List.filter (named n) es).

Lemma count_named_snoc n es e :
  count_named n (es ++ [e]) = if named n e then S (count_named n es) else count_named n es.
Proof.
  unfold count_named. rewrite List.filter_app, length_app. simpl. destruct (named n e); simpl; lia.
Qed.

Lemma inventory_items_spec cpu root items acc s :
  plain (io_nodes s) root ->
  iwp (inventory_items cpu root items (count_named "POLL" acc) (count_named "C1" acc) acc) s
    (fun r s' => same s s' /\ forall p c es, r = Ok (p, c, es) ->
       exists os, Forall2 (item_ok (io_nodes s) cpu root) items os /\ es = acc ++ omap id os /\
         p = count_named "POLL" es /\ c = count_named "C1" es).
Proof.
  revert acc s. induction items as [|item items IH]; intros acc s Hp; cbn [inventory_items].
  - unfold iwp. simpl. split; [apply same_refl|]. intros p c es [= <- <- <-]. exists [].
    rewrite app_nil_r. by repeat split.
  - apply iwp_bind. eapply iwp_mono; [by apply inventory_item_spec|].
    intros [o|e] s1 [H1 R1]; [|done]. specialize (R1 o eq_refl).
    destruct o as [e|].
    + assert (Hc : forall n, (if bool_decide (ie_name e = n) then S (count_named n acc) else count_named n acc)
        = count_named n (acc ++ [e])) by (intros n; by rewrite count_named_snoc).
      rewrite !Hc. eapply iwp_mono; [apply IH; by rewrite (proj2 H1)|].
      intros r s2 [H2 R2]. split; [by eapply same_trans|]. intros p c es Hr.
      destruct (R2 p c es Hr) as (os & Hos & -> & -> & ->). rewrite (proj2 H1) in Hos.
      exists (Some e :: os). split; [by constructor|]. simpl. by rewrite <- app_assoc.
    + eapply iwp_mono; [apply IH; by rewrite (proj2 H1)|].
      intros r s2 [H2 R2]. split; [by eapply same_trans|]. intros p c es Hr.
      destruct (R2 p c es Hr) as (os & Hos & -> & -> & ->). rewrite (proj2 H1) in Hos.
      exists (None :: os). split; [by constructor|done].
Qed.

Lemma inventory_items_gives cpu root items os acc s :
  no_faults s -> plain (io_nodes s) root -> Forall2 (item_ok (io_nodes s) cpu root) items os ->
  let es := acc ++ omap id os in
  gives (inventory_items cpu root items (count_named "POLL" acc) (count_named "C1" acc) acc) s
    (Ok (count_named "POLL" es, count_named "C1" es, es)).
Proof.
  intros Hnf Hp Hos. revert os acc s Hnf Hp Hos. induction items as [|item items IH];
    intros os acc s Hnf Hp Hos; cbn [inventory_items].
  - inv Hos. simpl. rewrite app_nil_r. apply gives_ret.
  - inv Hos as [|? o ? os' Ho Hos'].
    eapply gives_bind; [done|by apply inventory_item_gives|]. intros s1 N1 [_ E1].
    destruct o as [e|].
    + change (omap id (Some e :: os')) with (e :: omap id os').
      assert (Hc : forall n, (if bool_decide (ie_name e = n) then S (count_named n acc) else count_named n acc)
        = count_named n (acc ++ [e])) by (intros n; by rewrite count_named_snoc).
      rewrite !Hc. replace (acc ++ e :: omap id os') with ((acc ++ [e]) ++ omap id os')
        by (by rewrite <- app_assoc).
      apply (IH os' (acc ++ [e]) s1); [done|by rewrite E1..].
    + apply (IH os' acc s1); [done|by rewrite E1..].
Qed.

Definition cpu_ok (ns : nodes) (order : list string -> list string) (root : path) (cpu : N)
    (es : list IdleEntry) : Prop :=
  real_node ns (cpu_dir root cpu) /\ real_node ns (cpuidle_dir root cpu) /\
  (exists u m, ns !! cpuidle_dir root cpu = Some (Dir u m)) /\
  exists os, Forall2 (item_ok ns cpu (cpuidle_dir root cpu))
               (order (children ns (cpuidle_dir root cpu))) os /\
    omap id os <> [] /\ count_named "POLL" (omap id os) = 1%nat /\
    count_named "C1" (omap id os) = 1%nat /\ es = sort_by_state (omap id os).

Definition inv_ok (ns : nodes) (order : list string -> list string) (root : path)
    (cpus : list N) (es : list IdleEntry) : Prop :=
  exists ess, Forall2 (cpu_ok ns order root) cpus ess /\ es = concat ess.

Lemma cpu_dir_plain ns root cpu :
  plain ns root -> real_node ns (cpu_dir root cpu) -> plain ns (cpu_dir root cpu).
Proof. intros Hp Hr. by apply plain_real. Qed.

Lemma cpuidle_dir_plain ns root cpu :
  plain ns root -> real_node ns (cpu_dir root cpu) -> real_node ns (cpuidle_dir root cpu) ->
  plain ns (cpuidle_dir root cpu).
Proof. intros Hp Hc Hr. apply plain_real; [by apply cpu_dir_plain|done|done]. Qed.

Lemma inventory_cpu_spec root cpu s :
  plain (io_nodes s) root ->
  iwp (inventory_cpu root cpu) s (fun r s' => same s s' /\
    forall es, r = Ok es -> cpu_ok (io_nodes s) (io_order s) root cpu es).
Proof.
  intros Hp. unfold inventory_cpu.
  apply iwp_bind. eapply iwp_mono; [by apply reject_symlink_spec|]. intros [[]|e] s1 [H1 R1]; [|done].
  specialize (R1 eq_refl). pose proof (cpu_dir_plain _ _ _ Hp R1) as Hp1.
  apply iwp_bind. eapply iwp_mono; [apply reject_symlink_spec; by rewrite (proj2 H1)|].
  intros [[]|e] s2 [H2 R2]; [|by split; [eapply same_trans|]].
  specialize (R2 eq_refl). rewrite (proj2 H1) in R2. pose proof (same_trans _ _ _ H1 H2) as H12.
  pose proof (cpuidle_dir_plain _ _ _ Hp R1 R2) as Hp2.
  assert (Hrd : iwp (io_op "reading cpuidle inventory" (sys_read_dir (cpuidle_dir root cpu))) s2
    (fun r s' => same s2 s' /\ forall items, r = Ok items ->
       items = io_order s (children (io_nodes s) (cpuidle_dir root cpu)) /\
       exists u m, io_nodes s !! cpuidle_dir root cpu = Some (Dir u m))).
  { apply iwp_sys.
    - intros e _. split; [apply same_step|done].
    - intros items s' Hi. cbn [io_nodes io_step io_order] in Hi.
      rewrite (proj2 H12), resolve_plain in Hi by done.
      unfold cpuidle_dir at 1 in Hi. rewrite at_path_snoc in Hi. fold (cpuidle_dir root cpu) in Hi.
      rewrite (kept_order _ _ (proj1 H12)) in Hi.
      destruct (io_nodes s !! cpuidle_dir root cpu) as [[]|] eqn:E; simplify_eq.
      split; [apply same_step|]. intros items' [= <-]. eauto.
    - intros e s' He. injection He as _ <-. split; [apply same_step|done]. }
  apply iwp_bind. eapply iwp_mono; [exact Hrd|].
  intros [items|e] s3 [H3 R3]; [|by split; [eapply same_trans|]].
  destruct (R3 items eq_refl) as [-> Hdir]. pose proof (same_trans _ _ _ H12 H3) as H13.
  apply iwp_bind. eapply iwp_mono.
  { apply (inventory_items_spec _ _ _ []). by rewrite (proj2 H13). }
  intros [[[p c] es]|e] s4 [H4 R4]; [|by split; [eapply same_trans|]].
  destruct (R4 p c es eq_refl) as (os & Hos & -> & -> & ->). rewrite (proj2 H13) in Hos.
  rewrite app_nil_l. pose proof (same_trans _ _ _ H13 H4) as H14.
  case_bool_decide as He; [by split|]. cbn [orb].
  destruct (Nat.eqb_spec (count_named "POLL" (omap id os)) 1) as [HP|]; [|by split].
  destruct (Nat.eqb_spec (count_named "C1" (omap id os)) 1) as [HC|]; [|by split].
  unfold iwp. simpl. split; [done|]. intros es [= <-].
  split; [done|]. split; [done|]. split; [done|]. by exists os.
Qed.

Lemma inventory_cpu_gives root cpu es s :
  no_faults s -> plain (io_nodes s) root -> cpu_ok (io_nodes s) (io_order s) root cpu es ->
  gives (inventory_cpu root cpu) s (Ok es).
Proof.
  intros Hnf Hp (R1 & R2 & (u & m & Hdir) & os & Hos & Hne & HP & HC & ->). unfold inventory_cpu.
  pose proof (cpu_dir_plain _ _ _ Hp R1) as Hp1.
  pose proof (cpuidle_dir_plain _ _ _ Hp R1 R2) as Hp2.
  eapply gives_bind; [done|by apply reject_symlink_gives|]. intros s1 N1 [K1 E1].
  eapply gives_bind; [done|apply reject_symlink_gives; [done|by rewrite E1..]|]. intros s2 N2 [K2 E2].
  rewrite E1 in E2.
  eapply (gives_bind _ _ _ (io_order s (children (io_nodes s) (cpuidle_dir root cpu)))); [done| |].
  { apply gives_sys; [done|]. cbn [io_nodes io_step io_order]. rewrite E2, resolve_plain by done.
    unfold cpuidle_dir at 1. rewrite at_path_snoc. fold (cpuidle_dir root cpu). rewrite Hdir.
    by rewrite (kept_order _ _ K2), (kept_order _ _ K1). }
  intros s3 N3 [K3 E3]. rewrite E2 in E3.
  eapply gives_bind; [done|apply (inventory_items_gives _ _ _ os []); [done|by rewrite E3..]|].
  intros s4 N4 _. rewrite app_nil_l, bool_decide_false by done. rewrite HP, HC. apply gives_ret.
Qed.

Lemma ro_inventory_items cpu root items p c acc : ro (inventory_items cpu root items p c acc).
Proof.
  revert p c acc. induction items as [|item items IH]; intros p c acc; cbn [inventory_items];
    [apply ro_ret|]. apply ro_bind; [unfold inventory_item; ro_tac|]. intros [e|]; apply IH.
Qed.

Lemma ro_inventory root cpus : ro (inventory root cpus).
Proof.
  induction cpus as [|cpu cpus IH]; cbn [inventory]; [apply ro_ret|].
  apply ro_bind; [|ro_tac]. unfold inventory_cpu. pose proof ro_inventory_items. ro_tac.
Qed.

Lemma ro_validate root es : ro (validate_inventory root es).
Proof. unfold validate_inventory. pose proof (ro_inventory root). ro_tac. Qed.

#[export] Hint Resolve ro_inventory ro_validate : snz.

Lemma inventory_spec root cpus s :
  plain (io_nodes s) root ->
  iwp (inventory root cpus) s (fun r s' => same s s' /\
    forall es, r = Ok es -> inv_ok (io_nodes s) (io_order s) root cpus es).
Proof.
  revert s. induction cpus as [|cpu cpus IH]; intros s Hp; cbn [inventory].
  - unfold iwp. simpl. split; [apply same_refl|]. intros es [= <-]. exists []. by split; [constructor|].
  - apply iwp_bind. eapply iwp_mono; [by apply inventory_cpu_spec|].
    intros [es1|e] s1 [H1 R1]; [|done]. specialize (R1 es1 eq_refl).
    apply iwp_bind. eapply iwp_mono; [apply IH; by rewrite (proj2 H1)|].
    intros [es2|e] s2 [H2 R2]; [|by split; [eapply same_trans|]].
    destruct (R2 es2 eq_refl) as (ess & Hess & ->).
    rewrite (proj2 H1), (kept_order _ _ (proj1 H1)) in Hess.
    unfold iwp. simpl. split; [by eapply same_trans|]. intros es [= <-].
    exists (es1 :: ess). by split; [constructor|].
Qed.

Lemma inventory_gives root cpus es s :
  no_faults s -> plain (io_nodes s) root -> inv_ok (io_nodes s) (io_order s) root cpus es ->
  gives (inventory root cpus) s (Ok es).
Proof.
  intros Hnf Hp (ess & Hess & ->). revert s Hnf Hp Hess.
  revert ess. induction cpus as [|cpu cpus IH]; intros ess s Hnf Hp Hess; cbn [inventory].
  - inv Hess. apply gives_ret.
  - inv Hess as [|? es1 ? ess' H1 H2].
    eapply gives_bind; [done|by apply inventory_cpu_gives|]. intros s1 N1 [K1 E1].
    eapply gives_bind; [done|apply (IH ess'); [done|by rewrite E1|]|].
    + by rewrite E1, (kept_order _ _ K1).
    + intros s2 _ _. simpl. apply gives_ret.
Qed.

(** ** The inventory does not depend on the values *)

(** [ns2] differs from [ns1] below [root] at most in the bits held by disable files. *)
Definition shape (root : path) (ns1 ns2 : nodes) : Prop :=
  forall q, root `prefix_of` q ->
    ns2 !! q = ns1 !! q \/
    (last q = Some "disable"%string /\ exists c1 c2 u m,
       ns1 !! q = Some (File c1 u m) /\ ns2 !! q = Some (File c2 u m) /\ is_bit (trim c2)).

Lemma shape_refl root ns : shape root ns ns.
Proof. intros q _. by left. Qed.

Lemma shape_some root ns1 ns2 q : shape root ns1 ns2 -> root `prefix_of` q ->
  is_Some (ns1 !! q) <-> is_Some (ns2 !! q).
Proof.
  intros Hs Hq. destruct (Hs q Hq) as [->|(_ & c1 & c2 & u & m & -> & -> & _)]; [done|].
  split; eauto.
Qed.

Lemma shape_real root ns1 ns2 q : shape root ns1 ns2 -> root `prefix_of` q ->
  real_node ns1 q -> real_node ns2 q.
Proof.
  intros Hs Hq (n & Hn & Hl). destruct (Hs q Hq) as [Heq|(_ & c1 & c2 & u & m & H1 & H2 & _)].
  - exists n. by rewrite Heq.
  - exists (File c2 u m). done.
Qed.

Lemma shape_other root ns1 ns2 q c : shape root ns1 ns2 -> root `prefix_of` q ->
  c <> "disable"%string -> ns2 !! (q ++ [c]) = ns1 !! (q ++ [c]).
Proof.
  intros Hs Hq Hc. destruct (Hs (q ++ [c])) as [?|[Hl _]]; [by apply prefix_app_r|done|].
  rewrite last_snoc in Hl. by simplify_eq.
Qed.

(** Entries that agree on everything but the value found. *)
Definition entry_like (e1 e2 : IdleEntry) : Prop :=
  ie_cpu e1 = ie_cpu e2 /\ ie_state e1 = ie_state e2 /\ ie_name e1 = ie_name e2 /\
  ie_disable_path e1 = ie_disable_path e2 /\ ie_desired e1 = ie_desired e2.

Lemma item_ok_shape root ns1 ns2 cpu dir item o1 :
  shape root ns1 ns2 -> root `prefix_of` dir -> item_ok ns1 cpu dir item o1 ->
  exists o2, item_ok ns2 cpu dir item o2 /\ option_Forall2 entry_like o1 o2.
Proof.
  intros Hs Hdir. unfold item_ok. destruct (str_strip_prefix "state" item) as [index|] eqn:Ei.
  2: { intros ->. exists None. by split; [|constructor]. }
  intros (st & name & orig & c & u & m & Hst & R1 & R2 & R3 & Hn & Ht & (cb & ub & mb & Hf & Hb & Hbit) & ->).
  assert (Hp1 : root `prefix_of` dir ++ [item]) by (by apply prefix_app_r).
  rewrite at_path_snoc in Hf.
  assert (exists orig2, bit_at ns2 ((dir ++ [item]) ++ ["disable"]) orig2) as [orig2 Ho2].
  { destruct (Hs ((dir ++ [item]) ++ ["disable"])) as [Heq|(_ & c1 & c2 & u2 & m2 & H1 & H2 & H3)];
      [by apply prefix_app_r|exists orig, cb, ub, mb|exists (trim c2), c2, u2, m2];
      rewrite at_path_snoc; [by rewrite Heq|done]. }
  eexists. split.
  - exists st, name, orig2, c, u, m. split; [done|].
    split; [by eapply shape_real|]. split; [eapply shape_real; [done|by apply prefix_app_r|done]|].
    split; [eapply shape_real; [done|by apply prefix_app_r|done]|].
    split; [by erewrite shape_other|]. split; [done|]. split; [done|]. reflexivity.
  - by repeat constructor.
Qed.

Lemma Forall2_omap_like os1 os2 :
  Forall2 (option_Forall2 entry_like) os1 os2 -> Forall2 entry_like (omap id os1) (omap id os2).
Proof.
  induction 1 as [|o1 o2 os1 os2 Ho Hos IH]; [constructor|].
  destruct Ho; simpl; [by constructor|done].
Qed.

Lemma count_named_like n es1 es2 :
  Forall2 entry_like es1 es2 -> count_named n es1 = count_named n es2.
Proof.
  unfold count_named. induction 1 as [|e1 e2 es1 es2 He Hes IH]; [done|]. simpl.
  assert (named n e1 = named n e2) as -> by (unfold named; by destruct He as (_ & _ & -> & _)).
  destruct (named n e2); simpl; congruence.
Qed.

Lemma insert_like e1 e2 l1 l2 :
  entry_like e1 e2 -> Forall2 entry_like l1 l2 ->
  Forall2 entry_like (insert_entry e1 l1) (insert_entry e2 l2).
Proof.
  intros He. induction 1 as [|x1 x2 l1 l2 Hx Hl IH]; simpl; [by constructor; [|constructor]|].
  assert (ie_state e1 = ie_state e2) as -> by apply He.
  assert (ie_state x1 = ie_state x2) as -> by apply Hx.
  destruct (_ <=? _); constructor; try done. by constructor.
Qed.

Lemma sort_like l1 l2 :
  Forall2 entry_like l1 l2 -> Forall2 entry_like (sort_by_state l1) (sort_by_state l2).
Proof.
  unfold sort_by_state. intros Hl.
  assert (Hacc : forall a1 a2, Forall2 entry_like a1 a2 ->
    Forall2 entry_like (foldl (fun acc e => insert_entry e acc) a1 l1)
                       (foldl (fun acc e => insert_entry e acc) a2 l2)); [|by apply Hacc].
  induction Hl as [|x1 x2 l1 l2 Hx Hl IH]; intros a1 a2 Ha; simpl; [done|].
  apply IH. by apply insert_like.
Qed.

Lemma cpu_ok_shape root ns1 ns2 order cpu es1 :
  shape root ns1 ns2 -> cpu_ok ns1 order root cpu es1 ->
  exists es2, cpu_ok ns2 order root cpu es2 /\ Forall2 entry_like es1 es2.
Proof.
  intros Hs (R1 & R2 & (u & m & Hd) & os & Hos & Hne & HP & HC & ->).
  assert (Hpre : root `prefix_of` cpu_dir root cpu) by (by apply prefix_app_r).
  assert (Hpre2 : root `prefix_of` cpuidle_dir root cpu) by (by apply prefix_app_r).
  assert (Hch : children ns2 (cpuidle_dir root cpu) = children ns1 (cpuidle_dir root cpu)).
  { apply children_eq. intros c. symmetry. eapply shape_some; [done|]. by apply prefix_app_r. }
  assert (Hos2 : exists os2, Forall2 (item_ok ns2 cpu (cpuidle_dir root cpu))
    (order (children ns2 (cpuidle_dir root cpu))) os2 /\ Forall2 (option_Forall2 entry_like) os os2).
  { rewrite Hch. clear -Hos Hs Hpre2. induction Hos as [|item o items os Ho Hos IH].
    - exists []. by split; constructor.
    - destruct IH as (os2 & H1 & H2). destruct (item_ok_shape _ _ _ _ _ _ _ Hs Hpre2 Ho) as (o2 & Ho2 & Hl).
      exists (o2 :: os2). by split; constructor. }
  destruct Hos2 as (os2 & Hos2 & Hlike). pose proof (Forall2_omap_like _ _ Hlike) as Hl.
  exists (sort_by_state (omap id os2)). split; [|by apply sort_like].
  split; [by eapply shape_real|]. split; [by eapply shape_real|]. split.
  { exists u, m. unfold cpuidle_dir in *. by erewrite shape_other. }
  exists os2. split; [done|]. split.
  { intros He. rewrite He in Hl. by inv Hl. }
  by rewrite <- !(count_named_like _ _ _ Hl).
Qed.

Lemma inv_ok_shape root ns1 ns2 order cpus es1 :
  shape root ns1 ns2 -> inv_ok ns1 order root cpus es1 ->
  exists es2, inv_ok ns2 order root cpus es2 /\ Forall2 entry_like es1 es2.
Proof.
  intros Hs (ess & Hess & ->). induction Hess as [|cpu es cpus ess He Hess IH].
  - exists []. split; [exists []; by split; [constructor|]|constructor].
  - destruct IH as (es2 & (ess2 & Hess2 & ->) & Hl).
    destruct (cpu_ok_shape _ _ _ _ _ _ Hs He) as (es1' & Hok & Hl1).
    exists (es1' ++ concat ess2). split; [|simpl; by apply Forall2_app].
    exists (es1' :: ess2). by split; [constructor|].
Qed.

(** ** Validation of a recorded inventory *)

Lemma insert_entry_perm e l : insert_entry e l ≡ₚ e :: l.
Proof.
  induction l as [|x l IH]; simpl; [done|]. case_match; [|done]. rewrite IH. apply Permutation_swap.
Qed.

Lemma sort_by_state_perm l : sort_by_state l ≡ₚ l.
Proof.
  unfold sort_by_state. assert (Hacc : forall acc, foldl (fun acc e => insert_entry e acc) acc l ≡ₚ acc ++ l);
    [|by rewrite Hacc].
  induction l as [|x l IH]; intros acc; simpl; [by rewrite app_nil_r|].
  rewrite IH, insert_entry_perm. simpl. by rewrite <- Permutation_middle.
Qed.

Lemma item_ok_cpu ns cpu root items os :
  Forall2 (item_ok ns cpu root) items os -> Forall (fun e => ie_cpu e = cpu) (omap id os).
Proof.
  induction 1 as [|item o items os Ho Hos IH]; [constructor|]. unfold item_ok in Ho.
  case_match; [|by subst o]. destruct Ho as (st & nm & o1 & c & u & m & _ & _ & _ & _ & _ & _ & _ & ->).
  simpl. by constructor.
Qed.

Lemma cpu_ok_cpu ns order root cpu es :
  cpu_ok ns order root cpu es -> es <> [] /\ Forall (fun e => ie_cpu e = cpu) es.
Proof.
  intros (_ & _ & _ & os & Hos & Hne & _ & _ & ->). split.
  - intros He. apply Hne. apply Permutation_nil_r. by rewrite <- He, sort_by_state_perm.
  - rewrite sort_by_state_perm. by eapply item_ok_cpu.
Qed.

Lemma dedup_block cpu block rest :
  block <> [] -> Forall (fun c => c = cpu) block -> head rest <> Some cpu ->
  dedup (block ++ rest) = cpu :: dedup rest.
Proof.
  intros Hne Hb Hr. induction Hb as [|c block -> Hb IH]; [done|].
  destruct block as [|c2 block].
  - simpl. destruct rest as [|y rest]; [done|]. rewrite bool_decide_false; [done|].
    intros ->. by apply Hr.
  - apply Forall_cons in Hb as Hb2. destruct Hb2 as [-> _].
    rewrite <- IH by done. cbn [app]. cbn [dedup]. by rewrite bool_decide_true.
Qed.

Lemma fmap_cpu_block cpu es : Forall (fun e => ie_cpu e = cpu) es -> Forall (fun c => c = cpu) (ie_cpu <$> es).
Proof. intros H. by apply Forall_fmap. Qed.

Lemma dedup_blocks cpus ess :
  StronglySorted N.lt cpus ->
  Forall2 (fun cpu es => es <> [] /\ Forall (fun e => ie_cpu e = cpu) es) cpus ess ->
  dedup (ie_cpu <$> concat ess) = cpus /\ StronglySorted N.le (ie_cpu <$> concat ess) /\
  Forall (fun c => c ∈ cpus) (ie_cpu <$> concat ess).
Proof.
  intros Hs Hess. induction Hess as [|cpu es cpus ess [Hne Hes] Hess IH]; [by repeat constructor|].
  apply StronglySorted_inv in Hs as [Hs Hlt]. destruct (IH Hs) as (IH1 & IH2 & IH3).
  cbn [concat]. rewrite fmap_app. pose proof (fmap_cpu_block _ _ Hes) as Hblock.
  rewrite Forall_forall in Hlt. split; [|split].
  - rewrite (dedup_block cpu); [by rewrite IH1|by destruct es|done|].
    destruct (ie_cpu <$> concat ess) as [|y l]; [done|]. intros [= ->].
    apply Forall_cons in IH3 as [Hin _]. specialize (Hlt _ Hin). lia.
  - induction Hblock as [|c block -> Hb IHb]; [done|]. simpl. constructor; [done|].
    apply Forall_app. split.
    + eapply Forall_impl; [done|]. intros x ->. done.
    + eapply Forall_impl; [done|]. intros x Hx. specialize (Hlt _ Hx). lia.
  - apply Forall_app. split.
    + eapply Forall_impl; [done|]. intros x ->. apply list_elem_of_here.
    + eapply Forall_impl; [done|]. intros x Hx. by apply list_elem_of_further.
Qed.

(** The CPUs of a recorded inventory are the requested ones. *)
Lemma recorded_cpus ns order root cpus es :
  StronglySorted N.lt cpus -> inv_ok ns order root cpus es ->
  dedup (merge_sort N.le (ie_cpu <$> es)) = cpus.
Proof.
  intros Hs (ess & Hess & ->).
  destruct (dedup_blocks cpus ess Hs) as (Hd & Hsorted & _).
  { eapply Forall2_impl; [done|]. intros cpu es. apply cpu_ok_cpu. }
  assert (merge_sort N.le (ie_cpu <$> concat ess) = ie_cpu <$> concat ess) as ->; [|done].
  apply (StronglySorted_unique N.le); [by apply (StronglySorted_merge_sort N.le)|done|].
  apply merge_sort_Permutation.
Qed.

Lemma entry_like_matches es1 es2 :
  Forall2 entry_like es1 es2 -> existsb (fun p => negb (entry_matches p.1 p.2)) (zip es1 es2) = false.
Proof.
  induction 1 as [|e1 e2 es1 es2 He Hes IH]; [done|]. simpl. rewrite IH.
  unfold entry_matches. destruct He as (-> & -> & -> & -> & _). by rewrite !bool_decide_true.
Qed.

Lemma validate_gives root ns0 order cpus es s :
  no_faults s -> plain (io_nodes s) root -> io_order s = order ->
  StronglySorted N.lt cpus -> inv_ok ns0 order root cpus es -> shape root ns0 (io_nodes s) ->
  gives (validate_inventory root es) s (Ok tt).
Proof.
  intros Hnf Hp <- Hs Hinv Hsh. unfold validate_inventory.
  rewrite (recorded_cpus _ _ _ _ _ Hs Hinv).
  destruct (inv_ok_shape _ _ _ _ _ _ Hsh Hinv) as (es2 & Hinv2 & Hl).
  eapply gives_bind; [done|by apply inventory_gives|]. intros s1 _ _.
  rewrite (Forall2_length _ _ _ Hl), Nat.eqb_refl. simpl.
  assert (Hl' : Forall2 entry_like es2 es).
  { apply Forall2_flip. eapply Forall2_impl; [done|]. intros x y (?&?&?&?&?). by repeat split. }
  rewrite entry_like_matches by done. apply gives_ret.
Qed.

(** ** Changes that only rewrite files *)

Definition benign (ns ns' : nodes) : Prop :=
  forall q, ns' !! q = ns !! q \/
    ((forall u m, ns !! q <> Some (Dir u m)) /\ exists c u m, ns' !! q = Some (File c u m)).

Lemma benign_refl ns : benign ns ns.
Proof. intros q. by left. Qed.

Lemma benign_trans ns1 ns2 ns3 : benign ns1 ns2 -> benign ns2 ns3 -> benign ns1 ns3.
Proof.
  intros H1 H2 q. destruct (H2 q) as [E2|[N2 F2]], (H1 q) as [E1|[N1 F1]].
  - left. congruence.
  - right. split; [done|]. by rewrite E2.
  - right. split; [|done]. intros u m. rewrite <- E1. apply N2.
  - by right.
Qed.

Lemma benign_insert ns q c u m :
  (forall u m, ns !! q <> Some (Dir u m)) -> benign ns (<[q := File c u m]> ns).
Proof.
  intros Hq p. destruct (decide (q = p)) as [->|Hne].
  - right. split; [done|]. rewrite lookup_insert_eq. eauto.
  - left. by rewrite lookup_insert_ne.
Qed.

Lemma plain_benign ns ns' p : benign ns ns' -> plain ns p -> plain ns' p.
Proof.
  intros Hb Hp q c r Heq. destruct (Hp q c r Heq) as [Hc Hn]. split; [done|]. intros t Ht.
  destruct (Hb (q ++ [c])) as [E|[_ (c' & u & m & E)]]; [|congruence].
  apply (Hn t). congruence.
Qed.

(** The journal's directory exists and its name is a file name. *)
Definition journal_home (ns : nodes) (d : path) (n : string) : Prop :=
  dir_path ns d /\ n <> ".."%string /\ forall u m, ns !! (d ++ [n]) <> Some (Dir u m).

Lemma journal_home_benign ns ns' d n : benign ns ns' -> journal_home ns d n -> journal_home ns' d n.
Proof.
  intros Hb (Hd & Hn & Hnd). split; [|split; [done|]].
  - intros q c r Heq. destruct (Hd q c r Heq) as (Hc & u & m & Hq). split; [done|]. exists u, m.
    destruct (Hb (q ++ [c])) as [->|[N _]]; [done|]. by destruct (N u m).
  - intros u m. destruct (Hb (d ++ [n])) as [->|[_ (c & u' & m' & ->)]]; [apply Hnd|done].
Qed.

(** ** Entries and what their files hold *)

Definition entry_wf (ns : nodes) (e : IdleEntry) : Prop :=
  plain ns (ie_disable_path e) /\ ie_disable_path e <> [] /\
  is_bit (ie_original e) /\ is_bit (ie_desired e) /\
  exists c u m, ns !! ie_disable_path e = Some (File c u m).

Definition holds (ns : nodes) (e : IdleEntry) (v : string) : Prop :=
  exists c u m, ns !! ie_disable_path e = Some (File c u m) /\ trim c = v.

Definition paths_of (es : list IdleEntry) : list path := ie_disable_path <$> es.

Lemma entry_wf_benign ns ns' e : benign ns ns' -> entry_wf ns e -> entry_wf ns' e.
Proof.
  intros Hb (Hp & Hne & Ho & Hd & c & u & m & Hf).
  split; [by eapply plain_benign|]. split; [done|]. split; [done|]. split; [done|].
  destruct (Hb (ie_disable_path e)) as [->|[_ ?]]; [eauto|done].
Qed.

Lemma entries_wf_benign ns ns' es : benign ns ns' -> Forall (entry_wf ns) es -> Forall (entry_wf ns') es.
Proof. intros Hb Hes. eapply Forall_impl; [done|]. intros e. by apply entry_wf_benign. Qed.

Lemma at_path_ne ns p : p <> [] -> at_path ns p = ns !! p.
Proof. intros Hp. unfold at_path. by rewrite bool_decide_false. Qed.

Lemma bit_at_holds ns e v :
  entry_wf ns e -> bit_at ns (ie_disable_path e) v -> holds ns e v /\ is_bit v.
Proof.
  intros (_ & Hne & _) (c & u & m & Hf & Ht & Hb). rewrite at_path_ne in Hf by done.
  split; [by exists c, u, m|done].
Qed.

Lemma holds_bit_at ns e v : entry_wf ns e -> holds ns e v -> is_bit v -> bit_at ns (ie_disable_path e) v.
Proof.
  intros (_ & Hne & _) (c & u & m & Hf & Ht) Hb. exists c, u, m. by rewrite at_path_ne.
Qed.

(** Reading an entry's value. *)
Lemma read_entry e s :
  entry_wf (io_nodes s) e ->
  iwp (read_bit (ie_disable_path e)) s (fun r s' => same s s' /\
    (forall v, r = Ok v -> holds (io_nodes s) e v /\ is_bit v) /\
    (no_faults s -> forall v, holds (io_nodes s) e v -> is_bit v -> r = Ok v)).
Proof.
  intros Hwf. eapply iwp_mono; [apply iwp_and; [apply read_bit_spec, Hwf|apply iwp_self]|].
  intros r s' [[Hs Hr] Heq]. split; [done|]. split.
  - intros v ->. apply bit_at_holds; [done|]. by apply Hr.
  - intros Hnf v Hv Hb. destruct (read_bit_gives (ie_disable_path e) s v) as (s2 & H2 & _);
      [done|apply Hwf|by apply holds_bit_at|]. congruence.
Qed.

(** [ns'] is [ns] with some of the entries' files moved from one value to another; [J] is
    exempt. *)
Definition moved (J : path -> Prop) (from to : IdleEntry -> string) (es : list IdleEntry) (ns ns' : nodes) : Prop :=
  forall q, ~ J q -> ns' !! q = ns !! q \/
    exists e c u m, e ∈ es /\ q = ie_disable_path e /\ ns !! q = Some (File c u m) /\
      trim c = from e /\ ns' !! q = Some (File (bit_line (to e)) u m).

Lemma moved_refl J f t es ns : moved J f t es ns ns.
Proof. intros q _. by left. Qed.

Lemma moved_same J f t es ns ns' : (forall q, ~ J q -> ns' !! q = ns !! q) -> moved J f t es ns ns'.
Proof. intros H q Hq. left. auto. Qed.

(** First one entry's file, then others'. *)
Lemma moved_cons J (f t : IdleEntry -> string) e es ns ns1 ns2 :
  ie_disable_path e ∉ paths_of es ->
  moved J f t [e] ns ns1 -> moved J f t es ns1 ns2 -> moved J f t (e :: es) ns ns2.
Proof.
  intros Hnot H1 H2 q Hq.
  destruct (H2 q Hq) as [E2|(e' & c & u & m & Hin & -> & Hf & Ht & Hn)].
  - destruct (H1 q Hq) as [E1|(e' & c & u & m & Hin & -> & Hf & Ht & Hn)]; [left; congruence|right].
    exists e', c, u, m. apply list_elem_of_singleton in Hin as ->. split; [apply list_elem_of_here|].
    by rewrite E2.
  - right. exists e', c, u, m. split; [by apply list_elem_of_further|]. split; [done|].
    destruct (H1 _ Hq) as [E1|(e2 & c2 & u2 & m2 & Hin2 & Heq & _)]; [by rewrite <- E1|].
    apply list_elem_of_singleton in Hin2 as ->. destruct Hnot. rewrite <- Heq.
    by apply list_elem_of_fmap_2.
Qed.

Lemma moved_weaken J f t e es ns ns' : moved J f t es ns ns' -> moved J f t (e :: es) ns ns'.
Proof.
  intros H q Hq. destruct (H q Hq) as [?|(e' & c & u & m & Hin & ?)]; [by left|right].
  exists e', c, u, m. split; [by apply list_elem_of_further|done].
Qed.

Lemma moved_notin J f t es ns ns' q :
  moved J f t es ns ns' -> ~ J q -> q ∉ paths_of es -> ns' !! q = ns !! q.
Proof.
  intros H HJ Hq. destruct (H q HJ) as [?|(e & c & u & m & Hin & -> & _)]; [done|].
  destruct Hq. by apply list_elem_of_fmap_2.
Qed.

(** Writing one entry's value. *)
Lemma write_entry J e v c u m s :
  entry_wf (io_nodes s) e -> io_nodes s !! ie_disable_path e = Some (File c u m) -> is_bit v ->
  iwp (write_bit (ie_disable_path e) v) s (fun r s' => kept s s' /\ benign (io_nodes s) (io_nodes s') /\
    moved J (fun _ => trim c) (fun _ => v) [e] (io_nodes s) (io_nodes s') /\
    (r = Ok tt -> io_nodes s' = <[ie_disable_path e := File (bit_line v) u m]> (io_nodes s)) /\
    (no_faults s -> r = Ok tt)).
Proof.
  intros (Hp & Hne & _) Hf Hb. eapply iwp_mono; [by eapply write_bit_spec|].
  intros r s' (Hk & Hor & Hok & Hnf). split; [done|].
  assert (Hbn : benign (io_nodes s) (<[ie_disable_path e := File (bit_line v) u m]> (io_nodes s))).
  { apply benign_insert. intros u' m'. by rewrite Hf. }
  split; [destruct Hor as [->| ->]; [apply benign_refl|done]|]. split; [|done].
  destruct Hor as [->| ->]; [apply moved_refl|]. intros q _.
  destruct (decide (ie_disable_path e = q)) as [<-|Hqe]; [right|left; by rewrite lookup_insert_ne].
  exists e, c, u, m. rewrite lookup_insert_eq. split; [apply list_elem_of_here|done].
Qed.

Lemma moved_single J (f t : IdleEntry -> string) e ns ns' :
  moved J (fun _ => f e) (fun _ => t e) [e] ns ns' -> moved J f t [e] ns ns'.
Proof.
  intros H q Hq. destruct (H q Hq) as [?|(e' & c & u & m & Hin & ?)]; [by left|right].
  pose proof Hin as Hin'. apply list_elem_of_singleton in Hin' as ->. by exists e, c, u, m.
Qed.

Lemma holds_eq ns ns' e v :
  ns' !! ie_disable_path e = ns !! ie_disable_path e -> holds ns e v -> holds ns' e v.
Proof. intros Heq (c & u & m & Hf & Ht). exists c, u, m. by rewrite Heq. Qed.

Lemma holds_insert ns e v u m :
  is_bit v -> holds (<[ie_disable_path e := File (bit_line v) u m]> ns) e v.
Proof. intros Hb. exists (bit_line v), u, m. rewrite lookup_insert_eq. by rewrite trim_bit_line. Qed.

Lemma holds_fun ns e v w : holds ns e v -> holds ns e w -> v = w.
Proof. intros (c & u & m & H1 & <-) (c' & u' & m' & H2 & <-). by simplify_eq. Qed.

Definition nowhere (_ : path) : Prop := False.

(** Apply's loop: values go from original to desired, one after the other, and it stops at the
    first failure. *)
Lemma apply_entries_spec es s :
  NoDup (paths_of es) -> Forall (entry_wf (io_nodes s)) es ->
  iwp (apply_entries es) s (fun r s' => kept s s' /\ benign (io_nodes s) (io_nodes s') /\
    moved nowhere ie_original ie_desired es (io_nodes s) (io_nodes s') /\
    (r = Ok tt -> forall e, e ∈ es -> holds (io_nodes s') e (ie_desired e)) /\
    (no_faults s -> (forall e, e ∈ es -> holds (io_nodes s) e (ie_original e)) -> r = Ok tt)).
Proof.
  revert s. induction es as [|e es IH]; intros s Hnd Hwf; cbn [apply_entries].
  { unfold iwp. simpl. split; [apply kept_refl|]. split; [apply benign_refl|].
    split; [apply moved_refl|]. split; [|done]. intros _ e He. by apply elem_of_nil in He. }
  apply NoDup_cons in Hnd as [Hnot Hnd]. apply Forall_cons in Hwf as [He Hes].
  apply iwp_bind. eapply iwp_mono; [by apply read_entry|]. intros r s1 ([Hk1 Hn1] & Hr & Hnf1).
  assert (Hstop : kept s s1 /\ benign (io_nodes s) (io_nodes s1) /\
    moved nowhere ie_original ie_desired (e :: es) (io_nodes s) (io_nodes s1)).
  { rewrite Hn1. split; [done|]. split; [apply benign_refl|apply moved_refl]. }
  destruct r as [current|err].
  2: { destruct Hstop as (? & ? & ?). split_and!; [done..|]. intros Hnf Hall.
       discriminate (Hnf1 Hnf (ie_original e)); [apply Hall, list_elem_of_here|apply He]. }
  destruct (Hr current eq_refl) as [Hcur Hbit].
  case_bool_decide as Hco; simpl.
  2: { destruct Hstop as (? & ? & ?). split_and!; [done..|]. intros Hnf Hall. destruct Hco.
       eapply holds_fun; [done|]. apply Hall, list_elem_of_here. }
  pose proof Hcur as (c & u & m & Hf & Ht). pose proof He as (_ & _ & Ho & Hd & _).
  apply iwp_bind. eapply iwp_mono.
  { apply (write_entry nowhere e (ie_desired e) c u m); [by rewrite Hn1|by rewrite Hn1|done]. }
  rewrite Hn1, Ht, Hco. intros r s2 (Hk2 & Hb2 & Hm2 & Hok2 & Hnf2).
  apply (moved_single _ ie_original ie_desired) in Hm2.
  pose proof (kept_trans _ _ _ Hk1 Hk2) as Hk12.
  destruct r as [[]|err].
  2: { split; [done|]. split; [done|]. split.
       - eapply moved_cons; [done|done|apply moved_refl].
       - split; [done|]. intros Hnf _. discriminate (Hnf2 (no_faults_kept _ _ Hk1 Hnf)). }
  specialize (Hok2 eq_refl).
  eapply iwp_mono; [apply IH; [done|by eapply entries_wf_benign]|].
  intros r s3 (Hk3 & Hb3 & Hm3 & Hok3 & Hnf3). split; [by eapply kept_trans|].
  split; [by eapply benign_trans|]. split; [by eapply moved_cons|]. split.
  - intros -> e' [->|Hin]%elem_of_cons; [|by apply Hok3].
    eapply holds_eq; [eapply moved_notin; [done|by intros []|done]|].
    rewrite Hok2. by apply holds_insert.
  - intros Hnf Hall. apply Hnf3; [by eapply no_faults_kept|]. intros e' Hin.
    eapply holds_eq; [|apply Hall; by apply list_elem_of_further].
    rewrite Hok2, lookup_insert_ne; [done|]. intros Heq. apply Hnot. rewrite Heq.
    by apply list_elem_of_fmap_2.
Qed.

(** ** Restore *)

(** The values an interrupted operation may leave: original or desired. *)
Definition owned (ns : nodes) (e : IdleEntry) : Prop :=
  holds ns e (ie_original e) \/ holds ns e (ie_desired e).

(** The journal after its next transition, at the state's time and by its process. *)
Definition pushed (s : iost) (st : Stage) (j : Journal) : Journal :=
  push_transition (mkTransition st (mkActor (pr_euid (io_proc s)) (pr_egid (io_proc s))) (io_millis s)) j.

Lemma pushed_kept s s' st j : kept s s' -> pushed s' st j = pushed s st j.
Proof. intros []. unfold pushed. congruence. Qed.

Section restore_proofs.
Context `{SerdeLaws} (d : path) (n : string).

Definition is_journal (q : path) : Prop := q = d ++ [n].

(** The journal's file holds [j]. *)
Definition stored (ns : nodes) (j : Journal) : Prop :=
  validate j = Ok tt /\ exists b u m, ns !! (d ++ [n]) = Some (File b u m) /\
    journal_to_vec_pretty j = Some b.

(** A call that changes at most the journal. *)
Definition journal_only (s s' : iost) : Prop :=
  kept s s' /\ benign (io_nodes s) (io_nodes s') /\
  forall q, ~ is_journal q -> io_nodes s' !! q = io_nodes s !! q.

Lemma same_journal_only s s' : same s s' -> journal_only s s'.
Proof. intros [Hk Hn]. split; [done|]. rewrite Hn. split; [apply benign_refl|done]. Qed.

Lemma store_spec j s :
  journal_home (io_nodes s) d n ->
  iwp (store_journal (d ++ [n]) j) s (fun r s' => journal_only s s' /\
    (r = Ok tt -> stored (io_nodes s') j) /\
    (no_faults s -> validate j = Ok tt -> is_Some (journal_to_vec_pretty j) -> r = Ok tt)).
Proof.
  intros (Hd & Hn & Hnd). eapply iwp_mono; [by apply store_journal_spec|].
  intros r s' (Hk & Hor & Hok & Hnf). split; [split; [done|]|split; [|done]].
  - destruct Hor as [->|(b & _ & ->)]; [by split; [apply benign_refl|]|].
    split; [by apply benign_insert|]. intros q Hq. rewrite lookup_insert_ne; [done|].
    intros Heq. by apply Hq.
  - intros Hr. destruct (Hok Hr) as (Hv & b & Hb & ->). split; [done|].
    exists b, (pr_euid (io_proc s)), 384. by rewrite lookup_insert_eq.
Qed.

Lemma iwp_transition {A} st j (k : Journal -> IO A) s Q :
  iwp (k (pushed s st j)) s Q -> iwp (a ← actor; j ← transition st a j; k j) s Q.
Proof. done. Qed.

Lemma conflict_spec {A} j p ex ac s :
  journal_home (io_nodes s) d n ->
  iwp (restore_conflict (A := A) (d ++ [n]) j p ex ac) s (fun r s' =>
    journal_only s s' /\ exists e, r = Err e).
Proof.
  intros Hh. unfold restore_conflict. apply iwp_transition. apply iwp_bind.
  eapply iwp_mono; [by apply store_spec|]. intros [[]|e] s1 [Hj _]; [|eauto].
  unfold iwp. simpl. eauto.
Qed.

Lemma foreign_owned ns e v : foreign e v = false -> holds ns e v -> owned ns e.
Proof.
  unfold foreign. intros Hf Hv.
  destruct (decide (v = ie_original e)) as [->|Ho]; [by left|].
  destruct (decide (v = ie_desired e)) as [->|Hd]; [by right|].
  by rewrite !bool_decide_false in Hf.
Qed.

Lemma owned_foreign ns e v : owned ns e -> holds ns e v -> foreign e v = false.
Proof.
  unfold foreign. intros [Ho|Ho] Hv; rewrite (holds_fun _ _ _ _ Hv Ho); repeat case_bool_decide; done.
Qed.

Lemma owned_bit ns e : entry_wf ns e -> owned ns e -> exists v, holds ns e v /\ is_bit v.
Proof. intros (_ & _ & Ho & Hd & _) [Hv|Hv]; eauto. Qed.

(** The first loop passes only if every value is one the operation may have left. *)
Lemma check_entries_spec j es s :
  journal_home (io_nodes s) d n -> Forall (entry_wf (io_nodes s)) es ->
  iwp (check_entries (d ++ [n]) j es) s (fun r s' => journal_only s s' /\
    (r = Ok tt -> same s s' /\ forall e, e ∈ es -> owned (io_nodes s) e) /\
    (no_faults s -> (forall e, e ∈ es -> owned (io_nodes s) e) -> r = Ok tt)).
Proof.
  intros Hh Hwf. revert s Hh Hwf. induction es as [|e es IH]; intros s Hh Hwf; cbn [check_entries].
  { unfold iwp. simpl. split; [apply same_journal_only, same_refl|]. split; [|done].
    intros _. split; [apply same_refl|]. intros e He. by apply elem_of_nil in He. }
  apply Forall_cons in Hwf as [He Hes].
  apply iwp_bind. eapply iwp_mono; [by apply read_entry|]. intros r s1 (Hs1 & Hr & Hnf1).
  destruct r as [current|err].
  2: { split; [by apply same_journal_only|]. split; [done|]. intros Hnf Hall.
       destruct (owned_bit _ e He) as (v & Hv & Hb); [apply Hall, list_elem_of_here|].
       discriminate (Hnf1 Hnf v Hv Hb). }
  destruct (Hr current eq_refl) as [Hcur Hbit].
  destruct (foreign e current) eqn:Ef.
  - eapply iwp_mono; [apply conflict_spec; by rewrite (proj2 Hs1)|].
    intros r s2 [(Hk & Hb & Hq) [err ->]]. rewrite (proj2 Hs1) in Hb, Hq. split.
    { split; [eapply kept_trans; [apply Hs1|done]|done]. }
    split; [done|]. intros Hnf Hall.
    rewrite (owned_foreign _ _ _ (Hall e (list_elem_of_here _ _)) Hcur) in Ef. done.
  - eapply iwp_mono; [apply IH; by rewrite (proj2 Hs1)|].
    intros r s2 ((Hk & Hb & Hq) & Hok & Hnf2). rewrite (proj2 Hs1) in *. split.
    { split; [eapply kept_trans; [apply Hs1|done]|done]. }
    split.
    + intros Hr'. destruct (Hok Hr') as [Hs2 Hall]. split; [by eapply same_trans|].
      intros e' [->|Hin]%elem_of_cons; [by eapply foreign_owned|by apply Hall].
    + intros Hnf Hall. apply Hnf2; [by eapply no_faults_same|]. intros e' Hin.
      apply Hall. by apply list_elem_of_further.
Qed.

(** The third loop. *)
Lemma verify_entries_spec j es s :
  journal_home (io_nodes s) d n -> Forall (entry_wf (io_nodes s)) es ->
  iwp (verify_entries (d ++ [n]) j es) s (fun r s' => journal_only s s' /\
    (r = Ok tt -> same s s' /\ forall e, e ∈ es -> holds (io_nodes s) e (ie_original e)) /\
    (no_faults s -> (forall e, e ∈ es -> holds (io_nodes s) e (ie_original e)) -> r = Ok tt)).
Proof.
  intros Hh Hwf. revert s Hh Hwf. induction es as [|e es IH]; intros s Hh Hwf; cbn [verify_entries].
  { unfold iwp. simpl. split; [apply same_journal_only, same_refl|]. split; [|done].
    intros _. split; [apply same_refl|]. intros e He. by apply elem_of_nil in He. }
  apply Forall_cons in Hwf as [He Hes].
  apply iwp_bind. eapply iwp_mono; [by apply read_entry|]. intros r s1 (Hs1 & Hr & Hnf1).
  destruct r as [current|err].
  2: { split; [by apply same_journal_only|]. split; [done|]. intros Hnf Hall.
       discriminate (Hnf1 Hnf (ie_original e)); [apply Hall, list_elem_of_here|apply He]. }
  destruct (Hr current eq_refl) as [Hcur Hbit].
  case_bool_decide as Hco; simpl.
  - eapply iwp_mono; [apply IH; by rewrite (proj2 Hs1)|].
    intros r s2 ((Hk & Hb & Hq) & Hok & Hnf2). rewrite (proj2 Hs1) in *. split.
    { split; [eapply kept_trans; [apply Hs1|done]|done]. }
    split.
    + intros Hr'. destruct (Hok Hr') as [Hs2 Hall]. split; [by eapply same_trans|].
      intros e' [->|Hin]%elem_of_cons; [by rewrite <- Hco|by apply Hall].
    + intros Hnf Hall. apply Hnf2; [by eapply no_faults_same|]. intros e' Hin.
      apply Hall. by apply list_elem_of_further.
  - eapply iwp_mono; [apply conflict_spec; by rewrite (proj2 Hs1)|].
    intros r s2 [(Hk & Hb & Hq) [err ->]]. rewrite (proj2 Hs1) in Hb, Hq. split.
    { split; [eapply kept_trans; [apply Hs1|done]|done]. }
    split; [done|]. intros Hnf Hall. destruct Hco.
    eapply holds_fun; [done|]. apply Hall, list_elem_of_here.
Qed.
End restore_proofs.

Section restore_loop.
Context `{SerdeLaws} (d : path) (n : string).

(** The conditional write of one entry's original value. *)
Lemma write_back e current s :
  entry_wf (io_nodes s) e -> holds (io_nodes s) e current -> foreign e current = false ->
  iwp (if bool_decide (current = ie_desired e) && negb (bool_decide (current = ie_original e))
       then write_bit (ie_disable_path e) (ie_original e) else mret tt) s
    (fun r s' => kept s s' /\ benign (io_nodes s) (io_nodes s') /\
       moved (is_journal d n) ie_desired ie_original [e] (io_nodes s) (io_nodes s') /\
       (r = Ok tt -> holds (io_nodes s') e (ie_original e)) /\ (no_faults s -> r = Ok tt)).
Proof.
  intros He Hcur Ef. pose proof Hcur as (c & u & m & Hf & Ht). pose proof He as (_ & _ & Ho & Hd & _).
  destruct (decide (current = ie_original e)) as [Hco|Hco].
  - rewrite (bool_decide_true (current = ie_original e)) by done. rewrite andb_false_r.
    unfold iwp. simpl. split; [apply kept_refl|]. split; [apply benign_refl|].
    split; [apply moved_refl|]. split; [|done]. intros _. by rewrite <- Hco.
  - assert (current = ie_desired e) as Hcd.
    { unfold foreign in Ef. rewrite (bool_decide_false (current = ie_original e)) in Ef by done.
      by case_bool_decide. }
    rewrite (bool_decide_true (current = ie_desired e)), (bool_decide_false (current = ie_original e))
      by done. simpl. eapply iwp_mono; [by apply (write_entry (is_journal d n) e (ie_original e) c u m)|].
    rewrite Ht, Hcd. intros r s2 (Hk2 & Hb2 & Hm2 & Hok2 & Hnf2).
    apply (moved_single _ ie_desired ie_original) in Hm2. split_and!; try done.
    intros Hr2. rewrite (Hok2 Hr2). by apply holds_insert.
Qed.

(** The second loop: values go from desired back to original. *)
Lemma restore_entries_spec j es s :
  journal_home (io_nodes s) d n -> NoDup (paths_of es) -> d ++ [n] ∉ paths_of es ->
  Forall (entry_wf (io_nodes s)) es ->
  iwp (restore_entries (d ++ [n]) j es) s (fun r s' => kept s s' /\ benign (io_nodes s) (io_nodes s') /\
    moved (is_journal d n) ie_desired ie_original es (io_nodes s) (io_nodes s') /\
    (r = Ok tt -> forall e, e ∈ es -> holds (io_nodes s') e (ie_original e)) /\
    (no_faults s -> (forall e, e ∈ es -> owned (io_nodes s) e) -> r = Ok tt)).
Proof.
  revert s. induction es as [|e es IH]; intros s Hh Hnd Hjp Hwf; cbn [restore_entries].
  { unfold iwp. simpl. split; [apply kept_refl|]. split; [apply benign_refl|].
    split; [apply moved_refl|]. split; [|done]. intros _ e He. by apply elem_of_nil in He. }
  apply NoDup_cons in Hnd as [Hnot Hnd]. apply Forall_cons in Hwf as [He Hes].
  unfold paths_of in Hjp. rewrite fmap_cons, not_elem_of_cons in Hjp. destruct Hjp as [Hje Hjes].
  apply iwp_bind. eapply iwp_mono; [by apply read_entry|]. intros r s1 (Hs1 & Hr & Hnf1).
  destruct Hs1 as [Hk1 Hn1].
  destruct r as [current|err].
  2: { rewrite Hn1. split; [done|]. split; [apply benign_refl|]. split; [apply moved_refl|].
       split; [done|]. intros Hnf Hall.
       destruct (owned_bit _ e He) as (v & Hv & Hb); [apply Hall, list_elem_of_here|].
       discriminate (Hnf1 Hnf v Hv Hb). }
  destruct (Hr current eq_refl) as [Hcur Hbit].
  destruct (foreign e current) eqn:Ef.
  { eapply iwp_mono; [apply conflict_spec; by rewrite Hn1|].
    intros r s2 [(Hk & Hb & Hq) [err ->]]. rewrite Hn1 in Hb, Hq.
    split; [by eapply kept_trans|]. split; [done|]. split; [by apply moved_same|].
    split; [done|]. intros Hnf Hall.
    rewrite (owned_foreign _ _ _ (Hall e (list_elem_of_here _ _)) Hcur) in Ef. done. }
  apply iwp_bind. eapply iwp_mono; [apply (write_back e current s1); by rewrite ?Hn1|].
  rewrite Hn1. intros r s2 (Hk2 & Hb2 & Hm2 & Hok2 & Hnf2).
  pose proof (kept_trans _ _ _ Hk1 Hk2) as Hk12.
  destruct r as [[]|err].
  2: { split; [done|]. split; [done|]. split; [eapply moved_cons; [done|done|apply moved_refl]|].
       split; [done|]. intros Hnf _. discriminate (Hnf2 (no_faults_kept _ _ Hk1 Hnf)). }
  specialize (Hok2 eq_refl).
  eapply iwp_mono; [apply IH; [by eapply journal_home_benign|done|done|by eapply entries_wf_benign]|].
  intros r s3 (Hk3 & Hb3 & Hm3 & Hok3 & Hnf3). split; [by eapply kept_trans|].
  split; [by eapply benign_trans|]. split; [by eapply moved_cons|]. split.
  - intros -> e' [->|Hin]%elem_of_cons; [|by apply Hok3].
    eapply holds_eq; [eapply moved_notin; [done|by intros Heq; apply Hje|done]|done].
  - intros Hnf Hall. apply Hnf3; [by eapply no_faults_kept|]. intros e' Hin.
    assert (Hsame : io_nodes s2 !! ie_disable_path e' = io_nodes s !! ie_disable_path e').
    { eapply moved_notin; [done| |].
      - intros Heq. apply Hjes. rewrite <- Heq. by apply list_elem_of_fmap_2.
      - unfold paths_of. simpl. rewrite list_elem_of_singleton. intros Heq. apply Hnot. rewrite <- Heq.
        by apply list_elem_of_fmap_2. }
    destruct (Hall e') as [Ho|Ho]; [by apply list_elem_of_further|left|right]; by eapply holds_eq.
Qed.
End restore_loop.

(** ** What an inventory records *)

(** An entry as [inventory] records it in [ns]. *)
Definition recorded_entry (ns : nodes) (root : path) (e : IdleEntry) : Prop :=
  entry_wf ns e /\ holds ns e (ie_original e) /\ root `prefix_of` ie_disable_path e /\
  last (ie_disable_path e) = Some "disable"%string /\
  ie_desired e = desired_for (ie_name e).

Lemma item_ok_recorded ns root cpu item e :
  plain ns (cpuidle_dir root cpu) -> item_ok ns cpu (cpuidle_dir root cpu) item (Some e) ->
  recorded_entry ns root e /\
  ie_disable_path e = (cpuidle_dir root cpu ++ [item]) ++ ["disable"%string].
Proof.
  intros Hp. unfold item_ok. destruct (str_strip_prefix "state" item) as [index|] eqn:Ei; [|done].
  intros (st & name & orig & c & u & m & Hst & R1 & R2 & R3 & Hn & Ht & Hb & [= ->]).
  split; [|done]. pose proof (plain_real _ _ _ Hp (state_item_not_dots _ _ Ei) R1) as Hp1.
  pose proof Hb as (cb & ub & mb & Hf & Htb & Hbit). rewrite at_path_snoc in Hf.
  split; [|split; [by exists cb, ub, mb|]].
  - split; [by apply plain_real|]. split; [by destruct (cpuidle_dir root cpu)|]. split; [done|].
    split; [unfold desired_for; simpl; by repeat case_bool_decide; (left + right)|by exists cb, ub, mb].
  - split; [by repeat apply prefix_app_r|]. split; [by cbn; rewrite last_snoc|done].
Qed.

Lemma items_recorded ns root cpu items os :
  plain ns (cpuidle_dir root cpu) -> NoDup items ->
  Forall2 (item_ok ns cpu (cpuidle_dir root cpu)) items os ->
  Forall (recorded_entry ns root) (omap id os) /\ NoDup (paths_of (omap id os)) /\
  Forall (fun p => exists item, item ∈ items /\ p = (cpuidle_dir root cpu ++ [item]) ++ ["disable"%string])
    (paths_of (omap id os)).
Proof.
  intros Hp Hnd Hos. induction Hos as [|item o items os Ho Hos IH]; [by repeat constructor|].
  apply NoDup_cons in Hnd as [Hnot Hnd]. destruct (IH Hnd) as (H1 & H2 & H3).
  assert (H3' : Forall (fun p => exists it, it ∈ item :: items /\
    p = (cpuidle_dir root cpu ++ [it]) ++ ["disable"%string]) (paths_of (omap id os))).
  { eapply Forall_impl; [done|]. intros p (it & Hin & ->). exists it. split; [by apply list_elem_of_further|done]. }
  destruct o as [e|]; [|done]. destruct (item_ok_recorded _ _ _ _ _ Hp Ho) as [He Hpath].
  change (omap id (Some e :: os)) with (e :: omap id os).
  split; [by constructor|]. unfold paths_of. rewrite fmap_cons. split.
  - apply NoDup_cons. split; [|done]. intros Hin. rewrite Forall_forall in H3.
    destruct (H3 _ Hin) as (it & Hit & Heq). rewrite Hpath in Heq.
    apply app_inj_tail in Heq as [Heq _]. apply app_inj_tail in Heq as [_ ->]. done.
  - constructor; [|done]. exists item. split; [apply list_elem_of_here|done].
Qed.

Lemma cpu_recorded ns order root cpu es :
  (forall l, order l ≡ₚ l) -> plain ns root -> cpu_ok ns order root cpu es ->
  Forall (recorded_entry ns root) es /\ NoDup (paths_of es) /\
  Forall (fun p => cpu_dir root cpu `prefix_of` p) (paths_of es).
Proof.
  intros Hord Hp (R1 & R2 & _ & os & Hos & _ & _ & _ & ->).
  destruct (items_recorded ns root cpu (order (children ns (cpuidle_dir root cpu))) os) as (H1 & H2 & H3).
  - by apply cpuidle_dir_plain.
  - rewrite Hord. apply NoDup_children.
  - done.
  - assert (Hperm : paths_of (sort_by_state (omap id os)) ≡ₚ paths_of (omap id os)).
    { unfold paths_of. by rewrite sort_by_state_perm. }
    split; [by rewrite sort_by_state_perm|]. rewrite Hperm. split; [done|].
    eapply Forall_impl; [done|]. intros p (it & _ & ->).
    unfold cpuidle_dir. by do 3 apply prefix_app_r.
Qed.

Lemma cpu_dir_disjoint root cpu cpu' p :
  cpu_dir root cpu `prefix_of` p -> cpu_dir root cpu' `prefix_of` p -> cpu = cpu'.
Proof.
  intros [k1 ->] [k2 Heq]. unfold cpu_dir in Heq. rewrite <- !app_assoc in Heq.
  apply app_inv_head in Heq. cbn in Heq. apply (inj pretty). by injection Heq.
Qed.

Lemma inv_recorded ns order root cpus es :
  (forall l, order l ≡ₚ l) -> plain ns root -> NoDup cpus -> inv_ok ns order root cpus es ->
  Forall (recorded_entry ns root) es /\ NoDup (paths_of es).
Proof.
  intros Hord Hp Hnd (ess & Hess & ->).
  assert (H : Forall (recorded_entry ns root) (concat ess) /\ NoDup (paths_of (concat ess)) /\
    Forall (fun p => exists cpu, cpu ∈ cpus /\ cpu_dir root cpu `prefix_of` p) (paths_of (concat ess)));
    [|tauto].
  induction Hess as [|cpu es cpus ess He Hess IH]; [by repeat constructor|].
  apply NoDup_cons in Hnd as [Hnot Hnd]. destruct (IH Hnd) as (H1 & H2 & H3).
  destruct (cpu_recorded _ _ _ _ _ Hord Hp He) as (G1 & G2 & G3).
  cbn [concat]. unfold paths_of in *. rewrite fmap_app. split; [by apply Forall_app|]. split.
  - apply NoDup_app. split; [done|]. split; [|done]. intros p Hin1 Hin2.
    rewrite Forall_forall in H3, G3. destruct (H3 _ Hin2) as (cpu' & Hc & Hpre).
    rewrite (cpu_dir_disjoint root cpu cpu' p) in Hnot; [done|by apply G3|done].
  - apply Forall_app. split; (eapply Forall_impl; [done|]); intros p.
    + intros Hpre. exists cpu. split; [apply list_elem_of_here|done].
    + intros (cpu' & Hin & Hpre). exists cpu'. split; [by apply list_elem_of_further|done].
Qed.

(** ** Moving values keeps the inventory *)

Lemma shape_moved root J (f t : IdleEntry -> string) es ns0 ns ns' :
  shape root ns0 ns -> moved J f t es ns ns' -> (forall q, root `prefix_of` q -> ~ J q) ->
  (forall e, e ∈ es -> is_bit (t e) /\ last (ie_disable_path e) = Some "disable"%string) ->
  shape root ns0 ns'.
Proof.
  intros Hs Hm HJ Hes q Hq. destruct (Hm q (HJ q Hq)) as [->|(e & c & u & m & Hin & -> & Hf & _ & Hn)];
    [by apply Hs|]. destruct (Hes e Hin) as [Hb Hl]. right. split; [done|].
  destruct (Hs _ Hq) as [Heq|(_ & c1 & c2 & u1 & m1 & H1 & H2 & _)].
  - exists c, (bit_line (t e)), u, m. rewrite <- Heq, trim_bit_line by done. done.
  - rewrite Hf in H2. simplify_eq. exists c1, (bit_line (t e)), u1, m1. by rewrite trim_bit_line.
Qed.

Lemma shape_journal root d n ns0 s s' :
  shape root ns0 (io_nodes s) -> journal_only d n s s' ->
  (forall q, root `prefix_of` q -> ~ is_journal d n q) -> shape root ns0 (io_nodes s').
Proof.
  intros Hs (_ & _ & Hq) Hout q Hpre. rewrite Hq by (by apply Hout). by apply Hs.
Qed.

Section restore_spec.
Context `{SerdeLaws} (d : path) (n : string) (root : path).
Abbreviation jp := (d ++ [n]).

(** What the phases of [restore] that change nothing but the journal leave. *)
Lemma moved_journal f t es s s' :
  journal_only d n s s' -> moved (is_journal d n) f t es (io_nodes s) (io_nodes s').
Proof. intros (_ & _ & Hq). by apply moved_same. Qed.

Lemma moved_journal_r f t es ns s s' :
  moved (is_journal d n) f t es ns (io_nodes s) -> journal_only d n s s' ->
  moved (is_journal d n) f t es ns (io_nodes s').
Proof. intros Hm (_ & _ & Hq) q HJ. rewrite Hq by done. by apply Hm. Qed.

Lemma moved_journal_l f t es s s1 ns' :
  journal_only d n s s1 -> moved (is_journal d n) f t es (io_nodes s1) ns' ->
  moved (is_journal d n) f t es (io_nodes s) ns'.
Proof. intros (_ & _ & Hq) Hm q HJ. rewrite <- (Hq q HJ). by apply Hm. Qed.

Lemma journal_only_trans s1 s2 s3 :
  journal_only d n s1 s2 -> journal_only d n s2 s3 -> journal_only d n s1 s3.
Proof.
  intros (K1 & B1 & Q1) (K2 & B2 & Q2). split; [by eapply kept_trans|].
  split; [by eapply benign_trans|]. intros q Hq. rewrite Q2, Q1; done.
Qed.

Lemma holds_journal s s' e v :
  ie_disable_path e <> jp -> journal_only d n s s' ->
  holds (io_nodes s) e v -> holds (io_nodes s') e v.
Proof. intros Hne (_ & _ & Hq). apply holds_eq. by apply Hq. Qed.

(** The last part: re-validate, verify, record Restored. *)
Definition restore_tail (j : Journal) : IO Journal :=
  _ ← validate_inventory root (j_entries j);
  _ ← verify_entries jp j (j_entries j);
  a ← actor;
  j ← transition Restored a j;
  _ ← store_journal jp j;
  mret j.

Lemma restore_tail_spec j s :
  journal_home (io_nodes s) d n -> Forall (entry_wf (io_nodes s)) (j_entries j) ->
  iwp (restore_tail j) s (fun r s' => journal_only d n s s' /\
    forall j', r = Ok j' -> j' = pushed s Restored j /\ stored d n (io_nodes s') j' /\
      forall e, e ∈ j_entries j -> holds (io_nodes s) e (ie_original e)).
Proof.
  intros Hh Hwf. apply iwp_bind. eapply iwp_mono; [apply ro_iwp, ro_validate|].
  intros [[]|e] s1 H1; [|by split; [apply same_journal_only|]].
  apply iwp_bind. eapply iwp_mono; [apply verify_entries_spec; by rewrite (proj2 H1)|].
  rewrite (proj2 H1). intros r s2 (J2 & Ok2 & _).
  pose proof (journal_only_trans _ _ _ (same_journal_only d n _ _ H1) J2) as J12.
  destruct r as [[]|e]; [|by split]. destruct (Ok2 eq_refl) as [H2 Hall].
  apply iwp_transition. apply iwp_bind.
  eapply iwp_mono; [apply store_spec; by rewrite (proj2 H2), (proj2 H1)|].
  intros r s3 (J3 & Ok3 & _). pose proof (journal_only_trans _ _ _ J12 J3) as J13.
  destruct r as [[]|e]; [|by split]. unfold iwp. simpl. split; [done|].
  intros j' [= <-]. rewrite (pushed_kept s s2) by apply J12.
  split; [done|]. split; [|done].
  rewrite <- (pushed_kept s s2) by apply J12. by apply Ok3.
Qed.

Lemma restore_unfold j :
  restore root jp j =
    (_ ← validate_inventory root (j_entries j);
     _ ← check_entries jp j (j_entries j);
     a ← actor;
     j ← transition Restoring a j;
     _ ← store_journal jp j;
     _ ← restore_entries jp j (j_entries j);
     restore_tail j).
Proof. done. Qed.

(** What a restore of [j] from [s] guarantees. *)
Definition restore_post (s : iost) (j : Journal) (r : result Journal BenchError) (s' : iost) : Prop :=
  kept s s' /\ benign (io_nodes s) (io_nodes s') /\
  moved (is_journal d n) ie_desired ie_original (j_entries j) (io_nodes s) (io_nodes s') /\
  (forall e, e ∈ j_entries j -> ~ owned (io_nodes s) e ->
     forall q, q <> jp -> io_nodes s' !! q = io_nodes s !! q) /\
  (forall j', r = Ok j' -> j' = pushed s Restored (pushed s Restoring j) /\
     stored d n (io_nodes s') j' /\
     forall e, e ∈ j_entries j -> holds (io_nodes s') e (ie_original e)).

Lemma restore_stopped s j s' e : journal_only d n s s' -> restore_post s j (Err e) s'.
Proof.
  intros Hj. split; [apply Hj|]. split; [apply Hj|].
  split; [by apply moved_journal|]. split; [|done]. intros _ _ _ q Hq. by apply Hj.
Qed.

Lemma restore_spec j s :
  journal_home (io_nodes s) d n -> NoDup (paths_of (j_entries j)) -> jp ∉ paths_of (j_entries j) ->
  Forall (entry_wf (io_nodes s)) (j_entries j) ->
  iwp (restore root jp j) s (restore_post s j).
Proof.
  intros Hh Hnd Hjp Hwf. rewrite restore_unfold.
  apply iwp_bind. eapply iwp_mono; [apply ro_iwp, ro_validate|].
  intros [[]|e] s1 H1; [|by apply restore_stopped, same_journal_only].
  apply iwp_bind. eapply iwp_mono; [apply check_entries_spec; by rewrite (proj2 H1)|].
  rewrite (proj2 H1). intros r s2 (J2 & Ok2 & _).
  pose proof (journal_only_trans _ _ _ (same_journal_only d n _ _ H1) J2) as J12.
  destruct r as [[]|e]; [|by apply restore_stopped]. destruct (Ok2 eq_refl) as [H2 Hown].
  apply iwp_transition. rewrite (pushed_kept s s2) by apply J12.
  apply iwp_bind. eapply iwp_mono; [apply store_spec; by rewrite (proj2 H2), (proj2 H1)|].
  intros r s3 (J3 & _ & _). pose proof (journal_only_trans _ _ _ J12 J3) as J13.
  destruct r as [[]|e]; [|by apply restore_stopped].
  apply iwp_bind. eapply iwp_mono; [apply (restore_entries_spec d n); try done|].
  { eapply journal_home_benign; [apply J13|done]. }
  { eapply entries_wf_benign; [apply J13|done]. }
  change (j_entries (pushed s Restoring j)) with (j_entries j).
  intros r s4 (K4 & B4 & M4 & Ok4 & _).
  assert (K14 : kept s s4) by (eapply kept_trans; [apply J13|done]).
  apply (moved_journal_l _ _ _ _ _ _ J13) in M4.
  assert (Hcon : forall e, e ∈ j_entries j -> ~ owned (io_nodes s) e -> False).
  { intros e He Hno. by apply Hno, Hown. }
  pose proof (benign_trans _ _ _ (proj1 (proj2 J13)) B4) as B14.
  destruct r as [[]|e].
  2: { split; [done|]. split; [done|]. split; [done|]. split; [|done].
       intros e' He Hno. by destruct (Hcon e'). }
  eapply iwp_mono; [apply restore_tail_spec|].
  { by eapply journal_home_benign. } { by eapply entries_wf_benign. }
  change (j_entries (pushed s Restoring j)) with (j_entries j).
  intros r s5 (J5 & Ok5). split; [eapply kept_trans; [done|apply J5]|].
  split; [eapply benign_trans; [done|apply J5]|].
  split; [by eapply moved_journal_r|]. split; [intros e He Hno; by destruct (Hcon e)|].
  intros j' Hr. destruct (Ok5 j' Hr) as (-> & Hst & Hall).
  rewrite (pushed_kept s s4) in * by done. split; [done|]. split; [done|].
  intros e He. eapply holds_journal; [|done|by apply Hall].
  intros Heq. apply Hjp. rewrite <- Heq. by apply list_elem_of_fmap_2.
Qed.
End restore_spec.

Lemma gives_iwp {A} (m : IO A) s r (Q : result A BenchError -> iost -> Prop) :
  gives m s r -> (forall s', same s s' -> Q r s') -> iwp m s Q.
Proof. intros (s' & Hm & Hs) HQ. unfold iwp. rewrite Hm. by apply HQ. Qed.

Section restore_succeeds.
Context `{SerdeLaws} (d : path) (n : string) (root : path).
Abbreviation jp := (d ++ [n]).

Lemma validate_pushed s st j : validate j = Ok tt -> validate (pushed s st j) = Ok tt.
Proof.
  rewrite !validate_ok. intros (Hv & Hd & Ht). split; [done|]. split; [done|].
  simpl. by destruct (j_transitions j).
Qed.

(** The last part succeeds once every value is back. *)
Lemma restore_tail_succeeds j s ns0 cpus :
  no_faults s -> journal_home (io_nodes s) d n -> plain (io_nodes s) root ->
  StronglySorted N.lt cpus -> inv_ok ns0 (io_order s) root cpus (j_entries j) ->
  shape root ns0 (io_nodes s) -> Forall (entry_wf (io_nodes s)) (j_entries j) ->
  (forall e, e ∈ j_entries j -> holds (io_nodes s) e (ie_original e)) ->
  validate j = Ok tt -> is_Some (journal_to_vec_pretty (pushed s Restored j)) ->
  iwp (restore_tail d n root j) s (fun r _ => exists j', r = Ok j').
Proof.
  intros Hnf Hh Hpl Hcs Hinv Hsh Hwf Hall Hval Henc.
  apply iwp_bind. eapply gives_iwp; [by eapply validate_gives|]. intros s1 H1.
  apply iwp_bind. eapply iwp_mono; [apply verify_entries_spec; by rewrite (proj2 H1)|].
  rewrite (proj2 H1). intros r s2 (J2 & Ok2 & F2).
  assert (r = Ok tt) as -> by (apply F2; [by eapply no_faults_same|done]). destruct (Ok2 eq_refl) as [H2 _].
  pose proof (same_trans _ _ _ H1 H2) as H12.
  apply iwp_transition. rewrite (pushed_kept s s2) by apply H12.
  apply iwp_bind. eapply iwp_mono; [apply store_spec; by rewrite (proj2 H12)|]. intros r s3 (_ & _ & F3).
  assert (r = Ok tt) as -> by (apply F3; [by eapply no_faults_same|by apply validate_pushed|done]).
  unfold iwp. simpl. eauto.
Qed.

(** The journals restore writes can be encoded. *)
Definition encodable (s : iost) (j : Journal) : Prop :=
  is_Some (journal_to_vec_pretty (pushed s Restoring j)) /\
  is_Some (journal_to_vec_pretty (pushed s Restored (pushed s Restoring j))).

Lemma restore_succeeds j s ns0 cpus :
  no_faults s -> journal_home (io_nodes s) d n -> NoDup (paths_of (j_entries j)) ->
  (forall q, root `prefix_of` q -> q <> jp) -> plain (io_nodes s) root ->
  StronglySorted N.lt cpus -> inv_ok ns0 (io_order s) root cpus (j_entries j) ->
  shape root ns0 (io_nodes s) ->
  (forall e, e ∈ j_entries j -> recorded_entry ns0 root e /\ entry_wf (io_nodes s) e /\
     owned (io_nodes s) e) ->
  validate j = Ok tt -> encodable s j ->
  iwp (restore root jp j) s (fun r _ => exists j', r = Ok j').
Proof.
  intros Hnf Hh Hnd Hout Hpl Hcs Hinv Hsh Hes Hval [He1 He2].
  assert (Hwf : Forall (entry_wf (io_nodes s)) (j_entries j)) by (apply Forall_forall; apply Hes).
  assert (Hjp : jp ∉ paths_of (j_entries j)).
  { intros Hin. apply list_elem_of_fmap in Hin as (e & Heq & Hin).
    destruct (Hes e Hin) as [(_ & _ & Hpre & _) _]. apply (Hout _ Hpre). done. }
  rewrite restore_unfold.
  apply iwp_bind. eapply gives_iwp; [by eapply validate_gives|]. intros s1 H1.
  pose proof (no_faults_same _ _ H1 Hnf) as N1.
  apply iwp_bind. eapply iwp_mono; [apply check_entries_spec; by rewrite (proj2 H1)|].
  rewrite (proj2 H1). intros r s2 (J2 & Ok2 & F2).
  assert (r = Ok tt) as -> by (apply F2; [done|]; intros e He; apply Hes, He). destruct (Ok2 eq_refl) as [H2 _].
  pose proof (same_trans _ _ _ H1 H2) as H12. pose proof (no_faults_same _ _ H12 Hnf) as N2.
  apply iwp_transition. rewrite (pushed_kept s s2) by apply H12. set (j1 := pushed s Restoring j) in *.
  apply iwp_bind. eapply iwp_mono; [apply store_spec; by rewrite (proj2 H12)|].
  intros r s3 (J3 & _ & F3). assert (r = Ok tt) as -> by (apply F3; [done|by apply validate_pushed|done]).
  pose proof (journal_only_trans d n _ _ _ (same_journal_only d n _ _ H12) J3) as J13.
  pose proof (no_faults_kept _ _ (proj1 J13) Hnf) as N3.
  change (j_entries j1) with (j_entries j).
  assert (Hpne : forall e, e ∈ j_entries j -> ie_disable_path e <> jp).
  { intros e He. apply Hout. apply (proj1 (Hes e He)). }
  apply iwp_bind. eapply iwp_mono; [apply (restore_entries_spec d n); try done|].
  { eapply journal_home_benign; [apply J13|done]. }
  { eapply entries_wf_benign; [apply J13|done]. }
  intros r s4 (K4 & B4 & M4 & Ok4 & F4).
  assert (r = Ok tt) as ->.
  { apply F4; [done|]. intros e He. destruct (proj2 (proj2 (Hes e He))) as [Ho|Ho]; [left|right];
      by eapply holds_journal; eauto. }
  specialize (Ok4 eq_refl). pose proof (kept_trans _ _ _ (proj1 J13) K4) as K14.
  pose proof (benign_trans _ _ _ (proj1 (proj2 J13)) B4) as B14.
  assert (Hsh4 : shape root ns0 (io_nodes s4)).
  { eapply shape_moved; [by eapply shape_journal| done| |].
    - intros q Hq Hj. by apply (Hout q).
    - intros e He. destruct (proj1 (Hes e He)) as ((_ & _ & Hb & _) & _ & _ & Hl & _). done. }
  eapply restore_tail_succeeds; [by eapply no_faults_kept|by eapply journal_home_benign|by eapply plain_benign|done
    |by rewrite (kept_order _ _ K14)|done|by eapply entries_wf_benign|done|by apply validate_pushed|].
  by rewrite (pushed_kept s s4).
Qed.
End restore_succeeds.

(** ** Counting the states of one CPU *)

Definition states_of (cpu : N) (name : string) (es : list IdleEntry) : list IdleEntry :=
  List.filter (fun e => bool_decide (ie_cpu e = cpu) && bool_decide (ie_name e = name)) es.

Lemma count_perm name l l' : l ≡ₚ l' -> count_named name l = count_named name l'.
Proof.
  unfold count_named. induction 1 as [|x l l' _ IH|x y l|l l' l'' _ IH1 _ IH2]; simpl;
    [done|destruct (named name x); simpl; congruence|by destruct (named name x), (named name y)|congruence].
Qed.

Lemma states_of_block cpu name es :
  Forall (fun e => ie_cpu e = cpu) es -> length (states_of cpu name es) = count_named name es.
Proof.
  unfold states_of, count_named, named. induction 1 as [|e es He Hes IH]; [done|]. simpl.
  rewrite (bool_decide_true (ie_cpu e = cpu)) by done. simpl. case_bool_decide; simpl; congruence.
Qed.

Lemma states_of_app cpu name l1 l2 :
  states_of cpu name (l1 ++ l2) = states_of cpu name l1 ++ states_of cpu name l2.
Proof. apply List.filter_app. Qed.

Lemma states_of_other cpu name es :
  Forall (fun e => ie_cpu e <> cpu) es -> states_of cpu name es = [].
Proof.
  unfold states_of. induction 1 as [|e es He Hes IH]; [done|]. simpl.
  by rewrite bool_decide_false.
Qed.

Lemma blocks_cpus ns order root cpus ess :
  Forall2 (cpu_ok ns order root) cpus ess -> Forall (fun e => ie_cpu e ∈ cpus) (concat ess).
Proof.
  induction 1 as [|c es cpus ess He Hess IH]; [constructor|]. simpl.
  apply Forall_app. destruct (cpu_ok_cpu _ _ _ _ _ He) as [_ Hc]. split.
  - eapply Forall_impl; [done|]. intros e ->. apply list_elem_of_here.
  - eapply Forall_impl; [done|]. intros e Hi. by apply list_elem_of_further.
Qed.

Lemma inv_ok_counts ns order root cpus es cpu :
  NoDup cpus -> inv_ok ns order root cpus es -> cpu ∈ cpus ->
  length (states_of cpu "POLL" es) = 1%nat /\ length (states_of cpu "C1" es) = 1%nat.
Proof.
  intros Hnd (ess & Hess & ->) Hin.
  induction Hess as [|c es cpus ess He Hess IH]; [by apply elem_of_nil in Hin|].
  apply NoDup_cons in Hnd as [Hnot Hnd]. destruct (cpu_ok_cpu _ _ _ _ _ He) as [_ Hc].
  pose proof (blocks_cpus _ _ _ _ _ Hess) as Hrest.
  cbn [concat]. rewrite !states_of_app, !length_app.
  apply elem_of_cons in Hin as [->|Hin].
  - assert (Hne : Forall (fun e => ie_cpu e <> c) (concat ess)).
    { eapply Forall_impl; [exact Hrest|]. simpl. intros e Hi <-. done. }
    rewrite !(states_of_block c _ es), !(states_of_other c _ (concat ess)) by done.
    destruct He as (_ & _ & _ & os & _ & _ & HP & HC & ->).
    rewrite !(count_perm _ _ _ (sort_by_state_perm (omap id os))), HP, HC. done.
  - assert (Hne : Forall (fun e => ie_cpu e <> cpu) es).
    { eapply Forall_impl; [exact Hc|]. simpl. intros e -> ->. done. }
    rewrite !(states_of_other cpu _ es) by done. simpl. by apply IH.
Qed.
