(* ===== verification/CpuidleSafety.v ===== *)
(** * Safety and recovery of the controlled cpuidle operations

    The properties of [inventory], [apply] and [restore] under faults of any system call, and
    convergence: from every file system that an inventory followed by any number of
    interrupted applies and restores can leave, one undisturbed restore succeeds and
    brings every recorded value back. A process killed between two system calls leaves what
    the same call leaves when every later system call fails, so crashes are covered too. *)

From stdpp Require Import pretty sorting.
From Stdlib Require Import Ascii.
From S2P Require Import Prelude BenchFs Journal Cpuidle CpuidleProofs.
Open Scope Z_scope.

Lemma iwp_elim {A} (m : IO A) s (Q : result A BenchError -> iost -> Prop) :
  iwp m s Q -> Q (m s).1 (m s).2.
Proof. done. Qed.

(** ** Every idle state is recorded *)

(** [item] is an idle-state directory of [cpu]. *)
Definition state_dir (ns : nodes) (root : path) (cpu : N) (item : string) : Prop :=
  item ∈ children ns (cpuidle_dir root cpu) /\ is_Some (str_strip_prefix "state" item).

Lemma cpu_complete ns order root cpu es item :
  (forall l, order l ≡ₚ l) -> cpu_ok ns order root cpu es -> state_dir ns root cpu item ->
  exists e, e ∈ es /\ ie_cpu e = cpu /\
    ie_disable_path e = (cpuidle_dir root cpu ++ [item]) ++ ["disable"%string].
Proof.
  intros Hord (_ & _ & _ & os & Hos & _ & _ & _ & ->) [Hin [index Hi]].
  rewrite <- Hord in Hin. apply list_elem_of_lookup in Hin as [i Hi'].
  destruct (Forall2_lookup_l _ _ _ _ _ Hos Hi') as (o & Ho & Hok).
  unfold item_ok in Hok. rewrite Hi in Hok.
  destruct Hok as (st & name & orig & c & u & m & _ & _ & _ & _ & _ & _ & _ & ->).
  exists (mkIdle cpu st name ((cpuidle_dir root cpu ++ [item]) ++ ["disable"%string]) orig (desired_for name)).
  split; [|done]. rewrite sort_by_state_perm. apply list_elem_of_omap.
  eexists. split; [by eapply list_elem_of_lookup_2|done].
Qed.

Lemma inv_complete ns order root cpus es cpu item :
  (forall l, order l ≡ₚ l) -> inv_ok ns order root cpus es -> cpu ∈ cpus ->
  state_dir ns root cpu item ->
  exists e, e ∈ es /\ ie_cpu e = cpu /\
    ie_disable_path e = (cpuidle_dir root cpu ++ [item]) ++ ["disable"%string].
Proof.
  intros Hord (ess & Hess & ->) Hin Hit. apply list_elem_of_lookup in Hin as [i Hi].
  destruct (Forall2_lookup_l _ _ _ _ _ Hess Hi) as (es & Hes & Hok).
  destruct (cpu_complete _ _ _ _ _ _ Hord Hok Hit) as (e & He & Hrest). exists e. split; [|done].
  apply list_elem_of_In, in_concat. exists es. split; apply list_elem_of_In; [|done].
  by eapply list_elem_of_lookup_2.
Qed.

Lemma sorted_distinct (l : list N) : StronglySorted N.lt l -> NoDup l.
Proof.
  induction 1 as [|x l _ IH Hx]; constructor; [|done]. intros Hin.
  rewrite Forall_forall in Hx. specialize (Hx x Hin). lia.
Qed.

(** ** What interrupted operations can leave *)

Section episodes.
Context `{SerdeLaws} (root d : path) (n : string) (es : list IdleEntry).
Abbreviation jp := (d ++ [n]).

(** The file systems reached from [ns0] by applies and restores of the entries [es], each
    started with any faults to come and ending in any way. *)
Inductive episode (ns0 : nodes) : nodes -> Prop :=
| ep_start : episode ns0 ns0
| ep_apply s : episode ns0 (io_nodes s) -> episode ns0 (io_nodes (apply root es s).2)
| ep_restore j s : episode ns0 (io_nodes s) -> j_entries j = es ->
    episode ns0 (io_nodes (restore root jp j s).2).

(** The invariant: the values are the operation's own, and nothing else below the root changed. *)
Definition recoverable (ns0 ns : nodes) : Prop :=
  journal_home ns d n /\ plain ns root /\ shape root ns0 ns /\
  (forall e, e ∈ es -> entry_wf ns e /\ owned ns e) /\
  forall q, q <> jp -> q ∉ paths_of es -> ns !! q = ns0 !! q.

Lemma owned_moved J (f t : IdleEntry -> string) ns ns' e :
  NoDup (paths_of es) -> (forall e, e ∈ es -> is_bit (t e)) -> ~ J (ie_disable_path e) ->
  (t = ie_original \/ t = ie_desired) ->
  moved J f t es ns ns' -> e ∈ es -> owned ns e -> owned ns' e.
Proof.
  intros Hnd Hbit HJ Ht Hm He Ho.
  destruct (Hm _ HJ) as [Heq|(e' & c & u & m & He' & Hp & _ & _ & Hf)].
  - destruct Ho; [left|right]; by eapply holds_eq.
  - pose proof (NoDup_fmap_inj_in _ _ _ _ Hnd He He' Hp) as <-.
    assert (Hh : holds ns' e (t e)).
    { exists (bit_line (t e)), u, m. by rewrite trim_bit_line by auto. }
    destruct Ht as [->| ->]; [by left|by right].
Qed.

Context (ns0 : nodes) (Hnd : NoDup (paths_of es)) (Hout : forall q, root `prefix_of` q -> q <> jp)
  (Hrec : Forall (recorded_entry ns0 root) es).

Lemma entry_bits e : e ∈ es -> is_bit (ie_original e) /\ is_bit (ie_desired e) /\
  last (ie_disable_path e) = Some "disable"%string /\ ie_disable_path e <> jp.
Proof.
  intros He. rewrite Forall_forall in Hrec.
  destruct (Hrec e He) as ((_ & _ & Ho & Hd & _) & _ & Hp & Hl & _). auto.
Qed.

Lemma recoverable_start :
  journal_home ns0 d n -> plain ns0 root -> recoverable ns0 ns0.
Proof.
  intros Hh Hp. rewrite Forall_forall in Hrec. split; [done|]. split; [done|].
  split; [apply shape_refl|]. split; [|done].
  intros e He. destruct (Hrec e He) as (Hw & Ho & _). split; [done|by left].
Qed.

Lemma recoverable_moved J (f t : IdleEntry -> string) ns ns' :
  (forall q, J q -> q = jp) -> (t = ie_original \/ t = ie_desired) -> benign ns ns' ->
  moved J f t es ns ns' -> recoverable ns0 ns -> recoverable ns0 ns'.
Proof.
  intros HJ Ht Hb Hm (Hh & Hp & Hs & Hes & Hq).
  assert (Hbit : forall e, e ∈ es -> is_bit (t e)).
  { intros e He. destruct (entry_bits e He) as (Ho & Hd & _). by destruct Ht as [->| ->]. }
  split; [by eapply journal_home_benign|]. split; [by eapply plain_benign|]. split.
  { eapply shape_moved; [done|done| |].
    - intros q Hpre Hj. by apply (Hout q Hpre), HJ.
    - intros e He. split; [auto|]. apply (entry_bits e He). }
  split.
  - intros e He. destruct (Hes e He) as [Hw Ho]. split; [by eapply entry_wf_benign|].
    eapply owned_moved; try done. intros Hj. by apply (entry_bits e He), HJ.
  - intros q Hne Hnot. rewrite <- Hq by done.
    eapply moved_notin; [done| |done]. intros Hj. by apply Hne, HJ.
Qed.

Lemma apply_spec s :
  Forall (entry_wf (io_nodes s)) es ->
  iwp (apply root es) s (fun r s' => kept s s' /\ benign (io_nodes s) (io_nodes s') /\
    moved nowhere ie_original ie_desired es (io_nodes s) (io_nodes s') /\
    (r = Ok tt -> forall e, e ∈ es -> holds (io_nodes s') e (ie_desired e))).
Proof.
  intros Hwf. apply iwp_bind. eapply iwp_mono; [apply ro_iwp, ro_validate|].
  intros [[]|e] s1 [Hk Hn].
  - eapply iwp_mono; [apply apply_entries_spec; [done|by rewrite Hn]|].
    rewrite Hn. intros r s2 (K & B & M & Ok2 & _). split; [by eapply kept_trans|]. done.
  - rewrite Hn. split; [done|]. split; [apply benign_refl|]. split; [apply moved_refl|done].
Qed.

Lemma episode_recoverable ns :
  journal_home ns0 d n -> plain ns0 root -> episode ns0 ns -> recoverable ns0 ns.
Proof.
  intros Hh Hp. induction 1 as [|s _ IH|j s _ IH Hj]; [by apply recoverable_start| |].
  - assert (Hwf : Forall (entry_wf (io_nodes s)) es) by (apply Forall_forall; apply IH).
    destruct (iwp_elim _ _ _ (apply_spec s Hwf)) as (_ & Hb & Hm & _).
    eapply (recoverable_moved nowhere); [by intros ? []|by right|done|done|done].
  - assert (Hwf : Forall (entry_wf (io_nodes s)) es) by (apply Forall_forall; apply IH).
    assert (Hjp : jp ∉ paths_of es).
    { intros Hin. apply list_elem_of_fmap in Hin as (e & Heq & He). by apply (entry_bits e He). }
    pose proof (restore_spec d n root j s (proj1 IH)) as Hr. rewrite Hj in Hr.
    destruct (iwp_elim _ _ _ (Hr Hnd Hjp Hwf)) as (_ & Hb & Hm & _).
    rewrite Hj in Hm. eapply (recoverable_moved (is_journal d n)); [|by left|done|done|done]. by intros q ->.
Qed.
End episodes.

(** Nothing but the journal's file changed. *)
Definition untouched (d : path) (n : string) (ns ns' : nodes) : Prop :=
  forall q, q <> d ++ [n] -> ns' !! q = ns !! q.
(** Every entry's file holds the value [f] gives. *)
Definition all_hold (ns : nodes) (f : IdleEntry -> string) (es : list IdleEntry) : Prop :=
  forall e, e ∈ es -> holds ns e (f e).

(** ** The lock *)

(** Attempt [i] found the lock taken and was allowed to wait. *)
Definition lock_retries (try_lock : nat -> result unit io_error) (elapsed_ms : nat -> Z) (wait : bool)
    (i : nat) : Prop :=
  try_lock i = Err WouldBlock /\ wait = true /\ elapsed_ms i < RECOVERY_LOCK_WAIT_MS.

Lemma acquire_lock_spec try_lock elapsed_ms wait label fuel n :
  (exists k, (n <= k < n + fuel)%nat /\ ~ lock_retries try_lock elapsed_ms wait k) ->
  exists k, (n <= k < n + fuel)%nat /\
    (forall i, (n <= i < k)%nat -> lock_retries try_lock elapsed_ms wait i) /\
    ~ lock_retries try_lock elapsed_ms wait k /\
    acquire_lock fuel try_lock elapsed_ms n wait label =
      Some (match try_lock k with Ok _ => Ok tt | Err _ => Err (State label) end).
Proof.
  revert n. induction fuel as [|f IH]; intros n (k0 & Hk0 & Hno); [lia|]. cbn [acquire_lock].
  assert (Hdec : lock_retries try_lock elapsed_ms wait n \/ ~ lock_retries try_lock elapsed_ms wait n).
  { unfold lock_retries. destruct (try_lock n) as [|e]; [naive_solver|].
    destruct (decide (e = WouldBlock)), wait, (Z_lt_dec (elapsed_ms n) RECOVERY_LOCK_WAIT_MS); naive_solver. }
  destruct Hdec as [Hr|Hr].
  - destruct (IH (S n)) as (k & Hk & Hall & Hnk & Heq).
    { exists k0. split; [|done]. destruct (decide (k0 = n)) as [->|]; [done|lia]. }
    exists k. split; [lia|]. split; [|split; [done|]].
    + intros i Hi. destruct (decide (i = n)) as [->|]; [done|]. apply Hall. lia.
    + destruct Hr as (-> & -> & Hlt). by rewrite bool_decide_true, (proj2 (Z.ltb_lt _ _)).
  - exists n. split; [lia|]. split; [lia|]. split; [done|].
    destruct (try_lock n) as [[]|e] eqn:E; [done|]. unfold lock_retries in Hr. rewrite E in Hr.
    destruct (bool_decide (e = WouldBlock) && wait && (elapsed_ms n <? RECOVERY_LOCK_WAIT_MS)) eqn:Eb; [|done].
    destruct Hr. rewrite !andb_true_iff, bool_decide_eq_true, Z.ltb_lt in Eb. naive_solver.
Qed.

(** ** A concrete sysfs for the witnesses *)

Definition nl : string := String "010"%char EmptyString.
Definition idle_files (cpu item name : string) (value : string) : list (path * node) :=
  let dir := ["sys"; cpu; "cpuidle"; item]%string in
  [(dir, Dir 0 493);
   (dir ++ ["name"%string], File (name +:+ nl)%string 0 292);
   (dir ++ ["disable"%string], File (value +:+ nl)%string 0 420)].
Definition demo_sys : nodes := list_to_map (
  [(["run"]%string, Dir 0 448); (["sys"]%string, Dir 0 493); (["sys"; "cpu2"]%string, Dir 0 493);
   (["sys"; "cpu2"; "cpuidle"]%string, Dir 0 493)]
  ++ idle_files "cpu2" "state0" "POLL" "0" ++ idle_files "cpu2" "state1" "C1" "0"
  ++ idle_files "cpu2" "state2" "C6" "0").
Definition demo_entries : list IdleEntry :=
  [mkIdle 2 0 "POLL" ["sys"; "cpu2"; "cpuidle"; "state0"; "disable"]%string "0" "0";
   mkIdle 2 1 "C1" ["sys"; "cpu2"; "cpuidle"; "state1"; "disable"]%string "0" "0";
   mkIdle 2 2 "C6" ["sys"; "cpu2"; "cpuidle"; "state2"; "disable"]%string "0" "1"].
Definition demo_run : Journal := set_entries demo_entries demo_journal.
Definition run_serde : Serde := stage_serde demo_run (mkActor 0 0) 0.
Definition calm (ns : nodes) : iost := demo_state ns (fun _ => None).
(** The [k]th system call and all later ones fail. *)
Definition dies_at (k : nat) (ns : nodes) : iost :=
  demo_state ns (fun i => if (k <=? i)%nat then Some OtherError else None).

Lemma sys_plain (ns : nodes) :
  (forall t, ns !! ["sys"]%string <> Some (Symlink t)) -> plain ns ["sys"]%string.
Proof.
  intros Hn. apply (plain_snoc ns []); [apply plain_nil|done|done].
Qed.
Lemma run_home (ns : nodes) :
  ns !! ["run"]%string = Some (Dir 0 448) ->
  (forall u m, ns !! ["run"; "x.json"]%string <> Some (Dir u m)) ->
  journal_home ns ["run"]%string "x.json".
Proof.
  intros Hr Hj. split; [|done]. intros q c r Hq. destruct q as [|? [|]]; [|by simplify_eq..].
  injection Hq as <- <-. split; [done|]. by exists 0, 448.
Qed.
Lemma demo_sys_outside (q : path) : ["sys"]%string `prefix_of` q -> q <> ["run"; "x.json"]%string.
Proof. intros [k ->]. done. Qed.

(** ** The properties *)

(** C26: The inventory reads and never writes, and it misses nothing. When it succeeds, every entry it
    records is a regular file under the sysfs root, reached without symbolic links, that holds the
    recorded original value 0 or 1; the desired value is 0 exactly for POLL and C1; no
    file is recorded twice; every idle-state directory of every requested CPU has its
    entry; and every requested CPU has exactly one POLL and one C1 state. *)
Theorem inventory_correct (root : path) (cpus : list N) (s : iost) :
  plain (io_nodes s) root -> (forall l, io_order s l ≡ₚ l) -> NoDup cpus ->
  let '(r, s') := inventory root cpus s in
  io_nodes s' = io_nodes s /\
  forall es, r = Ok es ->
    Forall (recorded_entry (io_nodes s) root) es /\ NoDup (paths_of es) /\
    forall cpu, cpu ∈ cpus ->
      (forall item, state_dir (io_nodes s) root cpu item ->
         exists e, e ∈ es /\ ie_cpu e = cpu /\
           ie_disable_path e = (cpuidle_dir root cpu ++ [item]) ++ ["disable"%string]) /\
      length (states_of cpu "POLL" es) = 1%nat /\ length (states_of cpu "C1" es) = 1%nat.
Proof.
  intros Hp Hord Hnd. pose proof (iwp_elim _ _ _ (inventory_spec root cpus s Hp)) as [Hs Hr].
  destruct (inventory root cpus s) as [r s']. split; [apply Hs|]. intros es Hes.
  specialize (Hr es Hes). destruct (inv_recorded _ _ _ _ _ Hord Hp Hnd Hr) as [H1 H2].
  split; [done|]. split; [done|]. intros cpu Hin. split.
  - intros item. by eapply inv_complete.
  - by eapply inv_ok_counts.
Qed.

Lemma inventory_correct_witness :
  exists s', inventory ["sys"]%string [2%N] (calm demo_sys) = (Ok demo_entries, s') /\
    io_nodes s' = demo_sys /\ NoDup (paths_of demo_entries) /\
    length (states_of 2 "POLL" demo_entries) = 1%nat.
Proof.
  pose proof (inventory_correct ["sys"]%string [2%N] (calm demo_sys)) as H.
  assert (Hi : (inventory ["sys"]%string [2%N] (calm demo_sys)).1 = Ok demo_entries) by (vm_compute; reflexivity).
  destruct (inventory ["sys"]%string [2%N] (calm demo_sys)) as [r s']. simpl in Hi. subst r.
  destruct H as [Hn H]; [|intros l; reflexivity|apply NoDup_singleton|].
  { apply sys_plain. intros t. vm_compute. discriminate. }
  exists s'. split; [reflexivity|]. split; [exact Hn|].
  destruct (H demo_entries eq_refl) as (_ & Hd & Hc). split; [exact Hd|].
  apply Hc, list_elem_of_here.
Defined.

(** Apply is safe under any failure. Whichever system call fails, the file system differs from
    the one it started with at most in recorded files, each of which held its recorded
    original value and now holds the desired one (so a file changed by someone else since the inventory
    is never overwritten), and success means that every recorded file holds its desired value. *)
Theorem apply_safe (root : path) (es : list IdleEntry) (s : iost) :
  NoDup (paths_of es) -> Forall (entry_wf (io_nodes s)) es ->
  let '(r, s') := apply root es s in
  moved nowhere ie_original ie_desired es (io_nodes s) (io_nodes s') /\
  (r = Ok tt -> all_hold (io_nodes s') ie_desired es).
Proof.
  intros Hnd Hwf. pose proof (iwp_elim _ _ _ (apply_spec root es Hnd s Hwf)) as (_ & _ & Hm & Hok).
  by destruct (apply root es s).
Qed.

Lemma demo_recorded : Forall (recorded_entry demo_sys ["sys"]%string) demo_entries /\ NoDup (paths_of demo_entries).
Proof.
  assert (Hp : plain demo_sys ["sys"]%string) by (apply sys_plain; intros t; by vm_compute).
  apply (inv_recorded demo_sys (fun l => l) ["sys"]%string [2%N]); [done|done|apply NoDup_singleton|].
  apply (iwp_elim _ _ _ (inventory_spec ["sys"]%string [2%N] (calm demo_sys) Hp)). by vm_compute.
Qed.
Lemma demo_wf : Forall (entry_wf demo_sys) demo_entries.
Proof. eapply Forall_impl; [exact (proj1 demo_recorded)|]. by intros e []. Qed.

Lemma apply_safe_witness :
  exists s', apply ["sys"]%string demo_entries (calm demo_sys) = (Ok tt, s') /\
    forall e, e ∈ demo_entries -> holds (io_nodes s') e (ie_desired e).
Proof.
  pose proof (apply_safe ["sys"]%string demo_entries (calm demo_sys) (proj2 demo_recorded) demo_wf) as H.
  assert (Hi : (apply ["sys"]%string demo_entries (calm demo_sys)).1 = Ok tt) by (vm_compute; reflexivity).
  destruct (apply ["sys"]%string demo_entries (calm demo_sys)) as [r s']. simpl in Hi. subst r.
  exists s'. split; [reflexivity|]. apply H. reflexivity.
Defined.

(** An undisturbed apply after an inventory: all that the file system then satisfies. *)
Lemma apply_follows (root : path) (cpus : list N) (es : list IdleEntry) (s s1 : iost) :
  plain (io_nodes s) root -> (forall l, io_order s l ≡ₚ l) -> StronglySorted N.lt cpus ->
  inventory root cpus s = (Ok es, s1) -> no_faults s1 ->
  same s s1 /\ inv_ok (io_nodes s) (io_order s) root cpus es /\ Forall (recorded_entry (io_nodes s) root) es /\
  iwp (apply root es) s1 (fun r s2 => r = Ok tt /\ kept s1 s2 /\ benign (io_nodes s) (io_nodes s2) /\
    moved nowhere ie_original ie_desired es (io_nodes s) (io_nodes s2) /\
    forall e, e ∈ es -> holds (io_nodes s2) e (ie_desired e)).
Proof.
  intros Hp Hord Hcs Hi Hnf. pose proof (iwp_elim _ _ _ (inventory_spec root cpus s Hp)) as [Hs Hr].
  rewrite Hi in Hs, Hr. simpl in Hs, Hr. specialize (Hr es eq_refl). pose proof Hs as [Hk Hn].
  destruct (inv_recorded _ _ _ _ _ Hord Hp (sorted_distinct _ Hcs) Hr) as [Hrec Hnd].
  split; [done|]. split; [done|]. split; [done|].
  assert (Hv : gives (validate_inventory root es) s1 (Ok tt)).
  { eapply (validate_gives _ (io_nodes s)); [done|by rewrite Hn|apply (kept_order _ _ Hk)|done|done|].
    rewrite Hn. apply shape_refl. }
  apply iwp_bind. eapply gives_iwp; [exact Hv|]. intros s2 [Hk2 Hn2]. rewrite Hn in Hn2.
  rewrite Forall_forall in Hrec. eapply iwp_mono.
  { apply apply_entries_spec; [done|]. rewrite Hn2. apply Forall_forall. apply Hrec. }
  rewrite Hn2. intros r s3 (Hk3 & Hb & Hm & Hok & Hall). assert (r = Ok tt) as ->.
  { apply Hall; [by eapply no_faults_kept|]. intros e He. apply (Hrec e He). }
  split; [done|]. split; [by eapply kept_trans|]. auto.
Qed.

(** The policy takes effect. After a successful inventory of sorted CPUs, an apply that meets no
    failure succeeds, and then every idle state of every requested CPU other than POLL and
    C1 is disabled, while POLL and C1 are enabled. *)
Theorem apply_after_inventory (root : path) (cpus : list N) (es : list IdleEntry) (s s1 : iost) :
  plain (io_nodes s) root -> (forall l, io_order s l ≡ₚ l) -> StronglySorted N.lt cpus ->
  inventory root cpus s = (Ok es, s1) -> no_faults s1 ->
  exists s2, apply root es s1 = (Ok tt, s2) /\
    forall cpu item, cpu ∈ cpus -> state_dir (io_nodes s) root cpu item ->
      exists e, e ∈ es /\ ie_cpu e = cpu /\
        ie_disable_path e = (cpuidle_dir root cpu ++ [item]) ++ ["disable"%string] /\
        holds (io_nodes s2) e (desired_for (ie_name e)).
Proof.
  intros Hp Hord Hcs Hi Hnf. destruct (apply_follows _ _ _ _ _ Hp Hord Hcs Hi Hnf) as (_ & Hr & Hrec & Hw).
  apply iwp_elim in Hw. destruct (apply root es s1) as [r s2]. destruct Hw as (Hr2 & _ & _ & _ & Hall).
  simpl in Hr2. subst r. exists s2. split; [done|]. intros cpu item Hc Hit.
  destruct (inv_complete _ _ _ _ _ _ _ Hord Hr Hc Hit) as (e & He & Hcpu & Hpath).
  exists e. split; [done|]. split; [done|]. split; [done|].
  rewrite Forall_forall in Hrec. destruct (Hrec e He) as (_ & _ & _ & _ & <-). by apply Hall.
Qed.

Lemma demo_state_dir :
  state_dir demo_sys ["sys"]%string 2 "state2".
Proof. split; [apply (bool_decide_unpack _); vm_compute; exact I|by exists "2"%string]. Qed.

Lemma apply_after_inventory_witness :
  exists s1 s2 e, inventory ["sys"]%string [2%N] (calm demo_sys) = (Ok demo_entries, s1) /\
    apply ["sys"]%string demo_entries s1 = (Ok tt, s2) /\ e ∈ demo_entries /\
    ie_disable_path e = ["sys"; "cpu2"; "cpuidle"; "state2"; "disable"]%string /\
    holds (io_nodes s2) e (desired_for (ie_name e)).
Proof.
  assert (Hi : inventory ["sys"]%string [2%N] (calm demo_sys)
    = (Ok demo_entries, (inventory ["sys"]%string [2%N] (calm demo_sys)).2)) by (vm_compute; reflexivity).
  destruct (apply_after_inventory ["sys"]%string [2%N] demo_entries (calm demo_sys)
    (inventory ["sys"]%string [2%N] (calm demo_sys)).2) as (s2 & Ha & Hall).
  - apply sys_plain. intros t. vm_compute. discriminate.
  - intros l. reflexivity.
  - repeat constructor.
  - exact Hi.
  - intros k _. reflexivity.
  - destruct (Hall 2%N "state2"%string) as (e & He & _ & Hp & Hh);
      [apply list_elem_of_here|exact demo_state_dir|].
    eexists _, s2, e. split; [exact Hi|]. split; [exact Ha|]. split; [exact He|]. split; [exact Hp|exact Hh].
Defined.

(** C13: Restore is safe under any failure. Whichever system call fails, outside the journal the file
    system changes only in recorded files, from their desired to their original value; if any
    recorded file holds a value that is neither (someone else changed it), no sysfs file is
    touched at all; and success means that every recorded file holds its original value
    and the journal on disk has recorded the stages Restoring and Restored. *)
Theorem restore_safe `{SerdeLaws} (root d : path) (n : string) (j : Journal) (s : iost) :
  journal_home (io_nodes s) d n -> NoDup (paths_of (j_entries j)) ->
  d ++ [n] ∉ paths_of (j_entries j) -> Forall (entry_wf (io_nodes s)) (j_entries j) ->
  let '(r, s') := restore root (d ++ [n]) j s in
  moved (is_journal d n) ie_desired ie_original (j_entries j) (io_nodes s) (io_nodes s') /\
  (forall e, e ∈ j_entries j -> ~ owned (io_nodes s) e ->
     (exists err, r = Err err) /\ untouched d n (io_nodes s) (io_nodes s')) /\
  (forall j', r = Ok j' ->
     stage j' = Restored /\ stored d n (io_nodes s') j' /\ j_entries j' = j_entries j /\
     all_hold (io_nodes s') ie_original (j_entries j)).
Proof.
  intros Hh Hnd Hjp Hwf.
  pose proof (iwp_elim _ _ _ (restore_spec d n root j s Hh Hnd Hjp Hwf)) as (_ & _ & Hm & Hfor & Hok).
  destruct (restore root (d ++ [n]) j s) as [r s']. simpl in *. split; [done|]. split.
  - intros e He Hno. split; [|intros q Hq; by eapply Hfor]. destruct r as [j'|err]; [|eauto]. exfalso.
    destruct (Hok j' eq_refl) as (_ & _ & Hall). apply Hno. left.
    eapply holds_eq; [|by apply Hall]. symmetry. eapply Hfor; [done|done|].
    intros Heq. apply Hjp. rewrite <- Heq. by apply list_elem_of_fmap_2.
  - intros j' Hr. destruct (Hok j' Hr) as (-> & Hst & Hall). split; [|done].
    unfold stage, pushed. simpl. by rewrite last_snoc.
Qed.

(** The file system after an apply: C6 is disabled. *)
Definition applied_sys : nodes := io_nodes (apply ["sys"]%string demo_entries (calm demo_sys)).2.
Lemma applied_wf : Forall (entry_wf applied_sys) demo_entries.
Proof.
  pose proof (iwp_elim _ _ _ (apply_spec ["sys"]%string demo_entries (proj2 demo_recorded) (calm demo_sys) demo_wf))
    as (_ & Hb & _).
  exact (entries_wf_benign _ _ _ Hb demo_wf).
Qed.

Lemma restore_safe_witness :
  exists j' s', @restore run_serde ["sys"]%string ["run"; "x.json"]%string demo_run (calm applied_sys)
      = (Ok j', s') /\
    stage j' = Restored /\ forall e, e ∈ demo_entries -> holds (io_nodes s') e (ie_original e).
Proof.
  pose proof (@restore_safe run_serde (stage_serde_laws _ _ _) ["sys"]%string ["run"]%string "x.json" demo_run
    (calm applied_sys)) as Hsafe.
  assert (Hi : is_ok (@restore run_serde ["sys"]%string (["run"] ++ ["x.json"]) demo_run
    (calm applied_sys)).1 = true) by (vm_compute; reflexivity).
  destruct (@restore run_serde ["sys"]%string (["run"] ++ ["x.json"]) demo_run (calm applied_sys))
    as [[j'|] s'] eqn:E; [|discriminate Hi].
  destruct Hsafe as (_ & _ & Hok).
  - apply run_home; [vm_compute; reflexivity|intros u m; vm_compute; discriminate].
  - exact (proj2 demo_recorded).
  - apply (bool_decide_unpack _). vm_compute. exact I.
  - exact applied_wf.
  - destruct (Hok j' eq_refl) as (Hst & _ & _ & Hall). exists j', s'.
    split; [exact E|]. split; [exact Hst|exact Hall].
Defined.

(** C10: Recovery converges. Take any file system that a successful inventory followed by any sequence of
    applies and restores of its entries can leave, each of them failing or being killed at any
    system call. One restore that meets no failure then succeeds; afterwards every
    recorded file holds its original value, every other file is as it was at the inventory
    (the journal's apart), and the journal says Restored. *)
Theorem recovery_converges `{SerdeLaws} (root d : path) (n : string) (cpus : list N)
    (es : list IdleEntry) (j : Journal) (s0 s1 s : iost) :
  plain (io_nodes s0) root -> (forall l, io_order s0 l ≡ₚ l) -> StronglySorted N.lt cpus ->
  inventory root cpus s0 = (Ok es, s1) ->
  journal_home (io_nodes s0) d n -> (forall q, root `prefix_of` q -> q <> d ++ [n]) ->
  episode root d n es (io_nodes s0) (io_nodes s) ->
  no_faults s -> io_order s = io_order s0 ->
  j_entries j = es -> validate j = Ok tt -> encodable s j ->
  exists j' s', restore root (d ++ [n]) j s = (Ok j', s') /\ stage j' = Restored /\
    stored d n (io_nodes s') j' /\
    (forall e, e ∈ es -> holds (io_nodes s') e (ie_original e)) /\
    forall q, q <> d ++ [n] -> q ∉ paths_of es -> io_nodes s' !! q = io_nodes s0 !! q.
Proof.
  intros Hp Hord Hcs Hi Hh Hout Hep Hnf Ho <- Hval Henc.
  pose proof (iwp_elim _ _ _ (inventory_spec root cpus s0 Hp)) as [_ Hr].
  rewrite Hi in Hr. specialize (Hr _ eq_refl).
  destruct (inv_recorded _ _ _ _ _ Hord Hp (sorted_distinct _ Hcs) Hr) as [Hrec Hnd].
  pose proof (episode_recoverable root d n _ _ Hnd Hout Hrec _ Hh Hp Hep) as (Hh' & Hp' & Hsh & Hes & Hoth).
  assert (Hwf : Forall (entry_wf (io_nodes s)) (j_entries j)) by (apply Forall_forall; apply Hes).
  assert (Hjp : d ++ [n] ∉ paths_of (j_entries j)).
  { intros Hin. apply list_elem_of_fmap in Hin as (e & Heq & He).
    rewrite Forall_forall in Hrec. destruct (Hrec e He) as (_ & _ & Hpre & _). by apply (Hout _ Hpre). }
  pose proof (iwp_elim _ _ _ (restore_spec d n root j s Hh' Hnd Hjp Hwf)) as (_ & _ & Hm & _ & Hok).
  destruct (iwp_elim _ _ _ (restore_succeeds d n root j s (io_nodes s0) cpus Hnf Hh' Hnd Hout Hp' Hcs
    ltac:(by rewrite Ho) Hsh
    ltac:(intros e He; rewrite Forall_forall in Hrec; split; [by apply Hrec|by apply Hes]) Hval Henc)) as [j' Hj'].
  destruct (restore root (d ++ [n]) j s) as [r s']. simpl in *. subst r. exists j', s'.
  destruct (Hok j' eq_refl) as (-> & Hst & Hall). split; [done|]. split; [|split; [done|split; [done|]]].
  - unfold stage, pushed. simpl. by rewrite last_snoc.
  - intros q Hq Hnot. rewrite <- Hoth by done. by eapply moved_notin.
Qed.

(** An apply that dies right after writing the last value, then a restore that dies half-way. *)
Definition wounded_sys : nodes :=
  io_nodes (@restore run_serde ["sys"]%string ["run"; "x.json"]%string demo_run
    (dies_at 30 (io_nodes (apply ["sys"]%string demo_entries (dies_at 26 demo_sys)).2))).2.

Lemma wounded_episode :
  @episode run_serde ["sys"]%string ["run"]%string "x.json" demo_entries demo_sys wounded_sys.
Proof.
  refine (@ep_restore run_serde ["sys"]%string ["run"]%string "x.json" demo_entries demo_sys demo_run
    (dies_at 30 _) _ eq_refl).
  refine (@ep_apply run_serde ["sys"]%string ["run"]%string "x.json" demo_entries demo_sys (dies_at 26 demo_sys) _).
  apply ep_start.
Qed.

Lemma recovery_converges_witness :
  exists j' s', @restore run_serde ["sys"]%string ["run"; "x.json"]%string demo_run (calm wounded_sys)
      = (Ok j', s') /\
    stage j' = Restored /\ forall e, e ∈ demo_entries -> holds (io_nodes s') e (ie_original e).
Proof.
  destruct (@recovery_converges run_serde (stage_serde_laws _ _ _) ["sys"]%string ["run"]%string "x.json" [2%N]
    demo_entries demo_run (calm demo_sys) (inventory ["sys"]%string [2%N] (calm demo_sys)).2 (calm wounded_sys))
    as (j' & s' & Hr & Hst & _ & Hall & _).
  - apply sys_plain. intros t. vm_compute. discriminate.
  - intros l. reflexivity.
  - repeat constructor.
  - vm_compute. reflexivity.
  - apply run_home; [vm_compute; reflexivity|intros u m; vm_compute; discriminate].
  - exact demo_sys_outside.
  - exact wounded_episode.
  - intros k _. reflexivity.
  - reflexivity.
  - reflexivity.
  - vm_compute. reflexivity.
  - split; vm_compute; eexists; reflexivity.
  - exists j', s'. split; [exact Hr|]. split; [exact Hst|exact Hall].
Defined.

(** Waiting for the lock is bounded. Since every retry sleeps ten milliseconds, the loop returns
    within 1001 attempts whatever try_lock answers; it succeeds exactly if the attempt it stops at got the lock,
    every earlier attempt found the lock taken within the ten-second budget, and without [wait] only
    one attempt is made. *)
Theorem lock_wait_bounded (try_lock : nat -> result unit io_error) (elapsed_ms : nat -> Z) (wait : bool)
    (label : string) :
  0 <= elapsed_ms 0%nat -> (forall n, elapsed_ms n + 10 <= elapsed_ms (S n)) ->
  exists k, (k <= 1000)%nat /\ (wait = false -> k = 0%nat) /\
    (forall i, (i < k)%nat -> lock_retries try_lock elapsed_ms wait i) /\
    acquire_lock 1001 try_lock elapsed_ms 0 wait label =
      Some (match try_lock k with Ok _ => Ok tt | Err _ => Err (State label) end).
Proof.
  intros H0 Hs. assert (Hel : forall n, 10 * Z.of_nat n <= elapsed_ms n).
  { induction n as [|n IH]; [lia|]. specialize (Hs n). lia. }
  destruct (acquire_lock_spec try_lock elapsed_ms wait label 1001 0) as (k & Hk & Hall & Hno & Heq).
  { exists 1000%nat. split; [lia|]. intros (_ & _ & Hlt). specialize (Hel 1000%nat).
    unfold RECOVERY_LOCK_WAIT_MS in Hlt. lia. }
  exists k. split; [lia|]. split; [|split; [|done]].
  - intros ->. destruct k as [|k]; [done|]. destruct (Hall 0%nat) as (_ & [=] & _). lia.
  - intros i Hi. apply Hall. lia.
Qed.

(** The lock is free at the third attempt. *)
Lemma lock_wait_bounded_witness :
  acquire_lock 1001 (fun n => if (n <? 2)%nat then Err WouldBlock else Ok tt) (fun n => 10 * Z.of_nat n) 0
    true "busy" = Some (Ok tt).
Proof.
  destruct (lock_wait_bounded (fun n => if (n <? 2)%nat then Err WouldBlock else Ok tt)
    (fun n => 10 * Z.of_nat n) true "busy") as (k & _ & _ & Hall & Heq); [lia|intros n; lia|].
  rewrite Heq. destruct (Nat.ltb_spec k 2) as [Hlt|Hge]; [|reflexivity].
  exfalso. assert (Hc : acquire_lock 1001 (fun n => if (n <? 2)%nat then Err WouldBlock else Ok tt)
    (fun n => 10 * Z.of_nat n) 0 true "busy" = Some (Ok tt)) by (vm_compute; reflexivity).
  rewrite Heq in Hc. destruct k as [|[|k]]; [discriminate Hc|discriminate Hc|lia].
Defined.
