(* ===== verification/RunSafety.v ===== *)
(** * The journal's write-ahead invariant over a whole run

    From the moment a run has stored its journal, whatever fails and wherever the process dies, the
    journal on disk is unfinished as long as any idle-state value may differ from its
    original. An unfinished journal blocks every later run until a recovery. *)

From stdpp Require Import pretty sorting.
From Stdlib Require Import Ascii.
From S2P Require Import Prelude BenchFs Journal Receipt Cpuidle CpuidleProofs CpuidleSafety.
Open Scope Z_scope.

(** From states of [G], which it keeps, a program leaves the nodes of [P] alone. *)
Definition frames (P : path -> Prop) (G : iost -> Prop) {A} (m : IO A) : Prop :=
  forall s, G s -> G (m s).2 /\ forall q, P q -> io_nodes (m s).2 !! q = io_nodes s !! q.

(** What a run relies on when it hands an operation to the supervision: from the states of [G], the supervision and the
    workload leave the nodes of [P] alone. A run that only rewrites files of [P] stays in [G]. *)
Class SupervisionFrame `{SupervisionOps} (P : path -> Prop) (G : iost -> Prop) (state_root : path) (id : string) := {
  frame_stable : forall s s', G s -> kept s s' -> benign (io_nodes s) (io_nodes s') ->
    (forall q, ~ P q -> io_nodes s' !! q = io_nodes s !! q) -> G s';
  coordinate_frame : forall r, cr_state_root r = state_root -> cr_operation_id r = id ->
    frames P G (coordinate r);
  recover_outcome_frame : frames P G (recover_outcome state_root id);
  cleanup_runtime_frame : frames P G (cleanup_runtime state_root id);
}.

Section wal.
Context `{SL : SerdeLaws} (d : path) (n : string) (es : list IdleEntry).
Abbreviation jp := (d ++ [n]).

(** The journal on disk is valid, records [es], and is not finished. *)
Definition unfinished (ns : nodes) : Prop :=
  exists j, stored d n ns j /\ stage j <> Restored /\ j_entries j = es.
(** The journal says Restored, and every value is its original. *)
Definition finished (ns : nodes) : Prop :=
  (exists j, stored d n ns j /\ stage j = Restored /\ j_entries j = es) /\ all_hold ns ie_original es.

(** The nodes that hold the journal and the values, and the directories above them. *)
Definition guarded (q : path) : Prop :=
  q `prefix_of` jp \/ exists e, e ∈ es /\ q `prefix_of` ie_disable_path e.

Definition grounded (ns : nodes) : Prop := journal_home ns d n /\ Forall (entry_wf ns) es.
Definition open_run (ns : nodes) : Prop := grounded ns /\ unfinished ns.

(** Conditions on the state that survive the rewriting of guarded files *)
Context (G : iost -> Prop) (HG : forall s s', G s -> kept s s' -> benign (io_nodes s) (io_nodes s') ->
  (forall q, ~ guarded q -> io_nodes s' !! q = io_nodes s !! q) -> G s').
Definition open_at (s : iost) : Prop := G s /\ open_run (io_nodes s).

Lemma ground_same s s' : G s -> same s s' -> G s'.
Proof. intros Hg [Hk Hn]. apply (HG s); [done..|rewrite Hn; apply benign_refl|by intros; rewrite Hn]. Qed.
Lemma ground_except s s' p : G s -> kept s s' -> benign (io_nodes s) (io_nodes s') -> guarded p ->
  (forall q, q <> p -> io_nodes s' !! q = io_nodes s !! q) -> G s'.
Proof. intros Hg Hk Hb Hp Hq. apply (HG s); [done..|]. intros q Hn. apply Hq. intros ->. by apply Hn. Qed.

(** Programs that leave an unfinished journal unfinished. *)
Definition keeps_open {A} (m : IO A) : Prop := forall s, open_at s -> open_at (m s).2.

Lemma keeps_ro {A} (m : IO A) : ro m -> keeps_open m.
Proof. intros Hm s [Hg Hs]. split; [by eapply ground_same|]. by rewrite (proj2 (Hm s)). Qed.
Lemma keeps_bind {A B} (m : IO A) (k : A -> IO B) :
  keeps_open m -> (forall x, keeps_open (k x)) -> keeps_open (mbind k m).
Proof.
  intros Hm Hk s Hs. unfold mbind, IO_bind. specialize (Hm s Hs).
  destruct (m s) as [[x|e] s1]; [by apply Hk|done].
Qed.
Lemma keeps_try {A} (m : IO A) : keeps_open m -> keeps_open (try m).
Proof. intros Hm s Hs. specialize (Hm s Hs). unfold try. by destruct (m s). Qed.

Context (Hjp : jp ∉ paths_of es).

Lemma stored_insert ns q c u m j :
  q <> jp -> stored d n ns j -> stored d n (<[q := File c u m]> ns) j.
Proof.
  intros Hq (Hv & b & u' & m' & Hf & Hb). split; [done|]. exists b, u', m'. by rewrite lookup_insert_ne.
Qed.

Lemma grounded_benign ns ns' : benign ns ns' -> grounded ns -> grounded ns'.
Proof. intros Hb [Hh Hw]. split; [by eapply journal_home_benign|by eapply entries_wf_benign]. Qed.

(** Storing a journal: the file is as before or holds the new journal. *)
Lemma store_cases j s :
  journal_home (io_nodes s) d n ->
  iwp (store_journal jp j) s (fun r s' => kept s s' /\ benign (io_nodes s) (io_nodes s') /\
    (io_nodes s' = io_nodes s \/
     (stored d n (io_nodes s') j /\ forall q, q <> jp -> io_nodes s' !! q = io_nodes s !! q)) /\
    (r = Ok tt -> stored d n (io_nodes s') j)).
Proof.
  intros Hh. destruct (validate j) as [[]|e] eqn:Ev.
  2: { unfold store_journal, iwp, mbind, IO_bind, lift. rewrite Ev. simpl. split; [apply kept_refl|].
       split; [apply benign_refl|]. split; [by left|done]. }
  pose proof Hh as (Hd & Hn & Hnd).
  eapply iwp_mono; [apply iwp_and; [by apply store_journal_spec|by apply store_spec]|].
  intros r s' [(Hk & Hor & _ & _) ((_ & Hb & Hq) & Hok & _)]. split; [done|]. split; [done|]. split; [|done].
  destruct Hor as [?|(b & Hb' & Hns)]; [by left|right]. split; [|done]. split; [done|].
  exists b, (pr_euid (io_proc s)), 384. by rewrite Hns, lookup_insert_eq.
Qed.

Lemma guarded_journal : guarded jp.
Proof. by left. Qed.
Lemma guarded_entry e : e ∈ es -> guarded (ie_disable_path e).
Proof. intros He. right. by exists e. Qed.
Lemma store_ground j s : G s -> journal_home (io_nodes s) d n -> G (store_journal jp j s).2.
Proof.
  intros Hgr Hh. destruct (iwp_elim _ _ _ (store_cases j s Hh)) as (Hk & Hb & Hor & _).
  apply (ground_except s _ jp); [done..|apply guarded_journal|]. by destruct Hor as [->|[_ Hq]].
Qed.

Lemma keeps_store j : stage j <> Restored -> j_entries j = es -> keeps_open (store_journal jp j).
Proof.
  intros Hst Hes s [Hgr [Hg Hu]]. split; [by apply store_ground; [|apply Hg]|].
  destruct (iwp_elim _ _ _ (store_cases j s (proj1 Hg))) as (_ & Hb & Hor & _).
  split; [by eapply grounded_benign|]. destruct Hor as [->|[Hs _]]; [done|]. by exists j.
Qed.

Lemma stage_pushed s st j : stage (pushed s st j) = st.
Proof. unfold stage, pushed. simpl. by rewrite last_snoc. Qed.

Lemma keeps_transition {A} st j (k : Journal -> IO A) :
  (forall s, keeps_open (k (pushed s st j))) -> keeps_open (a ← actor; j ← transition st a j; k j).
Proof. intros Hk s Hs. exact (Hk s s Hs). Qed.

Lemma keeps_conflict {A} j p ex ac : j_entries j = es -> keeps_open (restore_conflict (A := A) jp j p ex ac).
Proof.
  intros Hes. apply keeps_transition. intros s. apply keeps_bind; [|intros []; by apply keeps_ro, ro_throw].
  apply keeps_store; [by rewrite stage_pushed|done].
Qed.

Lemma keeps_write e v : e ∈ es -> is_bit v -> keeps_open (write_bit (ie_disable_path e) v).
Proof.
  intros He Hv s [Hgr [[Hh Hw] Hu]]. rewrite Forall_forall in Hw. pose proof (Hw e He) as Hwf.
  pose proof Hwf as (Hp & Hne & _ & _ & c & u & m & Hf).
  destruct (iwp_elim _ _ _ (write_bit_spec _ v c u m s Hp Hne Hf Hv)) as (Hk & Hor & _).
  unfold open_at. destruct Hor as [Heq|Heq].
  { split; [by eapply ground_same|]. rewrite Heq. by split; [split; [|apply Forall_forall]|]. }
  assert (Hb : benign (io_nodes s) (<[ie_disable_path e := File (bit_line v) u m]> (io_nodes s))).
  { apply benign_insert. intros u' m'. by rewrite Hf. }
  split; [|rewrite Heq; split; [eapply grounded_benign; [exact Hb|by split; [|apply Forall_forall]]|]].
  - apply (ground_except s _ (ie_disable_path e)); [done..|by rewrite Heq|by apply guarded_entry|].
    intros q Hq. by rewrite Heq, lookup_insert_ne.
  - destruct Hu as (j & Hs & Hst & Hes). exists j. split; [|done]. apply stored_insert; [|done].
    intros Hj. apply Hjp. rewrite <- Hj. by apply list_elem_of_fmap_2.
Qed.

(** *** The loops *)

Definition bits_of (l : list IdleEntry) : Prop :=
  Forall (fun e => e ∈ es /\ is_bit (ie_original e) /\ is_bit (ie_desired e)) l.

Lemma keeps_apply_entries l : bits_of l -> keeps_open (apply_entries l).
Proof.
  induction 1 as [|e l (He & _ & Hd) _ IH]; cbn [apply_entries]; [by apply keeps_ro, ro_ret|].
  apply keeps_bind; [by apply keeps_ro, ro_read_bit|]. intros c. case_match; [by apply keeps_ro, ro_throw|].
  apply keeps_bind; [by apply keeps_write|]. by intros [].
Qed.
Lemma keeps_check j l : j_entries j = es -> keeps_open (check_entries jp j l).
Proof.
  intros Hes. induction l as [|e l IH]; cbn [check_entries]; [by apply keeps_ro, ro_ret|].
  apply keeps_bind; [by apply keeps_ro, ro_read_bit|]. intros c. case_match; [by apply keeps_conflict|done].
Qed.
Lemma keeps_restore_entries j l : j_entries j = es -> bits_of l -> keeps_open (restore_entries jp j l).
Proof.
  intros Hes. induction 1 as [|e l (He & Ho & _) _ IH]; cbn [restore_entries]; [by apply keeps_ro, ro_ret|].
  apply keeps_bind; [by apply keeps_ro, ro_read_bit|]. intros c. case_match; [by apply keeps_conflict|].
  apply keeps_bind; [|by intros []]. case_match; [by apply keeps_write|by apply keeps_ro, ro_ret].
Qed.
Lemma keeps_verify j l : j_entries j = es -> keeps_open (verify_entries jp j l).
Proof.
  intros Hes. induction l as [|e l IH]; cbn [verify_entries]; [by apply keeps_ro, ro_ret|].
  apply keeps_bind; [by apply keeps_ro, ro_read_bit|]. intros c. case_match; [by apply keeps_conflict|done].
Qed.

Section guarded_eq.
Context (ns ns' : nodes) (Heq : forall q, guarded q -> ns' !! q = ns !! q).

Lemma stored_guarded j : stored d n ns j -> stored d n ns' j.
Proof. unfold stored. by rewrite (Heq _ guarded_journal). Qed.
Lemma grounded_guarded : grounded ns -> grounded ns'.
Proof.
  intros [(Hd & Hn & Hnd) Hw]. split; [split; [|split; [done|]]|].
  - intros q c r Hdq. destruct (Hd q c r Hdq) as (Hc & u & m & Hq). split; [done|]. exists u, m.
    rewrite Heq; [done|]. left. exists (r ++ [n]). rewrite Hdq, <- !app_assoc. reflexivity.
  - intros u m. rewrite (Heq _ guarded_journal). apply Hnd.
  - rewrite Forall_forall in Hw |- *. intros e He. destruct (Hw e He) as (Hp & Hne & Ho & Hds & Hf).
    rewrite <- (Heq _ (guarded_entry e He)) in Hf.
    split; [eapply plain_eq; [done|]; intros q Hq; apply Heq; right; by exists e|done].
Qed.
Lemma all_hold_guarded f : all_hold ns f es -> all_hold ns' f es.
Proof. intros Ha e He. eapply holds_eq; [|by apply Ha]. apply Heq. by apply guarded_entry. Qed.
End guarded_eq.

Lemma keeps_frame {A} (m : IO A) : frames guarded G m -> keeps_open m.
Proof.
  intros Hm s [Hgr [Hg (j & Hs & Hr)]]. destruct (Hm s Hgr) as [Hgr' Hq]. split; [done|].
  split; [by eapply grounded_guarded|]. exists j. split; [|done]. by eapply stored_guarded.
Qed.

(** *** Restoring closes the run *)

(** The journal is unfinished, or it is finished and the values are back. *)
Definition settled (ns : nodes) : Prop := grounded ns /\ (unfinished ns \/ finished ns).

Definition settled_at (s : iost) : Prop := G s /\ settled (io_nodes s).

(** From an open run the program settles it, and it returns a value only when it is finished. *)
Definition settles {A} (m : IO A) : Prop := forall s, open_at s ->
  settled_at (m s).2 /\ (is_ok (m s).1 = true -> finished (io_nodes (m s).2)).

Lemma open_settled s : open_at s -> settled_at s.
Proof. intros [Hgr [Hg Hu]]. split; [done|]. split; [done|by left]. Qed.
Lemma settles_bind {A B} (m : IO A) (k : A -> IO B) :
  keeps_open m -> (forall x, settles (k x)) -> settles (mbind k m).
Proof.
  intros Hm Hk s Hs. unfold mbind, IO_bind. specialize (Hm s Hs).
  destruct (m s) as [[x|e] s1]; [by apply Hk|]. split; [by apply open_settled|done].
Qed.
Lemma settles_fails {A} (m : IO A) : keeps_open m -> (forall s, is_ok (m s).1 = false) -> settles m.
Proof. intros Hm Hf s Hs. split; [by apply open_settled, Hm|by rewrite Hf]. Qed.

(** What follows a settling program leaves the guarded nodes alone. *)
Lemma settles_then {A B} (m : IO A) (k : A -> IO B) :
  settles m -> (forall x, frames guarded G (k x)) -> settles (mbind k m).
Proof.
  intros Hm Hk s Hs. unfold mbind, IO_bind. destruct (Hm s Hs) as [[Hgr Ht] Hf].
  destruct (m s) as [[x|e] s1]; [|by split]. simpl in *. destruct (Hk x s1 Hgr) as [Hgr' Hq].
  destruct (k x s1) as [r s2]. simpl in *.
  assert (Hfin : finished (io_nodes s2)).
  { destruct (Hf eq_refl) as [(j & Hj & Hr) Ha]. split; [|by eapply all_hold_guarded].
    exists j. split; [by eapply stored_guarded|done]. }
  split; [|done]. split; [done|]. split; [eapply grounded_guarded; [done|apply Ht]|by right].
Qed.

(** A program that settles the run, followed by one that only fails. *)
Lemma settles_failing {A B} (m : IO A) (k : A -> IO B) :
  (forall s, open_at s -> settled_at (m s).2) ->
  (forall x s, exists e, k x s = (Err e, s)) -> settles (mbind k m).
Proof.
  intros Hm Hk s Hs. specialize (Hm s Hs). unfold mbind, IO_bind.
  destruct (m s) as [[x|e] s1]; [|by split]. by destruct (Hk x s1) as [e ->].
Qed.

Lemma settles_transition {A} st a j (k : Journal -> IO A) :
  (forall t, settles (k (push_transition (mkTransition st a t) j))) ->
  settles (j ← transition st a j; k j).
Proof. intros Hk s Hs. exact (Hk (io_millis s) s Hs). Qed.
Lemma settles_store {A} j (k : unit -> IO A) :
  stage j <> Restored -> j_entries j = es -> settles (k tt) -> settles (x ← store_journal jp j; k x).
Proof. intros Hst Hes Hk. apply settles_bind; [by apply keeps_store|by intros []]. Qed.

Lemma finished_stored ns ns' j :
  stored d n ns' j -> stage j = Restored -> j_entries j = es ->
  (forall q, q <> jp -> ns' !! q = ns !! q) -> all_hold ns ie_original es -> finished ns'.
Proof.
  intros Hs Hst Hes Hq Ha. split; [by exists j|]. intros e He. eapply holds_eq; [|by apply Ha].
  apply Hq. intros Heq. apply Hjp. rewrite <- Heq. by apply list_elem_of_fmap_2.
Qed.

Lemma bind_ok {A B} (m : IO A) (k : A -> IO B) s x s1 : m s = (Ok x, s1) -> mbind k m s = k x s1.
Proof. unfold mbind, IO_bind. by intros ->. Qed.
Lemma bind_err {A B} (m : IO A) (k : A -> IO B) s e s1 : m s = (Err e, s1) -> mbind k m s = (Err e, s1).
Proof. unfold mbind, IO_bind. by intros ->. Qed.

(** Storing the final journal finishes the run, or leaves it open. *)
Lemma settles_final j s :
  open_at s -> stage j = Restored -> j_entries j = es -> all_hold (io_nodes s) ie_original es ->
  settled_at (store_journal jp j s).2 /\
  ((store_journal jp j s).1 = Ok tt -> finished (io_nodes (store_journal jp j s).2)).
Proof.
  intros [Hgr [Hg Hu]] Hst Hes Ha.
  pose proof (iwp_elim _ _ _ (store_cases j s (proj1 Hg))) as (_ & Hb & Hor & Hok).
  assert (Hfin : stored d n (io_nodes (store_journal jp j s).2) j ->
    (forall q, q <> jp -> io_nodes (store_journal jp j s).2 !! q = io_nodes s !! q) ->
    finished (io_nodes (store_journal jp j s).2)) by (intros; by eapply finished_stored).
  split; [split; [by apply store_ground; [|apply Hg]|]; split; [by eapply grounded_benign|]|].
  - destruct Hor as [->|[Hs Hq]]; [by left|right; by apply Hfin].
  - intros Hr. apply Hfin; [by apply Hok|]. by destruct Hor as [->|[_ Hq]].
Qed.

Lemma settles_tail root j : j_entries j = es -> settles (restore_tail d n root j).
Proof.
  intros Hes. apply settles_bind; [apply keeps_ro, ro_validate|]. intros [] s Hs.
  pose proof (keeps_verify j (j_entries j) Hes s Hs) as Hv. destruct Hs as (_ & Hg & _).
  assert (Hwf : Forall (entry_wf (io_nodes s)) (j_entries j)) by (rewrite Hes; apply Hg).
  pose proof (iwp_elim _ _ _ (verify_entries_spec d n j (j_entries j) s (proj1 Hg) Hwf)) as (_ & Hok & _).
  destruct (verify_entries jp j (j_entries j) s) as [[[]|e] s1] eqn:E;
    [rewrite (bind_ok _ _ _ _ _ E)|rewrite (bind_err _ _ _ _ _ E); split; [by apply open_settled|done]].
  simpl in Hv, Hok. destruct (Hok eq_refl) as [[_ Hsame] Ha]. rewrite Hes, <- Hsame in Ha.
  set (j' := pushed s1 Restored j).
  change ((fun r => settled_at r.2 /\ (is_ok r.1 = true -> finished (io_nodes r.2)))
    ((_ ← store_journal jp j'; mret j') s1)).
  destruct (settles_final j' s1 Hv (stage_pushed _ _ _) Hes Ha) as [Ht Hf].
  unfold mbind, IO_bind. destruct (store_journal jp j' s1) as [[[]|e] s2]; split; try done. intros _. by apply Hf.
Qed.

Context (Hbits : bits_of es).

Lemma settles_restore root j : j_entries j = es -> settles (restore root jp j).
Proof.
  intros Hes. rewrite restore_unfold.
  apply settles_bind; [apply keeps_ro, ro_validate|]. intros [].
  apply settles_bind; [by apply keeps_check|]. intros [] s Hs. set (j' := pushed s Restoring j).
  apply (settles_bind (store_journal jp j') (fun _ => _ ← restore_entries jp j' (j_entries j');
    restore_tail d n root j')); [apply keeps_store; [unfold j'; by rewrite stage_pushed|done]| |done].
  intros []. apply settles_bind; [|intros []; by apply settles_tail].
  apply keeps_restore_entries; [done|]. change (j_entries j') with (j_entries j). by rewrite Hes.
Qed.

Lemma keeps_apply root : keeps_open (apply root es).
Proof.
  apply keeps_bind; [apply keeps_ro, ro_validate|]. intros []. by apply keeps_apply_entries.
Qed.
End wal.

Lemma stage_push st a t j : stage (push_transition (mkTransition st a t) j) = st.
Proof. unfold stage. simpl. by rewrite last_snoc. Qed.

Section whole_run.
Context `{SL : SerdeLaws} `{ReceiptSerde} `{GitOs} `{SO : SupervisionOps} `{BenchOs}.
Context (d : path) (id : string) (es : list IdleEntry).
Abbreviation jn := (id +:+ ".json")%string.
Context (G : iost -> Prop) {SF : SupervisionFrame (guarded d jn es) G d id}.
Abbreviation stable := (frame_stable (SupervisionFrame := SF)).

Lemma keeps_reconcile j :
  stage j <> Restored -> j_entries j = es -> j_operation_id j = id ->
  forall s, open_at d jn es G s ->
    open_at d jn es G (reconcile_runtime_outcome d (d ++ [jn]) j s).2 /\
    forall j', (reconcile_runtime_outcome d (d ++ [jn]) j s).1 = Ok j' ->
      stage j' = stage j /\ j_entries j' = es /\ j_operation_id j' = id.
Proof.
  intros Hst Hes Hid s Hs. unfold reconcile_runtime_outcome.
  destruct (j_outcome j); [split; [done|by intros j' [= <-]]|]. rewrite Hid.
  pose proof (keeps_frame d jn es G _ recover_outcome_frame s Hs) as Hr1.
  destruct (recover_outcome d id s) as [[[o|]|e] s1] eqn:E; simpl in Hr1;
    [rewrite (bind_ok _ _ _ _ _ E)|rewrite (bind_ok _ _ _ _ _ E)|rewrite (bind_err _ _ _ _ _ E)];
    [|split; [done|by intros j' [= <-]]|by split].
  pose proof (keeps_store d jn es G stable (set_outcome (terminal_outcome o) j) Hst Hes s1 Hr1) as Hr2.
  destruct (store_journal (d ++ [jn]) (set_outcome (terminal_outcome o) j) s1) as [[[]|e] s2] eqn:E2;
    [rewrite (bind_ok _ _ _ _ _ E2)|rewrite (bind_err _ _ _ _ _ E2)]; split; try done.
  by intros j' [= <-].
Qed.

(** A run up to the report of its outcome: what [run_journaled] does but for its last step. *)
Definition run_restored (r : RunRequest path) (p : path) (operation_id : string) (coordinator workload_actor : Actor)
    (accepted_receipt accepted_executable : path) (watch : option Z) (j : Journal) : IO Outcome :=
  applied ← try (apply (rr_sysfs_root r) (j_entries j));
  match applied with
  | Err error =>
      restored ← try (restore (rr_sysfs_root r) p j);
      match restored with
      | Ok _ => throw error
      | Err _ => throw (State "apply failed; cleanup also failed")
      end
  | Ok _ =>
      j ← transition Applied coordinator j;
      _ ← store_journal p j;
      j ← transition WorkloadStarted coordinator j;
      _ ← store_journal p j;
      outcome ← try (coordinate (mkCoordinate (rr_state_root r) operation_id accepted_receipt accepted_executable
        (rr_workload r) (a_uid workload_actor) (a_gid workload_actor) (rr_timeout r) watch
        (is_real_root (rr_sysfs_root r))));
      match outcome with
      | Err error =>
          j ← reconcile_runtime_outcome (rr_state_root r) p j;
          a ← actor;
          j ← transition Recoverable a j;
          _ ← store_journal p j;
          throw error
      | Ok workload_status =>
          j ← transition WorkloadFinished coordinator (set_outcome (terminal_outcome workload_status) j);
          a ← actor;
          j ← transition Draining a j;
          _ ← store_journal p j;
          _ ← restore (rr_sysfs_root r) p j;
          _ ← cleanup_runtime (rr_state_root r) operation_id;
          mret workload_status
      end
  end.

Lemma run_journaled_split r p i coordinator workload_actor ar ae watch j s :
  run_journaled r p i coordinator workload_actor ar ae watch j s =
  (o ← run_restored r p i coordinator workload_actor ar ae watch j; report_outcome o) s.
Proof.
  unfold run_journaled, run_restored, mbind, IO_bind, mret, IO_ret, throw.
  repeat (try reflexivity; match goal with |- context [match ?m with _ => _ end] =>
    lazymatch m with context [match _ with _ => _ end] => fail | _ => destruct m end end).
Qed.

Lemma settles_run_restored r coordinator workload_actor ar ae watch j :
  d ++ [jn] ∉ paths_of es -> bits_of es es -> rr_state_root r = d ->
  stage j <> Restored -> j_entries j = es -> j_operation_id j = id ->
  settles d jn es G (run_restored r (d ++ [jn]) id coordinator workload_actor ar ae watch j).
Proof.
  intros Hjp Hb Hd Hst Hes Hid. pose proof stable as HG. unfold run_restored. rewrite Hes, Hd.
  apply settles_bind; [by apply keeps_try, keeps_apply|]. intros [[]|error].
  2: { apply settles_failing; [|intros [] s; by eexists]. intros s Hs.
       destruct (settles_restore d jn es G stable Hjp Hb (rr_sysfs_root r) j Hes s Hs) as [Ht _].
       unfold try. by destruct (restore _ _ _ _). }
  apply settles_transition. intros t1. apply settles_store; [done|by rewrite stage_push|done|].
  apply settles_transition. intros t2. apply settles_store; [done|by rewrite stage_push|done|].
  set (j2 := push_transition _ _). assert (Hst2 : stage j2 = WorkloadStarted) by apply stage_push.
  apply settles_bind; [by apply keeps_try, keeps_frame, coordinate_frame|]. intros [o|error].
  2: { intros s Hs. destruct (keeps_reconcile j2) with (s := s) as [Ho Hj]; [by rewrite Hst2|done..|].
       destruct (reconcile_runtime_outcome d (d ++ [jn]) j2 s) as [[j3|e] s1] eqn:E;
         [rewrite (bind_ok _ _ _ _ _ E)|rewrite (bind_err _ _ _ _ _ E)]; [|split; [by apply open_settled|done]].
       destruct (Hj j3 eq_refl) as (_ & Hes3 & _). clear Hj E.
       refine (settles_bind d jn es G _ _ _ _ s1 Ho); [apply keeps_ro; unfold actor; ro_tac|].
       intros a. apply settles_transition. intros t. apply settles_store; [done|by rewrite stage_push|done|].
       by apply settles_fails; [apply keeps_ro, ro_throw|]. }
  apply settles_transition. intros t3. apply settles_bind; [apply keeps_ro; unfold actor; ro_tac|]. intros a.
  apply settles_transition. intros t4. apply settles_store; [done|by rewrite stage_push|done|].
  apply settles_then; [by apply settles_restore|]. intros j5. intros s Hs.
  pose proof (cleanup_runtime_frame s Hs) as Hc.
  destruct (cleanup_runtime d id s) as [[[]|e] s1] eqn:E;
    [rewrite (bind_ok _ _ _ _ _ E)|by rewrite (bind_err _ _ _ _ _ E)]. exact Hc.
Qed.
Lemma settles_run_journaled r coordinator workload_actor ar ae watch j :
  d ++ [jn] ∉ paths_of es -> bits_of es es -> rr_state_root r = d ->
  stage j <> Restored -> j_entries j = es -> j_operation_id j = id ->
  settles d jn es G (run_journaled r (d ++ [jn]) id coordinator workload_actor ar ae watch j).
Proof.
  intros Hjp Hb Hd Hst Hes Hid s Hs. rewrite run_journaled_split.
  destruct (settles_run_restored r coordinator workload_actor ar ae watch j Hjp Hb Hd Hst Hes Hid s Hs) as [Ht Hf].
  unfold mbind, IO_bind. destruct (run_restored _ _ _ _ _ _ _ _ _ s) as [[o|e] s1]; [|by split].
  by destruct o; split; try (intros _; apply Hf).
Qed.
End whole_run.

(** ** An unfinished journal blocks the next run *)

Section blocked.
Context `{SL : SerdeLaws} (d : path) (n : string).
Abbreviation jp := (d ++ [n]).

Lemma journal_plain ns j : journal_home ns d n -> stored d n ns j -> plain ns jp.
Proof.
  intros (Hd & Hn & _) (_ & b & u & m & Hf & _). apply plain_snoc; [by apply dir_path_plain|done|].
  intros t. by rewrite Hf.
Qed.

(** Whatever fails, loading the journal returns what is stored or nothing. *)
Lemma load_only j s :
  journal_home (io_nodes s) d n -> stored d n (io_nodes s) j ->
  iwp (load_journal jp) s (fun r s' => same s s' /\ forall j', r = Ok j' -> j' = j).
Proof.
  intros Hh Hs. pose proof (journal_plain _ _ Hh Hs) as Hp. destruct Hs as (Hv & b & u & m & Hf & Hb).
  unfold load_journal. apply iwp_bind, iwp_sys.
  - intros e _. split; [apply same_step|done].
  - intros c s' Hc. simpl in Hc. rewrite resolve_plain, at_path_snoc, Hf in Hc by done. simplify_eq.
    rewrite (journal_roundtrip j c Hb), Hv. unfold iwp. simpl. split; [apply same_step|]. by intros j' [= <-].
  - intros e s' He. simpl in He. rewrite resolve_plain, at_path_snoc, Hf in He by done. done.
Qed.

Lemma require_finished_blocks paths j s :
  jp ∈ paths -> journal_home (io_nodes s) d n -> stored d n (io_nodes s) j -> stage j <> Restored ->
  is_ok (require_finished paths s).1 = false.
Proof.
  revert s. induction paths as [|p paths IH]; intros s Hin Hh Hs Hst; [by apply elem_of_nil in Hin|].
  cbn [require_finished]. apply elem_of_cons in Hin.
  pose proof (ro_load p s) as [_ Hsame].
  destruct (load_journal p s) as [[j'|e] s1] eqn:E;
    [rewrite (bind_ok _ _ _ _ _ E)|by rewrite (bind_err _ _ _ _ _ E)]. simpl in Hsame.
  destruct (decide (stage j' = Restored)) as [Hr|Hr];
    [rewrite bool_decide_true by done|by rewrite bool_decide_false].
  destruct Hin as [<-|Hin]; [|by apply IH; [|rewrite Hsame..|]].
  destruct (iwp_elim _ _ _ (load_only j s Hh Hs)) as [_ Hj]. rewrite E in Hj. by rewrite (Hj j' eq_refl) in Hr.
Qed.

Lemma select_loop_all names acc s :
  exists s', select_loop d false names acc s =
    (Ok (acc ++ List.filter (fun n => bool_decide (extension n = Some "json"%string)) names), s') /\ same s s'.
Proof.
  revert acc s. induction names as [|x names IH]; intros acc s; cbn [select_loop List.filter].
  - exists s. rewrite app_nil_r. split; [done|apply same_refl].
  - case_bool_decide; cbn [negb]; [|apply IH].
    change (exists s', select_loop d false names (acc ++ [x]) s =
      (Ok (acc ++ x :: List.filter (fun n => bool_decide (extension n = Some "json"%string)) names), s') /\ same s s').
    destruct (IH (acc ++ [x]) s) as (s' & Hs' & Hsame). exists s'. rewrite Hs', <- app_assoc. by split.
Qed.

Lemma unfinished_blocks es s :
  extension n = Some "json"%string -> open_run d n es (io_nodes s) -> no_faults s ->
  (forall l, io_order s l ≡ₚ l) -> is_ok (require_no_unfinished_journal d s).1 = false.
Proof.
  intros Hext [[Hh _] (j & Hs & Hst & _)] Hnf Hord. pose proof Hh as (Hd & _).
  unfold require_no_unfinished_journal, select_journals. destruct (stat_dir _ _ Hd) as (u & m & Hdir).
  assert (Hx : sys_exists d s = (Ok true, io_step s)).
  { unfold sys_exists, syscall. rewrite Hnf by done. simpl. by rewrite Hdir. }
  set (names := io_order s (children (io_nodes s) d)).
  assert (Hl : io_op "listing operation state" (sys_read_dir d) (io_step s) = (Ok names, io_step (io_step s))).
  { unfold io_op, sys_read_dir, syscall. cbn [io_faults io_ops io_step]. rewrite Hnf by (simpl; lia). simpl.
    rewrite resolve_plain by (by apply dir_path_plain). by destruct (at_path_dir _ _ Hd) as (u' & m' & ->). }
  destruct (select_loop_all names [] (io_step (io_step s))) as (s2 & Hsel & [_ Hsame]).
  set (paths := (fun x => d ++ [x]) <$> merge_sort string_leb
    (List.filter (fun n => bool_decide (extension n = Some "json"%string)) names)).
  assert (Hgo : (paths ← (x ← sys_exists d; if negb x then mret [] else
      names ← io_op "listing operation state" (sys_read_dir d);
      paths ← select_loop d false names [];
      mret ((fun n => d ++ [n]) <$> merge_sort string_leb paths)); require_finished paths) s =
    require_finished paths s2).
  { unfold mbind, IO_bind. rewrite Hx. cbn [negb]. rewrite Hl, Hsel. done. }
  rewrite Hgo. apply (require_finished_blocks _ j); [|by rewrite Hsame..|done].
  unfold paths. apply (list_elem_of_fmap_2 (fun x : string => d ++ [x])). rewrite merge_sort_Permutation.
  apply list_elem_of_In, filter_In. split; [|by rewrite bool_decide_true].
  apply list_elem_of_In. unfold names. rewrite Hord. apply elem_of_children.
  destruct Hs as (_ & b & u' & m' & Hf & _). by eexists.
Qed.
End blocked.

Lemma json_extension id : id <> EmptyString -> extension (id +:+ ".json")%string = Some "json"%string.
Proof.
  intros Hid. assert (Hdot : forall r, after_last_dot (r +:+ ".json")%string = Some "json"%string).
  { induction r as [|c r IH]; [done|]. cbn [String.app after_last_dot].
    change (match after_last_dot (r +:+ ".json")%string with
      | Some e => Some e | None => if bool_decide (c = "."%char) then Some (r +:+ ".json")%string else None end
      = Some "json"%string). by rewrite IH. }
  destruct id as [|c r]; [done|]. unfold extension. cbn [String.app].
  change (String c r +:+ ".json")%string with (String c (r +:+ ".json"))%string.
  cbv iota. rewrite bool_decide_false; [apply Hdot|].
  intros [= _ Hr]. specialize (Hdot r). by rewrite Hr in Hdot.
Qed.

(** An unfinished journal makes a later run fail before it changes anything. *)
Lemma open_refused `{SL : SerdeLaws} d id es ns :
  id <> EmptyString -> open_run d (id +:+ ".json")%string es ns ->
  forall t, io_nodes t = ns -> no_faults t -> (forall l, io_order t l ≡ₚ l) ->
  exists e, (require_no_unfinished_journal d t).1 = Err e.
Proof.
  intros Hid Ho t Ht Hnf Hord.
  assert (Hbad : is_ok (require_no_unfinished_journal d t).1 = false).
  { apply (unfinished_blocks d (id +:+ ".json") es); [by apply json_extension|by rewrite Ht|done|done]. }
  destruct (require_no_unfinished_journal d t).1 as [|e]; [done|by exists e].
Qed.
(** The entries of an open run hold bits. *)
Lemma open_bits `{Serde} d n es ns : open_run d n es ns -> bits_of es es.
Proof.
  intros [[_ Hw] _]. unfold bits_of. rewrite Forall_forall in Hw |- *. intros e He.
  destruct (Hw e He) as (_ & _ & Ho & Hds & _). done.
Qed.

(** ** The property *)

(** C3: Once its journal is on disk, a run cannot lose a changed value. Whatever the supervision
    answers (as long as it leaves the journal and the sysfs files alone) and whichever system call fails
    or is never reached, the run ends either finished (the journal says Restored and every
    recorded file holds its original value) or with an unfinished journal that still records
    the entries, in which case a later run is refused before it changes anything; and it
    reports success only when it is finished. *)
Theorem run_journaled_safe `{SL : SerdeLaws} `{SO : SupervisionOps} (d : path) (id : string)
    (es : list IdleEntry) (G : iost -> Prop) (SF : SupervisionFrame (guarded d (id +:+ ".json")%string es) G d id)
    (r : RunRequest path) (coordinator workload_actor : Actor) (ar ae : path) (watch : option Z)
    (j : Journal) (s : iost) :
  let jn := (id +:+ ".json")%string in
  id <> EmptyString -> d ++ [jn] ∉ paths_of es -> rr_state_root r = d ->
  stage j <> Restored -> j_entries j = es -> j_operation_id j = id ->
  G s -> open_run d jn es (io_nodes s) ->
  let '(res, s') := run_journaled r (d ++ [jn]) id coordinator workload_actor ar ae watch j s in
  (res = Ok tt -> finished d jn es (io_nodes s')) /\
  (finished d jn es (io_nodes s') \/
   (open_run d jn es (io_nodes s') /\ forall t, io_nodes t = io_nodes s' -> no_faults t ->
      (forall l, io_order t l ≡ₚ l) -> exists e, (require_no_unfinished_journal d t).1 = Err e)).
Proof.
  intros jn Hid Hjp Hd Hst Hes Hop Hgr Hs.
  destruct (settles_run_journaled d id es G r coordinator workload_actor ar ae watch j Hjp (open_bits _ _ _ _ Hs)
    Hd Hst Hes Hop s (conj Hgr Hs)) as [(_ & Hg & Hor) Hok].
  destruct (run_journaled _ _ _ _ _ _ _ _ _ s) as [res s']. cbn [fst snd] in *.
  split; [by intros ->; apply Hok|]. destruct Hor as [Hu|Hf]; [right|by left].
  split; [by split|]. by apply (open_refused d id es).
Qed.

Lemma let_pair {A B} (p : A * B) (P : A -> B -> Prop) : (let '(a, b) := p in P a b) -> P p.1 p.2.
Proof. by destruct p. Qed.

Lemma calm_nodes ns : io_nodes (calm ns) = ns.
Proof. done. Qed.

(** A supervision that loses the workload. *)
Definition lost_workload : SupervisionOps := {|
  require_inactive _ := mret tt;
  client_watch _ := mret None;
  coordinate _ := throw (State "lost");
  recover_outcome _ _ := mret None;
  cleanup_runtime _ _ := mret tt |}.
Lemma lost_frame P root id : @SupervisionFrame lost_workload P (fun _ => True) root id.
Proof. split; try done; intros; by intros s. Qed.
Definition journaled_sys : nodes :=
  io_nodes (@store_journal run_serde ["run"; "x.json"]%string demo_run (calm demo_sys)).2.
Definition demo_request_run : RunRequest path :=
  mkRun (Some "x"%string) ["r"]%string [2%N] 5 ["w"]%string ["sys"]%string ["run"]%string true None.

Lemma journaled_open : @open_run run_serde ["run"]%string "x.json" demo_entries journaled_sys.
Proof.
  assert (Hh : journal_home demo_sys ["run"]%string "x.json").
  { apply run_home; [vm_compute; reflexivity|intros u m; vm_compute; discriminate]. }
  pose proof (iwp_elim _ _ _ (@store_cases run_serde ["run"]%string "x.json"
    demo_run (calm demo_sys) Hh)) as (_ & Hb & _ & Hst).
  split; [split|].
  - exact (journal_home_benign _ _ _ _ Hb Hh).
  - exact (entries_wf_benign _ _ _ Hb demo_wf).
  - exists demo_run. split; [|done]. apply Hst. by vm_compute.
Qed.

(** The run applies the policy (the values are changed), loses the workload and fails; the next run is refused. *)
Lemma run_journaled_safe_witness :
  let res := @run_journaled run_serde lost_workload demo_request_run ["run"; "x.json"]%string "x"
    (mkActor 0 0) (mkActor 1 1) [] [] None demo_run (calm journaled_sys) in
  res.1 = Err (State "lost") /\ ~ all_hold (io_nodes res.2) ie_original demo_entries /\
  exists e, (@require_no_unfinished_journal run_serde ["run"]%string (calm (io_nodes res.2))).1 = Err e.
Proof.
  intros res. assert (Hr : res.1 = Err (State "lost")) by (vm_compute; reflexivity).
  assert (Hc6 : ~ all_hold (io_nodes res.2) ie_original demo_entries).
  { intros Ha. destruct (Ha (mkIdle 2 2 "C6" ["sys"; "cpu2"; "cpuidle"; "state2"; "disable"]%string "0" "1"))
      as (c & u & m & Hf & Ht); [apply (bool_decide_unpack _); vm_compute; exact I|].
    assert (Hv : match io_nodes res.2 !! ["sys"; "cpu2"; "cpuidle"; "state2"; "disable"]%string with
      | Some (File c _ _) => bool_decide (trim c = "1"%string) | _ => false end = true) by (vm_compute; reflexivity).
    cbn [ie_disable_path] in Hf. rewrite Hf in Hv. apply bool_decide_eq_true in Hv.
    rewrite Hv in Ht. discriminate Ht. }
  pose proof (@run_journaled_safe run_serde (stage_serde_laws _ _ _) lost_workload ["run"]%string "x"
    demo_entries _ (lost_frame _ _ _)
    demo_request_run (mkActor 0 0) (mkActor 1 1) [] [] None demo_run (calm journaled_sys)) as H.
  assert (Hnot : ["run"; "x.json"]%string ∉ paths_of demo_entries)
    by (apply (bool_decide_unpack _); vm_compute; exact I).
  specialize (H ltac:(discriminate) Hnot eq_refl ltac:(vm_compute; discriminate) eq_refl eq_refl I journaled_open).
  apply let_pair in H. split; [exact Hr|]. split; [exact Hc6|].
  destruct H as [_ [Hf|[_ Hb]]]; [destruct (Hc6 (proj2 Hf))|].
  exact (Hb (calm (io_nodes res.2)) (calm_nodes _) (fun k _ => eq_refl) (fun l => reflexivity l)).
Defined.

(** ** Well-formed journals *)

(** What the code does with a journal once it is made: it sets the entries and the outcome, and records transitions. *)
Inductive evolves (j : Journal) : Journal -> Prop :=
| ev_refl : evolves j j
| ev_entries j' es : evolves j j' -> evolves j (set_entries es j')
| ev_outcome j' o : evolves j j' -> evolves j (set_outcome o j')
| ev_transition j' t : evolves j j' -> evolves j (push_transition t j').

Lemma evolves_trans a b c : evolves a b -> evolves b c -> evolves a c.
Proof. intros Hab. induction 1; [done|by constructor..]. Qed.

(** A program whose results are the journal, further on *)
Definition advances (j : Journal) (m : IO Journal) : Prop := forall s j' s', m s = (Ok j', s') -> evolves j j'.
Lemma advances_ret a j : evolves a j -> advances a (mret j).
Proof. by intros H s j' s' [= <- _]. Qed.
Lemma advances_bind {A} j (m : IO A) (k : A -> IO Journal) : (forall x, advances j (k x)) -> advances j (mbind k m).
Proof.
  intros Hk s j' s' E. unfold mbind, IO_bind in E. destruct (m s) as [[x|e] s1]; [by apply (Hk x s1 j' s')|done].
Qed.
Lemma advances_transition a j st act (k : Journal -> IO Journal) :
  evolves a j -> (forall j', evolves a j' -> advances a (k j')) -> advances a (j ← transition st act j; k j).
Proof. intros Hj Hk s j' s' E. eapply Hk; [|exact E]. by constructor. Qed.

Section well_formed.
Context `{Serde}.

Lemma restore_advances root p j : advances j (restore root p j).
Proof.
  unfold restore. do 3 (apply advances_bind; intros ?). apply advances_transition; [constructor|]. intros j1 H1.
  do 5 (apply advances_bind; intros ?). apply advances_transition; [done|]. intros j2 H2.
  apply advances_bind. intros _. by apply advances_ret.
Qed.
Lemma reconcile_advances `{SupervisionOps} root p j : advances j (reconcile_runtime_outcome root p j).
Proof.
  unfold reconcile_runtime_outcome. destruct (j_outcome j); [apply advances_ret; constructor|].
  apply advances_bind. intros [o|]; [|apply advances_ret; constructor]. apply advances_bind. intros _.
  apply advances_ret. repeat constructor.
Qed.

(** The invariant: valid, of this request and operation, and the history starts with the preparation. *)
Record well_formed (id : string) (request : Request) (coordinator : Actor) (j : Journal) : Prop := mkWf {
  wf_valid : validate j = Ok tt;
  wf_id : j_operation_id j = id;
  wf_request : j_request j = request;
  wf_coordinator : j_coordinator j = coordinator;
  wf_history : exists t rest, j_transitions j = mkTransition Prepared coordinator t :: rest;
}.

Lemma validate_push j t : validate j = Ok tt -> validate (push_transition t j) = Ok tt.
Proof.
  unfold validate. cbn. destruct (negb (bool_decide (j_version j = _))); [done|]. destruct (digest _); [|done].
  destruct (negb _); [done|]. intros _. by destruct (j_transitions j).
Qed.
Lemma evolves_wf id request coordinator j j' :
  well_formed id request coordinator j -> evolves j j' ->
  well_formed id request coordinator j' /\ j_transitions j `prefix_of` j_transitions j'.
Proof.
  intros Hw. induction 1 as [|j' es _ [[A B C D E] Hp]|j' o _ [[A B C D E] Hp]|j' t _ [[A B C D E] Hp]];
    [by split| | |]; (split; [split; try done|]); try done.
  - by apply validate_push.
  - destruct E as (t0 & rest & E). exists t0, (rest ++ [t]). cbn. by rewrite E.
  - cbn. by apply prefix_app_r.
Qed.
Lemma new_wf id request coordinator boot s j s' :
  journal_new id request coordinator boot s = (Ok j, s') -> well_formed id request coordinator j.
Proof.
  unfold journal_new, mbind, IO_bind, lift, now_millis. destruct (digest request) as [d|e] eqn:Ed; [|done].
  intros [= <- _]. split; try done; [|by eexists _, _]. unfold validate. cbn. rewrite Ed.
  by rewrite !bool_decide_true by done.
Qed.
End well_formed.

(** C37: Journals stay well-formed. Every journal that the code can reach from a new one, by setting entries or outcome,
    by recording transitions, by reconciling it with the runtime's outcome and by restoring, is valid (its version is
    this one, its hash is its request's, it has a transition), belongs to the same operation, request and coordinator,
    starts with the preparation, and has a history that extends the one before; so storing it never
    fails for its shape. *)
Theorem journal_well_formed `{Serde} `{SupervisionOps} (id boot : string) (request : Request) (coordinator : Actor)
    (s s' : iost) (j0 j : Journal) :
  journal_new id request coordinator boot s = (Ok j0, s') -> evolves j0 j ->
  well_formed id request coordinator j /\ j_transitions j0 `prefix_of` j_transitions j /\
  forall root p t t' j', (reconcile_runtime_outcome root p j t = (Ok j', t') \/ restore root p j t = (Ok j', t')) ->
    evolves j0 j' /\ well_formed id request coordinator j' /\ j_transitions j `prefix_of` j_transitions j'.
Proof.
  intros Hn He. pose proof (new_wf _ _ _ _ _ _ _ Hn) as Hw. destruct (evolves_wf _ _ _ _ _ Hw He) as [Hj Hp].
  split; [done|]. split; [done|]. intros root p t t' j' Hor.
  assert (Hj' : evolves j j') by (destruct Hor as [E|E]; [by eapply reconcile_advances|by eapply restore_advances]).
  split; [by eapply evolves_trans|]. by apply evolves_wf.
Qed.

Lemma journal_well_formed_witness :
  exists j0, @well_formed demo_serde "x" demo_request (mkActor 0 0)
    (set_outcome TO_Success (push_transition (mkTransition Applied (mkActor 0 0) 9) j0)).
Proof.
  exists demo_journal.
  exact (proj1 (@journal_well_formed demo_serde lost_workload "x" "boot" demo_request (mkActor 0 0)
    (demo_state ∅ (fun _ => None)) (demo_state ∅ (fun _ => None)) demo_journal _ eq_refl
    (ev_outcome _ _ _ (ev_transition _ _ _ (ev_refl _))))).
Defined.
