(* ===== verification/Pure.v ===== *)
(** * The benchmark's pure helpers (benches/support/pure.rs)

    The gap schedule, the skew correction, sample-set validation, percentiles, the JSON
    escaping of strings, the CPU-list parser and the startup handshake of a waiter.
    A Rust [String] that is only copied is a byte string; where single characters matter ([json_escape])
    it is the list of its scalar values. A 64-bit float is a [spec_float] of the standard
    library's executable binary64 arithmetic. *)

From stdpp Require Import pretty sorting.
From Stdlib Require Import Ascii SpecFloat.
From S2P Require Import Prelude Machine BenchFs.
Open Scope Z_scope.

(** ** Hardware matrix *)

Inductive BenchmarkHardware := BH_AmdMwaitx | BH_IntelUmwaitC01.
#[export] Instance BenchmarkHardware_eq_dec : EqDecision BenchmarkHardware.
Proof. solve_decision. Defined.

Record BenchmarkMatrix := mkMatrix {
  bm_hardware : option BenchmarkHardware;
  include_amd_cpu_c1_diagnostic : bool;
}.

Definition benchmark_matrix (hardware : option BenchmarkHardware) : BenchmarkMatrix :=
  {| bm_hardware := hardware;
     include_amd_cpu_c1_diagnostic := bool_decide (hardware = Some BH_AmdMwaitx) |}.

(** ** Sample sets *)

Definition DEFAULT_SMOKE_MAX_SAMPLES : Z := 2000000.

Inductive SampleSetError := SampleCapExhausted (max_samples : Z) | EmptySamples.

Definition sample_set_display (e : SampleSetError) : string :=
  match e with
  | SampleCapExhausted max_samples =>
      "latency sample cap of " +:+ pretty (Z.to_N max_samples)
      +:+ " reached; partial distributions are not emitted; rerun with a larger --max-samples"
  | EmptySamples => "timed trial produced no post-warmup latency samples"
  end.

Definition validate_sample_set (sample_limit_reached : bool) (sample_count max_samples : Z)
  : result unit SampleSetError :=
  if sample_limit_reached then Err (SampleCapExhausted max_samples)
  else if sample_count =? 0 then Err EmptySamples
  else Ok tt.

(** ** The gap schedule: xorshift64* *)

Definition u64_mask (x : Z) : Z := Z.land x (Z.ones 64).
(** [state ^= state >> k] and [state ^= state << k] *)
Definition xor_shr (k x : Z) : Z := Z.lxor x (Z.shiftr x k).
Definition xor_shl (k x : Z) : Z := Z.lxor x (u64_mask (Z.shiftl x k)).

Definition gap_state (state : Z) : Z := xor_shr 27 (xor_shl 25 (xor_shr 12 state)).
Definition gap_bucket (state : Z) : Z := u64_mask (state * 0x2545f4914f6cdd1d) mod 100.
Definition gap_microseconds (bucket : Z) : Z :=
  if bucket <=? 29 then 0
  else if bucket <=? 44 then 1
  else if bucket <=? 56 then 5
  else if bucket <=? 66 then 10
  else if bucket <=? 76 then 25
  else if bucket <=? 84 then 50
  else if bucket <=? 91 then 100
  else if bucket <=? 96 then 250
  else 1000.

(** [GapSchedule::new] is the seed; [GapSchedule::next]: the gap in microseconds and the new state *)
Definition gap_new (seed : Z) : Z := seed.
Definition gap_next (state : Z) : Z * Z :=
  let state := gap_state state in (gap_microseconds (gap_bucket state), state).

(** ** Skew correction *)

Definition i128_wrap (x : Z) : Z := (x + 2 ^ 127) mod 2 ^ 128 - 2 ^ 127.
Definition correct_latency (raw_cycles waiter_minus_producer_cycles : Z) : option Z :=
  let corrected := i128_wrap (raw_cycles - waiter_minus_producer_cycles) in
  if (0 <=? corrected) && (corrected <=? u64_max) then Some corrected else None.

(** ** A waiter's startup *)

Inductive WaiterStartup := Aborted | Observed (generation : Z).

(** [fetch_add(1)] on a usize *)
Definition fetch_add_one (o : ordering) (a : Z) : M Z :=
  prim (fun w => (w_val w a, emit (EvStore o a ((w_val w a + 1) mod 2 ^ 64))
                               (set_val a ((w_val w a + 1) mod 2 ^ 64) w))).

(** [while !go.load(Acquire) { spin_loop() }] *)
Definition wait_go (fuel : nat) (go : Z) : M unit :=
  loop fuel (g ← load Acquire go;
             if negb (g =? 0) then mret (Some tt) else _ ← spin_loop; mret None).

Definition capture_generation_before_start (fuel : nat) (generation ready go stop : Z) : M WaiterStartup :=
  observed ← load Acquire generation;
  _ ← fetch_add_one Release ready;
  _ ← wait_go fuel go;
  s ← load Acquire stop;
  mret (if negb (s =? 0) then Aborted else Observed observed).

(** ** The sysfs root *)

Definition CPU_SYSFS_ROOT : path := ["sys"; "devices"; "system"; "cpu"]%string.
Definition resolve_cpu_sysfs_root (custom_root : option path) (allow_custom_root : bool)
  : result path string :=
  match custom_root, allow_custom_root with
  | Some root, true => Ok root
  | Some _, false => Err "official mode does not allow SNOOZER_SYSFS_ROOT"%string
  | None, _ => Ok CPU_SYSFS_ROOT
  end.

(** ** Ranking and percentiles *)

Definition latency_rank_key (p50_cycles p99_cycles p999_cycles : Z) : Z * Z * Z :=
  (p99_cycles, p999_cycles, p50_cycles).

Definition quote : string := String "034"%char EmptyString.
Definition json_field (name : string) (v : Z) : string := quote +:+ name +:+ quote +:+ ":" +:+ pretty (Z.to_N v).
Definition median_latency_json_fields (p50_cycles p99_cycles p999_cycles p50_ns p99_ns p999_ns : Z) : string :=
  json_field "median_p50_cycles" p50_cycles +:+ "," +:+ json_field "median_p99_cycles" p99_cycles
  +:+ "," +:+ json_field "median_p999_cycles" p999_cycles +:+ "," +:+ json_field "median_p50_ns" p50_ns
  +:+ "," +:+ json_field "median_p99_ns" p99_ns +:+ "," +:+ json_field "median_p999_ns" p999_ns.

(** [n as f64], [f.ceil() as usize] *)
Definition f64_of_usize (n : Z) : spec_float := binary_normalize 53 1024 n 0 false.
Definition ceil_as_usize (f : spec_float) : Z :=
  match f with
  | S754_nan | S754_zero _ | S754_infinity true | S754_finite true _ _ => 0
  | S754_infinity false => u64_max
  | S754_finite false m e =>
      Z.min u64_max
        (if 0 <=? e then Zpos m * 2 ^ e else (Zpos m + 2 ^ (- e) - 1) / 2 ^ (- e))
  end.

Definition percentile_rank (quantile : spec_float) (len : Z) : Z :=
  ceil_as_usize (SFmul 53 1024 quantile (f64_of_usize len)).
(** [None]: the panic on an empty slice *)
Definition percentile_sorted (values : list Z) (quantile : spec_float) : option Z :=
  let len := Z.of_nat (length values) in
  if len =? 0 then None
  else values !! Z.to_nat (Z.min (sat_sub (percentile_rank quantile len) 1) (len - 1)).

(** ** JSON strings *)

(** [char::is_control]: Unicode category Cc *)
Definition is_control (c : Z) : bool := (c <? 32) || ((127 <=? c) && (c <=? 159)).
Definition hex_digit (d : Z) : Z := if d <? 10 then 48 + d else 87 + d.
(** [{:04x}] below 0x10000 *)
Definition hex4 (c : Z) : list Z :=
  [hex_digit (c / 4096 mod 16); hex_digit (c / 256 mod 16); hex_digit (c / 16 mod 16);
   hex_digit (c mod 16)].

Definition json_escape_char (c : Z) : list Z :=
  if c =? 34 then [92; 34]
  else if c =? 92 then [92; 92]
  else if c =? 10 then [92; 110]
  else if c =? 13 then [92; 114]
  else if c =? 9 then [92; 116]
  else if is_control c then 92 :: 117 :: hex4 c
  else [c].
Fixpoint json_escape (value : list Z) : list Z :=
  match value with
  | [] => []
  | c :: r => json_escape_char c ++ json_escape r
  end.

(** ** CPU lists *)

Inductive CpuListError :=
| InvalidRangeStart (component : string)
| InvalidRangeEnd (component : string)
| InvalidRange (component : string)
| InvalidNumber (component : string).

(** [str::split(c)] *)
Fixpoint split_on (c : ascii) (s : string) : list string :=
  match s with
  | EmptyString => [EmptyString]
  | String x r =>
      if bool_decide (x = c) then EmptyString :: split_on c r
      else match split_on c r with
           | [] => [String x EmptyString]
           | w :: ws => String x w :: ws
           end
  end.
(** [str::split_once(c)] *)
Fixpoint split_once (c : ascii) (s : string) : option (string * string) :=
  match s with
  | EmptyString => None
  | String x r =>
      if bool_decide (x = c) then Some (EmptyString, r)
      else '(a, b) ← split_once c r; Some (String x a, b)
  end.

(** [start..=end] *)
Definition cpu_range (first last : Z) : gset Z := list_to_set (seqZ first (last - first + 1)).

Definition parse_cpu_component (component : string) : result (gset Z) CpuListError :=
  match split_once "-" component with
  | Some (a, b) =>
      match parse_unsigned u64_max a with
      | None => Err (InvalidRangeStart component)
      | Some first =>
          match parse_unsigned u64_max b with
          | None => Err (InvalidRangeEnd component)
          | Some last =>
              if last <? first then Err (InvalidRange component) else Ok (cpu_range first last)
          end
      end
  | None =>
      match parse_unsigned u64_max component with
      | None => Err (InvalidNumber component)
      | Some n => Ok {[ n ]}
      end
  end.
Fixpoint parse_cpu_components (components : list string) (acc : gset Z) : result (gset Z) CpuListError :=
  match components with
  | [] => Ok acc
  | c :: r =>
      match parse_cpu_component c with
      | Err e => Err e
      | Ok s => parse_cpu_components r (acc ∪ s)
      end
  end.
Definition parse_cpu_list (raw : string) : result (gset Z) CpuListError :=
  parse_cpu_components (split_on "," raw) ∅.

(** ** The gap schedule: lemmas *)

Definition u64 (x : Z) : Prop := 0 <= x < 2 ^ 64.

Lemma u64_bits x : 0 <= x -> (forall i, 64 <= i -> Z.testbit x i = false) -> u64 x.
Proof.
  intros Hx Hb. split; [done|]. destruct (decide (x = 0)) as [->|Hne]; [lia|].
  apply Z.log2_lt_pow2; [lia|]. destruct (Z_lt_dec (Z.log2 x) 64) as [?|Hge]; [done|].
  pose proof (Z.bit_log2 x ltac:(lia)) as H1. rewrite Hb in H1 by lia. done.
Qed.
Lemma u64_high x i : u64 x -> 64 <= i -> Z.testbit x i = false.
Proof.
  intros [H0 H1] Hi. destruct (decide (x = 0)) as [->|Hne]; [apply Z.bits_0|].
  apply Z.bits_above_log2; [done|]. apply Z.log2_lt_pow2 in H1; lia.
Qed.
Lemma u64_lxor x y : u64 x -> u64 y -> u64 (Z.lxor x y).
Proof.
  intros Hx Hy. apply u64_bits.
  - apply Z.lxor_nonneg. unfold u64 in *. lia.
  - intros i Hi. by rewrite Z.lxor_spec, !u64_high.
Qed.
Lemma u64_mask_range x : u64 (u64_mask x).
Proof. unfold u64, u64_mask. rewrite Z.land_ones by lia. apply Z.mod_pos_bound. lia. Qed.
Lemma u64_shiftr x k : 0 <= k -> u64 x -> u64 (Z.shiftr x k).
Proof.
  intros Hk [H0 H1]. rewrite Z.shiftr_div_pow2 by done. split; [apply Z.div_pos; lia|].
  apply Z.le_lt_trans with x; [|done]. apply Z.div_le_upper_bound; nia.
Qed.
Lemma testbit_mask x i : 0 <= i < 64 -> Z.testbit (u64_mask x) i = Z.testbit x i.
Proof. intros Hi. unfold u64_mask. rewrite Z.land_spec, Z.ones_spec_low by lia. apply andb_true_r. Qed.

Lemma xor_shr_range k x : 0 <= k -> u64 x -> u64 (xor_shr k x).
Proof. intros Hk Hx. apply u64_lxor; [done|by apply u64_shiftr]. Qed.
Lemma xor_shl_range k x : u64 x -> u64 (xor_shl k x).
Proof. intros Hx. apply u64_lxor; [done|apply u64_mask_range]. Qed.

(** Both steps are linear over xor, with a trivial kernel. *)
Lemma xor_shr_linear k x y : 0 <= k -> xor_shr k (Z.lxor x y) = Z.lxor (xor_shr k x) (xor_shr k y).
Proof.
  intros Hk. unfold xor_shr. rewrite Z.shiftr_lxor. apply Z.bits_inj'. intros i Hi.
  rewrite !Z.lxor_spec. repeat (destruct (Z.testbit _ _)); done.
Qed.
Lemma xor_shl_linear k x y : 0 <= k -> xor_shl k (Z.lxor x y) = Z.lxor (xor_shl k x) (xor_shl k y).
Proof.
  intros Hk. unfold xor_shl, u64_mask. rewrite Z.shiftl_lxor. apply Z.bits_inj'. intros i Hi.
  rewrite ?Z.lxor_spec, ?Z.land_spec, ?Z.lxor_spec. repeat (destruct (Z.testbit _ _)); done.
Qed.
Lemma xor_shr_kernel k x : 0 < k -> u64 x -> xor_shr k x = 0 -> x = 0.
Proof.
  intros Hk [H0 H1] Hz. apply Z.lxor_eq in Hz. rewrite Z.shiftr_div_pow2 in Hz by lia.
  destruct (decide (x = 0)) as [|Hne]; [done|]. exfalso.
  assert (x / 2 ^ k < x); [|lia]. apply Z.div_lt; [lia|]. apply Z.pow_gt_1; lia.
Qed.
Lemma xor_shl_kernel k x : 0 < k -> u64 x -> xor_shl k x = 0 -> x = 0.
Proof.
  intros Hk Hx Hz. apply Z.lxor_eq in Hz.
  assert (Hall : forall n i, 0 <= i < Z.of_nat n -> Z.testbit x i = false).
  { induction n as [|n IH]; intros i Hi; [lia|].
    destruct (Z_lt_dec i 64) as [Hlt|Hge]; [|apply u64_high; [done|lia]].
    rewrite Hz, testbit_mask, Z.shiftl_spec by lia.
    destruct (Z_lt_dec (i - k) 0) as [Hn|Hn]; [by apply Z.testbit_neg_r|]. apply IH. lia. }
  apply Z.bits_inj'. intros i Hi. rewrite Z.bits_0. apply (Hall (S (Z.to_nat i))). lia.
Qed.
Lemma linear_injective (f : Z -> Z) x y :
  (forall a b, f (Z.lxor a b) = Z.lxor (f a) (f b)) -> (forall a, u64 a -> f a = 0 -> a = 0) ->
  u64 x -> u64 y -> f x = f y -> x = y.
Proof.
  intros Hl Hk Hx Hy Hf. apply Z.lxor_eq, Hk; [by apply u64_lxor|]. rewrite Hl, Hf. apply Z.lxor_nilpotent.
Qed.

Lemma gap_state_range x : u64 x -> u64 (gap_state x).
Proof. intros Hx. apply xor_shr_range; [lia|]. apply xor_shl_range, xor_shr_range; [lia|done]. Qed.
Lemma gap_state_injective x y : u64 x -> u64 y -> gap_state x = gap_state y -> x = y.
Proof.
  intros Hx Hy H.
  assert (Hr : forall k x y, 0 < k -> u64 x -> u64 y -> xor_shr k x = xor_shr k y -> x = y).
  { intros k a b Hk. apply linear_injective; [intros; apply xor_shr_linear; lia|].
    intros c Hc. by apply xor_shr_kernel. }
  assert (Hs : forall k x y, 0 < k -> u64 x -> u64 y -> xor_shl k x = xor_shl k y -> x = y).
  { intros k a b Hk. apply linear_injective; [intros; apply xor_shl_linear; lia|].
    intros c Hc. by apply xor_shl_kernel. }
  apply Hr in H; [|lia|by apply xor_shl_range, xor_shr_range..].
  apply Hs in H; [|lia|by apply xor_shr_range..]. by apply Hr in H.
Qed.

(** The states of the schedule started with [seed]. *)
Definition gap_states (seed : Z) (n : nat) : Z := Nat.iter n (fun s => (gap_next s).2) (gap_new seed).

Lemma gap_states_range seed n : u64 seed -> u64 (gap_states seed n).
Proof. intros Hs. induction n as [|n IH]; [done|]. simpl. by apply gap_state_range. Qed.
Lemma gap_states_nonzero seed n : u64 seed -> seed <> 0 -> gap_states seed n <> 0.
Proof.
  intros Hs Hne. induction n as [|n IH]; [done|]. simpl. intros Hz. apply IH.
  apply gap_state_injective; [by apply gap_states_range|unfold u64; lia|]. by rewrite Hz.
Qed.
Lemma gap_states_inj seed seed' n :
  u64 seed -> u64 seed' -> gap_states seed n = gap_states seed' n -> seed = seed'.
Proof.
  intros Hs Hs'. induction n as [|n IH]; [done|]. simpl. intros H.
  apply gap_state_injective in H; auto using gap_states_range.
Qed.

(** How many of the hundred buckets give each gap. *)
Definition gap_weights : list (Z * nat) :=
  [(0, 30%nat); (1, 15%nat); (5, 12%nat); (10, 10%nat); (25, 10%nat); (50, 8%nat);
   (100, 7%nat); (250, 5%nat); (1000, 3%nat)].
Definition bucket_count (us : Z) : nat :=
  length (List.filter (fun b => gap_microseconds b =? us) (seqZ 0 100)).

Lemma gap_microseconds_known b : gap_microseconds b ∈ gap_weights.*1.
Proof. unfold gap_microseconds. repeat case_match; simpl; set_solver. Qed.

(** ** Startup: lemmas *)

Lemma wait_go_spec fuel go w0 w n N :
  reach n w0 w -> (forall i, (N <= i)%nat -> val_at w0 i go <> 0) -> (0 < fuel)%nat -> (N <= n + fuel)%nat ->
  wp (wait_go fuel go) w (fun _ w' => exists k, reach k w0 w' /\ (n < k)%nat /\ val_at w0 k go <> 0).
Proof.
  revert w n. induction fuel as [|f IH]; intros w n Hr HN Hf Hle; [lia|].
  unfold wait_go. cbn [loop]. apply wp_bind, wp_bind. eapply wp_load; [done|]. intros w1 H1 _ _.
  destruct (Z.eqb_spec (val_at w0 (S n) go) 0) as [Hz|Hz]; simpl.
  - apply wp_bind. eapply wp_spin; [done|]. intros w2 H2 _. apply wp_ret.
    assert (S n < N)%nat by (destruct (decide (N <= S n)%nat) as [Hd|]; [by destruct (HN _ Hd)|lia]).
    eapply wp_mono; [apply (IH w2 (S (S n))); [done|done|lia|lia]|].
    intros _ w3 (k & Hk & Hlt & Hgo). exists k. split; [done|]. split; [lia|done].
  - apply wp_ret, wp_ret. exists (S n). split; [done|]. split; [lia|done].
Qed.

(** The world right after the waiter has announced that it is ready. *)
Definition announced (generation ready : Z) (w : world) : world :=
  match (_ ← load Acquire generation; fetch_add_one Release ready) w with
  | Some (_, w') => w'
  | None => w
  end.

(** ** Percentiles: lemmas *)

Definition percentile_index (len : Z) (quantile : spec_float) : Z :=
  Z.min (sat_sub (percentile_rank quantile len) 1) (len - 1).

Lemma percentile_index_range len q : 0 < len -> 0 <= percentile_index len q < len.
Proof. intros H. unfold percentile_index, sat_sub. lia. Qed.

Lemma sorted_le_lookup (l : list Z) i j x y :
  StronglySorted Z.le l -> (i <= j)%nat -> l !! i = Some x -> l !! j = Some y -> x <= y.
Proof.
  intros Hs. revert i j. induction Hs as [|z l Hl IH Hz]; intros i j Hij Hi Hj; [done|].
  destruct i as [|i], j as [|j]; simplify_eq/=; [lia| |lia|by eapply IH; [|exact Hi|exact Hj]; lia].
  rewrite Forall_forall in Hz. apply Hz. by eapply list_elem_of_lookup_2.
Qed.

Lemma sorted_count_below (l : list Z) i v :
  StronglySorted Z.le l -> l !! i = Some v ->
  Forall (fun x => x <= v) (take (S i) l) /\ Forall (fun x => v <= x) (drop i l).
Proof.
  intros Hs Hi. split; apply Forall_forall; intros x Hx; apply list_elem_of_lookup in Hx as [k Hk].
  - apply lookup_take_Some in Hk as [Hk Hlt]. eapply sorted_le_lookup; [done| |done|done]. lia.
  - rewrite lookup_drop in Hk. eapply sorted_le_lookup; [done| |done|done]. lia.
Qed.

(** ** JSON: the reader of the grammar's strings *)

Definition hex_value (c : Z) : option Z :=
  if (48 <=? c) && (c <=? 57) then Some (c - 48)
  else if (97 <=? c) && (c <=? 102) then Some (c - 87)
  else if (65 <=? c) && (c <=? 70) then Some (c - 55)
  else None.
Definition json_simple (c : Z) : option Z :=
  if (c =? 34) || (c =? 92) || (c =? 47) then Some c
  else if c =? 98 then Some 8 else if c =? 102 then Some 12 else if c =? 110 then Some 10
  else if c =? 114 then Some 13 else if c =? 116 then Some 9 else None.
(** What follows an opening quote: the string up to its closing quote, and the rest of the input. *)
Fixpoint json_read (l : list Z) : option (list Z * list Z) :=
  match l with
  | [] => None
  | c :: l =>
      if c =? 34 then Some ([], l)
      else if c =? 92 then
        match l with
        | [] => None
        | e :: l =>
            if e =? 117 then
              match l with
              | a :: b :: c :: d :: l =>
                  a ← hex_value a; b ← hex_value b; c ← hex_value c; d ← hex_value d;
                  '(s, rest) ← json_read l;
                  Some (a * 4096 + b * 256 + c * 16 + d :: s, rest)
              | _ => None
              end
            else e ← json_simple e; '(s, rest) ← json_read l; Some (e :: s, rest)
        end
      else if c <? 32 then None
      else '(s, rest) ← json_read l; Some (c :: s, rest)
  end.

Lemma hex_value_digit d : 0 <= d < 16 -> hex_value (hex_digit d) = Some d.
Proof.
  intros Hd. unfold hex_value, hex_digit. destruct (Z.ltb_spec d 10).
  - rewrite (proj2 (Z.leb_le _ _)), (proj2 (Z.leb_le _ _)) by lia. simpl. f_equal. lia.
  - rewrite (proj2 (Z.leb_gt (87 + d) 57)), andb_false_r by lia.
    rewrite (proj2 (Z.leb_le _ _)), (proj2 (Z.leb_le _ _)) by lia. simpl. f_equal. lia.
Qed.

Lemma json_read_hex c l :
  0 <= c < 65536 ->
  json_read (92 :: 117 :: hex4 c ++ l) = '(s, rest) ← json_read l; Some (c :: s, rest).
Proof.
  intros Hc. cbn [app hex4 json_read]. rewrite !hex_value_digit by (apply Z.mod_pos_bound; lia). simpl.
  assert (E : (c / 4096) `mod` 16 * 4096 + (c / 256) `mod` 16 * 256 + (c / 16) `mod` 16 * 16 + c `mod` 16 = c);
    [|by rewrite E].
  rewrite (Z.mod_small (c / 4096)) by (split; [apply Z.div_pos; lia|apply Z.div_lt_upper_bound; lia]).
  pose proof (Z.div_mod c 16). pose proof (Z.div_mod (c / 16) 16). pose proof (Z.div_mod (c / 256) 16).
  assert (E1 : c / 256 = c / 16 / 16) by (rewrite Z.div_div by lia; done).
  assert (E2 : c / 4096 = c / 256 / 16) by (rewrite Z.div_div by lia; done). lia.
Qed.

Lemma json_read_escape c l :
  0 <= c -> json_read (json_escape_char c ++ l) = '(s, rest) ← json_read l; Some (c :: s, rest).
Proof.
  intros Hc. unfold json_escape_char.
  repeat match goal with |- context [?x =? ?y] => destruct (Z.eqb_spec x y) as [->|?]; [done|] end.
  destruct (is_control c) eqn:Ec.
  - apply json_read_hex. unfold is_control in Ec. destruct (Z.ltb_spec c 32); [lia|]. bool_facts. lia.
  - cbn [app json_read]. unfold is_control in Ec. bool_facts.
    rewrite (proj2 (Z.eqb_neq c 34)), (proj2 (Z.eqb_neq c 92)), (proj2 (Z.ltb_ge c 32)) by lia. done.
Qed.

(** ** CPU lists: printing, and lemmas *)

Fixpoint no_char (c : ascii) (s : string) : bool :=
  match s with EmptyString => true | String x r => negb (bool_decide (x = c)) && no_char c r end.

Lemma split_on_none c s : no_char c s = true -> split_on c s = [s].
Proof.
  induction s as [|x s IH]; [done|]. simpl. intros H. bool_facts. case_bool_decide; [done|].
  by rewrite IH.
Qed.
Lemma split_on_app c s t : no_char c s = true -> split_on c (s +:+ String c t) = s :: split_on c t.
Proof.
  induction s as [|x s IH]; simpl; intros H; [by rewrite bool_decide_true|].
  bool_facts. case_bool_decide; [done|]. by rewrite IH.
Qed.
Lemma split_once_none c s : no_char c s = true -> split_once c s = None.
Proof.
  induction s as [|x s IH]; [done|]. simpl. intros H. bool_facts. case_bool_decide; [done|].
  by rewrite IH.
Qed.
Lemma split_once_app c s t : no_char c s = true -> split_once c (s +:+ String c t) = Some (s, t).
Proof.
  induction s as [|x s IH]; simpl; intros H; [by rewrite bool_decide_true|].
  bool_facts. case_bool_decide; [done|]. by rewrite IH.
Qed.
Lemma no_char_app c s t : no_char c (s +:+ t) = no_char c s && no_char c t.
Proof. induction s as [|x s IH]; simpl; [done|]. by rewrite IH, andb_assoc. Qed.

(** The digits of a number. *)
Definition is_digit (c : ascii) : bool := match digit_val c with Some _ => true | None => false end.

Lemma pretty_char_digit x : (x < 10)%N -> digit_val (pretty_N_char x) = Some (Z.of_N x).
Proof.
  intros Hx. assert (x = 0 \/ x = 1 \/ x = 2 \/ x = 3 \/ x = 4 \/ x = 5 \/ x = 6 \/ x = 7 \/ x = 8 \/ x = 9)%N
    as Hor by lia. by repeat destruct Hor as [->|Hor]; [..|subst].
Qed.

Lemma parse_pretty_go m x s :
  Z.of_N x <= m -> parse_digits m 0 (pretty_N_go x s) = parse_digits m (Z.of_N x) s.
Proof.
  revert s. induction (N.lt_wf_0 x) as [x _ IH]. intros s Hm.
  destruct (decide (x = 0)%N) as [->|Hx]; [by rewrite pretty_N_go_0|].
  rewrite pretty_N_go_step by lia. rewrite IH; [|apply N.div_lt; lia|rewrite N2Z.inj_div; apply Z.div_le_upper_bound; lia].
  cbn [parse_digits]. rewrite pretty_char_digit by (apply N.mod_lt; lia). simpl.
  replace (Z.of_N (x / 10) * 10 + Z.of_N (x `mod` 10)) with (Z.of_N x).
  - by rewrite (proj2 (Z.leb_le _ _)).
  - rewrite N2Z.inj_div, N2Z.inj_mod. pose proof (Z.div_mod (Z.of_N x) 10). lia.
Qed.

Lemma no_char_pretty_go c x s :
  is_digit c = false -> no_char c (pretty_N_go x s) = no_char c s.
Proof.
  intros Hc. revert s. induction (N.lt_wf_0 x) as [x _ IH]. intros s.
  destruct (decide (x = 0)%N) as [->|Hx]; [by rewrite pretty_N_go_0|].
  rewrite pretty_N_go_step by lia. rewrite IH by (apply N.div_lt; lia). simpl.
  rewrite bool_decide_false; [done|]. intros <-. unfold is_digit in Hc.
  by rewrite pretty_char_digit in Hc by (apply N.mod_lt; lia).
Qed.
Lemma no_char_pretty c (x : N) : is_digit c = false -> no_char c (pretty x) = true.
Proof.
  intros Hc. unfold pretty, pretty_N. case_decide as Hx; [|by rewrite no_char_pretty_go].
  simpl. rewrite bool_decide_false; [done|]. by intros <-.
Qed.

Lemma pretty_not_plus (x : N) : exists c r, pretty x = String c r /\ c <> "+"%char.
Proof.
  pose proof (no_char_pretty "+" x eq_refl) as H. destruct (pretty x) as [|c r] eqn:E.
  - exfalso. unfold pretty, pretty_N in E. case_decide as Hx; [done|].
    pose proof (parse_pretty_go (Z.of_N x) x EmptyString ltac:(lia)) as Hp. rewrite E in Hp. simpl in Hp.
    injection Hp as Hp. lia.
  - exists c, r. split; [done|]. simpl in H. bool_facts. by case_bool_decide.
Qed.

Lemma parse_no_plus m c r :
  c <> "+"%char -> parse_unsigned m (String c r) = parse_digits m 0 (String c r).
Proof. intros Hc. destruct c as [[] [] [] [] [] [] [] []]; first [done | by destruct Hc]. Qed.

(** Printing a number and parsing it again. *)
Lemma parse_pretty m (x : N) : Z.of_N x <= m -> parse_unsigned m (pretty x) = Some (Z.of_N x).
Proof.
  intros Hm. destruct (pretty_not_plus x) as (c & r & E & Hc). rewrite E, parse_no_plus by done.
  rewrite <- E. unfold pretty, pretty_N. case_decide as Hx; [subst x|by rewrite parse_pretty_go].
  cbn [parse_digits]. change (digit_val "0") with (Some 0). simpl. by rewrite (proj2 (Z.leb_le _ _)).
Qed.

(** A CPU list as the kernel prints it: single CPUs and ranges. *)
Definition print_range (r : N * N) : string :=
  if bool_decide (r.1 = r.2) then pretty r.1 else pretty r.1 +:+ String "-" (pretty r.2).
Fixpoint print_cpu_list (r : N * N) (rs : list (N * N)) : string :=
  match rs with
  | [] => print_range r
  | r' :: rs => print_range r +:+ String "," (print_cpu_list r' rs)
  end.
Definition range_ok (r : N * N) : Prop := (r.1 <= r.2)%N /\ Z.of_N r.2 <= u64_max.
Definition range_set (r : N * N) : gset Z := cpu_range (Z.of_N r.1) (Z.of_N r.2).

Lemma print_range_no_comma r : no_char "," (print_range r) = true.
Proof.
  unfold print_range. case_bool_decide; [by apply no_char_pretty|].
  rewrite no_char_app. simpl. by rewrite !no_char_pretty.
Qed.

Lemma parse_print_range r : range_ok r -> parse_cpu_component (print_range r) = Ok (range_set r).
Proof.
  intros [Hle Hm]. unfold print_range, parse_cpu_component, range_set.
  case_bool_decide as Heq.
  - rewrite split_once_none by (by apply no_char_pretty). rewrite parse_pretty by lia.
    f_equal. unfold cpu_range. rewrite <- Heq, Z.sub_diag. simpl. set_solver.
  - rewrite split_once_app by (by apply no_char_pretty). rewrite !parse_pretty by lia.
    by rewrite (proj2 (Z.ltb_ge _ _)) by lia.
Qed.

Lemma split_print_list r rs :
  split_on "," (print_cpu_list r rs) = print_range <$> (r :: rs).
Proof.
  revert r. induction rs as [|r' rs IH]; intros r; cbn [print_cpu_list].
  - by rewrite split_on_none by apply print_range_no_comma.
  - rewrite split_on_app by apply print_range_no_comma. by rewrite IH.
Qed.

Lemma parse_components rs acc :
  Forall range_ok rs ->
  parse_cpu_components (print_range <$> rs) acc = Ok (acc ∪ ⋃ (range_set <$> rs)).
Proof.
  intros Hrs. revert acc. induction Hrs as [|r rs Hr Hrs IH]; intros acc; simpl.
  - f_equal. set_solver.
  - rewrite parse_print_range by done. rewrite IH. f_equal. set_solver.
Qed.

Example cpu_list_ex : parse_cpu_list "0-2,5" = Ok {[0; 1; 2; 5]}.
Proof. by vm_compute. Qed.
Definition f64_0_99 : spec_float := S754_finite false 8917127262193582 (-53).
Example p99_ex : percentile_sorted (seqZ 1 100) f64_0_99 = Some 99.
Proof. by vm_compute. Qed.

(** ** The properties *)

(** The gap schedule never degenerates and is reproducible. From a non-zero 64-bit seed every state
    stays a non-zero 64-bit value (xorshift64* would otherwise be stuck at zero), every gap
    is one of the nine listed durations, schedules of different seeds never run into the same state at the same
    position, and of the hundred buckets exactly 30, 15, 12, 10, 10, 8, 7, 5 and 3 give
    the gaps of 0, 1, 5, 10, 25, 50, 100, 250 and 1000 microseconds. *)
Theorem gap_schedule_correct (seed : Z) (n : nat) :
  0 <= seed < 2 ^ 64 -> seed <> 0 ->
  0 < gap_states seed n < 2 ^ 64 /\
  (gap_next (gap_states seed n)).1 ∈ gap_weights.*1 /\
  (forall seed', 0 <= seed' < 2 ^ 64 -> gap_states seed' n = gap_states seed n -> seed' = seed) /\
  Forall (fun p => bucket_count p.1 = p.2) gap_weights.
Proof.
  intros Hs Hne. pose proof (gap_states_range seed n Hs) as Hr. pose proof (gap_states_nonzero seed n Hs Hne) as Hz.
  split; [unfold u64 in Hr; lia|]. split; [apply gap_microseconds_known|]. split.
  - intros seed' Hs'. by apply gap_states_inj.
  - by repeat constructor.
Qed.

(** The seed of the benchmark. *)
Definition BURSTY_SEED : Z := 0x5a179d3ce8214b6f.

Lemma gap_schedule_correct_witness :
  (gap_next (gap_states BURSTY_SEED 3)).1 ∈ gap_weights.*1 /\ 0 < gap_states BURSTY_SEED 3.
Proof.
  destruct (gap_schedule_correct BURSTY_SEED 3) as (Hr & Hg & _);
    [vm_compute; split; [discriminate|reflexivity]|vm_compute; discriminate|].
  split; [exact Hg|apply Hr].
Defined.

(** The skew correction is exact. For every pair of 64-bit signed inputs the 128-bit difference does not
    overflow; the corrected latency is the exact difference, given precisely when it
    is not negative (it then always fits 64 bits), and absent otherwise. *)
Theorem correct_latency_exact (raw offset : Z) :
  - 2 ^ 63 <= raw < 2 ^ 63 -> - 2 ^ 63 <= offset < 2 ^ 63 ->
  correct_latency raw offset = if offset <=? raw then Some (raw - offset) else None.
Proof.
  intros Hr Ho. unfold correct_latency.
  assert (Hw : i128_wrap (raw - offset) = raw - offset) by (unfold i128_wrap; rewrite Z.mod_small; lia).
  rewrite Hw. unfold u64_max. destruct (Z.leb_spec offset raw).
  - by rewrite (proj2 (Z.leb_le _ _)), (proj2 (Z.leb_le _ _)) by lia.
  - by rewrite (proj2 (Z.leb_gt 0 _)) by lia.
Qed.

Lemma correct_latency_exact_witness :
  correct_latency (2 ^ 63 - 1) (- 2 ^ 63) = Some (2 ^ 64 - 1) /\ correct_latency 3 5 = None.
Proof.
  split; [rewrite (correct_latency_exact (2 ^ 63 - 1) (- 2 ^ 63)) by lia
         |rewrite (correct_latency_exact 3 5) by lia]; vm_compute; reflexivity.
Defined.

(** A waiter cannot miss the first publication. The generation it starts from is the value read before it
    announced itself by incrementing the ready counter, so a generation published after the
    announcement differs from it; if the go flag is eventually set for good the startup returns,
    not before it has seen the flag; and it reports an abort exactly when the stop flag is set by then. *)
Theorem waiter_startup_correct (fuel N : nat) (generation ready go stop : Z) (w : world) :
  (forall i, (N <= i)%nat -> val_at (announced generation ready w) i go <> 0) ->
  (0 < fuel)%nat -> (N <= fuel)%nat ->
  exists r w' k, capture_generation_before_start fuel generation ready go stop w = Some (r, w') /\
    reach k (announced generation ready w) w' /\ (1 < k)%nat /\
    val_at (announced generation ready w) (Nat.pred k) go <> 0 /\
    w_val (announced generation ready w) ready = (val_at w 2 ready + 1) mod 2 ^ 64 /\
    r = if val_at (announced generation ready w) k stop =? 0
        then Observed (val_at w 1 generation) else Aborted.
Proof.
  intros HN Hf Hle. set (w2 := announced generation ready w) in *.
  assert (Hwp : wp (wait_go fuel go ≫= fun _ => load Acquire stop ≫= fun s =>
    mret (if negb (s =? 0) then Aborted else Observed (val_at w 1 generation))) w2
    (fun r w' => exists k, reach k w2 w' /\ (1 < k)%nat /\ val_at w2 (Nat.pred k) go <> 0 /\
       r = if val_at w2 k stop =? 0 then Observed (val_at w 1 generation) else Aborted)).
  { apply wp_bind. eapply wp_mono; [apply (wait_go_spec fuel go w2 w2 0 N); [done|done|done|lia]|].
    intros [] w3 (k & Hk & Hlt & Hgo). apply wp_bind. eapply wp_load; [done|]. intros w4 H4 _ _.
    apply wp_ret. exists (S k). split; [done|]. split; [lia|]. split; [done|].
    by destruct (val_at w2 (S k) stop =? 0). }
  destruct Hwp as (r & w' & Hrun & k & Hk & H1 & Hgo & Hr). exists r, w', k.
  split; [exact Hrun|]. split; [done|]. split; [done|]. split; [done|]. split; [|done].
  unfold w2, announced, w_val, set_val. simpl. unfold mget. by rewrite lookup_insert_eq.
Qed.

(** Generation 4 at address 0; the go flag (address 2) is set in the fifth slot. *)
Definition startup_world : world :=
  start_world {[0 := 4]} (schedule 1 (ops_tick 1 <$> [[]; []; []; []; [EnvStore 2 1]])).

Lemma startup_go n : (3 <= n)%nat -> val_at (announced 0 1 startup_world) n 2 <> 0.
Proof.
  intros Hn. replace n with (3 + (n - 3))%nat by lia. generalize (n - 3)%nat as k. clear.
  intros k. unfold val_at, sys_at. rewrite sys_iter_add. set (s0 := sys_iter 3 _).
  assert (H : s_sched (sys_iter k s0) = s_sched (w_sys startup_world) /\ s_pos (sys_iter k s0) = (5 + k)%nat
    /\ mget (s_mem (sys_iter k s0)) 2 = 1); [|by destruct H as (_ & _ & ->)].
  induction k as [|k (IH1 & IH2 & IH3)]; [done|]. rewrite sys_iter_S.
  set (s := sys_iter k s0) in *. split; [done|]. split; [simpl; lia|].
  unfold sys_step, cur_tick. cbn [s_mem]. by rewrite IH1, IH2.
Qed.

Lemma waiter_startup_correct_witness :
  exists r w', capture_generation_before_start 5 0 1 2 3 startup_world = Some (r, w') /\ r = Observed 4.
Proof.
  destruct (waiter_startup_correct 5 3 0 1 2 3 startup_world) as (r & w' & k & Hrun & _ & _ & _ & _ & Hr);
    [exact startup_go|lia|lia|].
  exists r, w'. split; [exact Hrun|].
  assert (Hc : fst <$> capture_generation_before_start 5 0 1 2 3 startup_world = Some (Observed 4))
    by (vm_compute; reflexivity).
  rewrite Hrun in Hc. simpl in Hc. congruence.
Defined.

(** The exact nearest rank of the quantile [num / den]. *)
Definition exact_rank (num den len : Z) : Z := (num * len + den - 1) / den.
Definition f64_0_5 : spec_float := S754_finite false 4503599627370496 (-53).
Definition f64_0_999 : spec_float := S754_finite false 8998192055486251 (-53).
Definition quantiles_exact (len : Z) : bool :=
  (percentile_rank f64_0_5 len =? exact_rank 1 2 len)
  && (percentile_rank f64_0_99 len =? exact_rank 99 100 len)
  && (percentile_rank f64_0_999 len =? exact_rank 999 1000 len).

Lemma quantiles_checked : forallb quantiles_exact (seqZ 1 5000) = true.
Proof. vm_compute. reflexivity. Qed.

(** A percentile is an order statistic. For any non-empty sorted sample and any 64-bit float as the
    quantile (NaN and infinities included) the lookup is in bounds; at the computed rank, that many
    samples are at most the result and the remaining ones at least it; an empty
    sample is refused. For the three quantiles in use (0.5, 0.99, 0.999) the rank computed in floating point is
    the exact nearest rank for every sample size up to 5000. *)
Theorem percentile_order_statistic (values : list Z) (q : spec_float) :
  StronglySorted Z.le values ->
  let len := Z.of_nat (length values) in
  (values = [] -> percentile_sorted values q = None) /\
  (values <> [] -> exists v i, percentile_sorted values q = Some v /\ values !! i = Some v /\
     Z.of_nat i = percentile_index len q /\
     Forall (fun x => x <= v) (take (S i) values) /\ Forall (fun x => v <= x) (drop i values)) /\
  (1 <= len <= 5000 ->
     percentile_rank f64_0_5 len = exact_rank 1 2 len /\
     percentile_rank f64_0_99 len = exact_rank 99 100 len /\
     percentile_rank f64_0_999 len = exact_rank 999 1000 len).
Proof.
  intros Hs len. split; [by intros ->|]. split.
  - intros Hne. assert (Hlen : 0 < len) by (destruct values; [done|simpl in *; lia]).
    pose proof (percentile_index_range len q Hlen) as Hi.
    destruct (lookup_lt_is_Some_2 values (Z.to_nat (percentile_index len q))) as [v Hv]; [lia|].
    exists v, (Z.to_nat (percentile_index len q)). split; [|split; [done|split; [lia|by apply sorted_count_below]]].
    unfold percentile_sorted. fold len. by rewrite (proj2 (Z.eqb_neq len 0)) by lia.
  - intros Hr. pose proof quantiles_checked as Hq. rewrite forallb_forall in Hq.
    specialize (Hq len). unfold quantiles_exact in Hq. rewrite !andb_true_iff, !Z.eqb_eq in Hq.
    destruct Hq as [[H1 H2] H3]; [|done]. apply list_elem_of_In, elem_of_seqZ. lia.
Qed.

Lemma percentile_order_statistic_witness :
  exists v, percentile_sorted [1; 2; 5; 9] f64_0_5 = Some v /\ v = 2.
Proof.
  destruct (percentile_order_statistic [1; 2; 5; 9] f64_0_5) as (_ & H & _).
  { repeat constructor; lia. }
  destruct H as (v & i & Hv & _); [discriminate|]. exists v. split; [exact Hv|].
  assert (Hc : percentile_sorted [1; 2; 5; 9] f64_0_5 = Some 2) by (vm_compute; reflexivity). congruence.
Defined.

(** JSON escaping loses nothing. For every string of non-negative scalar values, a reader of the JSON
    string grammar, started after the opening quote on the escaped text followed by a
    closing quote and anything else, returns exactly the original string and stops exactly at that
    closing quote (so no escaped value can break out of its string). *)
Theorem json_escape_roundtrip (value rest : list Z) :
  Forall (fun c => 0 <= c) value ->
  json_read (json_escape value ++ 34 :: rest) = Some (value, rest).
Proof.
  induction 1 as [|c r Hc _ IH]; [done|]. cbn [json_escape]. rewrite <- app_assoc.
  rewrite json_read_escape by done. by rewrite IH.
Qed.

Lemma json_escape_roundtrip_witness :
  json_read (json_escape [34; 10; 7; 233] ++ [34; 44]) = Some ([34; 10; 7; 233], [44]).
Proof. apply (json_escape_roundtrip [34; 10; 7; 233] [44]). repeat constructor; lia. Defined.

(** The CPU-list parser reads back what the kernel prints. Any non-empty list of ranges, each
    printed as a single number or as first-last and joined by commas, parses to exactly the
    union of the ranges; a descending range is refused. *)
Theorem cpu_list_roundtrip (r : N * N) (rs : list (N * N)) :
  Forall range_ok (r :: rs) ->
  parse_cpu_list (print_cpu_list r rs) = Ok (⋃ (range_set <$> r :: rs)) /\
  forall a b : N, (b < a)%N -> Z.of_N a <= u64_max ->
    parse_cpu_list (print_cpu_list (a, b) rs) = Err (InvalidRange (print_range (a, b))).
Proof.
  intros Hok. split.
  - unfold parse_cpu_list. rewrite split_print_list, parse_components by done. f_equal. set_solver.
  - intros a b Hlt Ha. unfold parse_cpu_list. rewrite split_print_list. simpl.
    assert (He : parse_cpu_component (print_range (a, b)) = Err (InvalidRange (print_range (a, b))));
      [|by rewrite He]. unfold parse_cpu_component, print_range. simpl.
    rewrite bool_decide_false by lia. rewrite split_once_app by (by apply no_char_pretty).
    rewrite !parse_pretty by lia. by rewrite (proj2 (Z.ltb_lt _ _)) by lia.
Qed.

Lemma cpu_list_roundtrip_witness :
  print_cpu_list (0%N, 2%N) [(5%N, 5%N)] = "0-2,5"%string /\
  parse_cpu_list "0-2,5" = Ok (⋃ (range_set <$> [(0%N, 2%N); (5%N, 5%N)])).
Proof.
  split; [vm_compute; reflexivity|].
  apply (cpu_list_roundtrip (0%N, 2%N) [(5%N, 5%N)]).
  repeat constructor; vm_compute; discriminate.
Defined.
