(* ===== verification/ControlProof.v ===== *)
(** * The production-control proof (benches/support/control_proof.rs)

    Official mode of the benchmark accepts a run only with a proof written by benchctl: an inherited pipe
    that belongs to the host's root, holding a JSON object that names this operation and
    this build. The operating system's answers and the JSON parser are arguments. *)

From stdpp Require Import pretty.
From Stdlib Require Import Ascii.
From S2P Require Import Prelude BenchFs Pure.
Open Scope Z_scope.
Open Scope snz_scope.

Definition PROOF_VERSION : string := "benchctl-production-control-v1".

(** What the process can ask: its environment, the metadata of a descriptor ([fs::metadata] of
    /proc/self/fd/n: the owner and whether it is a pipe), its user-namespace mapping, and
    the contents of a descriptor. *)
Record ProcFs := mkProcFs {
  pf_env : gmap string string;
  pf_metadata : Z -> result (Z * bool) io_error;
  pf_uid_map : result string io_error;
  pf_read : Z -> result string io_error;
}.

(** [serde_json::from_str]: [None] when the text is not JSON; [Some None] when it is not an
    object; otherwise its fields, with the value of those that are strings. *)
Class JsonObject := json_object : string -> option (option (gmap string (option string))).

(** The error messages, by what they say. *)
Inductive ProofError :=
| NoDescriptor | BadDescriptor | NoOperation | DescriptorRange
| InspectProof (e : io_error) | NotRootPipe | ReadUidMap (e : io_error) | NotHostRoot
| ReadProof (e : io_error) | NotJson | NotObject | Lacks (name : string)
| WrongVersion | OtherOperation | OtherBuild.

(** [str::lines] *)
Definition strip_cr (s : string) : string :=
  match String.length s with
  | O => s
  | S n => if bool_decide (String.get n s = Some "013"%char) then String.substring 0 n s else s
  end.
Definition lines (s : string) : list string :=
  let l := split_on "010" s in
  strip_cr <$> (match last l with Some EmptyString => removelast l | _ => l end).

(** [str::split_whitespace] *)
Fixpoint split_whitespace (s : string) : list string :=
  match s with
  | EmptyString => []
  | String c r =>
      if is_space c then split_whitespace r
      else
        match r with
        | EmptyString => [String c EmptyString]
        | String c2 _ =>
            if is_space c2 then String c EmptyString :: split_whitespace r
            else match split_whitespace r with
                 | [] => [String c EmptyString]
                 | w :: ws => String c w :: ws
                 end
        end
  end.

Definition maps_root_line (line : string) : bool :=
  match split_whitespace line with
  | [inside; outside; length] =>
      bool_decide (inside = "0"%string) && bool_decide (outside = "0"%string)
      && match parse_unsigned u64_max length with Some n => 0 <? n | None => false end
  | _ => false
  end.
Definition maps_namespace_root_to_host_root (mappings : string) : bool :=
  existsb maps_root_line (lines mappings).

Section proof.
Context `{JsonObject}.

Definition proof_field (proof : gmap string (option string)) (name : string) : result string ProofError :=
  match proof !! name with Some (Some v) => Ok v | _ => Err (Lacks name) end.

Definition lift_io {A} (r : result A io_error) (f : io_error -> ProofError) : result A ProofError :=
  match r with Ok a => Ok a | Err e => Err (f e) end.

Definition validate_descriptor (pf : ProcFs) (descriptor : Z) (expected_operation_id expected_build_id : string)
  : result unit ProofError :=
  if (descriptor <? 3) || (2147483647 <? descriptor) then Err DescriptorRange
  else
    metadata <-? lift_io (pf_metadata pf descriptor) InspectProof;
    if negb (metadata.1 =? 0) || negb metadata.2 then Err NotRootPipe
    else
      uid_map <-? lift_io (pf_uid_map pf) ReadUidMap;
      if negb (maps_namespace_root_to_host_root uid_map) then Err NotHostRoot
      else
        encoded <-? lift_io (pf_read pf descriptor) ReadProof;
        value <-? ok_or (json_object encoded) NotJson;
        proof <-? ok_or value NotObject;
        version <-? proof_field proof "version";
        if negb (bool_decide (version = PROOF_VERSION)) then Err WrongVersion
        else
          operation <-? proof_field proof "operation_id";
          if negb (bool_decide (operation = expected_operation_id)) then Err OtherOperation
          else
            build <-? proof_field proof "build_id";
            if negb (bool_decide (build = expected_build_id)) then Err OtherBuild
            else Ok tt.

Definition validate_from_environment (pf : ProcFs) (expected_build_id : string) : result unit ProofError :=
  raw <-? ok_or (pf_env pf !! "BENCHCTL_PRODUCTION_CONTROL_FD"%string) NoDescriptor;
  descriptor <-? ok_or (parse_unsigned 4294967295 raw) BadDescriptor;
  operation_id <-? ok_or (pf_env pf !! "BENCHCTL_OPERATION_ID"%string) NoOperation;
  validate_descriptor pf descriptor operation_id expected_build_id.

(** ** What acceptance means *)

(** A proof benchctl would write, in a pipe owned by root, seen from a namespace whose root is the host's. *)
Definition proof_accepts (pf : ProcFs) (descriptor : Z) (operation build : string) : Prop :=
  3 <= descriptor <= 2147483647 /\ pf_metadata pf descriptor = Ok (0, true) /\
  (exists m, pf_uid_map pf = Ok m /\ maps_namespace_root_to_host_root m = true) /\
  exists text fields, pf_read pf descriptor = Ok text /\ json_object text = Some (Some fields) /\
    fields !! "version"%string = Some (Some PROOF_VERSION) /\
    fields !! "operation_id"%string = Some (Some operation) /\
    fields !! "build_id"%string = Some (Some build).

Lemma lift_io_ok {A} (r : result A io_error) f x : lift_io r f = Ok x <-> r = Ok x.
Proof. destruct r; naive_solver. Qed.
Lemma proof_field_ok p n v : proof_field p n = Ok v <-> p !! n = Some (Some v).
Proof. unfold proof_field. destruct (p !! n) as [[]|]; naive_solver. Qed.
Lemma guard_ok {A E} (b : bool) (e : E) (k : result A E) x :
  (if b then Err e else k) = Ok x <-> b = false /\ k = Ok x.
Proof. destruct b; naive_solver. Qed.

Lemma validate_descriptor_ok pf d op build :
  validate_descriptor pf d op build = Ok tt <-> proof_accepts pf d op build.
Proof.
  unfold validate_descriptor, proof_accepts.
  repeat setoid_rewrite guard_ok || setoid_rewrite result_bind_ok || setoid_rewrite ok_or_ok
    || setoid_rewrite lift_io_ok || setoid_rewrite proof_field_ok || setoid_rewrite orb_false_iff
    || setoid_rewrite negb_false_iff || setoid_rewrite bool_decide_eq_true
    || setoid_rewrite Z.ltb_ge || setoid_rewrite Z.eqb_eq.
  split.
  - intros ([H1 H2] & [u p] & Hm & [Hu Hp] & m & Hmap & Hns & t & Ht & o & Ho & f & -> & v & Hv & Hv' & op'
            & Hop & Hop' & b & Hb & Hb' & _). simpl in *. subst.
    split; [lia|]. split; [done|]. split; [by exists m|]. by exists t, f.
  - intros (Hd & Hm & (m & Hmap & Hns) & t & f & Ht & Hj & Hv & Ho & Hb).
    split; [lia|]. exists (0, true). split; [done|]. split; [done|]. exists m. split; [done|]. split; [done|].
    exists t. split; [done|]. exists (Some f). split; [done|]. exists f. split; [done|].
    exists PROOF_VERSION. split; [done|]. split; [done|]. exists op. split; [done|]. split; [done|].
    by exists build.
Qed.
End proof.

(** ** The kernel's uid_map format *)

Fixpoint spaces (n : nat) : string := match n with O => EmptyString | S k => String " " (spaces k) end.
(** [%10u] *)
Definition pad10 (s : string) : string := spaces (10 - String.length s) +:+ s.
Definition uid_map_line (e : N * N * N) : string :=
  let '(inside, outside, len) := e in
  pad10 (pretty inside) +:+ String " " (pad10 (pretty outside) +:+ String " " (pad10 (pretty len))).
Definition uid_map_text (es : list (N * N * N)) : string :=
  foldr (fun e acc => uid_map_line e +:+ String "010" acc) EmptyString es.

(** A word: not empty, and without white space. *)
Fixpoint no_space (s : string) : bool :=
  match s with EmptyString => true | String c r => negb (is_space c) && no_space r end.

Lemma split_ws_spaces n s : split_whitespace (spaces n +:+ s) = split_whitespace s.
Proof. induction n as [|n IH]; [done|exact IH]. Qed.

Lemma split_ws_cons c c2 r :
  is_space c = false -> is_space c2 = false ->
  split_whitespace (String c (String c2 r)) =
    match split_whitespace (String c2 r) with [] => [String c EmptyString] | w :: ws => String c w :: ws end.
Proof.
  intros H1 H2. remember (String c2 r) as s eqn:E. cbn [split_whitespace]. rewrite H1, E, H2. by rewrite <- E.
Qed.

Lemma split_ws_word s t :
  s <> EmptyString -> no_space s = true ->
  split_whitespace (s +:+ String " " t) = s :: split_whitespace t /\ split_whitespace s = [s].
Proof.
  intros Hne. induction s as [|c s IH]; [done|]. intros Hs. cbn [no_space] in Hs. bool_facts.
  destruct s as [|c2 s].
  - simpl. by rewrite H.
  - specialize (IH ltac:(done) H0) as [IH1 IH2]. cbn [no_space] in H0. bool_facts.
    split; [change (String c (String c2 s) +:+ String " " t) with (String c (String c2 (s +:+ String " " t)))|];
      rewrite split_ws_cons by done; [|by rewrite IH2].
    change (String c2 (s +:+ String " " t)) with (String c2 s +:+ String " " t). by rewrite IH1.
Qed.

Lemma digit_not_space c : is_digit c = true -> is_space c = false.
Proof. destruct c as [[] [] [] [] [] [] [] []]; vm_compute; done. Qed.

Lemma no_space_pretty (x : N) : no_space (pretty x) = true.
Proof.
  assert (Hg : forall x s, no_space s = true -> no_space (pretty_N_go x s) = true).
  { clear x. intros x. induction (N.lt_wf_0 x) as [x _ IH]. intros s Hs.
    destruct (decide (x = 0)%N) as [->|Hx]; [by rewrite pretty_N_go_0|].
    rewrite pretty_N_go_step by lia. apply IH; [apply N.div_lt; lia|]. simpl.
    rewrite digit_not_space; [done|]. unfold is_digit. by rewrite pretty_char_digit by (apply N.mod_lt; lia). }
  unfold pretty, pretty_N. case_decide; [done|]. by apply Hg.
Qed.
Lemma pretty_nonempty (x : N) : pretty x <> EmptyString.
Proof. destruct (pretty_not_plus x) as (c & r & -> & _). done. Qed.

Lemma split_uid_line a b c : split_whitespace (uid_map_line (a, b, c)) = [pretty a; pretty b; pretty c].
Proof.
  unfold uid_map_line, pad10. rewrite !string_app_assoc, split_ws_spaces.
  destruct (split_ws_word (pretty a) (spaces (10 - String.length (pretty b)) +:+ pretty b
    +:+ String " " (spaces (10 - String.length (pretty c)) +:+ pretty c)) (pretty_nonempty a) (no_space_pretty a)) as [-> _].
  rewrite split_ws_spaces.
  destruct (split_ws_word (pretty b) (spaces (10 - String.length (pretty c)) +:+ pretty c)
    (pretty_nonempty b) (no_space_pretty b)) as [-> _].
  rewrite split_ws_spaces.
  by destruct (split_ws_word (pretty c) EmptyString (pretty_nonempty c) (no_space_pretty c)) as [_ ->].
Qed.

Lemma no_newline_spaces n : no_char "010" (spaces n) = true.
Proof. induction n as [|n IH]; [done|exact IH]. Qed.
Lemma no_newline_line e : no_char "010" (uid_map_line e) = true.
Proof.
  destruct e as [[a b] c]. unfold uid_map_line, pad10.
  repeat (rewrite ?no_char_app, ?no_newline_spaces, ?no_char_pretty by done; simpl). done.
Qed.

Lemma lines_text es : split_on "010" (uid_map_text es) = (uid_map_line <$> es) ++ [EmptyString].
Proof.
  induction es as [|e es IH]; [done|]. cbn [uid_map_text foldr].
  rewrite split_on_app by apply no_newline_line. exact (f_equal (cons _) IH).
Qed.

(** The line ends in a digit, so [lines] strips no carriage return. *)
Fixpoint last_char (s : string) : option ascii :=
  match s with EmptyString => None | String c EmptyString => Some c | String _ r => last_char r end.
Lemma get_last s n : String.length s = S n -> String.get n s = last_char s.
Proof.
  revert n. induction s as [|c s IH]; intros n Hl; [done|]. simpl in Hl. injection Hl as <-.
  destruct s as [|c2 s]; [done|]. exact (IH (String.length s) eq_refl).
Qed.
Lemma strip_cr_id s : last_char s <> Some "013"%char -> strip_cr s = s.
Proof.
  intros H. unfold strip_cr. destruct (String.length s) as [|n] eqn:E; [done|].
  by rewrite (get_last _ _ E), bool_decide_false.
Qed.
Lemma last_char_app s t : t <> EmptyString -> last_char (s +:+ t) = last_char t.
Proof.
  intros Ht. induction s as [|c s IH]; [done|]. simpl. rewrite IH.
  destruct (s +:+ t) eqn:E; [|done]. destruct s; simpl in E; [by subst|done].
Qed.
Lemma last_char_no c s : no_char c s = true -> last_char s <> Some c.
Proof.
  induction s as [|x s IH]; [done|]. simpl. intros H. bool_facts. destruct s; [|by apply IH].
  intros [= ->]. by case_bool_decide.
Qed.
Lemma last_char_cons x t : t <> EmptyString -> last_char (String x t) = last_char t.
Proof. by destruct t. Qed.
Lemma app_nonempty s t : t <> EmptyString -> s +:+ t <> EmptyString.
Proof. by destruct s. Qed.
Lemma cons_nonempty x t : String x t <> EmptyString.
Proof. done. Qed.
Lemma strip_line e : strip_cr (uid_map_line e) = uid_map_line e.
Proof.
  apply strip_cr_id. destruct e as [[a b] c]. unfold uid_map_line, pad10.
  repeat first [ rewrite last_char_app by auto using app_nonempty, cons_nonempty, pretty_nonempty
               | rewrite last_char_cons by auto using app_nonempty, cons_nonempty, pretty_nonempty ].
  apply last_char_no. by apply no_char_pretty.
Qed.

Lemma lines_uid_map es : lines (uid_map_text es) = uid_map_line <$> es.
Proof.
  unfold lines. rewrite lines_text, last_snoc, removelast_last.
  rewrite <- list_fmap_compose. apply list_fmap_ext. intros i e _. apply strip_line.
Qed.

Lemma pretty_zero (x : N) : pretty x = "0"%string <-> x = 0%N.
Proof. split; [|by intros ->]. intros H. apply (inj pretty). by rewrite H. Qed.

(** ** The properties *)

(** Official mode accepts exactly a genuine proof. Validation from the environment succeeds if and only
    if the descriptor variable holds a 32-bit number naming an inherited descriptor (3 or above), that
    descriptor is a pipe owned by root, the user namespace's root is the host's root, and
    the pipe holds a JSON object with this proof version, the operation of the environment
    and the expected build. *)
Theorem control_proof_exact `{JsonObject} (pf : ProcFs) (build : string) :
  validate_from_environment pf build = Ok tt <->
  exists raw d operation,
    pf_env pf !! "BENCHCTL_PRODUCTION_CONTROL_FD"%string = Some raw /\
    parse_unsigned 4294967295 raw = Some d /\
    pf_env pf !! "BENCHCTL_OPERATION_ID"%string = Some operation /\
    proof_accepts pf d operation build.
Proof.
  unfold validate_from_environment.
  repeat setoid_rewrite result_bind_ok || setoid_rewrite ok_or_ok || setoid_rewrite validate_descriptor_ok.
  naive_solver.
Qed.

Lemma control_proof_exact_witness :
  let json : JsonObject := fun t => Some (Some (<["version"%string := Some PROOF_VERSION]>
    (<["operation_id"%string := Some "op"%string]> {["build_id"%string := Some t]}))) in
  let pf := mkProcFs (<["BENCHCTL_PRODUCTION_CONTROL_FD"%string := "5"%string]>
      {["BENCHCTL_OPERATION_ID"%string := "op"%string]})
    (fun d => if d =? 5 then Ok (0, true) else Err NotFound)
    (Ok (uid_map_text [(0%N, 0%N, 4294967295%N)])) (fun _ => Ok "build"%string) in
  validate_from_environment pf "build" = Ok tt.
Proof.
  intros json pf. apply (@control_proof_exact json pf "build").
  exists "5"%string, 5, "op"%string. split; [reflexivity|]. split; [reflexivity|]. split; [reflexivity|].
  split; [lia|]. split; [reflexivity|]. split; [eexists; split; [reflexivity|vm_compute; reflexivity]|].
  eexists _, _. split; [reflexivity|]. split; [reflexivity|]. split; [reflexivity|]. split; reflexivity.
Defined.

(** A user-namespace root is told from the host's root. On a uid_map as the kernel prints it (three columns
    of width ten per mapping), the check succeeds exactly if some mapping sends uid 0 to uid 0
    and covers at least one id. *)
Theorem uid_map_exact (es : list (N * N * N)) :
  Forall (fun e => Z.of_N e.2 <= u64_max) es ->
  maps_namespace_root_to_host_root (uid_map_text es) = true <->
  exists len, (0%N, 0%N, len) ∈ es /\ (0 < len)%N.
Proof.
  intros Hes. unfold maps_namespace_root_to_host_root. rewrite lines_uid_map, existsb_exists.
  assert (Hl : forall a b c, Z.of_N c <= u64_max ->
    maps_root_line (uid_map_line (a, b, c)) = true <-> a = 0%N /\ b = 0%N /\ (0 < c)%N).
  { intros a b c Hc. unfold maps_root_line. rewrite split_uid_line, parse_pretty by done.
    rewrite !andb_true_iff, !bool_decide_eq_true, !pretty_zero, Z.ltb_lt. lia. }
  split.
  - intros (line & Hin & Hm). apply list_elem_of_In, list_elem_of_fmap in Hin as ([[a b] c] & -> & Hin).
    rewrite Forall_forall in Hes. specialize (Hes _ Hin). apply Hl in Hm as (-> & -> & Hc); [|done]. eauto.
  - intros (len & Hin & Hlen). exists (uid_map_line (0%N, 0%N, len)).
    split; [apply list_elem_of_In; by apply list_elem_of_fmap_2|].
    rewrite Forall_forall in Hes. apply Hl; [apply (Hes _ Hin)|done].
Qed.

Lemma uid_map_exact_witness :
  maps_namespace_root_to_host_root (uid_map_text [(0%N, 0%N, 4294967295%N)]) = true /\
  ~ maps_namespace_root_to_host_root (uid_map_text [(0%N, 1000%N, 1%N)]) = true.
Proof.
  split.
  - apply (uid_map_exact [(0%N, 0%N, 4294967295%N)]); [repeat constructor; vm_compute; discriminate|].
    exists 4294967295%N. split; [apply list_elem_of_here|lia].
  - intros H. apply (uid_map_exact [(0%N, 1000%N, 1%N)]) in H; [|repeat constructor; vm_compute; discriminate].
    destruct H as (len & Hin & _). apply list_elem_of_singleton in Hin. discriminate Hin.
Defined.
