(* ===== verification/Supervision.v ===== *)
(** * The supervision of a workload (tools/benchctl/src/supervision.rs)

    Three processes run a workload: the coordinator starts a workload supervisor, which leads
    a process group and starts the unprivileged workload in it, and a guardian, which holds
    the active-operation lock and proves the group empty when the coordinator asks for it or
    dies. They talk through files of the operation's runtime directory. Each process is a
    program over the worlds of [Process]; the others are its environment. *)

From stdpp Require Import pretty.
From Stdlib Require Import Ascii.
From S2P Require Import Prelude BenchFs Journal Receipt Process Cpuidle ControlProof.
Open Scope Z_scope.

Definition STARTUP_LIMIT : Z := 5000.
Definition STOP_GRACE : Z := 5000.
Definition DRAIN_LIMIT : Z := 5000.
Definition ACTIVE_WAIT : Z := 12000.
Definition i32_max : Z := 2147483647.

Record SupervisorRequest := mkSupervisor {
  sr_go : path;
  sr_status : path;
  sr_receipt : path;
  sr_executable : path;
  sr_operation_id : string;
  sr_coordinator_pid : Z;
  sr_uid : Z;
  sr_gid : Z;
  sr_workload : list string;
  sr_production_control : bool;
}.

Record GuardianRequest := mkGuardian {
  gr_coordinator_pid : Z;
  gr_pgid : Z;
  gr_active_lock : path;
  gr_ready : path;
  gr_drain : path;
  gr_drained : path;
}.

Record WorkloadStatus := mkStatus {
  ws_success : bool;
  ws_code : option Z;
  ws_signal : option Z;
}.

(** serde_json for the records of this component; the proof is an object of the version, the operation and the build. *)
Class SupervisionSerde := {
  receipt_to_string : BuildReceipt -> option string;
  status_to_vec : WorkloadStatus -> option string;
  status_from_slice : string -> option WorkloadStatus;
  outcome_to_vec : Outcome -> option string;
  outcome_from_slice : string -> option Outcome;
  proof_to_vec : string -> string -> string -> option string;
}.
Class SupervisionSerdeLaws `{SupervisionSerde} := {
  outcome_roundtrip o b : outcome_to_vec o = Some b -> outcome_from_slice b = Some o;
  status_roundtrip st b : status_to_vec st = Some b -> status_from_slice b = Some st;
}.

(** How many bytes the pipe takes at the write that happens at a tick *)
Class PipeOs := pipe_accepts : nat -> nat.

Definition newline : string := String "010"%char EmptyString.
Definition pid_arg (pid : Z) : string := pretty (Z.to_N pid).

Definition render_status (st : WorkloadStatus) : string :=
  match ws_code st, ws_signal st with
  | Some code, _ => "exit code " +:+ pretty code
  | None, Some signal => "signal " +:+ pretty signal
  | None, None => "unknown exit status"
  end.

Definition outcome_of_status (st : WorkloadStatus) : Outcome :=
  if ws_success st then O_Success else O_Failed (render_status st).

Section files.
Context `{SupervisionSerde}.

Definition read_status (p : path) : IO (option WorkloadStatus) :=
  x ← sys_exists p;
  if negb x then mret None
  else
    bytes ← io_op "reading workload status" (sys_read p);
    match status_from_slice bytes with
    | Some st => mret (Some st)
    | None => throw (Json "reading workload status")
    end.

Definition store_outcome (p : path) (o : Outcome) : IO unit :=
  match outcome_to_vec o with
  | None => throw (Json "serializing durable workload outcome")
  | Some bytes => atomic_write p bytes
  end.

Definition runtime_dir (state_root : path) (operation_id : string) : path :=
  state_root ++ [operation_id +:+ ".runtime"].

Definition recover_outcome (state_root : path) (operation_id : string) : IO (option Outcome) :=
  let runtime := runtime_dir state_root operation_id in
  let outcome := runtime ++ ["outcome.json"] in
  x ← sys_exists outcome;
  if x : bool then
    bytes ← io_op "reading durable workload outcome" (sys_read outcome);
    match outcome_from_slice bytes with
    | Some o => mret (Some o)
    | None => throw (Json "reading durable workload outcome")
    end
  else
    st ← read_status (runtime ++ ["status.json"]);
    mret (outcome_of_status <$> st).

Definition cleanup_runtime (state_root : path) (operation_id : string) : IO unit :=
  let runtime := runtime_dir state_root operation_id in
  x ← sys_exists runtime;
  if x : bool then io_op "removing operation runtime directory" (sys_remove_dir_all runtime) else mret tt.

Definition require_host_root_mapping : IO unit :=
  mappings ← io_op "reading coordinator user-namespace mapping" (sys_read ["proc"; "self"; "uid_map"]);
  if negb (maps_namespace_root_to_host_root mappings)
  then throw (State
    "production control proof requires root mapped to host UID 0, not user-namespace root")
  else mret tt.
End files.

Section programs.
Context `{Environment} (fuel : nat).

(** ** Process groups *)

Definition signalling : string := "cannot signal workload process group".
Definition inspecting : string := "cannot inspect workload process group".
Definition not_empty : string := "workload process group could not be proved empty".

Definition terminate_and_drain (g : Z) : W unit :=
  drain_group fuel signalling inspecting not_empty (mret tt) (mret tt) STOP_GRACE DRAIN_LIMIT g.

Definition reap_leader (leader : Z) : W unit :=
  _ ← try_wait "reaping workload supervisor" leader; mret tt.
Definition terminate_and_reap_group (g leader : Z) : W unit :=
  drain_group fuel signalling inspecting not_empty (reap_leader leader) (reap_leader leader)
    STOP_GRACE DRAIN_LIMIT g.

(** ** The handshakes *)

Definition wait_for_ready (ready : path) (guardian supervisor pgid : Z) : W unit :=
  started ← instant_now;
  repeat_until fuel
    (x ← wexists ready;
     if x : bool then mret (Some tt)
     else
       g ← try_wait "checking guardian startup" guardian;
       match g with
       | Some _ =>
           _ ← terminate_and_reap_group pgid supervisor;
           fail (State "crash guardian failed during startup")
       | None =>
           s ← try_wait "checking supervisor startup" supervisor;
           match s with
           | Some _ => fail (State "workload supervisor failed during startup")
           | None =>
               e ← elapsed started;
               if STARTUP_LIMIT <=? e then
                 _ ← terminate_and_reap_group pgid supervisor;
                 fail (State "crash guardian startup timed out")
               else _ ← sleep 10; mret None
           end
       end).

Definition wait_for_drained (drained : path) (guardian supervisor : Z) : W unit :=
  started ← instant_now;
  repeat_until fuel
    (x ← wexists drained;
     if x : bool then mret (Some tt)
     else
       _ ← try_wait "reaping workload supervisor" supervisor;
       g ← try_wait "checking guardian drain" guardian;
       match g with
       | Some _ => fail (State "crash guardian exited without drain proof")
       | None =>
           e ← elapsed started;
           if STOP_GRACE + DRAIN_LIMIT + 1000 <=? e
           then fail (State "timed out waiting for crash guardian drain proof")
           else _ ← sleep 10; mret None
       end).

(** ** The client and cancellation *)

(** A process that has exited, reaped or not *)
Definition exited (w : world) (pid : Z) : bool :=
  match w_procs w !! pid with Some p => bool_decide (is_Some (ps_exit p)) | None => true end.

(** A pidfd keeps naming its process; an exited one is readable. *)
Definition pidfd_open (message : string) (pid : Z) : W unit :=
  act (fun w => match io_faults (w_io w) (io_ops (w_io w)), w_procs w !! pid with
    | None, Some _ => (Ok tt, set_wio (io_step (w_io w)) w)
    | _, _ => (Err (State message), set_wio (io_step (w_io w)) w)
    end).
Definition poll_now (message : string) (pid : Z) : W bool :=
  act (fun w => match io_faults (w_io w) (io_ops (w_io w)) with
    | None => (Ok (exited w pid), set_wio (io_step (w_io w)) w)
    | Some _ => (Err (State message), set_wio (io_step (w_io w)) w)
    end).

Definition client_watch (client_pid : option Z) : W (option Z) :=
  match client_pid with
  | None => mret None
  | Some pid =>
      if i32_max <? pid then fail (Usage "client PID is outside the PID range")
      else if pid =? 0 then fail (Usage "client PID must be positive")
      else
        _ ← pidfd_open ("cannot watch client PID " +:+ pid_arg pid) pid;
        ready ← poll_now "cannot inspect client PID" pid;
        if ready : bool then fail (Workload "unprivileged client exited before host mutation")
        else mret (Some pid)
  end.

(** Three handlers and, with a client, a thread that waits for its exit. From then on the environment
    sets the flag ([flag_load]): the handlers and the thread are actors beside this program. *)
Definition fd_call (operation : string) : W unit := pcall operation (fun w => (Ok tt, w)).
Definition cancellation_flag (watch : option Z) : W unit :=
  _ ← fd_call "installing cancellation handler";
  _ ← fd_call "installing cancellation handler";
  fd_call "installing cancellation handler".

(** ** The active-operation lock *)

(** The file is closed, and the lock released, when the function returns. *)
Definition closing (p : path) {A} (m : W A) : W A :=
  r ← attempt m; _ ← unlock p; wlift r.

Definition require_inactive (state_root : path) : W unit :=
  let p := state_root ++ ["active.lock"] in
  _ ← wio (io_op "opening active-operation lock" (sys_open_create p));
  started ← instant_now;
  closing p (repeat_until fuel
    (r ← try_lock p;
     match r with
     | Ok true => mret (Some tt)
     | Ok false =>
         e ← elapsed started;
         if e <? ACTIVE_WAIT then _ ← sleep 10; mret None
         else fail (State "active workload cleanup has not released its lock")
     | Err _ => fail (State "active workload cleanup has not released its lock")
     end)).

(** ** The guardian *)

Definition guardian (r : GuardianRequest) : W unit :=
  _ ← wio (io_op "opening active-operation lock" (sys_open_create (gr_active_lock r)));
  closing (gr_active_lock r)
    (_ ← lock_file fuel "locking active operation" (gr_active_lock r);
     _ ← wio (atomic_write (gr_ready r) ("ready" +:+ newline));
     if i32_max <? gr_coordinator_pid r
     then fail (Usage "coordinator PID is outside the PID range")
     else
       repeat_until fuel
         (requested ← wexists (gr_drain r);
          parent ← has_parent (gr_coordinator_pid r);
          if (requested : bool) || negb parent then
            _ ← terminate_and_drain (gr_pgid r);
            _ ← (if requested : bool then wio (atomic_write (gr_drained r) ("drained" +:+ newline))
                 else mret tt);
            mret (Some tt)
          else _ ← sleep 10; mret None)).

(** ** The coordinator *)

Context `{SupervisionSerde}.

Definition supervisor_argv (executable go status : path) (coordinator_pid : Z) (r : CoordinateRequest)
  : list string :=
  [display executable; "__workload"; "--go"; display go; "--status"; display status;
   "--receipt"; display (cr_receipt r); "--executable"; display (cr_executable r);
   "--operation-id"; cr_operation_id r; "--coordinator-pid"; pid_arg coordinator_pid;
   "--uid"; pid_arg (cr_uid r); "--gid"; pid_arg (cr_gid r)]
  ++ (if cr_production_control r then ["--production-control"] else [])
  ++ ["--"] ++ cr_workload r.
Definition guardian_argv (executable active_lock ready drain drained : path) (coordinator_pid pgid : Z)
  : list string :=
  [display executable; "__guardian"; "--coordinator-pid"; pid_arg coordinator_pid;
   "--pgid"; pid_arg pgid; "--active-lock"; display active_lock; "--ready"; display ready;
   "--drain"; display drain; "--drained"; display drained].

(** The loop that waits for the outcome. *)
Definition watch_outcome (status : path) (timeout_ms started : Z) (guardian supervisor : Z) : W Outcome :=
  repeat_until fuel
    (st ← wio (read_status status);
     match st with
     | Some st => mret (Some (outcome_of_status st))
     | None =>
         c ← flag_load;
         if c : bool then mret (Some O_Cancelled)
         else
           e ← elapsed started;
           if timeout_ms <=? e then mret (Some O_TimedOut)
           else
             g ← try_wait "checking crash guardian" guardian;
             match g with
             | Some _ =>
                 _ ← terminate_and_reap_group supervisor supervisor;
                 fail (State "crash guardian exited before drain request")
             | None =>
                 s ← try_wait "checking workload supervisor" supervisor;
                 match s with
                 | Some _ =>
                     _ ← terminate_and_drain supervisor;
                     fail (State "workload supervisor exited without a status record")
                 | None => _ ← sleep 10; mret None
                 end
             end
     end).

(** From the drain request on. *)
Definition drain_and_reap (drain drained : path) (guardian supervisor : Z) : W unit :=
  _ ← wio (atomic_write drain ("drain" +:+ newline));
  _ ← wait_for_drained drained guardian supervisor;
  gs ← wait_child fuel "reaping crash guardian" guardian;
  if negb (status_success gs) then fail (State "crash guardian failed during drain")
  else
    ss ← wait_child fuel "reaping workload supervisor" supervisor;
    if status_success ss then fail (State "workload supervisor escaped guardian drain") else mret tt.

Definition outcome_ready_seam (r : CoordinateRequest) : W unit :=
  env ← wget (fun w => pr_env (io_proc (w_io w)));
  match env !! "BENCHCTL_TEST_OUTCOME_READY" with
  | Some p =>
      if cr_production_control r then mret tt
      else
        _ ← wio (p ← absolute (rpath_of_string p); atomic_write p ("ready" +:+ newline));
        sleep_forever
  | None => mret tt
  end.

Definition coordinate (r : CoordinateRequest) : W Outcome :=
  let runtime := runtime_dir (cr_state_root r) (cr_operation_id r) in
  _ ← wio (io_op "creating operation runtime directory" (sys_create_dir runtime));
  let go := runtime ++ ["go"] in
  let status := runtime ++ ["status.json"] in
  let ready := runtime ++ ["guardian.ready"] in
  let drain := runtime ++ ["drain"] in
  let drained := runtime ++ ["drained"] in
  let outcome_path := runtime ++ ["outcome.json"] in
  let active_lock := cr_state_root r ++ ["active.lock"] in
  coordinator_pid ← wget self;
  executable ← wio current_exe;
  supervisor ← spawn "starting workload supervisor"
    (supervisor_argv executable go status coordinator_pid r);
  if i32_max <? supervisor then fail (State "workload PID is outside the PID range")
  else
    guardian_result ← attempt (spawn "starting crash guardian"
      (guardian_argv executable active_lock ready drain drained coordinator_pid supervisor));
    match guardian_result with
    | Err error => _ ← terminate_and_reap_group supervisor supervisor; fail error
    | Ok guardian =>
        _ ← wait_for_ready ready guardian supervisor supervisor;
        _ ← wio (atomic_write go ("go" +:+ newline));
        _ ← cancellation_flag (cr_client_watch r);
        started ← instant_now;
        outcome ← watch_outcome status (cr_timeout r * 1000) started guardian supervisor;
        _ ← wio (store_outcome outcome_path outcome);
        _ ← outcome_ready_seam r;
        _ ← drain_and_reap drain drained guardian supervisor;
        mret outcome
    end.

(** ** The workload supervisor *)

Context `{Serde} `{ReceiptSerde} `{PipeOs}.

(** The file behind a descriptor, opened without following a symbolic link *)
Definition sys_open_nofollow (p : path) : sys (path * node) :=
  syscall (fun s =>
    (match resolve_parent (io_nodes s) p with
     | None => Err FilesystemLoop
     | Some r =>
         match at_path (io_nodes s) r with
         | Some (Symlink _) => Err FilesystemLoop
         | Some n => Ok (r, n)
         | None => Err NotFound
         end
     end, s)).
(** One read of at most [len] bytes at [off] *)
Definition sys_pread (r : path) (off len : nat) : sys string :=
  syscall (fun s =>
    (match at_path (io_nodes s) r with
     | Some (File c _ _) => Ok (String.substring off len c)
     | _ => Err OtherError
     end, s)).

Definition READ_BUFFER : nat := Z.to_nat 65536.
Fixpoint read_all (n : nat) (r : path) (off : nat) (acc : string) : W string :=
  match n with
  | O => fun w => (None, w)
  | S n =>
      chunk ← wio (io_op "digesting accepted executable snapshot" (sys_pread r off READ_BUFFER));
      if bool_decide (chunk = EmptyString) then mret acc
      else read_all n r (off + String.length chunk) (acc +:+ chunk)
  end.

Definition open_verified_executable (p : path) (expected_digest : string) : W path :=
  '(r, n) ← wio (io_op "opening accepted executable snapshot" (sys_open_nofollow p));
  _ ← fd_call "inspecting accepted executable snapshot";
  if negb (match n with File _ _ _ => true | _ => false end)
  then fail (Preflight "accepted executable snapshot is not a regular file")
  else
    bytes ← read_all fuel r 0 EmptyString;
    if negb (bool_decide (hex_digest bytes = expected_digest))
    then fail (Preflight "accepted executable snapshot digest no longer matches")
    else
      _ ← fd_call "rewinding accepted executable snapshot";
      _ ← fd_call "making accepted executable snapshot inheritable";
      mret r.

(** The pipe takes a prefix of what is left, of the length the environment chooses. *)
Definition pipe_write (remaining : string) : W nat :=
  pcall "writing production control proof" (fun w =>
    (Ok (Nat.min (pipe_accepts (w_ticks w)) (String.length remaining)), w)).
Definition after (n : nat) (s : string) : string := String.substring n (String.length s - n) s.
(** [written] is what the pipe holds. *)
Fixpoint write_all (n : nat) (written remaining : string) : W string :=
  match n with
  | O => fun w => (None, w)
  | S n =>
      if bool_decide (remaining = EmptyString) then mret written
      else
        k ← pipe_write remaining;
        if (k =? 0)%nat then fail (State "production control proof pipe accepted no bytes")
        else write_all n (written +:+ String.substring 0 k remaining) (after k remaining)
  end.

(** The result is the pipe's reading end: what it holds once the writing end is closed. *)
Definition create_production_proof (operation_id build_id : string) : W string :=
  euid ← wget (fun w => pr_euid (io_proc (w_io w)));
  if negb (euid =? 0) then fail (State "production control proof requires a root coordinator")
  else
    _ ← wio require_host_root_mapping;
    match proof_to_vec "benchctl-production-control-v1" operation_id build_id with
    | None => fail (Json "serializing production control proof")
    | Some proof =>
        _ ← fd_call "creating production control proof pipe";
        _ ← fd_call "making production control proof inheritable";
        write_all fuel EmptyString proof
    end.

(** The workload's environment; the descriptor's number is not modelled, its variable is set. *)
Definition workload_env (env : gmap string string) (receipt_json operation_id : string) (proof : bool)
  : gmap string string :=
  let env := delete "BENCHCTL_PRODUCTION_CONTROL_FD" (delete "BENCHCTL_PRODUCTION_CONTROL"
    (delete "BENCHCTL_BUILD_RECEIPT" env)) in
  let env := <["BENCHCTL_OPERATION_ID" := operation_id]> (<["BENCHCTL_BUILD_RECEIPT_JSON" := receipt_json]> env) in
  if proof then <["BENCHCTL_PRODUCTION_CONTROL_FD" := "fd"]> env else env.

(** [Command::status]: start the program in the caller's group and wait for it. *)
Definition run_workload (e : exec) : W ExitStatus :=
  pid ← pcall "starting unprivileged workload" (fun w =>
    let pid := w_pid w in
    if bool_decide (w_procs w !! pid = None) && (0 <? pid) then
      let g := match w_procs w !! self w with Some p => ps_group p | None => 0 end in
      (Ok pid, log_event (EvExec pid e)
         (set_procs (<[pid := mkProcess g (self w) None]> (w_procs w))
           (set_reaped (delete pid (w_reaped w)) w)))
    else (Err WouldBlock, w));
  wait_child fuel "starting unprivileged workload" pid.

(** The wait for the coordinator's authorization. *)
Definition wait_for_go (go : path) (coordinator_pid started : Z) : W unit :=
  repeat_until fuel
    (x ← wexists go;
     if x : bool then mret (Some tt)
     else
       e ← elapsed started;
       parent ← (if STARTUP_LIMIT <=? e then mret false else has_parent coordinator_pid);
       if negb parent
       then fail (State "coordinator disappeared before workload authorization")
       else _ ← sleep 10; mret None).

Definition workload_supervisor (r : SupervisorRequest) : W unit :=
  if i32_max <? sr_coordinator_pid r then fail (Usage "coordinator PID is outside the PID range")
  else
    started ← instant_now;
    _ ← wait_for_go (sr_go r) (sr_coordinator_pid r) started;
    receipt ← wio (load_accepted (sr_receipt r));
    match receipt_to_string receipt with
    | None => fail (Json "serializing accepted build receipt")
    | Some receipt_json =>
        production_proof ←
          (if sr_production_control r
           then p ← create_production_proof (sr_operation_id r) (br_build_id receipt); mret (Some p)
           else mret None);
        executable ← open_verified_executable (sr_executable r) (br_executable_sha256 receipt);
        env ← wget (fun w => pr_env (io_proc (w_io w)));
        st ← run_workload {|
          ex_program := executable;
          ex_args := sr_workload r;
          ex_env := workload_env env receipt_json (sr_operation_id r)
                      (bool_decide (is_Some production_proof));
          ex_uid := sr_uid r;
          ex_gid := sr_gid r;
          ex_proof := production_proof |};
        match status_to_vec (mkStatus (status_success st) (status_code st) (status_signal st)) with
        | None => fail (Json "serializing workload status")
        | Some bytes => _ ← wio (atomic_write (sr_status r) bytes); sleep_forever
        end
    end.
End programs.

(** ** The interface of the cpuidle commands

    A command hands its file system to the supervision and continues with the one it leaves.
    [launch] is the rest of the world at that moment. A supervision that never returns (the test seam, or
    too little fuel) has no successor: it is reported as an error that the commands' theorems
    cover like any other. *)
Section instance.
Context `{Environment} `{SupervisionSerde} (fuel : nat) (launch : iost -> world).

Definition run_world {A} (m : W A) : IO A := fun s =>
  match m (set_wio s (launch s)) with
  | (Some r, w) => (r, w_io w)
  | (None, w) => (Err (State "supervision did not return"), w_io w)
  end.

Definition supervision_ops : SupervisionOps := {|
  Cpuidle.require_inactive d := run_world (require_inactive fuel d);
  Cpuidle.client_watch pid := run_world (client_watch pid);
  Cpuidle.coordinate r := run_world (coordinate fuel r);
  Cpuidle.recover_outcome := recover_outcome;
  Cpuidle.cleanup_runtime := cleanup_runtime |}.
End instance.
