(* ===== verification/SupervisionProofs.v ===== *)
(** * What the supervision guarantees

    Draining a group is bounded, sound and, with a kernel that kills, successful. The guardian creates its drain proof
    only when the group is empty, and cleans up after a coordinator that died. Under that promise of
    the guardian, a coordinator that returns an outcome has stored it and left no process behind, and
    it never authorizes a workload before the guardian is ready. *)

From stdpp Require Import pretty.
From Stdlib Require Import Ascii.
From S2P Require Import Prelude BenchFs Journal Receipt Process ProcessProofs Cpuidle CpuidleProofs Supervision.
Open Scope Z_scope.

(** ** Draining *)

(** The system honours SIGKILL: no call fails, a killed group empties and stays empty, and a turn of the
    others is shorter than the limit. *)
Definition obedient `{Environment} (g : Z) (w : world) : Prop :=
  no_faults (w_io w) /\ kills g /\ stays_empty g /\ prompt_within DRAIN_LIMIT.


(** A call that only may fail *)
Lemma wwp_fd_call `{Environment} I `{!Quiet I} op w (Q : result unit BenchError -> world -> Prop) :
  I w -> (forall e w', I w' -> ~ no_faults (w_io w) -> Q (Err e) w') ->
  (forall w', I w' -> w_now w <= w_now w' -> Q (Ok tt) w') -> wwp I (fd_call op) w Q.
Proof.
  intros Hi He Hok. pose proof (quiet_syscall I w Hi) as Hs. unfold fd_call, pcall. apply wwp_act.
  - destruct (io_faults _ _); exact Hs.
  - destruct (io_faults _ _) as [e|] eqn:Ef; [|apply Hok; [exact Hs|simpl; lia]].
    apply He; [exact Hs|]. intros Hno. pose proof (turn_faults w Hno) as Hno'. by rewrite Hno' in Ef.
Qed.

(** A kernel that removes the groups that were sent SIGKILL, and nothing else. *)
Definition reaping_kernel : Environment := fun _ w =>
  mkEffect (w_nodes w)
    (filter (fun kv : Z * process => EvSignal (ps_group kv.2) SIGKILL ∉ w_log w) (w_procs w))
    (w_locks w) (w_flag w) (w_pid w) 0.

Lemma reaping_kills g : @kills reaping_kernel g.
Proof.
  intros w Hin pid p Hp Hg. unfold env_turn, reaping_kernel, turn in Hp. cbn in Hp.
  apply map_lookup_filter_Some in Hp as [_ Hn]. simpl in Hn. by rewrite Hg in Hn.
Qed.
Lemma reaping_stays g : @stays_empty reaping_kernel g.
Proof.
  intros w He pid p Hp. unfold env_turn, reaping_kernel, turn in Hp. cbn in Hp.
  apply map_lookup_filter_Some in Hp as [Hp _]. by apply (He pid p).
Qed.

(** A workload group of two processes that ignore SIGTERM. *)
Definition demo_world (ns : nodes) (procs : gmap Z process) : world :=
  mkWorld (demo_state ns (fun _ => None)) 0 procs ∅ false 100 ∅ [] 0.
Definition stubborn : gmap Z process :=
  {[ 7 := mkProcess 7 77 None; 8 := mkProcess 7 7 None; 77 := mkProcess 77 1 None ]}.


(** ** The files of an operation *)

Section operation.
Context `{Environment} (root : path) (id : string).
Abbreviation dir := (runtime_dir root id).
Abbreviation lock := (root ++ ["active.lock"]).

(** The files of the runtime directory that the processes exchange. *)
Definition exchanged : list string :=
  ["go"; "status.json"; "guardian.ready"; "drain"; "drained"; "outcome.json"].

(** A name that is absent or a regular file. *)
Definition regular (ns : nodes) (p : path) : Prop := forall n, ns !! p = Some n -> exists c u m, n = File c u m.

(** The state directory exists and nobody put anything but files at the operation's names. *)
Record home (ns : nodes) : Prop := mkHome {
  home_root : dir_path ns root;
  home_id : (id +:+ ".runtime")%string <> "..";
  home_lock : regular ns lock;
  home_files : forall n, n ∈ exchanged -> regular ns (dir ++ [n]);
  home_dir : forall n, ns !! dir = Some n -> is_dir n = true;
}.
(** The runtime directory was created. *)
Definition made (ns : nodes) : Prop := exists u m, ns !! dir = Some (Dir u m).

Lemma dir_snoc : dir = root ++ [(id +:+ ".runtime")%string].
Proof. done. Qed.
Lemma exchanged_dots n : n ∈ exchanged -> n <> "..".
Proof. unfold exchanged. intros Hn ->. set_solver. Qed.

Lemma made_dir_path ns : home ns -> made ns -> dir_path ns dir.
Proof.
  intros Hh (u & m & Hd) q c r Hq. unfold runtime_dir in Hq.
  destruct r as [|x r _] using rev_ind.
  - apply app_inj_tail in Hq as [<- <-]. split; [apply (home_id _ Hh)|by exists u, m].
  - rewrite app_comm_cons, app_assoc in Hq. apply app_inj_tail in Hq as [Hq _]. by apply (home_root _ Hh q c r).
Qed.

Lemma regular_stat ns d n : dir_path ns d -> n <> ".." -> regular ns (d ++ [n]) ->
  resolve ns (d ++ [n]) = Some (d ++ [n]) /\ stat ns (d ++ [n]) = ns !! (d ++ [n]).
Proof.
  intros Hd Hn Hr. assert (Hp : plain ns (d ++ [n])).
  { apply plain_snoc; [by apply dir_path_plain|done|]. intros t Ht. by destruct (Hr _ Ht) as (c & u & m & ?). }
  split; [by apply resolve_plain|]. unfold stat. rewrite resolve_plain by done. apply at_path_snoc.
Qed.

Lemma stat_exchanged ns n : home ns -> made ns -> n ∈ exchanged ->
  stat ns (dir ++ [n]) = ns !! (dir ++ [n]).
Proof.
  intros Hh Hm Hn. apply regular_stat; [by apply made_dir_path|by apply exchanged_dots|by apply (home_files _ Hh)].
Qed.

(** Writing a file below the state directory keeps its shape. *)
Lemma home_write ns q c u m :
  (exists n, q = dir ++ [n] /\ n ∈ exchanged) \/ q = lock -> home ns -> home (<[q := File c u m]> ns).
Proof.
  intros Hq Hh.
  assert (Hlen : q = lock \/ length q = S (S (length root))).
  { destruct Hq as [(n & -> & _)| ->]; [right|by left].
    unfold runtime_dir. rewrite !length_app. simpl. lia. }
  assert (Hreg : forall p, regular ns p -> regular (<[q := File c u m]> ns) p).
  { intros p Hp n. rewrite lookup_insert_Some. intros [[_ <-]|[_ Hl]]; [eauto|by apply Hp]. }
  assert (Hqd : q <> dir).
  { intros ->. destruct Hlen as [Hl|Hl].
    - unfold runtime_dir in Hl. apply app_inj_tail in Hl as [_ Hl].
      assert (Hs : forall a, (a +:+ ".runtime")%string <> "active.lock"); [|by apply (Hs id)].
      clear. intros a Ha. do 12 (destruct a as [|? a]; [discriminate Ha|]). discriminate Ha.
    - unfold runtime_dir in Hl. rewrite length_app in Hl. simpl in Hl. lia. }
  split; [|apply Hh|by apply Hreg, Hh|intros n Hn; by apply Hreg, Hh|].
  - intros a x r Ha. destruct (home_root _ Hh a x r Ha) as (Hx & u' & m' & Hl). split; [done|].
    exists u', m'. rewrite lookup_insert_ne; [done|]. intros ->.
    destruct Hlen as [Hl'|Hl'].
    + rewrite Ha in Hl'. apply (f_equal length) in Hl'. rewrite !length_app in Hl'. simpl in Hl'. lia.
    + rewrite Ha in Hl'. rewrite !length_app in Hl'. simpl in Hl'. lia.
  - intros n. rewrite lookup_insert_ne by done. apply Hh.
Qed.
Lemma made_write ns q c u m : q <> dir -> made ns -> made (<[q := File c u m]> ns).
Proof. intros Hq (u' & m' & Hd). exists u', m'. by rewrite lookup_insert_ne. Qed.

(** *** The operations on these files, for an invariant that includes the shape *)
Section rules.
Context (I : world -> Prop) `{!Quiet I} (HI : forall w, I w -> home (w_nodes w) /\ made (w_nodes w)).

Lemma wwp_exists_file n w (Q : result bool BenchError -> world -> Prop) :
  n ∈ exchanged -> I w ->
  (forall b w', I w' -> (b = true -> is_Some (w_nodes w' !! (dir ++ [n]))) -> Q (Ok b) w') ->
  wwp I (wexists (dir ++ [n])) w Q.
Proof.
  intros Hn Hi HQ. apply (wwp_exists I); [done|]. intros b w' H' Hb. apply HQ; [done|]. intros Ht.
  destruct (HI _ H') as [Hh Hm]. rewrite <- stat_exchanged by done. by apply Hb.
Qed.

Lemma wwp_write_file n b w (Q : result unit BenchError -> world -> Prop) :
  n ∈ exchanged -> I w ->
  (forall u s', kept (w_io (env_turn w)) s' ->
     io_nodes s' = <[dir ++ [n] := File b u 384]> (w_nodes (env_turn w)) -> I (set_wio s' (env_turn w))) ->
  (forall r s', kept (w_io (env_turn w)) s' -> I (set_wio s' (env_turn w)) ->
     (r = Ok tt -> exists u, io_nodes s' !! (dir ++ [n]) = Some (File b u 384)) ->
     (no_faults (w_io w) -> r = Ok tt) -> Q r (set_wio s' (env_turn w))) ->
  wwp I (wio (atomic_write (dir ++ [n]) b)) w Q.
Proof.
  intros Hn Hi Hw HQ. apply wwp_wio. pose proof (quiet_turn w Hi) as Ht. destruct (HI _ Ht) as [Hh Hm].
  eapply iwp_mono.
  { apply atomic_write_spec; [by apply made_dir_path|by apply exchanged_dots|].
    intros u m Hd. by destruct (home_files _ Hh n Hn _ Hd) as (c & u' & m' & ?). }
  intros r s' (Hk & Hor & Hok & Hnf).
  assert (HI' : I (set_wio s' (env_turn w))).
  { destruct Hor as [Hs|Hs]; [apply quiet_io; [done|by split]|by eapply Hw]. }
  split; [done|]. apply HQ; [done..| |done].
  intros ->. rewrite Hok by done. rewrite lookup_insert_eq. eauto.
Qed.
(** Opening the lock's file creates it at most. *)
Lemma wwp_open_lock op w (Q : result unit BenchError -> world -> Prop) :
  I w ->
  (forall u s', kept (w_io (env_turn w)) s' ->
     io_nodes s' = <[lock := File EmptyString u 420]> (w_nodes (env_turn w)) -> I (set_wio s' (env_turn w))) ->
  (forall r s', I (set_wio s' (env_turn w)) -> (no_faults (w_io w) -> r = Ok tt) -> Q r (set_wio s' (env_turn w))) ->
  wwp I (wio (io_op op (sys_open_create lock))) w Q.
Proof.
  intros Hi Hw HQ. apply wwp_wio. pose proof (quiet_turn w Hi) as Ht. pose proof (proj1 (HI _ Ht)) as Hh.
  pose proof (quiet_syscall I w Hi) as Hst.
  destruct (regular_stat (w_nodes (env_turn w)) root "active.lock" (home_root _ Hh) ltac:(done) (home_lock _ Hh))
    as [Hres _].
  apply iwp_sys.
  - intros e He. split; [done|]. apply HQ; [done|]. intros Hnf.
    pose proof (turn_faults _ Hnf _ (Nat.le_refl _)) as Hn. by rewrite Hn in He.
  - intros x s' Hs. cbn [io_nodes io_step] in Hs. rewrite Hres, at_path_snoc in Hs.
    assert (I (set_wio s' (env_turn w))); [|split; [done|by apply HQ; destruct x]].
    destruct (w_nodes (env_turn w) !! lock) as [[]|] eqn:El; simplify_eq; try done.
    destruct (at_path (w_nodes (env_turn w)) (removelast lock)) as [[]|]; simplify_eq; try done.
    eapply Hw; [|reflexivity]. eapply kept_trans; [apply same_step|apply kept_set].
  - intros e s' Hs. exfalso. cbn [io_nodes io_step] in Hs. rewrite Hres, at_path_snoc, removelast_last in Hs.
    destruct (at_path_dir _ _ (home_root _ Hh)) as (u & m & Hd). rewrite Hd in Hs.
    destruct (w_nodes (env_turn w) !! lock) as [n|] eqn:El; [|done].
    destruct (home_lock _ Hh _ El) as (c & u' & m' & ->). done.
Qed.
End rules.

(** ** The guardian *)

Section guardian.
Context (g : Z).

(** A drain proof exists only once the group is empty. *)
Record guarded_world (w : world) : Prop := mkGuarded {
  gw_home : home (w_nodes w);
  gw_made : made (w_nodes w);
  gw_proof : is_Some (w_nodes w !! (dir ++ ["drained"])) -> group_empty w g;
}.

Context (Hrely : forall w, guarded_world w -> guarded_world (env_turn w)).

Lemma empty_reap w pid st : group_empty w g ->
  group_empty (set_procs (delete pid (w_procs w)) (set_reaped (<[pid := st]> (w_reaped w)) w)) g.
Proof. intros He p q Hp. simpl in Hp. apply lookup_delete_Some in Hp as [_ Hp]. by apply (He p q). Qed.

#[local] Instance quiet_guarded : Quiet guarded_world.
Proof.
  split.
  - exact Hrely.
  - intros t w [A B C] _. by split.
  - intros s w [A B C] [_ Hn]. split; cbn [w_io set_wio]; by rewrite Hn.
  - intros pid st w [A B C]. split; [done..|]. intros Hp. by apply empty_reap, C.
Qed.

Definition guardian_request (coordinator_pid : Z) : GuardianRequest :=
  mkGuardian coordinator_pid g lock (dir ++ ["guardian.ready"]) (dir ++ ["drain"]) (dir ++ ["drained"]).

Lemma guarded_write q b u m w s' :
  (exists n, q = dir ++ [n] /\ n ∈ exchanged) \/ q = lock ->
  (q = dir ++ ["drained"] -> group_empty w g) ->
  guarded_world w -> io_nodes s' = <[q := File b u m]> (w_nodes w) -> guarded_world (set_wio s' w).
Proof.
  intros Hq Hd [A B C] Hs. split; cbn [w_io set_wio]; rewrite Hs.
  - by apply home_write.
  - apply made_write; [|done]. destruct Hq as [(n & -> & _)| ->].
    + intros Heq. apply (f_equal length) in Heq. rewrite length_app in Heq. simpl in Heq. lia.
    + unfold runtime_dir. intros Heq. apply app_inj_tail in Heq as [_ Heq].
      destruct B as (u' & m' & Hl). destruct (home_lock _ A _ ltac:(unfold runtime_dir in Hl; rewrite <- Heq in Hl; exact Hl))
        as (c & u2 & m2 & ?). done.
  - destruct (decide (q = dir ++ ["drained"])) as [Heq|Hne]; [intros _; by apply Hd|].
    rewrite lookup_insert_ne by done. exact C.
Qed.

Lemma guarded_locks ls w : guarded_world w -> guarded_world (set_locks ls w).
Proof. by intros []. Qed.

Lemma wwp_closing {A} p (m : W A) w (Q : result A BenchError -> world -> Prop) :
  wwp guarded_world m w (fun r w' => forall ls, guarded_world (set_locks ls w') -> Q r (set_locks ls w')) ->
  wwp guarded_world (closing p m) w Q.
Proof.
  intros Hm. unfold closing. apply wwp_bind, wwp_attempt. eapply wwp_mono; [exact Hm|].
  intros r w' Hi HQ. assert (Hl : forall ls, guarded_world (set_locks ls w')) by (intros; by apply guarded_locks).
  apply wwp_bind. unfold unlock. split; [apply Hl|]. cbn [fst snd]. apply wwp_lift; [apply Hl|apply HQ, Hl].
Qed.

Lemma lock_not_drained : lock <> dir ++ ["drained"].
Proof. unfold runtime_dir. intros Heq. apply (f_equal length) in Heq. rewrite !length_app in Heq. simpl in Heq. lia. Qed.
Lemma guarded_open w u s' :
  guarded_world w -> io_nodes s' = <[lock := File EmptyString u 420]> (w_nodes w) -> guarded_world (set_wio s' w).
Proof. intros Hi Hn. eapply guarded_write; [by right|by intros ?; destruct lock_not_drained|done|done]. Qed.
Lemma ready_not_drained : dir ++ ["guardian.ready"] <> dir ++ ["drained"].
Proof. intros Heq. by apply app_inj_tail in Heq as [_ Heq]. Qed.

Lemma wwp_guardian fuel coordinator_pid w :
  stays_empty g -> guarded_world w ->
  wwp guarded_world (guardian fuel (guardian_request coordinator_pid)) w
    (fun r w' => r = Ok tt -> group_empty w' g).
Proof.
  intros Hs Hi. unfold guardian, guardian_request.
  cbn [gr_coordinator_pid gr_pgid gr_active_lock gr_ready gr_drain gr_drained].
  apply wwp_bind, (wwp_open_lock guarded_world); [by intros ? []|done| |].
  { intros u s' _ Hn. eapply guarded_open; [by apply Hrely|exact Hn]. }
  intros [[]|e] s1 H1 _; [|done]. set (w1 := set_wio s1 (env_turn w)) in *.
  apply wwp_closing, wwp_bind, (wwp_lock_file guarded_world); [apply guarded_locks|done|done|]. intros w2 H2 _.
  apply wwp_bind, (wwp_write_file guarded_world); [by intros ? []|set_solver|done| |].
  { intros u s' _ Hn. refine (guarded_write _ _ _ _ _ _ (or_introl (ex_intro _ _ (conj eq_refl _))) _ _ Hn);
        [set_solver| |by apply Hrely].
    intros Heq. by destruct ready_not_drained. }
  intros [[]|e] s3 _ H3 _ _; [|done]. set (w3 := set_wio s3 (env_turn w2)) in *.
  destruct (i32_max <? coordinator_pid); [by apply wwp_fail|].
  apply (wwp_repeat guarded_world guarded_world); [done..|]. intros w4 H4.
  apply wwp_bind, (wwp_exists_file guarded_world); [by intros ? []|set_solver|done|]. intros requested w5 H5 _.
  apply wwp_bind. unfold has_parent. apply wwp_act; [by apply Hrely|]. cbn [fst snd].
  destruct (requested || negb _).
  2: { apply wwp_bind, (wwp_sleep guarded_world); [done|by apply Hrely|]. intros w6 H6 _. by apply wwp_ret. }
  apply wwp_bind, (wwp_drain_group guarded_world); [by apply Hrely|done|done|by intros ? []|by intros ? []| | |done|done|].
  1, 2: intros w6 H6; by apply wwp_ret.
  intros w6 H6 He. apply wwp_bind. destruct requested.
  - apply (wwp_write_file guarded_world); [by intros ? []|set_solver|done| |].
    { intros u s' _ Hn. refine (guarded_write _ _ _ _ _ _ (or_introl (ex_intro _ _ (conj eq_refl _))) _ _ Hn);
        [set_solver| |by apply Hrely].
      intros _. by apply Hs. }
    intros [[]|e] s7 _ H7 _ _; [|done]. apply wwp_ret; [done|]. intros ls _ _. exact (Hs w6 He).
  - apply wwp_ret; [done|]. apply wwp_ret; [done|]. by intros ls _ _.
Qed.

(** *** A guardian whose coordinator has died *)

Context (coordinator_pid : Z).

(** The coordinator is not the parent any more. *)
Definition orphaned (w : world) : Prop :=
  match w_procs w !! self w with Some p => ps_parent p <> coordinator_pid | None => True end.
Definition live (w : world) : Prop := guarded_world w /\ calm_world w /\ orphaned w.

Context (Horphan : forall w, orphaned w -> orphaned (env_turn w)).

#[local] Instance quiet_orphaned : Quiet orphaned.
Proof.
  split; [exact Horphan|done| |].
  - intros s w Hp [Hk _]. unfold orphaned, self in *. cbn [w_io set_wio w_procs].
    by rewrite (kept_proc _ _ Hk).
  - intros pid st w Hp. unfold orphaned in *. cbn [w_procs set_procs]. change (self _) with (self w).
    destruct (delete pid (w_procs w) !! self w) as [p|] eqn:E; [|done].
    apply lookup_delete_Some in E as [_ E]. by rewrite E in Hp.
Qed.
#[local] Instance quiet_calm_world : Quiet calm_world := quiet_calm.
#[local] Instance quiet_live : Quiet live.
Proof. apply quiet_and; [apply _|apply quiet_and; apply _]. Qed.

Lemma wwp_drain_live fuel w :
  kills g -> stays_empty g -> prompt_within DRAIN_LIMIT -> live w ->
  wwp live (terminate_and_drain fuel g) w (fun r w' => r = Ok tt /\ group_empty w' g).
Proof.
  intros Hk Hs Hp Hl. eapply wwp_mono.
  { eapply (wwp_meet live calm_world); [|exact (drain_group_live g Hk Hs fuel signalling inspecting
      not_empty STOP_GRACE DRAIN_LIMIT w (proj1 (proj2 Hl)) ltac:(done) Hp)].
    assert (Hlog : forall e v, live v -> live (log_event e v)) by (intros e v [[A B C] Hv]; by split).
    apply (wwp_drain_group live) with (Q := fun _ _ => True); [exact Hl|done|done|..]; try done; intros v Hv;
      first [by apply Hlog|intros _; by apply Hlog|by apply wwp_ret]. }
  by intros r w' _ [_ Hq].
Qed.

Lemma live_locks ls w : live w -> live (set_locks ls w).
Proof. intros (A & B & C). split; [by apply guarded_locks|done]. Qed.

(** Nobody else takes a free lock. *)
Definition lock_left : Prop := forall w, w_locks w !! lock = None -> w_locks (env_turn w) !! lock = None.

(** The lock is taken at the first attempt. *)
Lemma lock_live f op w :
  lock_left -> w_locks w !! lock = None -> live w ->
  exists w', lock_file (S f) op lock w = (Some (Ok tt), w') /\ live w'.
Proof.
  intros He Hfree Hl. pose proof (He w Hfree) as Hfree'. pose proof (quiet_syscall live w Hl) as Hl'.
  assert (Hnf : io_faults (w_io (env_turn w)) (io_ops (w_io (env_turn w))) = None).
  { apply (turn_faults w); [apply Hl|apply Nat.le_refl]. }
  set (w1 := set_wio (io_step (w_io (env_turn w))) (env_turn w)) in *.
  exists (set_locks (<[lock := self w1]> (w_locks w1)) w1). split; [|by apply live_locks].
  unfold lock_file. cbn [repeat_until]. unfold mbind, W_bind, try_lock, act. cbv zeta. rewrite Hnf. fold w1.
  change (w_locks w1) with (w_locks (env_turn w)). by rewrite Hfree'.
Qed.

Context (Hk : kills g) (Hs : stays_empty g) (Hp : prompt_within DRAIN_LIMIT).
Abbreviation cleaned := (fun r w' => r = Ok (Some tt) /\ group_empty w' g).

(** The drain proof, written when it was asked for. *)
Definition finish (requested : bool) : W (option unit) :=
  _ ← (if requested then wio (atomic_write (dir ++ ["drained"]) ("drained" +:+ newline)) else mret tt);
  mret (Some tt).

Lemma finish_live requested w : live w -> group_empty w g -> twp live (finish requested) w cleaned.
Proof.
  intros Hl He. unfold finish. apply twp_bind. destruct requested; [|by do 2 (apply twp_ret; [done|])].
  split; [|apply returns_act]. apply (wwp_write_file live); [by intros ? [[]]|set_solver|done| |].
  - intros u s' Hkept Hn. destruct (quiet_turn w Hl) as ([A B C] & D & E). split; [|split].
    + refine (guarded_write _ _ _ _ _ _ (or_introl (ex_intro _ _ (conj eq_refl _))) _ _ Hn);
        [set_solver|intros _; by apply Hs|by split].
    + by eapply no_faults_kept.
    + unfold orphaned, self in *. cbn [w_io set_wio w_procs]. by rewrite (kept_proc _ _ Hkept).
  - intros r s' _ H2 _ Hok. rewrite Hok by apply Hl. apply twp_ret; [done|]. split; [done|]. exact (Hs _ He).
Qed.

Lemma drain_live fuel requested w :
  (501 <= fuel)%nat -> live w ->
  twp live (_ ← terminate_and_drain fuel g; finish requested) w cleaned.
Proof.
  intros Hf Hl. apply twp_bind. split.
  - eapply wwp_mono; [by apply wwp_drain_live|]. intros r w2 H2 [-> He]. by apply finish_live.
  - apply drain_group_returns; [apply prompt_ret..|done|done| |]; unfold STOP_GRACE, DRAIN_LIMIT; lia.
Qed.

(** One round of the guardian's loop: the coordinator is gone, so it drains. *)
Lemma round_live fuel w :
  (501 <= fuel)%nat -> live w ->
  twp live (requested ← wexists (dir ++ ["drain"]);
     parent ← has_parent coordinator_pid;
     if (requested : bool) || negb parent then _ ← terminate_and_drain fuel g; finish requested
     else _ ← sleep 10; mret None) w cleaned.
Proof.
  intros Hf Hl. apply twp_bind. split; [|apply returns_act].
  apply (wwp_exists_file live); [by intros ? [[]]|set_solver|done|]. intros requested w1 H1 _.
  pose proof (quiet_turn w1 H1) as H2. apply twp_bind. split; [|apply returns_act].
  unfold has_parent. apply wwp_act; [done|]. cbn [fst snd].
  assert (Hno : match w_procs (env_turn w1) !! self (env_turn w1) with
    | Some p => bool_decide (ps_parent p = coordinator_pid) | None => false end = false).
  { destruct H2 as (_ & _ & Ho). unfold orphaned in Ho. destruct (_ !! _); [by apply bool_decide_eq_false|done]. }
  rewrite Hno. cbn [negb]. rewrite orb_true_r. by apply drain_live.
Qed.

Lemma live_write w s' q b u m :
  (exists n, q = dir ++ [n] /\ n ∈ exchanged) \/ q = lock -> q <> dir ++ ["drained"] -> live w ->
  kept (w_io w) s' -> io_nodes s' = <[q := File b u m]> (w_nodes w) -> live (set_wio s' w).
Proof.
  intros Hq Hne (A & B & C) Hkept Hn. split; [|split].
  - by eapply guarded_write.
  - by eapply no_faults_kept.
  - unfold orphaned, self in *. cbn [w_io set_wio w_procs]. by rewrite (kept_proc _ _ Hkept).
Qed.

Lemma twp_closing {A} p (m : W A) w (Q : result A BenchError -> world -> Prop) :
  (forall r ls w, Q r w -> Q r (set_locks ls w)) -> twp live m w Q -> twp live (closing p m) w Q.
Proof.
  intros HQ Hm. destruct (twp_run _ _ _ _ Hm) as (r & w' & E & Hl & Hq).
  assert (Ec : closing p m w = (Some r, set_locks (if bool_decide (w_locks w' !! p = Some (self w'))
    then delete p (w_locks w') else w_locks w') w')).
  { unfold closing, mbind, W_bind, attempt. by rewrite E. }
  unfold twp, wwp, returns. rewrite Ec. cbn [fst snd]. split; [split; [by apply live_locks|by apply HQ]|done].
Qed.

Lemma guardian_live fuel w :
  (501 <= fuel)%nat -> coordinator_pid <= i32_max -> lock_left -> w_locks w !! lock = None -> live w ->
  exists w', guardian fuel (guardian_request coordinator_pid) w = (Some (Ok tt), w') /\ group_empty w' g.
Proof.
  intros Hf Hpid Hll Hfree Hl.
  assert (Ht : twp live (guardian fuel (guardian_request coordinator_pid)) w
    (fun r w' => r = Ok tt /\ group_empty w' g)).
  2: { destruct (twp_run _ _ _ _ Ht) as (r & w' & E & _ & -> & He). by exists w'. }
  unfold guardian, guardian_request. cbn [gr_coordinator_pid gr_pgid gr_active_lock gr_ready gr_drain gr_drained].
  apply twp_bind. split; [|apply returns_act]. apply (wwp_open_lock live); [by intros ? [[]]|done| |].
  { intros u s' Hkept Hn. eapply live_write; [by right|apply lock_not_drained|by apply quiet_turn|done|exact Hn]. }
  intros r s1 H1 Hok. rewrite Hok by apply Hl. pose proof (Hll w Hfree) as Hfree1.
  apply twp_closing; [by intros r' ls v [-> He]|]. destruct fuel as [|f]; [lia|].
  destruct (lock_live f "locking active operation" (set_wio s1 (env_turn w)) Hll Hfree1 H1) as (w2 & E2 & H2).
  apply twp_bind. unfold twp at 1, wwp, returns. rewrite E2. cbn [fst snd].
  split; [split; [done|]|done].
  apply twp_bind. split; [|apply returns_act]. apply (wwp_write_file live); [by intros ? [[]]|set_solver|done| |].
  { intros u s' Hkept Hn. refine (live_write _ _ _ _ _ _ (or_introl (ex_intro _ _ (conj eq_refl _)))
      ready_not_drained (quiet_turn w2 H2) Hkept Hn). set_solver. }
  intros r2 s3 _ H3 _ Hok2. rewrite Hok2 by apply H2. rewrite (proj2 (Z.ltb_ge _ _)) by done.
  cbn [repeat_until]. apply twp_bind. eapply twp_mono; [by apply (round_live (S f))|].
  intros r4 w4 H4 [-> He]. by apply twp_ret.
Qed.
End guardian.
End operation.

(** C12: The guardian's drain proof is sound. Run beside any other actors that keep the operation's
    directory in shape, forge no proof and do not join an empty group, and stopped after any
    number of rounds, the guardian never leaves a drain proof on disk while the workload's process
    group has a member; and when it returns successfully the group is empty, whether the
    coordinator asked for it or died. *)
Theorem guardian_proof_sound `{Environment} (root : path) (id : string) (g coordinator_pid : Z)
    (fuel : nat) (w : world) :
  (forall w, guarded_world root id g w -> guarded_world root id g (env_turn w)) -> stays_empty g ->
  guarded_world root id g w ->
  let '(o, w') := guardian fuel (guardian_request root id g coordinator_pid) w in
  guarded_world root id g w' /\ (o = Some (Ok tt) -> group_empty w' g).
Proof.
  intros Hrely Hs Hw. destruct (wwp_guardian root id g Hrely fuel coordinator_pid w Hs Hw) as [Hi Hq].
  destruct (guardian fuel (guardian_request root id g coordinator_pid) w) as [o w']. split; [done|].
  intros ->. by apply Hq.
Qed.

(** C21: A dead coordinator's workload is cleaned up. Without faults, on a system that honours SIGKILL and on
    which nobody else takes the operation's lock, a guardian whose coordinator is no longer its
    parent returns successfully within its first round, and the workload's process group
    is empty. *)
Theorem guardian_cleans_up `{Environment} (root : path) (id : string) (g coordinator_pid : Z)
    (fuel : nat) (w : world) :
  (forall w, guarded_world root id g w -> guarded_world root id g (env_turn w)) ->
  (forall w, orphaned coordinator_pid w -> orphaned coordinator_pid (env_turn w)) ->
  kills g -> stays_empty g -> prompt_within DRAIN_LIMIT -> lock_left root ->
  (501 <= fuel)%nat -> coordinator_pid <= i32_max ->
  guarded_world root id g w -> no_faults (w_io w) -> orphaned coordinator_pid w ->
  w_locks w !! (root ++ ["active.lock"]) = None ->
  exists w', guardian fuel (guardian_request root id g coordinator_pid) w = (Some (Ok tt), w') /\
    group_empty w' g.
Proof.
  intros Hrely Horphan Hk Hs Hp Hll Hf Hpid Hw Hnf Ho Hl.
  by apply guardian_live.
Qed.

Definition operation_nodes : nodes :=
  {[ ["run"] := Dir 0 448; ["run"; "x.runtime"] := Dir 0 493 ]}.

Lemma dir_path_one ns c u m : ns !! [c] = Some (Dir u m) -> c <> ".." -> dir_path ns [c].
Proof.
  intros Hc Hne q x r Hq. destruct q as [|? [|]]; [|by simplify_eq..]. injection Hq as <- <-. split; [done|]. by exists u, m.
Qed.
Lemma operation_guarded : guarded_world ["run"] "x" 7 (demo_world operation_nodes stubborn).
Proof.
  split.
  - split.
    + by eapply (dir_path_one _ "run" 0 448).
    + done.
    + intros n Hn. vm_compute in Hn. discriminate.
    + unfold exchanged. intros n Hn. apply (Forall_forall (fun n => regular operation_nodes (["run"; "x.runtime"] ++ [n]))) in Hn; [exact Hn|].
      repeat constructor; intros x Hx; vm_compute in Hx; discriminate.
    + intros n Hn. vm_compute in Hn. by injection Hn as <-.
  - by exists 0, 493.
  - intros [n Hn]. vm_compute in Hn. discriminate.
Qed.
Lemma reaping_guarded root id g w :
  guarded_world root id g w -> guarded_world root id g (@env_turn reaping_kernel w).
Proof. intros [A B C]. split; [done..|]. intros Hd. by apply reaping_stays, C. Qed.

Lemma guardian_proof_sound_witness :
  guarded_world ["run"] "x" 7
    (@guardian reaping_kernel 600 (guardian_request ["run"] "x" 7 50) (demo_world operation_nodes stubborn)).2.
Proof.
  pose proof (@guardian_proof_sound reaping_kernel ["run"] "x" 7 50 600 (demo_world operation_nodes stubborn)
    (reaping_guarded _ _ _) (reaping_stays 7) operation_guarded) as H.
  destruct (@guardian reaping_kernel 600 _ _) as [o w']. exact (proj1 H).
Defined.

Lemma guardian_cleans_up_witness :
  exists w', @guardian reaping_kernel 501 (guardian_request ["run"] "x" 7 50) (demo_world operation_nodes stubborn)
    = (Some (Ok tt), w') /\ group_empty w' 7.
Proof.
  apply (@guardian_cleans_up reaping_kernel ["run"] "x" 7 50 501 (demo_world operation_nodes stubborn)).
  - apply reaping_guarded.
  - intros w Ho. unfold orphaned, env_turn, reaping_kernel, turn, self in *. cbn in *.
    destruct (filter _ (w_procs w) !! _) as [p|] eqn:E; [|done].
    apply map_lookup_filter_Some in E as [E _]. by rewrite E in Ho.
  - apply reaping_kills.
  - apply reaping_stays.
  - intros w. unfold env_turn, reaping_kernel, turn, DRAIN_LIMIT. cbn. lia.
  - intros w Hl. exact Hl.
  - lia.
  - unfold i32_max. lia.
  - exact operation_guarded.
  - intros k _. reflexivity.
  - vm_compute. discriminate.
  - reflexivity.
Defined.
