(* ===== verification/CoordinatorProofs.v ===== *)
(** * What the coordinator guarantees (supervision::coordinate)

    The coordinator runs beside the guardian, the workload supervisor and the workload. It relies on what
    [SupervisionProofs] shows of the guardian (a drain proof appears only once the workload's group
    is empty) and on the files it writes being its own. *)

From stdpp Require Import pretty.
From Stdlib Require Import Ascii.
From S2P Require Import Prelude BenchFs Journal Receipt Process ProcessProofs Cpuidle CpuidleProofs.
From S2P Require Import Supervision SupervisionProofs.
Open Scope Z_scope.

(** ** Invariants made of parts *)

Lemma quiet_files `{Environment} (P : nodes -> Prop) :
  (forall w, P (w_nodes w) -> P (w_nodes (env_turn w))) -> Quiet (fun w => P (w_nodes w)).
Proof.
  intros HP. split; [exact HP|done| |done]. intros s w Hp [_ Hn]. cbn [w_io set_wio]. by rewrite Hn.
Qed.
Lemma quiet_log `{Environment} (P : list event -> Prop) : Quiet (fun w => P (w_log w)).
Proof. by split. Qed.

Section coordinator.
Context `{Environment} `{SupervisionSerde} (r : CoordinateRequest) (me : proc).
Abbreviation root := (cr_state_root r).
Abbreviation id := (cr_operation_id r).
Abbreviation dir := (runtime_dir (cr_state_root r) (cr_operation_id r)).
Abbreviation file n := (runtime_dir (cr_state_root r) (cr_operation_id r) ++ [n]).

(** The command lines of the two children. *)
Definition supervisor_command : list string :=
  supervisor_argv (pr_exe me) (file "go") (file "status.json") (pr_pid me) r.
Definition guardian_command (g : Z) : list string :=
  guardian_argv (pr_exe me) (root ++ ["active.lock"]) (file "guardian.ready") (file "drain") (file "drained")
    (pr_pid me) g.

(** The state of the operation, as every process may rely on it: the files are in shape; a drain proof
    means that a guardian was started for the supervisor's group and the group is empty; the
    workload is authorized only after the guardian is ready. *)
Record coord_world (w : world) : Prop := mkCoord {
  cw_proc : io_proc (w_io w) = me;
  cw_home : home root id (w_nodes w);
  cw_proof : is_Some (w_nodes w !! file "drained") -> exists g h,
    EvSpawn g supervisor_command ∈ w_log w /\ EvSpawn h (guardian_command g) ∈ w_log w /\ group_empty w g;
  cw_go : is_Some (w_nodes w !! file "go") -> is_Some (w_nodes w !! file "guardian.ready");
}.

(** What the coordinator relies on. *)
Record coord_rely : Prop := mkRely {
  cy_world w : coord_world w -> coord_world (env_turn w);
  cy_made w : made root id (w_nodes w) -> made root id (w_nodes (env_turn w));
  cy_own w n : n ∈ ["go"; "drain"; "outcome.json"] -> w_nodes (env_turn w) !! file n = w_nodes w !! file n;
  cy_ready w : is_Some (w_nodes w !! file "guardian.ready") -> is_Some (w_nodes (env_turn w) !! file "guardian.ready");
  cy_empty w g : EvSpawn g supervisor_command ∈ w_log w -> group_empty w g -> group_empty (env_turn w) g;
}.
Context (Hrely : coord_rely).

#[local] Instance quiet_coord : Quiet coord_world.
Proof.
  split; [apply Hrely| | |].
  - intros t w [A B C D] _. by split.
  - intros s w [A B C D] [Hk Hn]. split; cbn [w_io set_wio]; rewrite ?Hn; try done.
    by rewrite (kept_proc _ _ Hk).
  - intros pid st w [A B C D]. split; [done|done| |done]. intros Hd. destruct (C Hd) as (g & h & Hg & Hh & He).
    exists g, h. split; [done|]. split; [done|]. by apply empty_reap.
Qed.
#[local] Instance quiet_made : Quiet (fun w => made root id (w_nodes w)).
Proof. apply (quiet_files (made root id)), Hrely. Qed.

(** The supervisor was started, once, as the leader of group [g]. *)
Definition started_as (g : Z) (l : list event) : Prop :=
  EvSpawn g supervisor_command ∈ l /\ forall g', EvSpawn g' supervisor_command ∈ l -> g' = g.
(** [t0] is when the coordinator began. *)
Context (t0 : Z).
Definition made_since (w : world) : Prop := made root id (w_nodes w) /\ later t0 w.
Definition running (g : Z) (w : world) : Prop :=
  coord_world w /\ made_since w /\ started_as g (w_log w).
#[local] Instance quiet_made_since : Quiet made_since.
Proof. apply quiet_and; apply _. Qed.
#[local] Instance quiet_running g : Quiet (running g).
Proof. apply quiet_and; [apply _|apply quiet_and; [apply _|apply (quiet_log (started_as g))]]. Qed.

Lemma running_home g w : running g w -> home root id (w_nodes w) /\ made root id (w_nodes w).
Proof. intros (A & B & _). split; [apply A|apply B]. Qed.

Lemma running_signal g g' sig w : running g w -> running g (log_event (EvSignal g' sig) w).
Proof.
  intros ([A B C D] & Hm & Hs & Hu). split; [|split; [done|split]].
  - split; [done|done| |done]. intros Hd. destruct (C Hd) as (k & h & Hk & Hh & He).
    exists k, h. split; [by apply list_elem_of_further|]. by split; [apply list_elem_of_further|].
  - by apply list_elem_of_further.
  - intros k Hk. apply Hu. by apply elem_of_cons in Hk as [[=]|Hk].
Qed.

Lemma drained_empty g w : running g w -> is_Some (w_nodes w !! file "drained") -> group_empty w g.
Proof.
  intros (A & _ & _ & Hu) Hd. destruct (cw_proof _ A Hd) as (k & h & Hk & _ & He). by rewrite <- (Hu k Hk).
Qed.

(** Writing a file other than the drain proof. *)
Lemma file_inj n n' : file n = file n' -> n = n'.
Proof. intros Heq. apply app_inj_tail in Heq as [_ Heq]. done. Qed.

Lemma running_write g n b u w s' :
  n ∈ exchanged -> n <> "drained" -> (n = "go" -> is_Some (w_nodes w !! file "guardian.ready")) ->
  running g w -> kept (w_io w) s' -> io_nodes s' = <[file n := File b u 384]> (w_nodes w) ->
  running g (set_wio s' w).
Proof.
  intros Hn Hne Hgo ([A B C D] & Hm & Hs) Hk Hns.
  assert (Hother : forall n', n' <> n -> io_nodes s' !! file n' = w_nodes w !! file n').
  { intros n' Hn'. rewrite Hns, lookup_insert_ne; [done|]. intros Heq. by apply file_inj in Heq. }
  split; [|split; [|done]].
  - split; cbn [w_io set_wio].
    + by rewrite (kept_proc _ _ Hk).
    + rewrite Hns. apply home_write; [|done]. left. by exists n.
    + rewrite Hother by done. exact C.
    + intros Hg. destruct (decide (n = "guardian.ready")) as [->|Hr].
      { rewrite Hns, lookup_insert_eq. by eexists. }
      rewrite (Hother "guardian.ready") by done. destruct (decide (n = "go")) as [->|Hng]; [by apply Hgo|].
      rewrite Hother in Hg by done. by apply D.
  - split; [|apply Hm]. cbn [w_io set_wio]. rewrite Hns. apply made_write; [|apply Hm]. intros Heq.
    apply (f_equal length) in Heq. rewrite length_app in Heq. simpl in Heq. lia.
Qed.

Lemma wwp_running_write g n b w (Q : result unit BenchError -> world -> Prop) :
  n ∈ exchanged -> n <> "drained" -> (n = "go" -> is_Some (w_nodes w !! file "guardian.ready")) ->
  running g w ->
  (forall rs s', kept (w_io (env_turn w)) s' -> running g (set_wio s' (env_turn w)) ->
     (rs = Ok tt -> exists u, io_nodes s' !! file n = Some (File b u 384)) -> Q rs (set_wio s' (env_turn w))) ->
  wwp (running g) (wio (atomic_write (file n) b)) w Q.
Proof.
  intros Hn Hne Hgo Hi HQ. apply (wwp_write_file root id (running g)); [apply running_home|done|done| |].
  - intros u s' Hk Hs. eapply running_write; [done|done| |by apply quiet_turn|done|exact Hs].
    intros Heq. by apply (cy_ready Hrely), Hgo.
  - intros rs s' Hk Hi' Hok _. by apply HQ.
Qed.

(** *** Its waits *)

Lemma wwp_reap_group fuel g leader w (Q : result unit BenchError -> world -> Prop) :
  running g w -> (forall e w', running g w' -> Q (Err e) w') ->
  (forall w', running g w' -> Q (Ok tt) w') ->
  wwp (running g) (terminate_and_reap_group fuel g leader) w Q.
Proof.
  intros Hi He Hok.
  assert (Hreap : forall v, running g v ->
    wwp (running g) (reap_leader leader) v (fun r w' => forall e, r = Err e -> Q (Err e) w')).
  { intros v Hv. apply wwp_bind, (wwp_try_wait (running g)); [done|by intros; simplify_eq; apply He|].
    intros o v' Hv' _. by apply wwp_ret. }
  apply (wwp_drain_group (running g)); [done|done|done|..].
  - intros v. apply running_signal.
  - intros v Hv _. by apply running_signal.
  - exact Hreap.
  - exact Hreap.
  - intros m v Hv _. by apply He.
  - intros v Hv _. by apply He.
  - intros v Hv _. by apply Hok.
Qed.
Lemma wwp_drain_running fuel g w (Q : result unit BenchError -> world -> Prop) :
  running g w -> (forall e w', running g w' -> Q (Err e) w') ->
  (forall w', running g w' -> Q (Ok tt) w') ->
  wwp (running g) (terminate_and_drain fuel g) w Q.
Proof.
  intros Hi He Hok. apply (wwp_drain_group (running g)); [done|done|done|..].
  - intros v. apply running_signal.
  - intros v Hv _. by apply running_signal.
  - intros v Hv. by apply wwp_ret.
  - intros v Hv. by apply wwp_ret.
  - intros m v Hv _. by apply He.
  - intros v Hv _. by apply He.
  - intros v Hv _. by apply Hok.
Qed.

Lemma wwp_ready fuel guardian g w (Q : result unit BenchError -> world -> Prop) :
  running g w -> (forall e w', running g w' -> Q (Err e) w') ->
  (forall w', running g w' -> is_Some (w_nodes w' !! file "guardian.ready") -> Q (Ok tt) w') ->
  wwp (running g) (wait_for_ready fuel (file "guardian.ready") guardian g g) w Q.
Proof.
  intros Hi He Hok. apply wwp_bind, (wwp_now (running g)); [done|]. intros w0 Hw0 _.
  apply (wwp_repeat (running g) (running g)); [done..|]. intros w1 H1.
  apply wwp_bind, (wwp_exists_file root id (running g)); [apply running_home|set_solver|done|].
  intros [] w2 H2 Hx; [apply wwp_ret; [done|]; apply Hok; [done|by apply Hx]|].
  apply wwp_bind, (wwp_try_wait (running g)); [done|by intros; apply He|]. intros [st|] w3 H3 _.
  { apply wwp_bind, wwp_reap_group; [done|by intros; apply He|]. intros w4 H4. by apply wwp_fail; [|apply He]. }
  apply wwp_bind, (wwp_try_wait (running g)); [done|by intros; apply He|]. intros [st|] w4 H4 _;
    [by apply wwp_fail; [|apply He]|].
  apply wwp_bind, (wwp_elapsed (running g)); [done|]. intros w5 H5 _. destruct (_ <=? _).
  { apply wwp_bind, wwp_reap_group; [done|by intros; apply He|]. intros w6 H6. by apply wwp_fail; [|apply He]. }
  apply wwp_bind, (wwp_sleep (running g)); [done|done|]. intros w6 H6 _. by apply wwp_ret.
Qed.

Lemma ro_read_status p : ro (read_status p).
Proof. unfold read_status. ro_tac. Qed.

(** The outcome, and that a timeout is one. *)
Lemma wwp_watch fuel timeout started guardian g w (Q : result Outcome BenchError -> world -> Prop) :
  running g w -> (forall e w', running g w' -> Q (Err e) w') ->
  (forall o w', running g w' -> (o = O_TimedOut -> timeout <= w_now w' - started) -> Q (Ok o) w') ->
  wwp (running g) (watch_outcome fuel (file "status.json") timeout started guardian g) w Q.
Proof.
  intros Hi He Hok. apply (wwp_repeat (running g) (running g)); [done..|]. intros w1 H1.
  apply wwp_bind, (wwp_ro (running g)); [apply ro_read_status|done|]. intros s' _ H2.
  destruct (read_status _ _).1 as [[st|]|e]; [| |by apply He].
  { apply wwp_ret; [done|]. apply Hok; [done|]. unfold outcome_of_status. by destruct (ws_success st). }
  apply wwp_bind, (wwp_flag (running g)); [done|]. intros [] w3 H3.
  { apply wwp_ret; [done|]. by apply Hok. }
  apply wwp_bind, (wwp_elapsed (running g)); [done|]. intros w4 H4 _.
  destruct (Z.leb_spec timeout (w_now w4 - started)) as [Ht|Ht]; [apply wwp_ret; [done|]; by apply Hok|].
  apply wwp_bind, (wwp_try_wait (running g)); [done|by intros; apply He|]. intros [st|] w5 H5 _.
  { apply wwp_bind, wwp_reap_group; [done|by intros; apply He|]. intros w6 H6. by apply wwp_fail; [|apply He]. }
  apply wwp_bind, (wwp_try_wait (running g)); [done|by intros; apply He|]. intros [st|] w6 H6 _.
  { apply wwp_bind, wwp_drain_running; [done|by intros; apply He|]. intros w7 H7. by apply wwp_fail; [|apply He]. }
  apply wwp_bind, (wwp_sleep (running g)); [done|done|]. intros w7 H7 _. by apply wwp_ret.
Qed.

(** *** The end of an operation *)

Definition outcome_is (b : string) (ns : nodes) : Prop :=
  exists u, ns !! file "outcome.json" = Some (File b u 384).
(** The outcome is on disk, since a time. *)
Definition recorded (g : Z) (b : string) (t : Z) (w : world) : Prop :=
  running g w /\ outcome_is b (w_nodes w) /\ later t w.
#[local] Instance quiet_recorded g b t : Quiet (recorded g b t).
Proof.
  apply quiet_and; [apply _|]. apply quiet_and; [|apply _]. apply (quiet_files (outcome_is b)).
  intros w (u & Hu). exists u. rewrite (cy_own Hrely) by set_solver. done.
Qed.
(** ... and the group is empty. *)
Definition over (g : Z) (b : string) (t : Z) (w : world) : Prop := recorded g b t w /\ group_empty w g.
#[local] Instance quiet_over g b t : Quiet (over g b t).
Proof.
  split.
  - intros w [Hr He]. split; [by apply quiet_turn|]. apply (cy_empty Hrely); [apply Hr|done].
  - intros t' w [Hr He] Ht. split; [by apply quiet_now|done].
  - intros s w [Hr He] Hs. split; [by apply quiet_io|done].
  - intros pid st w [Hr He]. split; [by apply (quiet_reap pid st)|by apply empty_reap].
Qed.

Lemma wwp_drained fuel guardian g b t w (Q : result unit BenchError -> world -> Prop) :
  recorded g b t w -> (forall e w', recorded g b t w' -> Q (Err e) w') ->
  (forall w', over g b t w' -> Q (Ok tt) w') ->
  wwp (recorded g b t) (wait_for_drained fuel (file "drained") guardian g) w Q.
Proof.
  intros Hi He Hok. apply wwp_bind, (wwp_now (recorded g b t)); [done|]. intros w0 Hw0 _.
  apply (wwp_repeat (recorded g b t) (recorded g b t)); [done..|]. intros w1 H1.
  apply wwp_bind, (wwp_exists_file root id (recorded g b t)); [by intros v [Hv _]; apply running_home in Hv|set_solver|done|].
  intros [] w2 H2 Hx.
  { apply wwp_ret; [done|]. apply Hok. split; [done|]. eapply drained_empty; [apply H2|by apply Hx]. }
  apply wwp_bind, (wwp_try_wait (recorded g b t)); [done|by intros; apply He|]. intros _ w3 H3 _.
  apply wwp_bind, (wwp_try_wait (recorded g b t)); [done|by intros; apply He|]. intros [st|] w4 H4 _;
    [by apply wwp_fail; [|apply He]|].
  apply wwp_bind, (wwp_elapsed (recorded g b t)); [done|]. intros w5 H5 _.
  destruct (_ <=? _); [by apply wwp_fail; [|apply He]|].
  apply wwp_bind, (wwp_sleep (recorded g b t)); [done|done|]. intros w6 H6 _. by apply wwp_ret.
Qed.

Lemma wwp_drain_and_reap fuel guardian g b t w (Q : result unit BenchError -> world -> Prop) :
  recorded g b t w -> (forall e w', recorded g b t w' -> Q (Err e) w') ->
  (forall gs ss w', over g b t w' -> w_reaped w' !! g = Some ss -> status_success gs = true ->
     status_success ss = false -> Q (Ok tt) w') ->
  wwp (recorded g b t) (drain_and_reap fuel (file "drain") (file "drained") guardian g) w Q.
Proof.
  intros Hi He Hok. unfold drain_and_reap. apply wwp_bind.
  apply (wwp_write_file root id (recorded g b t)); [by intros v [Hv _]; apply running_home in Hv|set_solver|done| |].
  { intros u s' Hk Hn. destruct (quiet_turn w Hi) as (Hr & (v & Hv) & Hl). split; [|split; [|done]].
    - apply (running_write g "drain" ("drain" +:+ newline)%string u (env_turn w)); [set_solver|done..|exact Hn].
    - exists v. cbn [w_io set_wio]. rewrite Hn, lookup_insert_ne; [done|]. intros Heq. by apply file_inj in Heq. }
  intros [[]|e] s' _ H1 _ _; [|by apply He].
  apply wwp_bind, wwp_drained; [done|done|]. intros w2 H2.
  eapply (wwp_impl (over g b t)); [|by intros v []|by intros r' w' _ Hq; exact Hq].
  apply wwp_bind, (wwp_wait_child (over g b t)); [done|by intros e w' []; apply He|]. intros gs w3 H3 _.
  destruct (status_success gs) eqn:Egs; cbn [negb]; [|by apply wwp_fail; [|apply He, H3]].
  apply wwp_bind, (wwp_wait_child (over g b t)); [done|by intros e w' []; apply He|]. intros ss w4 H4 Hss.
  destruct (status_success ss) eqn:Ess; [by apply wwp_fail; [|apply He, H4]|].
  apply wwp_ret; [done|]. by eapply Hok.
Qed.

(** *** Starting the children *)

Definition no_spawn (l : list event) : Prop := forall pid argv, EvSpawn pid argv ∉ l.
Definition fresh (w : world) : Prop := coord_world w /\ no_spawn (w_log w) /\ later t0 w.
#[local] Instance quiet_fresh : Quiet fresh.
Proof. apply quiet_and; [apply _|]. apply quiet_and; [apply (quiet_log no_spawn)|apply _]. Qed.

(** The supervisor runs, and no guardian yet. *)
Definition alone (g : Z) (w : world) : Prop :=
  running g w /\ forall h, EvSpawn h (guardian_command g) ∉ w_log w.
#[local] Instance quiet_alone g : Quiet (alone g).
Proof. apply quiet_and; [apply _|apply (quiet_log (fun l => forall h, EvSpawn h (guardian_command g) ∉ l))]. Qed.

(** The world after a spawn. *)
Lemma spawn_world g argv w : (forall d, is_Some (w_nodes w !! file d) -> d <> "drained") ->
  coord_world w -> coord_world (spawned g argv w).
Proof.
  intros Hd [A B C D]. split; [done|done| |done]. intros Hx. by destruct (Hd "drained" Hx).
Qed.
Lemma fresh_undrained w : fresh w -> forall d, is_Some (w_nodes w !! file d) -> d <> "drained".
Proof. intros (A & Hn & _) d Hd ->. destruct (cw_proof _ A Hd) as (k & h & Hk & _). by destruct (Hn k supervisor_command). Qed.
Lemma alone_undrained g w : alone g w -> forall d, is_Some (w_nodes w !! file d) -> d <> "drained".
Proof.
  intros [(A & _ & _ & Hu) Hn] d Hd ->. destruct (cw_proof _ A Hd) as (k & h & Hk & Hh & _).
  rewrite (Hu k Hk) in Hh. by destruct (Hn h).
Qed.

Lemma spawn_supervisor g w : fresh w -> made root id (w_nodes w) -> alone g (spawned g supervisor_command w).
Proof.
  intros Hf Hm. split; [split; [|split; [split; [done|apply Hf]|split]]|].
  - apply spawn_world; [by apply fresh_undrained|apply Hf].
  - apply list_elem_of_here.
  - intros g' Hg'. apply elem_of_cons in Hg' as [[= ->]|Hg']; [done|]. by destruct (proj1 (proj2 Hf) _ _ Hg').
  - intros h Hh. apply elem_of_cons in Hh as [[=]|Hh].
    by destruct (proj1 (proj2 Hf) _ _ Hh).
Qed.
Lemma spawn_guardian g h w : alone g w -> running g (spawned h (guardian_command g) w).
Proof.
  intros Ha. pose proof Ha as [(A & Hm & Hs & Hu) Hn]. split; [|split; [done|split]].
  - apply spawn_world; [by eapply alone_undrained|done].
  - by apply list_elem_of_further.
  - intros g' Hg'. apply elem_of_cons in Hg' as [[=]|Hg']. by apply Hu.
Qed.

Lemma dir_not_file n : dir <> file n.
Proof. intros Heq. apply (f_equal length) in Heq. rewrite length_app in Heq. simpl in Heq. lia. Qed.

Lemma home_made ns u m : ns !! dir = None -> home root id ns -> home root id (<[dir := Dir u m]> ns).
Proof.
  intros Hno Hh.
  assert (Hne : forall p, p <> dir -> <[dir := Dir u m]> ns !! p = ns !! p) by (intros; by rewrite lookup_insert_ne).
  split.
  - intros a x y Ha. destruct (home_root _ _ _ Hh a x y Ha) as (Hx & u' & m' & Hl). split; [done|].
    exists u', m'. rewrite Hne; [done|]. intros Heq. by rewrite Heq, Hno in Hl.
  - apply Hh.
  - intros x Hx. destruct (decide (root ++ ["active.lock"] = dir)) as [Heq|Hneq].
    { exfalso. unfold runtime_dir in Heq. apply app_inj_tail in Heq as [_ Heq]. revert Heq. generalize id.
      intros a. do 12 (destruct a as [|? a]; [discriminate|]). discriminate. }
    rewrite Hne in Hx by done. by apply (home_lock _ _ _ Hh).
  - intros n Hn x Hx. rewrite Hne in Hx by (apply not_eq_sym, dir_not_file). by apply (home_files _ _ _ Hh n Hn).
  - intros x. rewrite lookup_insert_eq. by intros [= <-].
Qed.

(** Creating the runtime directory; the outcome of another operation is never reused. *)
Lemma wwp_create_dir op w (Q : result unit BenchError -> world -> Prop) :
  fresh w -> (forall e w', fresh w' -> Q (Err e) w') ->
  (forall w', fresh w' -> made root id (w_nodes w') -> Q (Ok tt) w') ->
  wwp fresh (wio (io_op op (sys_create_dir dir))) w Q.
Proof.
  intros Hi He Hok. apply wwp_wio. pose proof (quiet_turn w Hi) as Ht. pose proof (quiet_syscall fresh w Hi) as Hst.
  assert (Hh : home root id (w_nodes (env_turn w))) by (apply Ht).
  assert (Hres : resolve_parent (w_nodes (env_turn w)) dir = Some dir).
  { apply resolve_parent_plain, dir_path_plain, Hh. }
  apply iwp_sys; [by intros e _; split; [|apply He]| |]; intros x s' Hs; cbn [io_nodes io_step] in Hs;
    rewrite Hres in Hs; unfold runtime_dir in Hs; rewrite at_path_snoc, removelast_last in Hs;
    destruct (w_nodes (env_turn w) !! _) as [nd|] eqn:El;
    try (destruct (at_path (w_nodes (env_turn w)) root) as [[]|]); simplify_eq;
    try (by split; [|apply He]).
  set (w1 := set_wio _ _).
  assert (Hf : fresh w1 /\ made root id (w_nodes w1)); [|split; [apply Hf|apply Hok; apply Hf]].
  destruct Ht as [[A B C D] Hns]. split; [split; [split|done]|]; cbn [w1 w_io set_wio io_set io_nodes io_step io_proc].
  - done.
  - by apply home_made.
  - rewrite lookup_insert_ne by apply dir_not_file. exact C.
  - rewrite !lookup_insert_ne by apply dir_not_file. exact D.
  - eexists _, _. apply lookup_insert_eq.
Qed.

(** *** The whole coordinator *)

(** An outcome was returned: it is on disk, the supervisor's group is empty, and the supervisor was reaped and did
    not succeed by itself. *)
Definition delivered (o : Outcome) (w' : world) : Prop :=
  exists g b ss, EvSpawn g supervisor_command ∈ w_log w' /\ group_empty w' g /\
    outcome_to_vec o = Some b /\ outcome_is b (w_nodes w') /\
    w_reaped w' !! g = Some ss /\ status_success ss = false /\ made root id (w_nodes w') /\
    (o = O_TimedOut -> t0 + cr_timeout r * 1000 <= w_now w').

(** The test seam that stops a coordinator is off. *)
Definition no_seam : Prop :=
  cr_production_control r = true \/ pr_env me !! "BENCHCTL_TEST_OUTCOME_READY" = None.

(** The last part: record the outcome, drain, reap. *)
Lemma wwp_conclude fuel guardian g o t w (Q : result Outcome BenchError -> world -> Prop) :
  no_seam -> running g w -> t <= w_now w -> (forall e w', running g w' -> Q (Err e) w') ->
  (forall b ss w', outcome_to_vec o = Some b -> over g b t w' -> w_reaped w' !! g = Some ss ->
     status_success ss = false -> Q (Ok o) w') ->
  wwp (running g)
    (_ ← wio (store_outcome (file "outcome.json") o);
     _ ← outcome_ready_seam r;
     _ ← drain_and_reap fuel (file "drain") (file "drained") guardian g;
     mret o) w Q.
Proof.
  intros Hseam Hi Hle He Hok. apply wwp_bind. unfold store_outcome.
  destruct (outcome_to_vec o) as [b|] eqn:Eb.
  2: { apply (wwp_ro (running g)); [apply ro_throw|done|]. intros s' _ H1. by apply He. }
  apply wwp_running_write; [set_solver|done|done|done|]. intros [[]|e] s' Hk H1 Ho; [|by apply He].
  set (w1 := set_wio s' (env_turn w)) in *.
  assert (H2 : recorded g b t w1).
  { split; [done|]. split; [by apply Ho|]. unfold later. simpl. lia. }
  apply wwp_bind.
  assert (Hs : outcome_ready_seam r w1 = (Some (Ok tt), w1)).
  { unfold outcome_ready_seam, mbind, W_bind, wget. rewrite (cw_proc _ (proj1 H1)).
    destruct Hseam as [-> | ->]; [|done].
    by destruct (pr_env me !! "BENCHCTL_TEST_OUTCOME_READY"). }
  unfold wwp at 1. rewrite Hs. cbn [fst snd]. split; [done|].
  eapply (wwp_impl (recorded g b t)); [|by intros v []|by intros r' w' _ Hq; exact Hq].
  apply wwp_bind, (wwp_drain_and_reap _ _ _ b t); [done|by intros e w' []; apply He|].
  intros gs ss w2 H3 Hss _ Hf. apply wwp_ret; [apply H3|]. by eapply Hok.
Qed.

(** From the handshake with the guardian on. *)
Lemma wwp_authorized fuel guardian g w (Q : result Outcome BenchError -> world -> Prop) :
  no_seam -> running g w -> (forall e w', running g w' -> Q (Err e) w') ->
  (forall o w', delivered o w' -> Q (Ok o) w') ->
  wwp (running g)
    (_ ← wait_for_ready fuel (file "guardian.ready") guardian g g;
     _ ← wio (atomic_write (file "go") ("go" +:+ newline));
     _ ← cancellation_flag (cr_client_watch r);
     started ← instant_now;
     outcome ← watch_outcome fuel (file "status.json") (cr_timeout r * 1000) started guardian g;
     _ ← wio (store_outcome (file "outcome.json") outcome);
     _ ← outcome_ready_seam r;
     _ ← drain_and_reap fuel (file "drain") (file "drained") guardian g;
     mret outcome) w Q.
Proof.
  intros Hseam Hi He Hok. apply wwp_bind, wwp_ready; [done|done|]. intros w1 H1 Hready.
  apply wwp_bind, wwp_running_write; [set_solver|done|done|done|]. intros [[]|e] s2 _ H2 _; [|by apply He].
  apply wwp_bind. unfold cancellation_flag.
  do 2 (apply wwp_bind, (wwp_fd_call (running g)); [done|by intros; apply He|]; intros ? ? _).
  apply (wwp_fd_call (running g)); [done|by intros; apply He|]. intros w5 H5 _.
  apply wwp_bind, (wwp_now (running g)); [done|]. intros w6 H6 _.
  apply wwp_bind, wwp_watch; [done|done|]. intros o w7 H7 Ht.
  apply (wwp_conclude _ _ _ _ (match o with O_TimedOut => t0 + cr_timeout r * 1000 | _ => t0 end));
    [done|done| |done|].
  - pose proof H6 as (_ & [_ Hl6] & _). pose proof H7 as (_ & [_ Hl7] & _). unfold later in *.
    destruct o; try done. specialize (Ht eq_refl). lia.
  - intros b ss w8 Hb [Hr Hemp] Hss Hf. apply Hok. exists g, b, ss. destruct Hr as ((_ & Hm & Hs & _) & Hout & Hl).
    do 6 (split; [done|]). split; [apply Hm|]. by intros ->.
Qed.

(** What follows the supervisor's start. *)
Lemma wwp_supervised fuel g w (Q : result Outcome BenchError -> world -> Prop) :
  no_seam -> alone g w -> (forall e w', Q (Err e) w') -> (forall o w', delivered o w' -> Q (Ok o) w') ->
  wwp coord_world
    (guardian_result ← attempt (spawn "starting crash guardian" (guardian_command g));
     match guardian_result with
     | Err error => _ ← terminate_and_reap_group fuel g g; fail error
     | Ok guardian =>
        _ ← wait_for_ready fuel (file "guardian.ready") guardian g g;
        _ ← wio (atomic_write (file "go") ("go" +:+ newline));
        _ ← cancellation_flag (cr_client_watch r);
        started ← instant_now;
        outcome ← watch_outcome fuel (file "status.json") (cr_timeout r * 1000) started guardian g;
        _ ← wio (store_outcome (file "outcome.json") outcome);
        _ ← outcome_ready_seam r;
        _ ← drain_and_reap fuel (file "drain") (file "drained") guardian g;
        mret outcome
     end) w Q.
Proof.
  intros Hseam Ha He Hok. apply (wwp_within (running g)); [by intros v []|].
  apply wwp_bind, wwp_attempt, (wwp_spawn (alone g) _); [by intros v []|done| |].
  - intros e w1 [H1 _]. apply wwp_bind, wwp_reap_group; [done|by intros|]. intros w2 H2. by apply wwp_fail.
  - intros w1 h H1. pose proof (spawn_guardian g h w1 H1) as H2. split; [done|]. by apply wwp_authorized.
Qed.

Lemma wwp_coordinate fuel w :
  no_seam -> fresh w ->
  wwp coord_world (coordinate fuel r) w (fun res w' => forall o, res = Ok o -> delivered o w').
Proof.
  intros Hseam Hi. set (Q := fun res w' => forall o, res = Ok o -> delivered o w').
  assert (Herr : forall e w', Q (Err e) w') by done.
  set (J := fun w => fresh w /\ made root id (w_nodes w)).
  assert (HJ : forall w, J w -> coord_world w) by (by intros v [[]]).
  unfold coordinate. apply wwp_bind, (wwp_within fresh); [by intros v []|].
  apply wwp_create_dir; [done|by intros; apply Herr|]. intros w1 F1 M1.
  apply wwp_bind. unfold wget at 1. split; [apply F1|]. cbn [fst snd].
  change (self w1) with (pr_pid (io_proc (w_io w1))). rewrite (cw_proc _ (proj1 F1)).
  apply wwp_bind, (wwp_within J _ _ _ _ HJ). unfold current_exe. apply (wwp_ro J); [by apply ro_sys|done|]. intros s' Hsame H2.
  destruct (io_op _ _ _).1 as [exe|e] eqn:Eexe; [|done].
  assert (exe = pr_exe me) as ->.
  { unfold io_op, syscall in Eexe. destruct (io_faults _ _); simplify_eq/=.
    f_equal. apply (cw_proc (env_turn w1)). by apply (quiet_turn w1 F1). }
  apply wwp_bind, (wwp_spawn J _ _ _ _ _ HJ); [done|by intros; apply Herr|]. intros w3 g [F3 M3].
  pose proof (spawn_supervisor g w3 F3 M3) as H4. split; [apply H4|].
  destruct (i32_max <? g); [by apply wwp_fail; [apply H4|]|].
  apply wwp_supervised; [done|exact H4|done|]. intros o w' Hd o' [= <-]. exact Hd.
Qed.
End coordinator.

(** What is on disk is what the recovery reads. *)
Lemma recover_stored `{SupervisionSerdeLaws} root id o b u m s :
  home root id (io_nodes s) -> made root id (io_nodes s) -> no_faults s ->
  io_nodes s !! (runtime_dir root id ++ ["outcome.json"]) = Some (File b u m) -> outcome_to_vec o = Some b ->
  gives (recover_outcome root id) s (Ok (Some o)).
Proof.
  intros Hh Hm Hnf Hf Hb. unfold recover_outcome. set (p := runtime_dir root id ++ ["outcome.json"]) in *.
  assert (Hin : "outcome.json" ∈ exchanged) by set_solver.
  destruct (regular_stat (io_nodes s) (runtime_dir root id) "outcome.json" (made_dir_path _ _ _ Hh Hm) ltac:(done)
    (home_files _ _ _ Hh _ Hin)) as [Hres Hst].
  eapply (gives_bind _ _ _ true); [done| |].
  - exists (io_step s). unfold sys_exists, syscall. rewrite Hnf by done. cbn [io_nodes io_step]. fold p in Hst.
    rewrite Hst, Hf. split; [done|apply same_step].
  - intros s1 N1 [_ S1]. eapply (gives_bind _ _ _ b); [done| |].
    + apply gives_sys; [done|]. cbn [io_nodes io_step]. rewrite S1. fold p in Hres. rewrite Hres.
      unfold p. rewrite at_path_snoc. fold p. by rewrite Hf.
    + intros s2 _ _. rewrite (outcome_roundtrip o b Hb). apply gives_ret.
Qed.


(** ** A simulated run for the witness *)

Definition outcome_text (o : Outcome) : string :=
  match o with O_Success => "S" | O_Failed s => "F" +:+ s | O_TimedOut => "T" | O_Cancelled => "C" end.
Definition text_outcome (s : string) : option Outcome :=
  match s with
  | String "S" "" => Some O_Success
  | String "F" s => Some (O_Failed s)
  | String "T" "" => Some O_TimedOut
  | String "C" "" => Some O_Cancelled
  | _ => None
  end.
#[export] Instance demo_supervision_serde : SupervisionSerde := {|
  receipt_to_string _ := Some "receipt";
  status_to_vec st := match st with mkStatus true (Some 0) None => Some "ok" | _ => None end;
  status_from_slice s := if bool_decide (s = "ok") then Some (mkStatus true (Some 0) None) else None;
  outcome_to_vec o := Some (outcome_text o);
  outcome_from_slice := text_outcome;
  proof_to_vec v o b := Some (v +:+ o +:+ b) |}.
#[export] Instance demo_supervision_laws : SupervisionSerdeLaws.
Proof.
  split.
  - by intros [] b [= <-].
  - intros [[] [[]|] []] b [= <-]; done.
Qed.

Definition demo_coordinate (production : bool) : CoordinateRequest :=
  {| cr_state_root := ["run"]; cr_operation_id := "x"; cr_receipt := ["run"; "x.receipt"];
     cr_executable := ["run"; "x.executable"]; cr_workload := ["w"]; cr_uid := 1000; cr_gid := 1000;
     cr_timeout := 5; cr_client_watch := None; cr_production_control := production |}.

(** The supervisor and the guardian that a coordinator's log shows. *)
Definition spawns_of (argv : list string) (l : list event) : list Z :=
  omap (fun e => match e with EvSpawn pid a => if bool_decide (a = argv) then Some pid else None | _ => None end) l.
Definition terminated (g : Z) (p : process) : process :=
  if bool_decide (ps_group p = g) then mkProcess (ps_group p) (ps_parent p) (Some (Signaled 15)) else p.

(** The children: the guardian gets ready, the workload succeeds once authorized, the guardian
    terminates the group when asked, proves it empty and exits, at once or ([slow]) a turn later. *)
Definition children_turn (production slow : bool) : Environment := fun _ w =>
  let file n := runtime_dir ["run"] "x" ++ [n] in
  let has n := bool_decide (is_Some (w_nodes w !! file n)) in
  let quiet ns ps := mkEffect ns ps (w_locks w) (w_flag w) (w_pid w + 1) 1 in
  let put n text := <[file n := File text 0 384]> (w_nodes w) in
  match spawns_of (supervisor_command (demo_coordinate production) demo_proc) (w_log w) with
  | g :: _ =>
      match spawns_of (guardian_command (demo_coordinate production) demo_proc g) (w_log w) with
      | h :: _ =>
          if negb (has "guardian.ready") then quiet (put "guardian.ready" "ready") (w_procs w)
          else if negb (has "status.json") && has "go" then quiet (put "status.json" "ok") (w_procs w)
          else if has "drain" then
            if group_emptyb w g then
              quiet (put "drained" "drained")
                (if slow && negb (has "drained") then w_procs w
                 else alter (fun p => mkProcess (ps_group p) (ps_parent p) (Some (Exited 0))) h (w_procs w))
            else quiet (w_nodes w) (terminated g <$> w_procs w)
          else quiet (w_nodes w) (w_procs w)
      | [] => quiet (w_nodes w) (w_procs w)
      end
  | [] => quiet (w_nodes w) (w_procs w)
  end.

Definition coordinator_world : world :=
  demo_world {[ ["run"] := Dir 0 448 ]} {[ 77 := mkProcess 77 1 None ]}.

Section children.
Context (production slow : bool).
Abbreviation sup := (supervisor_command (demo_coordinate production) demo_proc).
Abbreviation guard g := (guardian_command (demo_coordinate production) demo_proc g).
Abbreviation demo_file n := (runtime_dir ["run"] "x" ++ [n]).
Abbreviation after_turn w := (@env_turn (children_turn production slow) w).

(** What a turn of the children does to files and processes. *)
Record children_step (w : world) : Prop := mkStep {
  st_files : w_nodes (after_turn w) = w_nodes w \/
    exists n text, n ∈ ["guardian.ready"; "status.json"; "drained"] /\
      w_nodes (after_turn w) = <[demo_file n := File text 0 384]> (w_nodes w) /\
      (n = "drained" -> exists g h, EvSpawn g sup ∈ w_log w /\ EvSpawn h (guard g) ∈ w_log w /\ group_empty w g);
  st_procs pid p' : w_procs (after_turn w) !! pid = Some p' ->
    exists p, w_procs w !! pid = Some p /\ ps_group p' = ps_group p;
}.

Lemma spawns_elem argv l g r : spawns_of argv l = g :: r -> EvSpawn g argv ∈ l.
Proof.
  intros Hs. assert (Hin : g ∈ spawns_of argv l) by (rewrite Hs; apply list_elem_of_here).
  apply list_elem_of_omap in Hin as (e & He & Hg). destruct e as [pid a| |]; [|done|done].
  case_bool_decide as Ha; [|done]. injection Hg as ->. by rewrite Ha in He.
Qed.

Lemma children_steps w : children_step w.
Proof.
  assert (Hsame : forall pid p', w_procs w !! pid = Some p' ->
    exists p, w_procs w !! pid = Some p /\ ps_group p' = ps_group p) by eauto.
  assert (Hterm : forall g pid p', (terminated g <$> w_procs w) !! pid = Some p' ->
    exists p, w_procs w !! pid = Some p /\ ps_group p' = ps_group p).
  { intros g pid p'. rewrite lookup_fmap_Some. intros (p & <- & Hp). exists p. split; [done|].
    unfold terminated. by case_bool_decide. }
  assert (Hexit : forall h pid p',
    alter (fun p => mkProcess (ps_group p) (ps_parent p) (Some (Exited 0))) h (w_procs w) !! pid = Some p' ->
    exists p, w_procs w !! pid = Some p /\ ps_group p' = ps_group p).
  { intros h pid p'. rewrite lookup_alter_Some. intros [(-> & p & Hp & ->)|[_ Hp]]; eauto. }
  split; unfold env_turn, turn, children_turn; cbv zeta;
    destruct (spawns_of sup (w_log w)) as [|g r1] eqn:Eg; [by left| |exact Hsame|];
    destruct (spawns_of (guard g) (w_log w)) as [|h r2] eqn:Eh; [by left| |exact Hsame|];
    destruct (negb (bool_decide (is_Some (w_nodes w !! demo_file "guardian.ready"))));
    [right; eexists _, _; split; [|split; [reflexivity|done]]; set_solver| |exact Hsame|];
    destruct (negb _ && _);
    [right; eexists _, _; split; [|split; [reflexivity|done]]; set_solver| |exact Hsame|];
    (destruct (bool_decide (is_Some (w_nodes w !! demo_file "drain"))); [|first [by left|exact Hsame]]);
    destruct (group_emptyb w g) eqn:Ee.
  - right. eexists _, _. split; [|split; [reflexivity|intros _]]; [set_solver|]. exists g, h.
    split; [by eapply spawns_elem|]. split; [by eapply spawns_elem|by apply group_emptyb_spec].
  - by left.
  - cbn [ef_procs w_procs]. destruct (slow && _); [exact Hsame|apply Hexit].
  - apply Hterm.
Qed.

Lemma children_empty w g : group_empty w g -> group_empty (after_turn w) g.
Proof.
  intros He pid p' Hp. destruct (st_procs _ (children_steps w) pid p' Hp) as (p & Hp' & ->). by apply (He pid p).
Qed.

Lemma children_rely : @coord_rely (children_turn production slow) (demo_coordinate production) demo_proc.
Proof.
  assert (Hinj : forall n n', demo_file n = demo_file n' -> n = n').
  { intros n n' Heq. by apply app_inj_tail in Heq as [_ Heq]. }
  split.
  - intros w [A B C D]. split; [exact A|..].
    + destruct (st_files _ (children_steps w)) as [->|(n & text & Hn & -> & _)]; [done|].
      apply home_write; [|done]. left. exists n. split; [done|]. set_solver.
    + intros Hd. assert (Hproof : exists g h, EvSpawn g sup ∈ w_log w /\ EvSpawn h (guard g) ∈ w_log w /\ group_empty w g).
      { destruct (st_files _ (children_steps w)) as [Hf|(n & text & Hn & Hf & Hdr)]; rewrite Hf in Hd; [by apply C|].
        destruct (decide (n = "drained")) as [->|Hne]; [by apply Hdr|].
        rewrite lookup_insert_ne in Hd; [by apply C|]. intros Heq. by apply Hinj in Heq. }
      destruct Hproof as (g & h & Hg & Hh & He). exists g, h. split; [done|]. split; [done|]. by apply children_empty.
    + destruct (st_files _ (children_steps w)) as [->|(n & text & Hn & -> & _)]; [done|]. intros Hgo.
      destruct (decide (n = "guardian.ready")) as [->|Hr]; [rewrite lookup_insert_eq; eauto|].
      rewrite lookup_insert_ne in Hgo by (intros Heq; apply Hinj in Heq; set_solver).
      rewrite lookup_insert_ne by (intros Heq; by apply Hinj in Heq). by apply D.
  - intros w (u & m & Hd). destruct (st_files _ (children_steps w)) as [->|(n & text & Hn & -> & _)]; [by exists u, m|].
    exists u, m. rewrite lookup_insert_ne; [done|]. intros Heq. apply (f_equal length) in Heq. done.
  - intros w n Hn. destruct (st_files _ (children_steps w)) as [->|(n' & text & Hn' & -> & _)]; [done|].
    rewrite lookup_insert_ne; [done|]. intros Heq. apply Hinj in Heq. subst. set_solver.
  - intros w Hr. destruct (st_files _ (children_steps w)) as [->|(n & text & Hn & -> & _)]; [done|].
    destruct (decide (n = "guardian.ready")) as [->|Hne]; [rewrite lookup_insert_eq; eauto|].
    rewrite lookup_insert_ne; [done|]. intros Heq. by apply Hinj in Heq.
  - intros w g _. apply children_empty.
Qed.
End children.

Lemma coordinator_start : coord_world (demo_coordinate true) demo_proc coordinator_world.
Proof.
  split; [done| |intros [n Hn]; vm_compute in Hn; discriminate|intros [n Hn]; vm_compute in Hn; discriminate].
  split.
  - by eapply (dir_path_one _ "run" 0 448).
  - done.
  - intros n Hn. vm_compute in Hn. discriminate.
  - intros n Hn x Hx. change (({[ ["run"] := Dir 0 448 ]} : nodes) !! ["run"; "x.runtime"; n] = Some x) in Hx.
    rewrite lookup_singleton_ne in Hx by discriminate. discriminate.
  - intros n Hn. vm_compute in Hn. discriminate.
Qed.


(** A guardian that writes its drain proof and exits between the coordinator's look for the proof and its look at the
    guardian makes the coordinator report a missing proof, although the proof is there and the
    outcome is stored: the error is spurious, and the operation needs an explicit recovery. *)
Lemma drain_proof_race :
  let w := @coordinate (children_turn true false) 50 demo_supervision_serde (demo_coordinate true) coordinator_world in
  w.1 = Some (Err (State "crash guardian exited without drain proof")) /\
  is_Some (w_nodes w.2 !! ["run"; "x.runtime"; "drained"]) /\
  (recover_outcome ["run"] "x" (demo_state (w_nodes w.2) (fun _ => None))).1 = Ok (Some O_Success).
Proof.
  split; [by vm_compute|]. split; [|by vm_compute]. apply (bool_decide_unpack _). by vm_compute.
Qed.
