(* ===== verification/RunComposed.v ===== *)
(** * A run with its supervision (cpuidle.rs over supervision.rs)

    The safety of a run is proved in [RunSafety] against the interface [SupervisionOps] and its frame law. Here
    [supervision_ops], the operations of supervision.rs, satisfies that law: the coordinator, the recovery of an
    outcome and the removal of the runtime directory touch only the operation's runtime
    directory. So the theorems on a run hold of the two files together. *)

From stdpp Require Import pretty.
From Stdlib Require Import Ascii.
From S2P Require Import Prelude BenchFs Journal Receipt Process ProcessProofs Cpuidle CpuidleProofs CpuidleSafety.
From S2P Require Import RunSafety Supervision SupervisionProofs CoordinatorProofs.
Open Scope Z_scope.

(** ** Programs that keep an invariant, whatever they return *)

Definition holds {A} (I : world -> Prop) (m : W A) : Prop := forall w, I w -> wwp I m w (fun _ _ => True).

(** An invariant of files and the program's own process: what is logged, and which process runs, does not matter. *)
Class Filewise `{Environment} (I : world -> Prop) := {
  filewise_quiet :: Quiet I;
  filewise_eq w w' : w_io w' = w_io w -> I w -> I w';
}.

Section holds.
Context `{Environment} (I : world -> Prop) `{!Filewise I}.

Lemma holds_ret {A} (x : A) : holds I (mret x).
Proof. intros w Hw. by apply wwp_ret. Qed.
Lemma holds_fail {A} e : holds I (fail (A := A) e).
Proof. intros w Hw. by apply wwp_fail. Qed.
Lemma holds_bind {A B} (m : W A) (k : A -> W B) : holds I m -> (forall x, holds I (k x)) -> holds I (mbind k m).
Proof.
  intros Hm Hk w Hw. apply wwp_bind. eapply wwp_mono; [by apply Hm|]. intros [x|e] w' Hw' _; [by apply Hk|done].
Qed.
Lemma holds_attempt {A} (m : W A) : holds I m -> holds I (attempt m).
Proof. intros Hm w Hw. by apply wwp_attempt, Hm. Qed.
Lemma holds_repeat {A} fuel (body : W (option A)) : holds I body -> holds I (repeat_until fuel body).
Proof.
  intros Hb w Hw. apply (wwp_repeat I I); [done..|]. intros w' Hw'. eapply wwp_mono; [by apply Hb|].
  by intros [[x|]|e] w1 H1 _.
Qed.
Lemma holds_wget {A} (f : world -> A) : holds I (wget f).
Proof. by intros w Hw. Qed.
Lemma holds_now : holds I instant_now.
Proof. intros w Hw. by apply (wwp_now I). Qed.
Lemma holds_elapsed t : holds I (elapsed t).
Proof. intros w Hw. by apply (wwp_elapsed I). Qed.
Lemma holds_sleep ms : 0 <= ms -> holds I (sleep ms).
Proof. intros Hms w Hw. by apply (wwp_sleep I). Qed.
Lemma holds_flag : holds I flag_load.
Proof. intros w Hw. by apply (wwp_flag I). Qed.
Lemma holds_ro {A} (m : IO A) : ro m -> holds I (wio m).
Proof. intros Hm w Hw. by apply (wwp_ro I). Qed.
Lemma holds_fd op : holds I (fd_call op).
Proof. intros w Hw. by apply (wwp_fd_call I). Qed.
Lemma holds_killpg msg g sig : holds I (killpg msg g sig).
Proof. intros w Hw. apply (wwp_killpg I); try done. intros s w' _ H' _. by apply (filewise_eq w'). Qed.
Lemma holds_try_wait op pid : holds I (try_wait op pid).
Proof. intros w Hw. by apply (wwp_try_wait I). Qed.
Lemma holds_wait_child fuel op pid : holds I (wait_child fuel op pid).
Proof. apply holds_repeat, holds_try_wait. Qed.
Lemma holds_spawn op argv : holds I (spawn op argv).
Proof. intros w Hw. apply (wwp_spawn I I); try done. intros w1 pid H1. split; [by apply (filewise_eq w1)|done]. Qed.
End holds.
Create HintDb holds.
#[export] Hint Resolve holds_ret holds_fail holds_wget holds_now holds_elapsed holds_flag holds_fd holds_killpg
  holds_try_wait holds_wait_child holds_spawn : holds.
#[export] Hint Extern 0 (Filewise _) => exact _ : holds.
#[export] Hint Extern 1 (holds _ (sleep _)) => apply holds_sleep; [exact _|done] : holds.

Ltac holds_tac := repeat first
  [ progress intros | progress cbv zeta | solve [eauto with holds] | apply holds_bind | apply holds_attempt
  | apply holds_repeat | case_match ].

Section waits.
Context `{Environment} `{SupervisionSerde} (I : world -> Prop) `{!Filewise I} (fuel : nat).

Lemma holds_drain m1 m2 m3 r1 r2 grace limit g :
  holds I r1 -> holds I r2 -> holds I (drain_group fuel m1 m2 m3 r1 r2 grace limit g).
Proof. intros H1 H2. unfold drain_group, drain_loop. holds_tac. Qed.
Lemma holds_exists p : holds I (wexists p).
Proof. apply holds_ro; [done|apply ro_exists]. Qed.
Lemma holds_terminate g : holds I (terminate_and_drain fuel g).
Proof. apply holds_drain; by apply holds_ret. Qed.
Lemma holds_reap g leader : holds I (terminate_and_reap_group fuel g leader).
Proof. apply holds_drain; unfold reap_leader; holds_tac. Qed.
Lemma holds_cancellation watch : holds I (cancellation_flag watch).
Proof. unfold cancellation_flag. holds_tac. Qed.
#[local] Hint Resolve holds_exists holds_terminate holds_reap holds_cancellation : holds.

Lemma holds_ready ready guardian supervisor g : holds I (wait_for_ready fuel ready guardian supervisor g).
Proof. unfold wait_for_ready. holds_tac. Qed.
Lemma holds_drained drained guardian supervisor : holds I (wait_for_drained fuel drained guardian supervisor).
Proof. unfold wait_for_drained. holds_tac. Qed.
Lemma holds_watch status timeout started guardian supervisor :
  holds I (watch_outcome fuel status timeout started guardian supervisor).
Proof.
  unfold watch_outcome. apply holds_repeat, holds_bind; [by apply holds_ro, ro_read_status|]. holds_tac.
Qed.
End waits.
#[export] Hint Resolve holds_exists holds_terminate holds_reap holds_cancellation holds_ready holds_drained
  holds_watch : holds.

(** ** The frame of the supervision *)

Section frame.
Context `{Environment} `{SupervisionSerde} (d : path) (id : string) (P : path -> Prop) (me : proc).
Abbreviation dir := (runtime_dir d id).

(** The operation's directory is in shape. *)
Definition supervised (s : iost) : Prop := io_proc s = me /\ home d id (io_nodes s).

(** No node of [P] is in the runtime directory, and the others leave [P] and the directory's shape alone; the test
    seam is off. *)
Record apart : Prop := mkApart {
  ap_outside q : P q -> ~ dir `prefix_of` q;
  ap_frame w q : P q -> w_nodes (env_turn w) !! q = w_nodes w !! q;
  ap_home w : home d id (w_nodes w) -> home d id (w_nodes (env_turn w));
  ap_made w : home d id (w_nodes w) -> made d id (w_nodes w) -> made d id (w_nodes (env_turn w));
  ap_seam : pr_env me !! "BENCHCTL_TEST_OUTCOME_READY" = None;
}.
Context (Hap : apart) (ns0 : nodes).

Definition framed (w : world) : Prop := supervised (w_io w) /\ forall q, P q -> w_nodes w !! q = ns0 !! q.
Definition framed_made (w : world) : Prop := framed w /\ made d id (w_nodes w).

#[local] Instance filewise_framed : Filewise framed.
Proof.
  split; [split|].
  - intros w [[A B] C]. split; [split; [done|by apply Hap]|]. intros q Hq. rewrite (ap_frame Hap) by done. by apply C.
  - done.
  - intros s w [[A B] C] [Hk Hn]. unfold framed, supervised. cbn [w_io set_wio].
    by rewrite Hn, (kept_proc _ _ Hk).
  - done.
  - intros w w' Heq. unfold framed. by rewrite Heq.
Qed.
#[local] Instance filewise_framed_made : Filewise framed_made.
Proof.
  split; [split|].
  - intros w [A B]. split; [by apply quiet_turn|]. apply (ap_made Hap); [apply A|done].
  - done.
  - intros s w [A B] Hs. split; [by apply quiet_io|]. cbn [w_io set_wio]. by rewrite (proj2 Hs).
  - done.
  - intros w w' Heq [A B]. split; [by eapply filewise_eq|by rewrite Heq].
Qed.

Lemma outside_file q n : P q -> q <> dir ++ [n].
Proof. intros Hq ->. apply (ap_outside Hap _ Hq). by exists [n]. Qed.

Lemma holds_write n b : n ∈ exchanged -> holds framed_made (wio (atomic_write (dir ++ [n]) b)).
Proof.
  intros Hn w Hw. apply (wwp_write_file d id framed_made); [by intros v [[[_ A] _] B]|done|done| |done].
  intros u s' Hk Hs. destruct (quiet_turn w Hw) as [[[A B] C] D].
  split; [split; [split|]|]; cbn [w_io set_wio].
  - by rewrite (kept_proc _ _ Hk).
  - rewrite Hs. apply home_write; [left; by exists n|done].
  - intros q Hq. rewrite Hs, lookup_insert_ne; [by apply C|]. apply not_eq_sym. by apply outside_file.
  - rewrite Hs. apply made_write; [|done]. intros Heq. apply (f_equal length) in Heq.
    rewrite length_app in Heq. simpl in Heq. lia.
Qed.

Lemma holds_store_outcome o : holds framed_made (wio (store_outcome (dir ++ ["outcome.json"]) o)).
Proof.
  unfold store_outcome. destruct (outcome_to_vec o) as [b|]; [apply holds_write; set_solver|].
  apply (holds_ro _), ro_throw.
Qed.
#[local] Hint Extern 1 (holds _ (wio (atomic_write _ _))) => apply holds_write; set_solver : holds.
#[local] Hint Resolve holds_store_outcome : holds.

Lemma wwp_make_dir op w (Q : result unit BenchError -> world -> Prop) :
  framed w -> (forall e w', framed w' -> Q (Err e) w') -> (forall w', framed_made w' -> Q (Ok tt) w') ->
  wwp framed (wio (io_op op (sys_create_dir dir))) w Q.
Proof.
  intros Hi He Hok. apply wwp_wio. pose proof (quiet_turn w Hi) as Ht. pose proof (quiet_syscall framed w Hi) as Hst.
  destruct Ht as [[A B] C].
  assert (Hres : resolve_parent (w_nodes (env_turn w)) dir = Some dir) by apply resolve_parent_plain, dir_path_plain, B.
  apply iwp_sys; [by intros e _; split; [|apply He]| |]; intros x s' Hs; cbn [io_nodes io_step] in Hs;
    rewrite Hres in Hs; unfold runtime_dir in Hs; rewrite at_path_snoc, removelast_last in Hs;
    destruct (w_nodes (env_turn w) !! _) as [nd|] eqn:El;
    try (destruct (at_path (w_nodes (env_turn w)) d) as [[]|]); simplify_eq;
    try (by split; [|apply He]).
  set (w1 := set_wio _ _).
  assert (Hf : framed_made w1); [|split; [apply Hf|by apply Hok]].
  split; [split; [split|]|]; cbn [w1 w_io set_wio io_set io_nodes io_step io_proc].
  - done.
  - by apply (home_made (mkCoordinate d id [] [] [] 0 0 0 None false)).
  - intros q Hq. rewrite lookup_insert_ne; [by apply C|]. intros Heq. apply (ap_outside Hap q Hq). rewrite <- Heq. done.
  - eexists _, _. apply lookup_insert_eq.
Qed.

Lemma holds_seam r : holds framed_made (outcome_ready_seam r).
Proof.
  intros w Hw. apply wwp_bind. split; [done|]. cbn [fst snd wget]. pose proof Hw as [[[-> _] _] _].
  rewrite (ap_seam Hap). by apply wwp_ret.
Qed.
#[local] Hint Resolve holds_seam : holds.

(** Whatever happens, the coordinator only touches its runtime directory. *)
Lemma coordinate_framed r fuel w :
  cr_state_root r = d -> cr_operation_id r = id -> framed w -> framed (coordinate fuel r w).2.
Proof.
  intros Hd Hid Hw. assert (Hc : wwp framed (coordinate fuel r) w (fun _ _ => True)); [|apply Hc].
  unfold coordinate. rewrite Hd, Hid. apply wwp_bind, wwp_make_dir; [done|done|]. intros w1 H1.
  apply (wwp_within framed_made); [by intros v []|].
  refine ((_ : holds framed_made _) w1 H1). unfold drain_and_reap.
  apply holds_bind; [by apply holds_wget|]. intros pid.
  apply holds_bind; [apply holds_ro; [exact _|by apply ro_sys]|]. holds_tac.
Qed.

(** *** The law *)

Lemma home_benign ns ns' :
  benign ns ns' -> ns' !! dir = ns !! dir -> home d id ns -> home d id ns'.
Proof.
  intros Hb Hd Hh.
  assert (Hreg : forall p, regular ns p -> regular ns' p).
  { intros p Hp n Hn. destruct (Hb p) as [E|[_ (c & u & m & E)]]; [apply Hp; congruence|].
    exists c, u, m. congruence. }
  split; [|apply Hh|by apply Hreg, Hh|intros n Hn; by apply Hreg, Hh|rewrite Hd; apply Hh].
  intros q c x Hq. destruct (home_root _ _ _ Hh q c x Hq) as (Hc & u & m & Hl). split; [done|]. exists u, m.
  destruct (Hb (q ++ [c])) as [->|[N _]]; [done|]. by destruct (N u m).
Qed.

Lemma home_removed ns : home d id ns -> home d id (filter (fun kv : path * node => ~ dir `prefix_of` kv.1) ns).
Proof.
  intros Hh. set (ns' := filter _ ns).
  assert (Hsub : forall p n, ns' !! p = Some n -> ns !! p = Some n) by (intros p n; by intros [? _]%map_lookup_filter_Some).
  split; [|apply Hh| | |].
  - intros q c x Hq. destruct (home_root _ _ _ Hh q c x Hq) as (Hc & u & m & Hl). split; [done|]. exists u, m.
    apply map_lookup_filter_Some. split; [done|]. intros Hpre. apply prefix_length in Hpre. apply (f_equal length) in Hq.
    unfold runtime_dir in Hpre. cbn [fst] in Hpre. rewrite !length_app in *. simpl in *. lia.
  - intros n Hn. by apply (home_lock _ _ _ Hh), Hsub.
  - intros x Hx n Hn. by apply (home_files _ _ _ Hh x Hx), Hsub.
  - intros n Hn. by apply (home_dir _ _ _ Hh), Hsub.
Qed.

Lemma cleanup_framed : frames P supervised (cleanup_runtime d id).
Proof.
  intros s [Hp Hh].
  apply (iwp_elim (cleanup_runtime d id) s (fun _ s' => supervised s' /\ forall q, P q -> io_nodes s' !! q = io_nodes s !! q)).
  unfold cleanup_runtime. apply iwp_bind. eapply iwp_mono; [apply (ro_iwp _ s), ro_exists|].
  intros [x|e] s1 [Hk Hn]; [|split; [split; [by rewrite (kept_proc _ _ Hk)|by rewrite Hn]|by rewrite Hn]].
  assert (H1 : supervised s1 /\ forall q, P q -> io_nodes s1 !! q = io_nodes s !! q).
  { split; [split; [by rewrite (kept_proc _ _ Hk)|by rewrite Hn]|by rewrite Hn]. }
  destruct x; [|exact H1]. apply iwp_sys; [done| |]; intros y s2 Hs; cbn [io_nodes io_step] in Hs;
    unfold runtime_dir in Hs; rewrite resolve_parent_plain in Hs by (apply dir_path_plain; rewrite Hn; apply Hh);
    rewrite at_path_snoc in Hs; destruct (io_nodes s1 !! _) as [[]|]; simplify_eq; try done.
  destruct H1 as [[A B] C]. split; [split; [done|by apply home_removed]|]. intros q Hq. cbn [io_nodes io_set].
  rewrite map_lookup_filter. rewrite C by done. destruct (io_nodes s !! q) as [n|]; [|done]. cbn.
  rewrite option_guard_True; [done|]. by apply (ap_outside Hap).
Qed.
End frame.

Lemma ro_recover_outcome `{SupervisionSerde} root id : ro (recover_outcome root id).
Proof.
  unfold recover_outcome. apply ro_bind; [apply ro_exists|]. intros []; [ro_tac|].
  apply ro_bind; [apply ro_read_status|]. intros o. apply ro_ret.
Qed.

(** supervision.rs keeps the promise that a run needs. *)
Lemma supervision_frame `{Environment} `{SupervisionSerde} (fuel : nat) (launch : iost -> world) d id P me :
  apart d id P me -> @SupervisionFrame (supervision_ops fuel launch) P (supervised d id me) d id.
Proof.
  intros Hap. split.
  - intros s s' [A B] Hk Hb Hq. split; [by rewrite (kept_proc _ _ Hk)|]. apply (home_benign d id (io_nodes s)); [done| |done].
    apply Hq. intros Hp. by apply (ap_outside _ _ _ _ Hap _ Hp).
  - intros r Hd Hid s Hs. set (w0 := set_wio s (launch s)).
    assert (Hw : framed d id P me (io_nodes s) w0) by (by split).
    pose proof (coordinate_framed d id P me Hap (io_nodes s) r fuel w0 Hd Hid Hw) as [Hg Hq].
    cbn [Cpuidle.coordinate supervision_ops]. unfold run_world. fold w0.
    by destruct (coordinate fuel r w0) as [[res|] w'].
  - intros s [A B]. cbn [Cpuidle.recover_outcome supervision_ops].
    destruct (ro_recover_outcome d id s) as [Hk Hn]. unfold supervised. by rewrite Hn, (kept_proc _ _ Hk).
  - apply (cleanup_framed _ _ _ _ Hap).
Qed.

(** C4: A run with its real supervision cannot lose a changed value. With the coordinator, the recovery and the
    cleanup of supervision.rs in place of the interface, in an environment whose other actors (workload
    supervisor, guardian and workload among them) leave the journal and the sysfs files alone and the operation's
    directory in shape: whatever they do otherwise, in whatever order, and whichever system call fails, the
    run ends finished or with an unfinished journal on disk that records every value to restore and makes a
    later run fail; success means finished. *)
Theorem supervised_run_safe `{Environment} `{SupervisionSerde} `{SL : SerdeLaws} (fuel : nat) (launch : iost -> world)
    (d : path) (id : string) (es : list IdleEntry) (me : proc) (r : RunRequest path) (coordinator workload_actor : Actor)
    (ar ae : path) (watch : option Z) (j : Journal) (s : iost) :
  let jn := (id +:+ ".json")%string in
  apart d id (guarded d jn es) me -> supervised d id me s ->
  id <> EmptyString -> d ++ [jn] ∉ paths_of es -> rr_state_root r = d ->
  stage j <> Restored -> j_entries j = es -> j_operation_id j = id ->
  open_run d jn es (io_nodes s) ->
  let '(res, s') := @run_journaled _ (supervision_ops fuel launch) r (d ++ [jn]) id coordinator workload_actor ar ae
    watch j s in
  (res = Ok tt -> finished d jn es (io_nodes s')) /\
  (finished d jn es (io_nodes s') \/
   (open_run d jn es (io_nodes s') /\ forall t, io_nodes t = io_nodes s' -> no_faults t ->
      (forall l, io_order t l ≡ₚ l) -> exists e, (require_no_unfinished_journal d t).1 = Err e)) /\
  supervised d id me s'.
Proof.
  intros jn Hap Hsup Hid Hjp Hd Hst Hes Hop Hs.
  pose proof (supervision_frame fuel launch d id _ me Hap) as SF.
  destruct (settles_run_journaled (SF := SF) d id es (supervised d id me) r coordinator
    workload_actor ar ae watch j Hjp (open_bits _ _ _ _ Hs) Hd Hst Hes Hop s (conj Hsup Hs)) as [(Hg' & Hg & Hor) Hok].
  destruct (@run_journaled _ (supervision_ops fuel launch) _ _ _ _ _ _ _ _ _ s) as [res s']. cbn [fst snd] in *.
  split; [by intros ->; apply Hok|]. split; [|done]. destruct Hor as [Hu|Hf]; [right|by left].
  split; [by split|]. by apply (open_refused d id es).
Qed.

(** ** A run for the witness *)

(** Journals with no outcome or this one: a mark before the encoding of the rest *)
Definition with_outcome (o : option TerminalOutcome) (j : Journal) : Journal :=
  mkJournal (j_version j) (j_operation_id j) (j_request j) (j_request_hash j) (j_coordinator j)
    (j_boot_id j) (j_entries j) o (j_transitions j).
Definition outcome_serde (o : TerminalOutcome) : Serde := {|
  request_to_vec := @request_to_vec run_serde;
  journal_to_vec_pretty j :=
    (fun b => String (if bool_decide (j_outcome j = None) then "0" else "1") b) <$>
      (if bool_decide (j_outcome j = None \/ j_outcome j = Some o)
       then @journal_to_vec_pretty run_serde (with_outcome None j) else None);
  journal_from_slice s := match s with
    | String "0" b => with_outcome None <$> @journal_from_slice run_serde b
    | String "1" b => with_outcome (Some o) <$> @journal_from_slice run_serde b
    | _ => None
    end;
  sha256_hex s := s |}.
Lemma outcome_serde_laws o : @SerdeLaws (outcome_serde o).
Proof.
  split. cbn -[stage_serde]. intros j b Hb. apply fmap_Some in Hb as (b' & Hb & ->).
  case_bool_decide as Ho; [|done].
  pose proof (@journal_roundtrip run_serde (stage_serde_laws _ _ _) _ _ Hb) as Hr.
  destruct Ho as [Ho|Ho]; rewrite Ho; [rewrite bool_decide_true by done|rewrite bool_decide_false by done];
    rewrite Hr; cbn; unfold with_outcome; rewrite <- Ho; by destruct j.
Qed.
Definition outcome_sys (o : TerminalOutcome) : nodes :=
  io_nodes (@store_journal (outcome_serde o) ["run"; "x.json"]%string demo_run (calm demo_sys)).2.
Lemma outcome_open o : @open_run (outcome_serde o) ["run"] "x.json" demo_entries (outcome_sys o).
Proof.
  assert (Hh : journal_home demo_sys ["run"]%string "x.json").
  { apply run_home; [vm_compute; reflexivity|intros u m; vm_compute; discriminate]. }
  pose proof (iwp_elim _ _ _ (@store_cases (outcome_serde o) ["run"]%string "x.json" demo_run (calm demo_sys) Hh))
    as (_ & Hb & _ & Hst).
  split; [split|].
  - exact (journal_home_benign _ _ _ _ Hb Hh).
  - exact (entries_wf_benign _ _ _ Hb demo_wf).
  - exists demo_run. split; [|done]. apply Hst. by vm_compute.
Qed.


Abbreviation demo_ops := (@supervision_ops (children_turn false true) demo_supervision_serde 50
  (fun s => demo_world (io_nodes s) {[ 77 := mkProcess 77 1 None ]})).
Definition demo_supervised_run : result unit BenchError * iost :=
  @run_journaled (outcome_serde TO_Success) demo_ops demo_request_run ["run"; "x.json"] "x" (mkActor 0 0)
    (mkActor 1000 1000) ["run"; "x.receipt"] ["run"; "x.executable"] None demo_run (calm (outcome_sys TO_Success)).
Lemma demo_outside q : guarded ["run"] "x.json" demo_entries q -> ~ runtime_dir ["run"] "x" `prefix_of` q.
Proof.
  intros Hg Hp. assert (Hin : exists p, p ∈ ["run"; "x.json"] :: paths_of demo_entries /\ runtime_dir ["run"] "x" `prefix_of` p).
  { destruct Hg as [Hj|(e & He & Hq)]; [exists ["run"; "x.json"]|exists (ie_disable_path e)]; split.
    - apply list_elem_of_here.
    - by etrans.
    - apply list_elem_of_further. by apply list_elem_of_fmap_2.
    - by etrans. }
  assert (Hall : Forall (fun p => ~ runtime_dir ["run"] "x" `prefix_of` p) (["run"; "x.json"] :: paths_of demo_entries))
    by (apply (bool_decide_unpack _); vm_compute; exact I).
  destruct Hin as (p & Hp1 & Hp2). rewrite Forall_forall in Hall. by apply (Hall p Hp1).
Qed.

Lemma demo_apart :
  @apart (children_turn false true) ["run"] "x" (guarded ["run"] "x.json" demo_entries) demo_proc.
Proof.
  split; [apply demo_outside|..].
  - intros w q Hq. destruct (st_files _ _ _ (children_steps false true w)) as [->|(n & t & _ & -> & _)]; [done|].
    apply lookup_insert_ne. intros <-. apply (demo_outside _ Hq). by exists [n].
  - intros w Hh. destruct (st_files _ _ _ (children_steps false true w)) as [->|(n & t & Hn & -> & _)]; [done|].
    apply home_write; [|done]. left. exists n. split; [done|]. set_solver.
  - intros w _ Hm. destruct (st_files _ _ _ (children_steps false true w)) as [->|(n & t & _ & -> & _)]; [done|].
    apply made_write; [|done]. intros Heq. by apply (f_equal length) in Heq.
  - reflexivity.
Qed.

Lemma demo_supervised : supervised ["run"] "x" demo_proc (calm (outcome_sys TO_Success)).
Proof.
  split; [done|]. change (home ["run"] "x" (outcome_sys TO_Success)).
  assert (Hno : forall p, p ∈ map_to_list (outcome_sys TO_Success) -> (["run"; "x.runtime"] `prefix_of` p.1 -> False) /\
    p.1 <> ["run"; "active.lock"]).
  { apply Forall_forall. apply (bool_decide_unpack _). vm_compute. exact I. }
  assert (Habs : forall p, ["run"; "x.runtime"] `prefix_of` p \/ p = ["run"; "active.lock"] ->
    outcome_sys TO_Success !! p = None).
  { intros p Hp. destruct (outcome_sys TO_Success !! p) as [n|] eqn:E; [|done]. exfalso.
    apply elem_of_map_to_list in E. destruct (Hno _ E) as [H1 H2]. by destruct Hp as [Hp|Hp]; [apply H1|apply H2]. }
  split.
  - apply (dir_path_one _ "run" 0 448); [done|by vm_compute].
  - done.
  - intros n Hn. by rewrite Habs in Hn by (by right).
  - intros n _ x Hx. rewrite Habs in Hx; [done|]. left. by exists [n].
  - intros n Hn. rewrite Habs in Hn; [done|]. by left.
Qed.

(** The run succeeds, with the policy applied before the workload and every value back after it. *)
Lemma supervised_run_safe_witness :
  demo_supervised_run.1 = Ok tt /\
  @finished (outcome_serde TO_Success) ["run"] "x.json" demo_entries (io_nodes demo_supervised_run.2).
Proof.
  assert (Hr : demo_supervised_run.1 = Ok tt) by (vm_compute; reflexivity). split; [exact Hr|].
  assert (Hnot : ["run"; "x.json"]%string ∉ paths_of demo_entries)
    by (apply (bool_decide_unpack _); vm_compute; exact I).
  pose proof (@supervised_run_safe (children_turn false true) demo_supervision_serde (outcome_serde TO_Success)
    (outcome_serde_laws TO_Success) 50 (fun s => demo_world (io_nodes s) {[ 77 := mkProcess 77 1 None ]})
    ["run"] "x" demo_entries demo_proc demo_request_run (mkActor 0 0) (mkActor 1000 1000) ["run"; "x.receipt"]
    ["run"; "x.executable"] None demo_run (calm (outcome_sys TO_Success)) demo_apart demo_supervised
    ltac:(discriminate) Hnot eq_refl ltac:(vm_compute; discriminate) eq_refl eq_refl (outcome_open TO_Success)) as Hs.
  apply let_pair in Hs. exact (proj1 Hs Hr).
Defined.
