(* ===== verification/WorkloadProofs.v ===== *)
(** * What the workload supervisor guarantees (supervision::workload_supervisor)

    The proof pipe carries exactly the proof, however its writes are split, and the benchmark accepts it; the digest
    computed in chunks is the digest of the file; the only program started is the accepted one, with the
    accepted receipt, after the coordinator's authorization. *)

From stdpp Require Import pretty.
From Stdlib Require Import Ascii.
From S2P Require Import Prelude BenchFs Journal Receipt Process ProcessProofs Cpuidle CpuidleProofs.
From S2P Require Import ControlProof Supervision SupervisionProofs.
Open Scope Z_scope.

(** ** The proof pipe *)

Lemma after_drop k s : after k s = sdrop k s.
Proof. unfold after. rewrite substring_pieces. apply stake_all. by rewrite sdrop_length. Qed.
Section proof.
Context `{Environment} `{SupervisionSerde} `{PipeOs} (I : world -> Prop) `{!Quiet I}.

Lemma wwp_pipe_write s w (Q : result nat BenchError -> world -> Prop) :
  I w -> (forall e w', I w' -> Q (Err e) w') -> (forall k w', I w' -> Q (Ok k) w') -> wwp I (pipe_write s) w Q.
Proof.
  intros Hi He Hok. apply (wwp_pcall I); [done|by intros; apply He|]. intros w1 Hw1 _ _. split; [done|].
  intros k _. by apply Hok.
Qed.

(** Whatever lengths the pipe accepts, it holds everything when the loop ends. *)
Lemma wwp_write_all n written remaining w :
  I w -> wwp I (write_all n written remaining) w (fun r w' => forall p, r = Ok p -> p = written +:+ remaining).
Proof.
  revert written remaining w. induction n as [|n IH]; intros written remaining w Hi; [by split|]. cbn [write_all].
  case_bool_decide as Hr.
  - subst. apply wwp_ret; [done|]. intros p [= <-]. by rewrite string_nil_r.
  - apply wwp_bind, wwp_pipe_write; [done|done|]. intros k w1 Hw1.
    destruct (Nat.eqb_spec k 0); [by apply wwp_fail|].
    eapply wwp_mono; [by apply IH|]. intros r w' _ Hp p Hr'. rewrite (Hp p Hr'), string_app_assoc. f_equal.
    rewrite after_drop, substring_pieces. simpl. apply stake_sdrop.
Qed.

Lemma wwp_proof fuel op build w :
  I w -> wwp I (create_production_proof fuel op build) w (fun r w' => forall p, r = Ok p ->
    proof_to_vec "benchctl-production-control-v1" op build = Some p /\ pr_euid (io_proc (w_io w)) = 0).
Proof.
  intros Hi. unfold create_production_proof. apply wwp_bind. unfold wget. split; [done|]. cbn [fst snd].
  destruct (Z.eqb_spec (pr_euid (io_proc (w_io w))) 0) as [He|He]; cbn [negb]; [|by apply wwp_fail].
  apply wwp_bind, (wwp_ro I); [unfold require_host_root_mapping; ro_tac|done|]. intros s' _ Hs1.
  destruct (require_host_root_mapping _).1 as [[]|e]; [|done].
  destruct (proof_to_vec _ op build) as [proof|]; [|by apply wwp_fail].
  do 2 (apply wwp_bind, (wwp_pcall I); [done|done|]; intros ? ? _ _; split; [done|]; intros [] _).
  eapply wwp_mono; [by apply wwp_write_all|]. intros r w' _ Hp p Hr. by rewrite (Hp p Hr).
Qed.
End proof.

(** serde_json: parsing the object that was printed *)
Class ProofJson `{SupervisionSerde} `{JsonObject} := {
  proof_json v o b t : proof_to_vec v o b = Some t ->
    json_object t = Some (Some (<["version" := Some v]> (<["operation_id" := Some o]> {["build_id" := Some b]})));
}.

(** Benchctl's production proof is accepted, for its own operation and build only. However the
    pipe splits the writes, what create_production_proof leaves in it is accepted by the benchmark's
    check (given the root-owned pipe and the host's root mapping that check asks for) exactly for
    the operation and the build it was created for; and it is created by root only. *)
Theorem production_proof_accepted `{Environment} `{ProofJson} `{PipeOs} (fuel : nat) (op build p : string)
    (w w' : world) (pf : ProcFs) (fd : Z) (m : string) :
  create_production_proof fuel op build w = (Some (Ok p), w') ->
  3 <= fd <= 2147483647 -> pf_metadata pf fd = Ok (0, true) ->
  pf_uid_map pf = Ok m -> maps_namespace_root_to_host_root m = true -> pf_read pf fd = Ok p ->
  pr_euid (io_proc (w_io w)) = 0 /\
  forall op' build', validate_descriptor pf fd op' build' = Ok tt <-> op' = op /\ build' = build.
Proof.
  intros Hc Hfd Hmd Hmap Hroot Hread.
  destruct (wwp_elim _ _ _ _ _ _ (wwp_proof (fun _ => True) fuel op build w I) Hc) as [_ Hq].
  destruct (Hq p eq_refl) as [Hp He]. split; [done|]. intros op' build'.
  rewrite validate_descriptor_ok. unfold proof_accepts. pose proof (proof_json _ _ _ _ Hp) as Hj.
  split.
  - intros (_ & _ & _ & text & fields & Ht & Hf & _ & Ho & Hb). rewrite Hread in Ht. injection Ht as <-.
    rewrite Hj in Hf. injection Hf as <-. rewrite lookup_insert_ne, lookup_insert_eq in Ho by done.
    rewrite !lookup_insert_ne, lookup_singleton_eq in Hb by done. by simplify_eq.
  - intros [-> ->]. split; [done|]. split; [done|]. split; [by exists m|].
    eexists p, _. split; [done|]. split; [exact Hj|]. rewrite lookup_insert_eq. split; [done|].
    rewrite lookup_insert_ne, lookup_insert_eq by done. split; [done|].
    by rewrite !lookup_insert_ne, lookup_singleton_eq by done.
Qed.

(** An encoding for the witness: a mark before each character, another one after each field. *)
Fixpoint enc (s rest : string) : string :=
  match s with EmptyString => String "." rest | String c r => String "x" (String c (enc r rest)) end.
Fixpoint dec (t : string) : option (string * string) :=
  match t with
  | String "." rest => Some (EmptyString, rest)
  | String "x" (String c r) => '(s, rest) ← dec r; Some (String c s, rest)
  | _ => None
  end.
Lemma dec_enc s rest : dec (enc s rest) = Some (s, rest).
Proof. induction s as [|c s IH]; [done|]. simpl. by rewrite IH. Qed.

Definition encoding : SupervisionSerde := {|
  receipt_to_string _ := Some "receipt";
  status_to_vec _ := Some "ok";
  status_from_slice _ := Some (mkStatus true (Some 0) None);
  outcome_to_vec _ := None;
  outcome_from_slice _ := None;
  proof_to_vec v o b := Some (enc v (enc o (enc b EmptyString))) |}.
Definition decoding : JsonObject := fun t =>
  '(v, t) ← dec t; '(o, t) ← dec t; '(b, _) ← dec t;
  Some (Some (<["version" := Some v]> (<["operation_id" := Some o]> {["build_id" := Some b]}))).
Lemma decoding_law : @ProofJson encoding decoding.
Proof. split. intros v o b t [= <-]. unfold json_object, decoding. by rewrite dec_enc; simpl; rewrite dec_enc; simpl; rewrite dec_enc. Qed.

(** A pipe that takes three bytes at a time, and a process on the host. *)
Definition idle : Environment := fun _ w => mkEffect (w_nodes w) (w_procs w) (w_locks w) (w_flag w) (w_pid w) 1.
Definition host_map : string := uid_map_text [(0%N, 0%N, 4294967295%N)].
Definition host_world : world :=
  demo_world {[ ["proc"] := Dir 0 365; ["proc"; "self"] := Dir 0 365;
                ["proc"; "self"; "uid_map"] := File host_map 0 292 ]} ∅.
Definition read_by_workload (p : string) : ProcFs :=
  mkProcFs ∅ (fun _ => Ok (0, true)) (Ok host_map) (fun _ => Ok p).

Lemma production_proof_accepted_witness :
  exists p, (@create_production_proof idle 40 encoding (fun _ => 3%nat) "op" "build" host_world).1 = Some (Ok p) /\
    @validate_descriptor decoding (read_by_workload p) 5 "op" "build" = Ok tt /\
    @validate_descriptor decoding (read_by_workload p) 5 "op" "other" <> Ok tt.
Proof.
  assert (Hr : (@create_production_proof idle 40 encoding (fun _ => 3%nat) "op" "build" host_world).1
    = Some (Ok (enc "benchctl-production-control-v1" (enc "op" (enc "build" EmptyString))))) by (by vm_compute).
  revert Hr. generalize (enc "benchctl-production-control-v1" (enc "op" (enc "build" EmptyString))). intros p Hr.
  exists p. split; [exact Hr|].
  assert (Hm : maps_namespace_root_to_host_root host_map = true) by (by vm_compute).
  assert (E : @create_production_proof idle 40 encoding (fun _ => 3%nat) "op" "build" host_world
    = (Some (Ok p), (@create_production_proof idle 40 encoding (fun _ => 3%nat) "op" "build" host_world).2)).
  { rewrite <- Hr. apply surjective_pairing. }
  assert (Hfd : 3 <= 5 <= 2147483647) by lia.
  pose proof (@production_proof_accepted idle encoding decoding decoding_law (fun _ => 3%nat) 40 "op" "build" p
    host_world _ (read_by_workload p) 5 host_map E Hfd eq_refl eq_refl Hm eq_refl) as [_ Ha].
  clear E Hr. split; [exact (proj2 (Ha "op" "build") (conj eq_refl eq_refl))|].
  intros Hb. destruct (proj1 (Ha "op" "other") Hb) as [_ Hd]. discriminate Hd.
Defined.

(** ** The program that is started *)

Section supervised.
Context `{Environment} `{SupervisionSerde} `{Serde} `{ReceiptSerde} `{PipeOs}.
Context (r : SupervisorRequest) (text bytes : string) (exe : path) (p0 : proc).

(** The accepted receipt and the accepted executable, as they lie on disk. *)
Record snapshots (w : world) : Prop := mkSnapshots {
  sn_receipt : content (w_nodes w) (sr_receipt r) = Some text;
  sn_name : resolve_parent (w_nodes w) (sr_executable r) = Some exe;
  sn_file : exists u m, at_path (w_nodes w) exe = Some (File bytes u m);
  sn_proc : io_proc (w_io w) = p0;
}.

Context (Hrely : forall w, snapshots w -> snapshots (env_turn w)).

Lemma snapshots_same s w : snapshots w -> same (w_io w) s -> snapshots (set_wio s w).
Proof.
  intros [A B C D] [K E]. split; cbn [w_io set_wio]; rewrite ?E; try done. by rewrite (kept_proc _ _ K).
Qed.
#[local] Instance quiet_snapshots : Quiet snapshots.
Proof.
  split; [done| | |].
  - intros t w [A B C D] _. by split.
  - intros s w. apply snapshots_same.
  - intros pid st w [A B C D]. by split.
Qed.
#[local] Instance quiet_log l : Quiet (fun w => w_log w = l).
Proof. by split. Qed.

Lemma pread_spec off op s :
  (exists u m, at_path (io_nodes s) exe = Some (File bytes u m)) ->
  iwp (io_op op (sys_pread exe off READ_BUFFER)) s (fun res s' => same s s' /\
    (forall c, res = Ok c -> c = stake READ_BUFFER (sdrop off bytes)) /\ (no_faults s -> exists c, res = Ok c)).
Proof.
  intros (u & m & Hn). apply iwp_sys.
  - intros e Hf. split; [apply same_step|]. split; [done|]. intros Hnf. by rewrite Hnf in Hf.
  - intros c s' Hc. cbn [io_nodes io_step] in Hc. rewrite Hn in Hc. injection Hc as <- <-.
    split; [apply same_step|]. split; [|by eexists]. intros c [= <-]. apply substring_pieces.
  - intros e s' He. cbn [io_nodes io_step] in He. by rewrite Hn in He.
Qed.

(** One read of the loop. *)
Lemma wwp_pread I `{!Quiet I} off w (Q : result string BenchError -> world -> Prop) :
  (forall w, I w -> snapshots w) -> I w ->
  (forall e w', I w' -> ~ no_faults (w_io w) -> Q (Err e) w') ->
  (forall w', I w' -> kept (w_io (env_turn w)) (w_io w') -> Q (Ok (stake READ_BUFFER (sdrop off bytes))) w') ->
  wwp I (wio (io_op "digesting accepted executable snapshot" (sys_pread exe off READ_BUFFER))) w Q.
Proof.
  intros HI Hi He Hok. pose proof (quiet_turn w Hi) as Ht. destruct (HI _ Ht) as [_ _ Hf _].
  apply wwp_wio. eapply iwp_mono; [by apply pread_spec|]. intros res s' (Hs & Hc & Hnf).
  assert (Hi' : I (set_wio s' (env_turn w))) by by apply quiet_io. split; [done|].
  destruct res as [c|e]; [rewrite (Hc c eq_refl); apply Hok; [done|apply Hs]|].
  apply He; [done|]. intros Hn. by destruct (Hnf (turn_faults w Hn)).
Qed.

Lemma chunk_empty off : stake READ_BUFFER (sdrop off bytes) = EmptyString -> sdrop off bytes = EmptyString.
Proof. apply stake_nil. unfold READ_BUFFER. lia. Qed.
Lemma chunk_rest off acc :
  (acc +:+ stake READ_BUFFER (sdrop off bytes)) +:+
    sdrop (off + String.length (stake READ_BUFFER (sdrop off bytes))) bytes = acc +:+ sdrop off bytes.
Proof. rewrite string_app_assoc. f_equal. rewrite <- sdrop_sdrop, sdrop_stake_length. apply stake_sdrop. Qed.

(** Read in pieces, the bytes are those of the file. *)
Lemma wwp_read_all I `{!Quiet I} n off acc w :
  (forall w, I w -> snapshots w) -> I w ->
  wwp I (read_all n exe off acc) w (fun res _ => forall b, res = Ok b -> b = acc +:+ sdrop off bytes).
Proof.
  intros HI. revert off acc w. induction n as [|n IH]; intros off acc w Hi; [by split|]. cbn [read_all].
  apply wwp_bind, (wwp_pread I); [done|done|done|]. intros w1 Hw1 _. case_bool_decide as Hc.
  - apply wwp_ret; [done|]. intros b [= <-]. by rewrite (chunk_empty off Hc), string_nil_r.
  - eapply wwp_mono; [by apply IH|]. intros res w' _ Hres b Hb. by rewrite (Hres b Hb), chunk_rest.
Qed.

Lemma wwp_open_nofollow I `{!Quiet I} w (Q : result (path * node) BenchError -> world -> Prop) :
  (forall w, I w -> snapshots w) -> I w ->
  (forall e w', I w' -> ~ no_faults (w_io w) -> Q (Err e) w') ->
  (forall u m w', I w' -> kept (w_io (env_turn w)) (w_io w') -> Q (Ok (exe, File bytes u m)) w') ->
  wwp I (wio (io_op "opening accepted executable snapshot" (sys_open_nofollow (sr_executable r)))) w Q.
Proof.
  intros HI Hi He Hok. pose proof (quiet_turn w Hi) as Ht. destruct (HI _ Ht) as [_ Hn (u & m & Hf) _].
  apply wwp_wio. assert (Hi' : forall s', same (w_io (env_turn w)) s' -> I (set_wio s' (env_turn w)))
    by (intros; by apply quiet_io).
  apply iwp_sys.
  - intros e Hfault. split; [apply Hi', same_step|]. apply He; [apply Hi', same_step|].
    intros Hno. pose proof (turn_faults w Hno) as Hno'. by rewrite Hno' in Hfault.
  - intros [q n] s' Hc. cbn [io_nodes io_step] in Hc. rewrite Hn, Hf in Hc. injection Hc as <- <- <-.
    split; [apply Hi', same_step|]. apply Hok; [apply Hi', same_step|apply same_step].
  - intros e s' Hc. cbn [io_nodes io_step] in Hc. by rewrite Hn, Hf in Hc.
Qed.

(** The executable that passes has the digest of the receipt. *)
Lemma wwp_open_verified I `{!Quiet I} fuel digest w :
  (forall w, I w -> snapshots w) -> I w ->
  wwp I (open_verified_executable fuel (sr_executable r) digest) w (fun res _ =>
    forall q, res = Ok q -> q = exe /\ hex_digest bytes = digest).
Proof.
  intros HI Hi. unfold open_verified_executable. apply wwp_bind, (wwp_open_nofollow I); [done|done|done|].
  intros u m w1 Hw1 _. apply wwp_bind, (wwp_fd_call I); [done|done|]. intros w2 Hw2 _.
  apply wwp_bind. eapply wwp_mono; [by apply (wwp_read_all I)|]. intros [b|e] w3 Hw3 Hb; [|done].
  rewrite (Hb b eq_refl). cbn [sdrop]. change (EmptyString +:+ bytes) with bytes.
  case_bool_decide as Hd; cbn [negb]; [|by apply wwp_fail].
  apply wwp_bind, (wwp_fd_call I); [done|done|]. intros w4 Hw4 _.
  apply wwp_bind, (wwp_fd_call I); [done|done|]. intros w5 Hw5 _. apply wwp_ret; [done|]. by intros q [= <-].
Qed.

(** Without faults and with fuel for the file's length, the verdict is that of one digest of the whole file. *)
#[local] Instance quiet_steady : Quiet (fun w => snapshots w /\ calm_world w).
Proof. apply quiet_and; [apply quiet_snapshots|apply quiet_calm]. Qed.
Abbreviation steady := (fun w => snapshots w /\ calm_world w).

Lemma read_all_total k off acc w :
  steady w -> (String.length (sdrop off bytes) <= k * READ_BUFFER)%nat ->
  twp steady (read_all (S k) exe off acc) w (fun res _ => res = Ok (acc +:+ sdrop off bytes)).
Proof.
  assert (HI : forall w, steady w -> snapshots w) by tauto.
  revert off acc w. induction k as [|k IH]; intros off acc w Hw Hl; cbn [read_all]; apply twp_bind;
    (split; [|apply returns_act]); (apply (wwp_pread steady); [done|done|by intros ? ? _ Hn; destruct Hn; apply Hw|]);
    intros w1 Hw1 _; case_bool_decide as Hc;
    try (apply twp_ret; [done|]; by rewrite (chunk_empty off Hc), string_nil_r).
  - destruct Hc. destruct (sdrop off bytes); [by destruct READ_BUFFER|simpl in Hl; lia].
  - eapply twp_mono; [apply IH; [done|]|].
    + rewrite <- sdrop_sdrop, sdrop_length, stake_length. lia.
    + cbv beta. intros res w' _ ->. by rewrite chunk_rest.
Qed.

Lemma open_verified_total fuel digest w :
  steady w -> (String.length bytes <= fuel * READ_BUFFER)%nat ->
  twp steady (open_verified_executable (S fuel) (sr_executable r) digest) w (fun res _ =>
    res = if bool_decide (hex_digest bytes = digest) then Ok exe
          else Err (Preflight "accepted executable snapshot digest no longer matches")).
Proof.
  assert (HI : forall w, steady w -> snapshots w) by tauto.
  intros Hw Hl. unfold open_verified_executable. apply twp_bind. split; [|apply returns_act].
  apply (wwp_open_nofollow steady); [done|done|by intros ? ? _ Hn; destruct Hn; apply Hw|].
  intros u m w1 Hw1 _. cbn [negb]. apply twp_bind. split; [|apply returns_act].
  apply (wwp_fd_call steady); [done|by intros ? ? _ Hn; destruct Hn; apply Hw1|]. intros w2 Hw2 _.
  apply twp_bind. eapply twp_mono; [by apply (read_all_total fuel)|]. cbv beta. intros res w3 Hw3 ->.
  cbn [sdrop]. change (EmptyString +:+ bytes) with bytes.
  case_bool_decide as Hd; cbn [negb]; [|by split; [apply wwp_fail|]].
  apply twp_bind. split; [|apply returns_act].
  apply (wwp_fd_call steady); [done|by intros ? ? _ Hn; destruct Hn; apply Hw3|]. intros w4 Hw4 _.
  apply twp_bind. split; [|apply returns_act].
  apply (wwp_fd_call steady); [done|by intros ? ? _ Hn; destruct Hn; apply Hw4|]. intros w5 Hw5 _.
  by apply twp_ret.
Qed.

(** The receipt passed the identity checks. *)
Definition sealed (rc : BuildReceipt) : Prop :=
  br_version rc = RECEIPT_VERSION /\ br_source_clean rc = true /\ identity_invalid rc = false /\
  identity_digest rc = Ok (br_build_id rc).
Definition authorized (e : exec) : Prop :=
  exists rc json, receipt_from_slice text = Some rc /\ sealed rc /\ receipt_to_string rc = Some json /\
    ex_program e = exe /\ hex_digest bytes = br_executable_sha256 rc /\
    ex_args e = sr_workload r /\ ex_uid e = sr_uid r /\ ex_gid e = sr_gid r /\
    ex_env e = workload_env (pr_env p0) json (sr_operation_id r) (sr_production_control r) /\
    if sr_production_control r
    then pr_euid p0 = 0 /\ exists p, ex_proof e = Some p /\
           proof_to_vec "benchctl-production-control-v1" (sr_operation_id r) (br_build_id rc) = Some p
    else ex_proof e = None.

Context (l0 : list event).
Definition at_most_one (w : world) : Prop :=
  w_log w = l0 \/ exists pid e, w_log w = EvExec pid e :: l0 /\ authorized e.
Abbreviation before := (fun w => snapshots w /\ w_log w = l0).
#[local] Instance quiet_before : Quiet before.
Proof. apply quiet_and; [apply quiet_snapshots|apply quiet_log]. Qed.
#[local] Instance quiet_one : Quiet at_most_one.
Proof. by split. Qed.

Lemma before_one w : before w -> at_most_one w.
Proof. intros [_ Hl]. by left. Qed.

Lemma load_accepted_spec p s :
  iwp (load_accepted p) s (fun res s' => same s s' /\ forall rc, res = Ok rc ->
    exists t, content (io_nodes s) p = Some t /\ receipt_from_slice t = Some rc /\ sealed rc).
Proof.
  apply iwp_bind. eapply iwp_mono; [apply read_content|]. intros [b|e] s1 [Hs1 Hc]; [|by split].
  destruct (receipt_from_slice b) as [rc|] eqn:Eb; [|by split].
  apply iwp_bind. eapply iwp_mono; [apply verify_identity_spec|].
  intros [[]|e] s2 [Hs2 Hv]; pose proof (same_trans _ _ _ Hs1 Hs2) as Hs12; [|by split].
  unfold iwp. simpl. split; [done|]. intros rc' [= <-]. destruct (Hv eq_refl) as (A & B & C & _ & D).
  exists b. by split; [apply Hc|].
Qed.

Lemma wwp_wait_for_go I `{!Quiet I} fuel started w :
  I w -> wwp I (wait_for_go fuel (sr_go r) (sr_coordinator_pid r) started) w (fun _ _ => True).
Proof.
  intros Hi. apply (wwp_repeat I I); [done|done|]. clear w Hi. intros w Hi.
  apply wwp_bind, (wwp_exists I); [done|]. intros [] w1 Hw1 _; [by apply wwp_ret|].
  apply wwp_bind, (wwp_elapsed I); [done|]. intros w2 Hw2 _.
  apply wwp_bind, (wwp_mono I) with (Q := fun _ _ => True).
  { destruct (_ <=? _); [by apply wwp_ret|]. apply wwp_act; [by apply quiet_turn|done]. }
  intros [[]|e] w3 Hw3 _; [|by apply wwp_fail|done].
  apply wwp_bind, (wwp_sleep I); [lia|done|]. intros w4 Hw4 _. by apply wwp_ret.
Qed.

Lemma wwp_run_workload fuel e w :
  before w -> authorized e -> wwp at_most_one (run_workload fuel e) w (fun _ _ => True).
Proof.
  intros Hb Ha. apply wwp_bind, (wwp_pcall at_most_one); [by apply before_one|done|].
  intros w1 Hw1 _ E. assert (Hl : w_log w1 = l0) by (rewrite E; apply Hb).
  cbv zeta. destruct (bool_decide (w_procs w1 !! w_pid w1 = None) && (0 <? w_pid w1)); cbn [fst snd]; [|by split].
  split; [right; exists (w_pid w1), e; cbn; by rewrite Hl|]. intros pid _.
  apply (wwp_wait_child at_most_one); [|done..]. right. exists (w_pid w1), e. cbn. by rewrite Hl.
Qed.

Lemma wwp_supervisor fuel w :
  before w -> wwp at_most_one (workload_supervisor fuel r) w (fun _ _ => True).
Proof.
  intros Hb. pose proof before_one as Hbo. unfold workload_supervisor.
  destruct (_ <? _); [apply wwp_fail; [by apply before_one|done]|].
  assert (Hpre : forall A (m : W A) w (Q : result A BenchError -> world -> Prop),
    wwp before m w Q -> wwp at_most_one m w (fun res w' => before w' /\ Q res w')).
  { intros A m v Q Hm. eapply wwp_impl; [exact Hm|done|]. by intros. }
  apply wwp_bind. eapply wwp_mono; [by apply (Hpre _ _ _ (fun _ _ => True)), (wwp_now before)|].
  intros [started|e] w1 _ [Hb1 _]; [|done].
  apply wwp_bind. eapply wwp_mono; [by apply (Hpre _ _ _ (fun _ _ => True)), (wwp_wait_for_go before)|]. intros [[]|e] w2 _ [Hb2 _]; [|done].
  apply wwp_bind. eapply wwp_mono.
  { apply (Hpre _ _ _ (fun res _ => forall rc, res = Ok rc -> receipt_from_slice text = Some rc /\ sealed rc)),
      (wwp_wio before). pose proof (quiet_turn w2 Hb2) as Ht.
    eapply iwp_mono; [apply load_accepted_spec|]. intros res s' [Hs Hrc]. split; [by apply (quiet_io (I := before))|].
    intros rc Hr. destruct (Hrc rc Hr) as (t & Hct & Hx). rewrite (sn_receipt _ (proj1 Ht)) in Hct.
    by injection Hct as <-. }
  intros [rc|e] w3 _ [Hb3 Hrc]; [|done]. destruct (Hrc rc eq_refl) as [Ert Hsealed].
  destruct (receipt_to_string rc) as [json|] eqn:Ej; [|apply wwp_fail; [by apply Hbo|done]].
  apply wwp_bind. eapply wwp_mono.
  { apply (Hpre _ _ _ (fun res _ => forall o, res = Ok o -> if sr_production_control r
      then pr_euid p0 = 0 /\ exists p, o = Some p /\
        proof_to_vec "benchctl-production-control-v1" (sr_operation_id r) (br_build_id rc) = Some p
      else o = None)).
    destruct (sr_production_control r); [|by apply wwp_ret; [|intros o [= <-]]].
    apply wwp_bind. eapply wwp_mono; [by apply (wwp_proof before)|]. intros [p|e] w' Hw' Hp; [|done].
    apply wwp_ret; [done|]. intros o [= <-]. destruct (Hp p eq_refl) as [A B].
    rewrite (sn_proc _ (proj1 Hb3)) in B. split; [done|]. by exists p. }
  intros [o|e] w4 _ [Hb4 Ho]; [|done]. specialize (Ho o eq_refl).
  apply wwp_bind. eapply wwp_mono; [eapply Hpre, (wwp_open_verified before); [by intros ? []|done]|].
  intros [q|e] w5 _ [Hb5 Hq]; [|done]. destruct (Hq q eq_refl) as [-> Hdigest].
  apply wwp_bind. unfold wget. split; [by apply Hbo|]. cbn [fst snd].
  apply wwp_bind. eapply wwp_mono; [apply wwp_run_workload; [done|]|].
  { exists rc, json. rewrite (sn_proc _ (proj1 Hb5)). cbn. do 8 (split; [done|]). split.
    - destruct (sr_production_control r); [destruct Ho as (_ & p & -> & _)|subst o]; done.
    - destruct (sr_production_control r); done. }
  intros [st|e] w6 Hw6 _; [|done]. destruct (status_to_vec _); [|by apply wwp_fail].
  apply wwp_bind, wwp_wio. unfold iwp. split; [done|]. by destruct (atomic_write _ _ _).1 as [[]|].
Qed.

(** Nobody writes the authorization. *)
Lemma wwp_unauthorized fuel w :
  (forall w, stat (w_nodes w) (sr_go r) = None -> stat (w_nodes (env_turn w)) (sr_go r) = None) ->
  stat (w_nodes w) (sr_go r) = None -> w_log w = l0 ->
  wwp (fun w => w_log w = l0) (workload_supervisor fuel r) w (fun _ _ => True).
Proof.
  intros Hno Hgo Hl. unfold workload_supervisor. destruct (_ <? _); [by apply wwp_fail|].
  set (I := fun w => stat (w_nodes w) (sr_go r) = None /\ w_log w = l0).
  assert (HQ : Quiet I).
  { split; [intros w1 [A B]; by split; [apply Hno|]|by intros|intros s w1 [A B] [_ E]; split; [|done]; cbn; by rewrite E|].
    by intros ? ? w1 [A B]. }
  apply (wwp_impl I) with (Q := fun _ _ => True); [|by intros ? []|done].
  apply wwp_bind, (wwp_now I); [done|]. intros wa Hwa _. apply wwp_bind.
  apply (wwp_mono I) with (Q := fun res _ => res <> Ok tt); [|by intros [[]|] ? ? ?].
  apply (wwp_repeat I I); [done|done|]. intros v Hi.
  apply wwp_bind, (wwp_exists I); [done|]. intros [] v1 Hw1 Hx.
  { destruct (Hx eq_refl) as [n Hn]. by rewrite (proj1 Hw1) in Hn. }
  apply wwp_bind, (wwp_elapsed I); [done|]. intros v2 Hw2 _.
  apply wwp_bind, (wwp_mono I) with (Q := fun _ _ => True).
  { destruct (_ <=? _); [by apply wwp_ret|]. apply wwp_act; [by apply quiet_turn|done]. }
  intros [[]|e] v3 Hw3 _; [|by apply wwp_fail|done].
  apply wwp_bind, (wwp_sleep I); [lia|done|]. intros v4 Hw4 _. by apply wwp_ret.
Qed.
End supervised.


(** Reading in pieces does not change the verdict. On a stable regular file and without faults,
    opening the executable for execution, which reads it in blocks of 64 KiB from the descriptor
    that is executed later, accepts exactly when the SHA-256 of the whole file is the expected one, as
    a digest of the file at once would, and fails with the digest message otherwise; one read more than the
    file has blocks is enough. *)
Theorem chunked_digest_equivalent `{Environment} `{Serde} (fuel : nat) (r : SupervisorRequest)
    (text bytes : string) (exe : path) (digest : string) (w : world) :
  (forall w', snapshots r text bytes exe (io_proc (w_io w)) w' ->
     snapshots r text bytes exe (io_proc (w_io w)) (env_turn w')) ->
  snapshots r text bytes exe (io_proc (w_io w)) w -> no_faults (w_io w) ->
  (String.length bytes <= fuel * READ_BUFFER)%nat ->
  exists w', open_verified_executable (S fuel) (sr_executable r) digest w =
    (Some (if bool_decide (hex_digest bytes = digest) then Ok exe
           else Err (Preflight "accepted executable snapshot digest no longer matches")), w').
Proof.
  intros Hrely Hs Hnf Hl.
  destruct (twp_run _ _ _ _ (open_verified_total r text bytes exe (io_proc (w_io w)) Hrely fuel digest w (conj Hs Hnf) Hl))
    as (res & w' & E & _ & ->). by exists w'.
Qed.

(** ** A run for the witnesses *)

(** The coordinator has authorized the run; the workload, once started, succeeds. *)
Definition exiting : Environment := fun _ w =>
  mkEffect (w_nodes w) ((fun p => if ps_parent p =? 77 then mkProcess (ps_group p) 77 (Some (Exited 0)) else p) <$> w_procs w)
    (w_locks w) (w_flag w) (w_pid w) 1.
Definition demo_supervisor : SupervisorRequest :=
  mkSupervisor ["run"; "go"] ["run"; "status.json"] ["run"; "x.receipt"] ["run"; "x.executable"] "op" 50 1000 1000
    ["--bench"] false.
Definition accepted_nodes : nodes :=
  <[ ["run"; "go"] := File "go" 0 384 ]> (<[ ["run"; "x.receipt"] := File "receipt" 0 384 ]>
    (<[ ["run"; "x.executable"] := File "bits" 0 365 ]> demo_nodes)).
Definition supervisor_world : world :=
  demo_world accepted_nodes {[ 50 := mkProcess 50 1 None; 77 := mkProcess 77 50 None ]}.

Lemma demo_snapshots :
  snapshots demo_supervisor "receipt" "bits" ["run"; "x.executable"] demo_proc supervisor_world.
Proof. split; [done|done|by exists 0, 365|done]. Qed.


Lemma chunked_digest_equivalent_witness :
  exists w', @open_verified_executable exiting 2 demo_serde ["run"; "x.executable"] "bits" supervisor_world
    = (Some (Ok ["run"; "x.executable"]), w').
Proof.
  apply (@chunked_digest_equivalent exiting demo_serde 1 demo_supervisor "receipt" "bits" ["run"; "x.executable"]
    "bits" supervisor_world).
  - intros w' [A B C D]. exact (mkSnapshots _ _ _ _ _ (@env_turn exiting w') A B C D).
  - exact demo_snapshots.
  - intros k _. reflexivity.
  - change (4 <= 1 * READ_BUFFER)%nat. unfold READ_BUFFER. lia.
Defined.
