(* ===== verification/Build.v ===== *)
(** * The build driver (tools/benchctl/src/build.rs)

    [cargo_bench] checks that a build starts from what the repository pins and git tracks, has cargo build the
    benchmark under a guardian that can stop it, and writes the receipt. The coordinator and
    the guardian are programs over the worlds of [Process]. git, rustc and cargo are external: what a
    command answers depends on the files and on the call ([CommandOs]), so it may change between two calls; cargo's JSON
    is decoded by a parameter ([CargoFormats]). *)

From stdpp Require Import pretty.
From Stdlib Require Import Ascii.
From S2P Require Import Prelude BenchFs Process Journal Receipt Cpuidle Pure ControlProof Supervision.
Open Scope Z_scope.

(** ** Data *)

Definition BUILD_AFFECTING_ENVIRONMENT : list string :=
  ["RUSTC"; "RUSTFLAGS"; "CARGO_ENCODED_RUSTFLAGS"; "RUSTC_WRAPPER"; "RUSTC_WORKSPACE_WRAPPER"; "RUSTC_BOOTSTRAP";
   "CARGO_INCREMENTAL"; "CARGO_BUILD_TARGET"; "CARGO_BUILD_RUSTC"; "CARGO_BUILD_RUSTFLAGS";
   "CARGO_BUILD_RUSTC_WRAPPER"; "CARGO_BUILD_RUSTC_WORKSPACE_WRAPPER"].

Record BuildRequest := mkBuildRequest {
  bq_manifest_path : rpath;
  bq_bench : string;
  bq_features : list string;
  bq_receipt_path : rpath;
  bq_timeout : Z;                  (** milliseconds *)
}.

Record BuildGuardianRequest := mkBuildGuardian {
  bg_coordinator_pid : Z;
  bg_ready : path;
  bg_drain : path;
  bg_status : path;
  bg_stdout : path;
  bg_repository : path;
  bg_cargo_arguments : list string;
}.

Record BuildStatus := mkBuildStatus {
  bs_code : option Z;
  bs_signal : option Z;
}.
Definition build_success (st : BuildStatus) : bool := bool_decide (bs_code st = Some 0).
Definition build_display (st : BuildStatus) : string :=
  match bs_code st, bs_signal st with
  | Some code, _ => "exit code " +:+ pretty code
  | None, Some signal => "signal " +:+ pretty signal
  | None, None => "unknown exit status"
  end.

(** What the driver reads of cargo_metadata's records; a target's kinds by their names. *)
Record Target := mkTarget {
  tg_name : string;
  tg_kind : list string;
  tg_src_path : rpath;
}.
Record Package := mkPackage {
  pk_name : string;
  pk_id : string;
  pk_source : option string;
  pk_manifest_path : rpath;
  pk_targets : list Target;
}.
Record Node := mkNode {
  nd_id : string;
  nd_deps : list string;
}.
Record Metadata := mkMetadata {
  md_workspace_root : rpath;
  md_packages : list Package;
  md_resolve : option (list Node);
}.
Inductive Message :=
| CompilerArtifact (target : Target) (executable : option rpath) (package_id : string)
| OtherMessage.

(** serde_json and [Message::parse_stream], whose items may fail one by one *)
Class CargoFormats := {
  metadata_from_reader : string -> option Metadata;
  parse_stream : string -> list (option Message);
  build_status_to_vec : BuildStatus -> option string;
  build_status_from_slice : string -> option BuildStatus;
}.
(** A program run to its end: success, the rendering of its status, and its output when that is UTF-8.
    The arguments start with the program. *)
Class CommandOs :=
  command_output : nodes -> nat -> list string -> result (bool * string * option string) io_error.
(** The order in which a set of package ids is visited, and the names tempfile makes up *)
Class HashOrder := hash_order : list string -> list string.
Class TempOs := temp_path : nat -> path.

(** ** Strings and paths *)

Definition ends_with (suffix s : string) : bool :=
  bool_decide (String.substring (String.length s - String.length suffix) (String.length suffix) s = suffix)
  && (String.length suffix <=? String.length s)%nat.
Definition begins_with (pre s : string) : bool := bool_decide (is_Some (str_strip_prefix pre s)).

(** [str::trim_matches] with the double quote *)
Definition quote : ascii := "034"%char.
Fixpoint trim_quotes_start (s : string) : string :=
  match s with String c r => if bool_decide (c = quote) then trim_quotes_start r else s | EmptyString => s end.
Fixpoint trim_quotes_end (s : string) : string :=
  match s with
  | EmptyString => EmptyString
  | String c r =>
      let r' := trim_quotes_end r in
      if bool_decide (c = quote) && bool_decide (r' = EmptyString) then EmptyString else String c r'
  end.
Definition trim_quotes (s : string) : string := trim_quotes_end (trim_quotes_start s).

Definition rjoin (p : rpath) (cs : list string) : rpath :=
  match p with Absolute p => Absolute (p ++ cs) | Relative p => Relative (p ++ cs) end.
Definition rdisplay (p : rpath) : string :=
  match p with Absolute p => display p | Relative p => String.concat "/" p end.
(** The proper prefixes of a path, the longest first: what repeated [Path::parent] visits. *)
Fixpoint ancestors_from (reversed : list string) : list path :=
  match reversed with [] => [] | _ :: r => rev r :: ancestors_from r end.
Definition ancestors (p : path) : list path := ancestors_from (rev p).

Fixpoint for_each {A} (l : list A) (f : A -> IO unit) : IO unit :=
  match l with [] => mret tt | x :: r => _ ← f x; for_each r f end.

(** [runtime::atomic_write] on a path as given. The parent of a bare file name is the empty path: it needs no
    directory, tempfile reads it as the working directory, and opening it fails. *)
Definition atomic_write_at (p : rpath) (bytes : string) : IO unit :=
  match p with
  | Absolute p => atomic_write p bytes
  | Relative [] => throw (Usage "state path has no parent")
  | Relative [name] =>
      if bool_decide (name = "..") then throw (Usage "state path has no file name")
      else
        cwd ← get_proc pr_cwd;
        let p := cwd ++ [name] in
        _ ← io_op "creating partial state" (sys_private p);
        _ ← io_op "writing partial state" (sys_private p);
        _ ← io_op "syncing partial state" (sys_private p);
        _ ← io_op "publishing state" (sys_persist p bytes);
        io_op "syncing state directory" (syscall (fun s => (Err NotFound, s)))
  | Relative p => cwd ← get_proc pr_cwd; atomic_write (cwd ++ p) bytes
  end.
(** [receipt::store] *)
Definition store_receipt_at `{ReceiptSerde} (p : rpath) (r : BuildReceipt) : IO unit :=
  match receipt_to_vec_pretty r with
  | None => throw (Json "serializing build receipt")
  | Some bytes => atomic_write_at p bytes
  end.

Definition exists_at (p : rpath) : IO bool := cwd ← get_proc pr_cwd; sys_exists (at_cwd cwd p).
Definition canonicalize_at (operation : string) (p : rpath) : IO path :=
  cwd ← get_proc pr_cwd; io_op operation (sys_canonicalize (at_cwd cwd p)).

(** ** The environment of the build *)

(** The test on a variable's name *)
Definition build_affecting (name : string) : bool :=
  let fixed := existsb (fun candidate => bool_decide (candidate = name)) BUILD_AFFECTING_ENVIRONMENT in
  let dynamic_target := begins_with "CARGO_TARGET_" name
    && (ends_with "_RUSTFLAGS" name || ends_with "_LINKER" name) in
  let dynamic_profile := begins_with "CARGO_PROFILE_BENCH_" name || begins_with "CARGO_PROFILE_RELEASE_" name in
  fixed || dynamic_target || dynamic_profile.

Definition reject_environment_overrides : IO unit :=
  env ← get_proc pr_env;
  for_each (map_to_list env) (fun '(name, _) =>
    if build_affecting name
    then throw (Preflight ("build-affecting environment override is rejected: " +:+ name))
    else mret tt).

Definition reject_config_files (directory : rpath) : IO unit :=
  for_each ["config"; "config.toml"] (fun name =>
    let candidate := rjoin directory [name] in
    x ← exists_at candidate;
    if x : bool
    then throw (Preflight ("Cargo config outside the tracked repository is rejected: " +:+ rdisplay candidate))
    else mret tt).

Section commands.
Context `{CommandOs}.

Definition run_command (operation : string) (argv : list string) : IO (bool * string * option string) :=
  io_op operation (syscall (fun s => (command_output (io_nodes s) (io_ops s) argv, s))).

Definition command_stdout (argv : list string) (operation : string) : IO string :=
  '(success, status, out) ← run_command operation argv;
  if negb success then throw (Preflight (operation +:+ " exited with " +:+ status))
  else match out with
       | None => throw (Preflight (operation +:+ " emitted non-UTF-8 output"))
       | Some text => mret text
       end.
Definition git_argv (repository : path) (arguments : list string) : list string :=
  ["git"; "-C"; display repository] ++ arguments.
Definition git_stdout (repository : path) (arguments : list string) (operation : string) : IO string :=
  command_stdout (git_argv repository arguments) operation.

(** [Path::strip_prefix] on canonical paths, and the path below the repository as git gets it *)
Definition strip_prefix (root p : path) : option path :=
  if bool_decide (root `prefix_of` p) then Some (drop (length root) p) else None.
Definition relative_name (p : path) : string := String.concat "/" p.

Definition require_tracked (repository p : path) (label : string) : IO unit :=
  match strip_prefix repository p with
  | None => throw (Preflight (label +:+ " is outside its Git repository"))
  | Some relative =>
      '(success, _, _) ← run_command "checking tracked build input"
        (git_argv repository ["ls-files"; "--error-unmatch"; "--"; relative_name relative]);
      if negb success then throw (Preflight (label +:+ " is not tracked by Git: " +:+ display p)) else mret tt
  end.

Definition verify_cargo_configuration (repository : path) : IO unit :=
  _ ← for_each [[".cargo"; "config"]; [".cargo"; "config.toml"]] (fun relative =>
        let candidate := repository ++ relative in
        x ← sys_exists candidate;
        if x : bool then
          '(success, _, _) ← run_command "checking repository Cargo config"
            (git_argv repository ["ls-files"; "--error-unmatch"; relative_name relative]);
          if negb success
          then throw (Preflight ("repository Cargo config is not tracked: " +:+ display candidate))
          else mret tt
        else mret tt);
  env ← get_proc pr_env;
  match env !! "HOME" with
  | None => throw (Preflight "HOME is required")
  | Some home =>
      let default_cargo_home := rjoin (rpath_of_string home) [".cargo"] in
      if match env !! "CARGO_HOME" with
         | Some configured => negb (bool_decide (rpath_of_string configured = default_cargo_home))
         | None => false
         end
      then throw (Preflight "non-default CARGO_HOME is rejected")
      else
        _ ← reject_config_files default_cargo_home;
        for_each (ancestors repository) (fun directory => reject_config_files (Absolute (directory ++ [".cargo"])))
  end.

(** The channel a line of rust-toolchain.toml names, if it does *)
Definition channel_of_line (line : string) : option string :=
  '(key, value) ← split_once "=" line;
  if bool_decide (trim key = "channel") then Some (trim_quotes (trim value)) else None.

Definition pinned_toolchain (repository : path) : IO string :=
  contents ← io_op "reading pinned toolchain" (sys_read (repository ++ ["rust-toolchain.toml"]));
  match omap channel_of_line (lines contents) with
  | [channel] => mret channel
  | _ => throw (Preflight "rust-toolchain.toml must contain exactly one channel")
  end.

Definition validate_toolchain_override (channel : string) : IO string :=
  env ← get_proc pr_env;
  match env !! "RUSTUP_TOOLCHAIN" with
  | None => mret "repository-toolchain-file"
  | Some value =>
      if negb (bool_decide (value = channel)) && negb (begins_with (channel +:+ "-") value)
      then throw (Preflight ("RUSTUP_TOOLCHAIN does not match pinned " +:+ channel))
      else mret value
  end.

(** ** The dependency graph *)

Fixpoint reachable_from (fuel : nat) (nodes : list Node) (pending : list string) (reachable : gset string)
  : option (result (gset string) BenchError) :=
  match fuel with
  | O => None
  | S f =>
      match pending with
      | [] => Some (Ok reachable)
      | package_id :: rest =>
          if bool_decide (package_id ∈ reachable) then reachable_from f nodes rest reachable
          else
            match List.find (fun node => bool_decide (nd_id node = package_id)) nodes with
            | None => Some (Err (Preflight ("Cargo resolve graph has no node for package " +:+ package_id)))
            | Some node => reachable_from f nodes (rest ++ nd_deps node) ({[package_id]} ∪ reachable)
            end
      end
  end.
(** Every iteration takes an id off the queue; the root and the dependencies of each node
    enter it once. *)
Definition graph_fuel (nodes : list Node) : nat :=
  2 + sum_list_with (fun node => length (nd_deps node)) nodes.

Context `{HashOrder}.

Definition check_local_package (repository : path) (package : Package) : IO unit :=
  manifest ← canonicalize_at "canonicalizing local package manifest" (pk_manifest_path package);
  if negb (bool_decide (repository `prefix_of` manifest))
  then throw (Preflight ("reachable local package " +:+ pk_name package
         +:+ " is outside the Git repository: " +:+ display manifest))
  else
    _ ← require_tracked repository manifest "reachable local package manifest";
    for_each (pk_targets package) (fun target =>
      source ← canonicalize_at "canonicalizing local Cargo target" (tg_src_path target);
      if negb (bool_decide (repository `prefix_of` source))
      then throw (Preflight ("Cargo target " +:+ tg_name target +:+ " for local package " +:+ pk_name package
             +:+ " is outside the Git repository: " +:+ display source))
      else require_tracked repository source "reachable local Cargo target").

Definition validate_reachable_local_graph (metadata : Metadata) (root : string) (repository : path) : IO unit :=
  match md_resolve metadata with
  | None => throw (Preflight "Cargo metadata did not include a resolved graph")
  | Some nodes =>
      match reachable_from (graph_fuel nodes) nodes [root] ∅ with
      | None => throw (State "the traversal ran out of fuel")
      | Some (Err e) => throw e
      | Some (Ok reachable) =>
          for_each (hash_order (elements reachable)) (fun package_id =>
            match List.find (fun package => bool_decide (pk_id package = package_id)) (md_packages metadata) with
            | None => throw (Preflight ("Cargo metadata has no package for resolved node " +:+ package_id))
            | Some package =>
                if bool_decide (is_Some (pk_source package)) then mret tt
                else check_local_package repository package
            end)
      end
  end.

Definition HEAD : list string := ["rev-parse"; "--verify"; "HEAD"].
Definition PORCELAIN : list string := ["status"; "--porcelain"; "--untracked-files=all"].

Definition verify_checkout_unchanged `{Serde} (repository : path) (expected_commit : string) (lockfile : rpath)
    (expected_lockfile_digest : string) : IO unit :=
  commit ← git_stdout repository HEAD "rechecking source commit after Cargo build";
  if negb (bool_decide (trim commit = expected_commit))
  then throw (Preflight "source commit changed during Cargo build")
  else
    st ← git_stdout repository PORCELAIN "rechecking working tree after Cargo build";
    if negb (is_empty st) then throw (Preflight "working tree changed during Cargo build")
    else
      d ← file_digest lockfile "rechecking Cargo.lock after build";
      if negb (bool_decide (d = expected_lockfile_digest))
      then throw (Preflight "Cargo.lock changed during Cargo build")
      else mret tt.
End commands.

(** ** Temporary files *)

Section temporaries.
Context `{TempOs}.

(** [NamedTempFile::new] and [tempfile::tempdir]: a new file or directory of a made-up name, removed when it is
    dropped, whatever the result in between; a failure of the removal is ignored. *)
Definition sys_temp (make : Z -> node) : sys path :=
  syscall (fun s =>
    let p := temp_path (io_ops s) in
    match at_path (io_nodes s) p with
    | Some _ => (Err AlreadyExists, s)
    | None =>
        match at_path (io_nodes s) (removelast p) with
        | Some (Dir _ _) => (Ok p, io_set (<[p := make (pr_euid (io_proc s))]> (io_nodes s)) s)
        | _ => (Err NotFound, s)
        end
    end).
Definition temp_file : sys path := sys_temp (fun uid => File EmptyString uid 384).
Definition temp_dir : sys path := sys_temp (fun uid => Dir uid 448).
End temporaries.

Definition scoped {A} (drop : W unit) (m : W A) : W A :=
  r ← attempt m; _ ← attempt drop; wlift r.

(** ** Cargo's process group *)

Section processes.
Context `{Environment} (fuel : nat).

Definition signal_cargo_group : string := "cannot signal Cargo process group".
Definition cargo_group_is_empty : string := "cannot inspect Cargo process group".
Definition not_proved_empty : string := "Cargo process group could not be proved empty".
Definition CARGO_GRACE : Z := 5000.
Definition CARGO_KILL : Z := 5000.

Definition poll_child (operation : string) (child : Z) : W unit := _ ← try_wait operation child; mret tt.

Definition terminate_cargo_group (child : Z) : W unit :=
  if i32_max <? child then fail (State "Cargo PID is outside the process-group range")
  else
    drain_group fuel signal_cargo_group cargo_group_is_empty not_proved_empty
      (poll_child "checking Cargo during drain" child) (poll_child "reaping killed Cargo" child)
      CARGO_GRACE CARGO_KILL child.
Definition drain_cargo_group (pgid : Z) : W unit :=
  drain_group fuel signal_cargo_group cargo_group_is_empty not_proved_empty (mret tt) (mret tt)
    CARGO_GRACE CARGO_KILL pgid.

(** ** The guardian *)

Context `{CargoFormats}.

Definition monitor_cargo (r : BuildGuardianRequest) (cargo : Z) : W unit :=
  _ ← wio (atomic_write (bg_ready r) ("ready" +:+ newline));
  repeat_until fuel
    (drain ← wexists (bg_drain r);
     stop ← (if drain : bool then mret true
             else parent ← has_parent (bg_coordinator_pid r); mret (negb parent));
     if stop : bool then _ ← terminate_cargo_group cargo; mret (Some tt)
     else
       status ← try_wait "waiting for Cargo" cargo;
       match status with
       | Some status =>
           _ ← drain_cargo_group cargo;
           match build_status_to_vec (mkBuildStatus (status_code status) (status_signal status)) with
           | None => fail (Json "serializing Cargo status")
           | Some bytes => _ ← wio (atomic_write (bg_status r) bytes); mret (Some tt)
           end
       | None => _ ← sleep 10; mret None
       end).

(** Opening the message log for writing truncates it and does not create it. *)
Definition sys_truncate (p : path) : sys unit :=
  syscall (fun s =>
    match resolve (io_nodes s) p with
    | None => (Err FilesystemLoop, s)
    | Some q =>
        match at_path (io_nodes s) q with
        | Some (File _ uid mode) => (Ok tt, io_set (<[q := File EmptyString uid mode]> (io_nodes s)) s)
        | Some (Dir _ _) => (Err IsADirectory, s)
        | _ => (Err NotFound, s)
        end
    end).

(** Cargo runs in the repository and writes to the message log. *)
Definition build_guardian (r : BuildGuardianRequest) : W unit :=
  if i32_max <? bg_coordinator_pid r then fail (Usage "coordinator PID is outside the PID range")
  else
    parent ← has_parent (bg_coordinator_pid r);
    if negb parent then mret tt
    else
      _ ← wio (io_op "opening Cargo message log" (sys_truncate (bg_stdout r)));
      cargo ← spawn "starting Cargo" ("cargo" :: bg_cargo_arguments r);
      if i32_max <? cargo then fail (State "Cargo PID is outside the process-group range")
      else
        result ← attempt (monitor_cargo r cargo);
        match result with
        | Ok _ => mret tt
        | Err error =>
            cleaned ← attempt (terminate_cargo_group cargo);
            match cleaned with
            | Ok _ => fail error
            | Err _ => fail (State "Cargo guardian failed; cleanup also failed")
            end
        end.

(** ** The coordinator's side *)

Definition require_guardian_success (guardian : Z) : W unit :=
  status ← wait_child fuel "reaping Cargo crash guardian" guardian;
  if status_success status then mret tt else fail (State "Cargo crash guardian exited with a failure").

Definition request_build_drain (drain : path) (guardian : Z) : W unit :=
  _ ← wio (atomic_write drain ("drain" +:+ newline));
  require_guardian_success guardian.

Definition build_cancelled : BenchError := Workload "Cargo build cancelled by signal".
Definition build_timed_out : BenchError := Preflight "Cargo build timeout elapsed".
Definition early_exit : BenchError := State "Cargo crash guardian exited before recording status".
Definition startup_timed_out : BenchError := State "Cargo crash guardian startup timed out".

Definition wait_for_cargo (guardian : Z) (ready drain status_path : path) (timeout : Z) : W BuildStatus :=
  started ← instant_now;
  repeat_until fuel
    (recorded ← wexists status_path;
     if recorded : bool then
       bytes ← wio (io_op "reading Cargo status" (sys_read status_path));
       match build_status_from_slice bytes with
       | None => fail (Json "reading Cargo status")
       | Some status => _ ← require_guardian_success guardian; mret (Some status)
       end
     else
       cancelled ← flag_load;
       if cancelled : bool then _ ← request_build_drain drain guardian; fail build_cancelled
       else
         e ← elapsed started;
         if timeout <=? e then _ ← request_build_drain drain guardian; fail build_timed_out
         else
           status ← try_wait "checking Cargo crash guardian" guardian;
           match status with
           | Some _ => fail early_exit
           | None =>
               up ← wexists ready;
               late ← (if up : bool then mret false else e ← elapsed started; mret (5000 <=? e));
               if late : bool then _ ← request_build_drain drain guardian; fail startup_timed_out
               else _ ← sleep 10; mret None
           end).

Definition remaining_build_time (started timeout : Z) : W Z :=
  e ← elapsed started;
  if e <=? timeout then mret (timeout - e) else fail build_timed_out.

(** The flag is set by the handlers from then on ([flag_load]). *)
Definition install_build_signal_handlers : W unit :=
  _ ← fd_call "installing build cancellation handler";
  _ ← fd_call "installing build cancellation handler";
  fd_call "installing build cancellation handler".

(** Variables added to a child's environment are written before its program, as env(1) takes them. *)
Definition with_environment (environment : list (string * string)) (argv : list string) : list string :=
  ((fun nv => nv.1 +:+ "=" +:+ nv.2) <$> environment) ++ argv.
Definition build_guardian_argv (executable : path) (coordinator_pid : Z) (ready drain status stdout repository : path)
    (cargo_arguments : list string) : list string :=
  [display executable; "__build-guardian"; "--coordinator-pid"; pid_arg coordinator_pid;
   "--ready"; display ready; "--drain"; display drain; "--status"; display status;
   "--stdout"; display stdout; "--repository"; display repository; "--"] ++ cargo_arguments.

Definition guarded_cargo `{TempOs} (repository stdout : path) (cargo_arguments : list string) (timeout : Z)
    (environment : list (string * string)) : W BuildStatus :=
  cancelled ← flag_load;
  if cancelled : bool then fail build_cancelled
  else
    guardian_root ← wio (io_op "creating build guardian state" temp_dir);
    scoped (wio (io_op "" (sys_remove_dir_all guardian_root)))
      (let ready := guardian_root ++ ["ready"] in
       let drain := guardian_root ++ ["drain"] in
       let status := guardian_root ++ ["status.json"] in
       executable ← wio (io_op "resolving Benchctl executable" (syscall (fun s => (Ok (pr_exe (io_proc s)), s))));
       coordinator_pid ← wget self;
       guardian ← spawn "starting Cargo crash guardian"
         (with_environment environment
           (build_guardian_argv executable coordinator_pid ready drain status stdout repository cargo_arguments));
       wait_for_cargo guardian ready drain status timeout).
End processes.

(** ** cargo_bench *)

Record Prepared := mkPrepared {
  pp_manifest_path : path;
  pp_repository : path;
  pp_rustup_toolchain : string;
  pp_rustc : string;
  pp_target_triple : string;
}.
Record Resolved := mkResolved {
  rs_package_id : string;
  rs_source_commit : string;
  rs_lockfile : path;
  rs_lockfile_sha256 : string;
}.

Definition owns_bench (bench : string) (target : Target) : bool :=
  bool_decide (tg_name target = bench) && bool_decide ("bench" ∈ tg_kind target).
Definition host_of (rustc : string) : option string := head (omap (str_strip_prefix "host: ") (lines rustc)).
Definition feature_arguments (features : list string) : list string :=
  if bool_decide (features = []) then [] else ["--features"; String.concat "," features].

Section cargo_bench.
Context `{Environment} (fuel : nat).
Context `{Serde} `{ReceiptSerde} `{CommandOs} `{CargoFormats} `{HashOrder} `{TempOs}.

(** Up to the signal handlers *)
Definition prepare_build (q : BuildRequest) : IO Prepared :=
  if is_empty (bq_bench q) || existsb is_empty (bq_features q)
  then throw (Usage "bench and features must not be empty")
  else
    _ ← reject_environment_overrides;
    manifest_path ← canonicalize_at "canonicalizing Cargo manifest" (bq_manifest_path q);
    if bool_decide (manifest_path = []) then throw (Preflight "Cargo manifest has no parent")
    else
      top ← git_stdout (removelast manifest_path) ["rev-parse"; "--show-toplevel"] "finding Git repository";
      repository ← canonicalize_at "canonicalizing Git repository" (rpath_of_string (trim top));
      if negb (bool_decide (repository `prefix_of` manifest_path))
      then throw (Preflight "Cargo manifest is outside its Git repository")
      else
        _ ← verify_cargo_configuration repository;
        _ ← require_tracked repository manifest_path "Cargo manifest";
        toolchain_channel ← pinned_toolchain repository;
        rustup_toolchain ← validate_toolchain_override toolchain_channel;
        rustc_version ← command_stdout ["rustc"; "--version"] "reading rustc version";
        if negb (begins_with ("rustc " +:+ toolchain_channel +:+ " ") rustc_version)
        then throw (Preflight ("rustc does not match pinned toolchain " +:+ toolchain_channel +:+ ": "
               +:+ trim rustc_version))
        else
          rustc ← command_stdout ["rustc"; "-vV"] "reading rustc identity";
          match host_of rustc with
          | None => throw (Preflight "rustc -vV did not report a host")
          | Some target_triple => mret (mkPrepared manifest_path repository rustup_toolchain rustc target_triple)
          end.

Definition metadata_arguments (q : BuildRequest) (p : Prepared) : list string :=
  ["metadata"; "--manifest-path"; display (pp_manifest_path p); "--locked"; "--filter-platform";
   pp_target_triple p; "--format-version"; "1"] ++ feature_arguments (bq_features q).

(** From the resolved graph to the digest of the lockfile *)
Definition check_metadata (q : BuildRequest) (p : Prepared) (metadata : Metadata) : IO Resolved :=
  let repository := pp_repository p in
  workspace_root ← canonicalize_at "canonicalizing Cargo workspace root" (md_workspace_root metadata);
  if negb (bool_decide (repository `prefix_of` workspace_root))
  then throw (Preflight "Cargo workspace root is outside its Git repository")
  else
    _ ← require_tracked repository (workspace_root ++ ["Cargo.toml"]) "workspace manifest";
    let selected := List.filter (fun package => existsb (owns_bench (bq_bench q)) (pk_targets package))
                      (md_packages metadata) in
    match selected with
    | [selected_package] =>
        selected_manifest ← canonicalize_at "canonicalizing selected package manifest"
                              (pk_manifest_path selected_package);
        _ ← require_tracked repository selected_manifest "selected package manifest";
        _ ← validate_reachable_local_graph metadata (pk_id selected_package) repository;
        commit ← git_stdout repository HEAD "reading source commit";
        st ← git_stdout repository PORCELAIN "checking working tree";
        if negb (is_empty st)
        then throw (Preflight "official builds require a clean working tree, including untracked files")
        else
          let lockfile := workspace_root ++ ["Cargo.lock"] in
          _ ← require_tracked repository lockfile "Cargo lockfile";
          d ← file_digest (Absolute lockfile) "digesting Cargo.lock";
          mret (mkResolved (pk_id selected_package) (trim commit) lockfile d)
    | _ => throw (Preflight ("expected exactly one Cargo package owning bench " +:+ bq_bench q +:+ ", found "
             +:+ pretty (N.of_nat (length selected))))
    end.

Definition read_metadata (p : path) : IO Metadata :=
  text ← io_op "reading Cargo metadata" (sys_read p);
  match metadata_from_reader text with Some m => mret m | None => throw (Json "reading Cargo metadata") end.

Definition bench_arguments (q : BuildRequest) (p : Prepared) : list string :=
  ["bench"; "--manifest-path"; display (pp_manifest_path p); "--bench"; bq_bench q; "--no-run"; "--locked";
   "--message-format=json"; "--target"; pp_target_triple p] ++ feature_arguments (bq_features q).
Definition benchmark_environment (p : Prepared) (r : Resolved) : list (string * string) :=
  [("SNOOZER_BENCHMARK_COMMIT", rs_source_commit r); ("SNOOZER_BENCHMARK_REPOSITORY", display (pp_repository p));
   ("SNOOZER_BENCHMARK_DIRTY", "false"); ("SNOOZER_BENCHMARK_RUSTUP_TOOLCHAIN", pp_rustup_toolchain p);
   ("SNOOZER_BENCHMARK_RUSTC", trim (pp_rustc p))].

(** The executables of the benchmark among cargo's messages; an invalid message fails the build. *)
Fixpoint bench_executables (bench : string) (messages : list (option Message)) : option (list (rpath * string)) :=
  match messages with
  | [] => Some []
  | None :: _ => None
  | Some m :: r =>
      paths ← bench_executables bench r;
      match m with
      | CompilerArtifact target (Some executable) package_id =>
          if owns_bench bench target then Some ((executable, package_id) :: paths) else Some paths
      | _ => Some paths
      end
  end.

(** From cargo's messages to the stored receipt *)
Definition record_build (q : BuildRequest) (p : Prepared) (r : Resolved) (messages : path) : IO unit :=
  text ← io_op "reading Cargo message log" (sys_read messages);
  match bench_executables (bq_bench q) (parse_stream text) with
  | None => throw (Preflight "invalid Cargo JSON message")
  | Some [(executable, artifact_package_id)] =>
      if negb (bool_decide (artifact_package_id = rs_package_id r))
      then throw (Preflight "Cargo artifact package differs from resolved benchmark package")
      else
        receipt ← receipt_new
          {| bp_manifest_path := Absolute (pp_manifest_path p);
             bp_repository := Absolute (pp_repository p);
             bp_source_commit := rs_source_commit r;
             bp_lockfile_path := Absolute (rs_lockfile r);
             bp_lockfile_sha256 := rs_lockfile_sha256 r;
             bp_package_id := rs_package_id r;
             bp_rustc := trim (pp_rustc p);
             bp_rustup_toolchain := pp_rustup_toolchain p;
             bp_target_triple := pp_target_triple p |}
          (bq_bench q) (bq_features q) executable;
        _ ← verify_checkout_unchanged (pp_repository p) (br_source_commit receipt) (br_lockfile_path receipt)
              (br_lockfile_sha256 receipt);
        _ ← store_receipt_at (bq_receipt_path q) receipt;
        println (rdisplay (bq_receipt_path q))
  | Some paths => throw (Preflight ("expected exactly one executable for bench " +:+ bq_bench q +:+ ", found "
                    +:+ pretty (N.of_nat (length paths))))
  end.

Definition with_temp_file {A} (operation : string) (body : path -> W A) : W A :=
  p ← wio (io_op operation temp_file);
  scoped (wio (io_op "" (sys_remove_file p))) (body p).

Definition cargo_bench (q : BuildRequest) : W unit :=
  p ← wio (prepare_build q);
  _ ← install_build_signal_handlers;
  cargo_started ← instant_now;
  with_temp_file "creating Cargo metadata log" (fun metadata_output =>
    remaining ← remaining_build_time cargo_started (bq_timeout q);
    st ← guarded_cargo fuel (pp_repository p) metadata_output (metadata_arguments q p) remaining [];
    if negb (build_success st) then fail (Preflight ("Cargo metadata exited with " +:+ build_display st))
    else
      metadata ← wio (read_metadata metadata_output);
      r ← wio (check_metadata q p metadata);
      with_temp_file "creating Cargo message log" (fun cargo_messages =>
        remaining ← remaining_build_time cargo_started (bq_timeout q);
        st ← guarded_cargo fuel (pp_repository p) cargo_messages (bench_arguments q p) remaining
               (benchmark_environment p r);
        if negb (build_success st) then fail (Workload ("Cargo exited with " +:+ build_display st))
        else wio (record_build q p r cargo_messages))).
End cargo_bench.
