(* ===== verification/BuildProofs.v ===== *)
(** * What the build driver guarantees (build.rs)

    The traversal of the dependency graph is exact; the gates of a build fail closed, and a receipt is stored only
    behind all of them; the guardian leaves no process of cargo behind. *)

From stdpp Require Import pretty sorting.
From Stdlib Require Import Ascii.
From S2P Require Import Prelude BenchFs Process ProcessProofs Journal Receipt Cpuidle Pure ControlProof.
From S2P Require Import Supervision SupervisionProofs Build.
Open Scope Z_scope.

(** ** The dependency graph *)

Section graph.
Context (graph : list Node) (root : string).

Definition node_of (id : string) : option Node := List.find (fun node => bool_decide (nd_id node = id)) graph.
(** A package depends on another: its first node in the graph lists it. *)
Definition depends (a b : string) : Prop := exists node, node_of a = Some node /\ b ∈ nd_deps node.

(** The dependencies of the nodes that are still to be visited *)
Definition work_of (nodes : list Node) (reachable : gset string) : nat :=
  sum_list_with (fun node => if bool_decide (nd_id node ∈ reachable) then 0%nat else length (nd_deps node)) nodes.

Lemma work_mono nodes id reachable : (work_of nodes ({[id]} ∪ reachable) <= work_of nodes reachable)%nat.
Proof.
  induction nodes as [|n nodes IH]; [done|]. unfold work_of in *. simpl.
  repeat case_bool_decide; set_solver by lia.
Qed.
Lemma work_le nodes reachable :
  (work_of nodes reachable <= sum_list_with (fun node => length (nd_deps node)) nodes)%nat.
Proof. induction nodes as [|n nodes IH]; [done|]. unfold work_of in *. simpl. case_bool_decide; lia. Qed.
Lemma work_visit nodes id reachable node :
  List.find (fun node => bool_decide (nd_id node = id)) nodes = Some node -> id ∉ reachable ->
  (work_of nodes ({[id]} ∪ reachable) + length (nd_deps node) <= work_of nodes reachable)%nat.
Proof.
  intros Hf Hid. induction nodes as [|n nodes IH]; [done|]. simpl in Hf.
  change (work_of (n :: nodes) ({[id]} ∪ reachable)) with
    ((if bool_decide (nd_id n ∈ {[id]} ∪ reachable) then 0 else length (nd_deps n)) + work_of nodes ({[id]} ∪ reachable))%nat.
  change (work_of (n :: nodes) reachable) with
    ((if bool_decide (nd_id n ∈ reachable) then 0 else length (nd_deps n)) + work_of nodes reachable)%nat.
  pose proof (work_mono nodes id reachable).
  case_bool_decide as Hn; [injection Hf as <-|specialize (IH Hf)]; repeat case_bool_decide; set_solver by lia.
Qed.

(** The loop's invariant *)
Record traversal (pending : list string) (reachable : gset string) : Prop := mkTraversal {
  tv_root : root ∈ pending \/ root ∈ reachable;
  tv_sound id : id ∈ pending \/ id ∈ reachable -> rtc depends root id;
  tv_node id : id ∈ reachable -> is_Some (node_of id);
  tv_closed a b : a ∈ reachable -> depends a b -> b ∈ pending \/ b ∈ reachable;
}.

Lemma traversal_start : traversal [root] ∅.
Proof.
  split; [left; set_solver| |set_solver|set_solver]. intros id [Hid|Hid]; [|set_solver].
  apply list_elem_of_singleton in Hid as ->. constructor.
Qed.
Lemma traversal_skip id rest reachable : id ∈ reachable -> traversal (id :: rest) reachable -> traversal rest reachable.
Proof.
  intros Hid [A B C D]. split; [set_solver|set_solver|done|]. intros a b Ha Hab. specialize (D a b Ha Hab). set_solver.
Qed.
Lemma traversal_visit id rest reachable node :
  node_of id = Some node -> traversal (id :: rest) reachable ->
  traversal (rest ++ nd_deps node) ({[id]} ∪ reachable).
Proof.
  intros Hn [A B C D]. split.
  - set_solver.
  - intros x Hx. destruct (decide (x ∈ nd_deps node)) as [Hd|Hd].
    + eapply rtc_r; [apply (B id); set_solver|]. by exists node.
    + apply B. set_solver.
  - intros x Hx. destruct (decide (x = id)) as [->|Hne]; [by rewrite Hn|apply C; set_solver].
  - intros a b Ha Hab. destruct (decide (a = id)) as [->|Hne].
    + destruct Hab as (node' & Hn' & Hb). rewrite Hn in Hn'. injection Hn' as <-. set_solver.
    + specialize (D a b ltac:(set_solver) Hab). set_solver.
Qed.
Lemma traversal_end reachable : traversal [] reachable -> forall id, id ∈ reachable <-> rtc depends root id.
Proof.
  intros [A B C D] id. split; [intros Hid; apply B; by right|].
  assert (Hclosed : forall x y, rtc depends x y -> x ∈ reachable -> y ∈ reachable).
  { induction 1 as [x|x y z Hxy _ IH]; [done|]. intros Hx. apply IH. specialize (D x y Hx Hxy). set_solver. }
  intros Hid. apply (Hclosed root); [done|set_solver].
Qed.

(** What the traversal finds, if it is given enough fuel. *)
Definition traversed (res : result (gset string) BenchError) : Prop :=
  match res with
  | Ok reachable => (forall id, id ∈ reachable <-> rtc depends root id) /\
      (forall id, id ∈ reachable -> is_Some (node_of id))
  | Err e => exists id, rtc depends root id /\ node_of id = None /\
      e = Preflight ("Cargo resolve graph has no node for package " +:+ id)
  end.

Lemma reachable_from_spec fuel pending reachable :
  traversal pending reachable -> (length pending + work_of graph reachable < fuel)%nat ->
  exists res, reachable_from fuel graph pending reachable = Some res /\ traversed res.
Proof.
  revert pending reachable. induction fuel as [|f IH]; intros pending reachable Ht Hf; [lia|].
  destruct pending as [|id rest]; cbn [reachable_from].
  { eexists. split; [done|]. split; [by apply traversal_end|apply Ht]. }
  case_bool_decide as Hid.
  { apply IH; [by eapply traversal_skip|simpl in Hf; lia]. }
  fold (node_of id). destruct (node_of id) as [node|] eqn:En.
  - apply IH; [by apply traversal_visit|]. rewrite length_app. pose proof (work_visit graph id reachable node En Hid).
    simpl in Hf. lia.
  - eexists. split; [done|]. exists id. split; [|done]. apply (tv_sound _ _ Ht). set_solver.
Qed.

Lemma graph_fuel_enough : exists res, reachable_from (graph_fuel graph) graph [root] ∅ = Some res /\ traversed res.
Proof.
  apply reachable_from_spec; [apply traversal_start|]. unfold graph_fuel, work_of. cbn [length].
  pose proof (work_le graph ∅) as Hw. unfold work_of in Hw. lia.
Qed.
End graph.

(** C31: The traversal of the dependency graph is exact. Over every graph, cycles and repeated nodes included,
    and every root, the breadth-first search ends within the fuel it is given (one more than the
    dependencies listed in the graph and the root), and it returns exactly the packages that can be reached from the root,
    each with a node, or the error that names a reachable package without one. *)
Theorem reachable_exact (graph : list Node) (root : string) :
  match reachable_from (graph_fuel graph) graph [root] ∅ with
  | None => False
  | Some (Ok reachable) =>
      (forall id, id ∈ reachable <-> rtc (depends graph) root id) /\
      (forall id, id ∈ reachable -> exists node, node_of graph id = Some node)
  | Some (Err e) => exists id, rtc (depends graph) root id /\ node_of graph id = None /\
      e = Preflight ("Cargo resolve graph has no node for package " +:+ id)
  end.
Proof.
  destruct (graph_fuel_enough graph root) as (res & -> & Hres). destruct res as [reachable|e]; [|exact Hres].
  destruct Hres as [A B]. split; [exact A|]. intros id Hid. destruct (B id Hid) as [node Hn]. by exists node.
Qed.

(** ** Programs that only read

    [finds calm ns pr m Q]: run on the files [ns] by the process [pr], whatever fails, [m] changes neither, and a value
    it returns satisfies [Q]; [calm] stands for a run without faults. *)

Section reading.
Context (calm : Prop) (ns : nodes) (pr : proc).
Definition finds {A} (m : IO A) (Q : A -> Prop) : Prop :=
  forall s, io_nodes s = ns -> io_proc s = pr -> (calm -> no_faults s) ->
  iwp m s (fun r s' => same s s' /\ forall x, r = Ok x -> Q x).

Lemma finds_ret {A} (x : A) (Q : A -> Prop) : Q x -> finds (mret x) Q.
Proof. intros HQ s _ _ _. split; [apply same_refl|]. by intros ? [= <-]. Qed.
Lemma finds_throw {A} e (Q : A -> Prop) : finds (throw e) Q.
Proof. intros s _ _ _. by split; [apply same_refl|]. Qed.
Lemma finds_mono {A} (m : IO A) (Q Q' : A -> Prop) : finds m Q -> (forall x, Q x -> Q' x) -> finds m Q'.
Proof.
  intros Hm HQ s Hn Hp Hc. eapply iwp_mono; [by apply Hm|]. intros r s' [Hs Hr]. split; [done|]. intros x Hx.
  by apply HQ, Hr.
Qed.
Lemma finds_bind {A B} (m : IO A) (k : A -> IO B) (Q : A -> Prop) (Q' : B -> Prop) :
  finds m Q -> (forall x, Q x -> finds (k x) Q') -> finds (mbind k m) Q'.
Proof.
  intros Hm Hk s Hn Hp Hc. apply iwp_bind. eapply iwp_mono; [by apply Hm|]. intros [x|e] s1 [Hs Hr]; [|by split].
  eapply iwp_mono; [apply (Hk x (Hr x eq_refl))|].
  - by rewrite (proj2 Hs).
  - by rewrite (kept_proc _ _ (proj1 Hs)).
  - intros Hcalm. eapply no_faults_same; [exact Hs|by apply Hc].
  - cbv beta. intros r s2 [Hs2 Hr2]. split; [by eapply same_trans|done].
Qed.
Lemma finds_get {A} (f : proc -> A) (Q : A -> Prop) : Q (f pr) -> finds (get_proc f) Q.
Proof. intros HQ s _ Hp _. split; [apply same_refl|]. intros x [= <-]. by rewrite Hp. Qed.
Lemma finds_sys {A} op (f : iost -> result A io_error) (Q : A -> Prop) :
  (forall s x, io_nodes s = ns -> io_proc s = pr -> f s = Ok x -> Q x) ->
  finds (io_op op (syscall (fun s => (f s, s)))) Q.
Proof.
  intros HQ s Hn Hp _. apply iwp_sys.
  - intros e _. by split; [apply same_step|].
  - intros x s' [= Hx <-]. split; [apply same_step|]. intros y [= <-]. by apply (HQ (io_step s)).
  - intros e s' [= He <-]. by split; [apply same_step|].
Qed.
Lemma finds_for_each {A} (l : list A) (f : A -> IO unit) (P : A -> Prop) :
  (forall x, finds (f x) (fun _ => P x)) -> finds (for_each l f) (fun _ => Forall P l).
Proof.
  intros Hf. induction l as [|x l IH]; cbn [for_each]; [by apply finds_ret|].
  eapply finds_bind; [apply Hf|]. intros [] Hx. eapply finds_mono; [apply IH|]. intros [] Hl. by constructor.
Qed.
Lemma finds_exists p : finds (sys_exists p) (fun b => calm -> b = bool_decide (is_Some (stat ns p))).
Proof.
  intros s Hn _ Hc. pose proof (ro_exists p s) as Hs. unfold iwp. split; [exact Hs|]. revert Hs. unfold sys_exists, syscall.
  destruct (io_faults s (io_ops s)) eqn:Ef.
  { intros _ x _ Hcalm. by rewrite (Hc Hcalm _ (Nat.le_refl _)) in Ef. }
  cbn [io_nodes io_step]. rewrite Hn. destruct (stat ns p); by intros _ x [= <-] _.
Qed.
Lemma finds_read op p : finds (io_op op (sys_read p)) (fun c => content ns p = Some c).
Proof.
  intros s Hn _ _. eapply iwp_mono; [apply read_content|]. intros r s' [Hs Hc]. split; [done|]. by rewrite <- Hn.
Qed.
Lemma finds_digest `{Serde} p op :
  finds (file_digest p op) (fun h => exists c, content ns (at_cwd (pr_cwd pr) p) = Some c /\ h = hex_digest c).
Proof.
  intros s Hn Hp _. eapply iwp_mono; [apply file_digest_spec|]. intros r s' [Hs Hc]. split; [done|].
  by rewrite <- Hn, <- Hp.
Qed.

(** What the gates look at: a name's canonical path, and the answers of commands. *)
Definition canonical (p : rpath) (q : path) : Prop :=
  resolve ns (at_cwd (pr_cwd pr) p) = Some q /\ is_Some (at_path ns q).
Lemma finds_canonical op p : finds (canonicalize_at op p) (canonical p).
Proof.
  eapply finds_bind; [by apply (finds_get _ (fun c => c = pr_cwd pr))|]. intros cwd ->. unfold sys_canonicalize.
  apply finds_sys. intros s x Hn _. cbv zeta. rewrite Hn. unfold canonical.
  destruct (resolve ns _) as [q|]; [|done]. destruct (at_path ns q) eqn:Eq; [|done]. intros [= <-]. by rewrite Eq.
Qed.
Lemma finds_exists_at p : finds (exists_at p) (fun b => calm -> b = bool_decide (is_Some (stat ns (at_cwd (pr_cwd pr) p)))).
Proof. eapply finds_bind; [by apply (finds_get _ (fun c => c = pr_cwd pr))|]. intros cwd ->. apply finds_exists. Qed.
End reading.

Section answers.
Context `{CommandOs} (calm : Prop) (ns : nodes) (pr : proc).
(** At some call, the command succeeded, and it printed the text. *)
Definition succeeds (argv : list string) : Prop := exists n st out, command_output ns n argv = Ok (true, st, out).
Definition prints (argv : list string) (text : string) : Prop :=
  exists n st, command_output ns n argv = Ok (true, st, Some text).
Definition tracked (repository p : path) : Prop :=
  exists relative, p = repository ++ relative /\
    succeeds (git_argv repository ["ls-files"; "--error-unmatch"; "--"; relative_name relative]).

Lemma finds_command op argv :
  finds calm ns pr (run_command op argv) (fun '(b, st, out) => exists n, command_output ns n argv = Ok (b, st, out)).
Proof.
  apply finds_sys. intros s [[b st] out] Hn _ Hc. exists (io_ops s). by rewrite <- Hn.
Qed.
Lemma finds_stdout argv op : finds calm ns pr (command_stdout argv op) (prints argv).
Proof.
  eapply finds_bind; [apply finds_command|]. intros [[b st] out] [n Hn].
  destruct b; cbn [negb]; [|apply finds_throw]. destruct out as [text|]; [|apply finds_throw].
  apply finds_ret. by exists n, st.
Qed.
Lemma finds_git repository args op : finds calm ns pr (git_stdout repository args op) (prints (git_argv repository args)).
Proof. apply finds_stdout. Qed.
Lemma finds_tracked repository p label : finds calm ns pr (require_tracked repository p label) (fun _ => tracked repository p).
Proof.
  unfold require_tracked, strip_prefix. case_bool_decide as Hp; [|apply finds_throw].
  eapply finds_bind; [apply finds_command|]. intros [[b st] out] [n Hn].
  destruct b; cbn [negb]; [|apply finds_throw]. apply finds_ret. destruct Hp as [relative ->].
  exists relative. split; [done|]. rewrite drop_app_length in Hn. by exists n, st, out.
Qed.

(** ** Local packages *)

Definition local_ok (repository : path) (package : Package) : Prop :=
  (exists m, canonical ns pr (pk_manifest_path package) m /\ tracked repository m) /\
  forall target, target ∈ pk_targets package ->
    exists source, canonical ns pr (tg_src_path target) source /\ tracked repository source.

Lemma finds_local_package repository package :
  finds calm ns pr (check_local_package repository package) (fun _ => local_ok repository package).
Proof.
  eapply finds_bind; [apply finds_canonical|]. intros m Hm.
  case_bool_decide; cbn [negb]; [|apply finds_throw].
  eapply finds_bind; [apply finds_tracked|]. intros [] Ht. eapply finds_mono.
  - apply (finds_for_each _ _ _ _ _ (fun target => exists source, canonical ns pr (tg_src_path target) source /\
      tracked repository source)).
    intros target. eapply finds_bind; [apply finds_canonical|]. intros q Hq.
    case_bool_decide; cbn [negb]; [|apply finds_throw].
    eapply finds_mono; [apply finds_tracked|]. intros [] Htq. by exists q.
  - intros [] Hl. split; [by exists m|]. by apply Forall_forall.
Qed.

Definition package_of (metadata : Metadata) (id : string) : option Package :=
  List.find (fun package => bool_decide (pk_id package = id)) (md_packages metadata).
(** Everything the root depends on is known, and what is not from a registry is in the repository. *)
Definition graph_local (metadata : Metadata) (root : string) (repository : path) : Prop :=
  exists graph, md_resolve metadata = Some graph /\
  forall id, rtc (depends graph) root id ->
    is_Some (node_of graph id) /\
    exists package, package_of metadata id = Some package /\ (pk_source package = None -> local_ok repository package).

Lemma finds_local_graph `{HashOrder} metadata root repository :
  (forall l, hash_order l ≡ₚ l) ->
  finds calm ns pr (validate_reachable_local_graph metadata root repository)
    (fun _ => graph_local metadata root repository).
Proof.
  intros Hperm. unfold validate_reachable_local_graph, graph_local.
  destruct (md_resolve metadata) as [graph|]; [|apply finds_throw].
  destruct (graph_fuel_enough graph root) as (res & -> & Hres).
  destruct res as [reachable|e]; [|apply finds_throw]. destruct Hres as [Hr Hn].
  eapply finds_mono.
  - apply (finds_for_each _ _ _ _ _ (fun id => exists package, package_of metadata id = Some package /\
      (pk_source package = None -> local_ok repository package))).
    intros id. fold (package_of metadata id). destruct (package_of metadata id) as [package|]; [|apply finds_throw].
    case_bool_decide as Hs.
    + apply finds_ret. exists package. split; [done|]. intros Hnone. rewrite Hnone in Hs. by destruct Hs.
    + eapply finds_mono; [apply finds_local_package|]. intros [] Hl. by exists package.
  - intros [] Hall. exists graph. split; [done|]. intros id Hid. apply Hr in Hid. split; [by apply Hn|].
    rewrite Forall_forall in Hall. apply Hall. rewrite Hperm. by apply elem_of_elements.
Qed.
End answers.

(** C30: A local dependency outside the checkout is refused. Whatever fails on the way and in whatever order the
    packages are visited: if the validation of the dependency graph succeeds, it wrote nothing, every package the
    benchmark's package depends on, directly or not, has a node and a package record, and each one
    that is not from a registry has its manifest and every target's source inside the repository, at
    their canonical paths, and tracked by git. *)
Theorem local_graph_sound `{CommandOs} `{HashOrder} (metadata : Metadata) (root : string) (repository : path)
    (s s' : iost) :
  (forall l, hash_order l ≡ₚ l) ->
  validate_reachable_local_graph metadata root repository s = (Ok tt, s') ->
  io_nodes s' = io_nodes s /\ graph_local (io_nodes s) (io_proc s) metadata root repository.
Proof.
  intros Hperm Hv.
  pose proof (finds_local_graph False (io_nodes s) (io_proc s) metadata root repository Hperm s eq_refl eq_refl
    (False_ind _)) as Hf.
  apply (iwp_run _ _ _ _ _ Hf) in Hv as [[_ Hn] Hr]. split; [exact Hn|by apply (Hr tt)].
Qed.

(** A workspace of two packages that depend on each other, and one from a registry *)
Definition demo_metadata : Metadata :=
  mkMetadata (Absolute ["repo"])
    [mkPackage "bench" "b" None (Absolute ["repo"; "Cargo.toml"])
       [mkTarget "wake" ["bench"] (Absolute ["repo"; "wake.rs"])];
     mkPackage "lib" "l" None (Absolute ["repo"; "lib"; "Cargo.toml"]) [];
     mkPackage "dep" "d" (Some "registry") (Absolute ["elsewhere"]) []]
    (Some [mkNode "b" ["l"; "d"]; mkNode "l" ["b"]; mkNode "d" []]).
Definition checkout : nodes := list_to_map
  [(["repo"], Dir 0 493); (["repo"; "Cargo.toml"], File "manifest" 0 420); (["repo"; "wake.rs"], File "fn" 0 420);
   (["repo"; "lib"], Dir 0 493); (["repo"; "lib"; "Cargo.toml"], File "lib" 0 420);
   (["repo"; "Cargo.lock"], File "lock" 0 420);
   (["repo"; "rust-toolchain.toml"], File ("[toolchain]" +:+ newline +:+ "channel = " +:+ String quote ("1.90" +:+ String quote EmptyString)) 0 420);
   (["run"], Dir 0 448); (["tmp"], Dir 0 511); (["target"], File "bits" 0 493); (["benchctl"], File "tool" 0 493)].
(** git tracks everything, the tree is clean, and the toolchain is the pinned one. *)
Definition demo_commands : CommandOs := fun _ _ argv =>
  match argv with
  | ["git"; _; _; "rev-parse"; "--show-toplevel"] => Ok (true, EmptyString, Some ("/repo" +:+ newline))
  | ["git"; _; _; "rev-parse"; _; _] => Ok (true, EmptyString, Some ("c0ffee" +:+ newline))
  | ["rustc"; "--version"] => Ok (true, EmptyString, Some "rustc 1.90 (x)")
  | ["rustc"; _] => Ok (true, EmptyString, Some "host: x86_64")
  | _ => Ok (true, EmptyString, Some EmptyString)
  end.
Definition any_order : HashOrder := fun l => l.

Lemma local_graph_sound_witness :
  @graph_local demo_commands checkout demo_proc demo_metadata "b" ["repo"].
Proof.
  apply (@local_graph_sound demo_commands any_order demo_metadata "b" ["repo"] (demo_state checkout (fun _ => None))
    (@validate_reachable_local_graph demo_commands any_order demo_metadata "b" ["repo"]
      (demo_state checkout (fun _ => None))).2).
  - intros l. reflexivity.
  - apply run_by_result. vm_compute. reflexivity.
Defined.

(** ** The environment *)

Lemma begins_with_spec pre s : begins_with pre s = true <-> exists a, s = pre +:+ a.
Proof.
  unfold begins_with. rewrite bool_decide_eq_true. revert s. induction pre as [|c pre IH]; intros s; simpl.
  { split; intros _; [by exists s|by eexists]. }
  destruct s as [|d s]; [split; [by intros []|by intros [a [=]]]|].
  case_bool_decide as Hc; [subst; rewrite IH|].
  - split; intros [a Ha]; exists a; [by rewrite Ha|by injection Ha].
  - split; [by intros []|]. intros [a [= Ha _]]. by subst.
Qed.
Lemma ends_with_spec suffix s : ends_with suffix s = true <-> exists a, s = a +:+ suffix.
Proof.
  unfold ends_with. rewrite andb_true_iff, bool_decide_eq_true, Nat.leb_le, substring_pieces. split.
  - intros [Hs Hl]. exists (stake (String.length s - String.length suffix) s).
    rewrite stake_all in Hs by (rewrite sdrop_length; lia). rewrite <- Hs at 2. by rewrite stake_sdrop.
  - intros [a ->]. rewrite length_append. replace (_ + _ - _)%nat with (String.length a) by lia.
    rewrite sdrop_append, stake_all by done. split; [done|lia].
Qed.

(** A variable that changes what cargo builds *)
Definition affects (name : string) : Prop :=
  name ∈ BUILD_AFFECTING_ENVIRONMENT \/
  (exists a, name = "CARGO_TARGET_" +:+ a) /\ ((exists a, name = a +:+ "_RUSTFLAGS") \/ exists a, name = a +:+ "_LINKER") \/
  (exists a, name = "CARGO_PROFILE_BENCH_" +:+ a) \/ exists a, name = "CARGO_PROFILE_RELEASE_" +:+ a.

Lemma build_affecting_spec name : build_affecting name = true <-> affects name.
Proof.
  unfold build_affecting, affects. rewrite !orb_true_iff, andb_true_iff, orb_true_iff, !begins_with_spec, !ends_with_spec.
  rewrite existsb_exists. setoid_rewrite bool_decide_eq_true. setoid_rewrite <- list_elem_of_In.
  split; [intros [[(x & Hx & ->)|?]|?]; tauto|]. intros [Hn|[?|?]]; [|tauto..]. left. left. by exists name.
Qed.

Definition reject_override : string * string -> IO unit := fun '(name, _) =>
  if build_affecting name then throw (Preflight ("build-affecting environment override is rejected: " +:+ name)) else mret tt.

(** One pass over a list of variables stops at the first that affects the build. *)
Lemma overrides_scan (l : list (string * string)) (s : iost) :
  (for_each l reject_override s).2 = s /\
  match (for_each l reject_override s).1 with
  | Ok _ => forall nv, nv ∈ l -> ~ affects nv.1
  | Err e => exists nv, nv ∈ l /\ affects nv.1 /\
      e = Preflight ("build-affecting environment override is rejected: " +:+ nv.1)
  end.
Proof.
  induction l as [|[name value] l IH]; [split; [done|]; intros nv Hnv; by apply elem_of_nil in Hnv|].
  assert (Heq : for_each ((name, value) :: l) reject_override s = if build_affecting name
    then (Err (Preflight ("build-affecting environment override is rejected: " +:+ name)), s)
    else for_each l reject_override s).
  { cbn [for_each]. unfold mbind, IO_bind, reject_override at 1. by destruct (build_affecting name). }
  rewrite Heq. pose proof (build_affecting_spec name) as Hb. destruct (build_affecting name).
  - split; [done|]. exists (name, value). split; [apply list_elem_of_here|]. split; [by apply Hb|done].
  - destruct IH as [IH1 IH2]. split; [exact IH1|]. destruct (for_each l reject_override s).1 as [[]|e].
    + intros nv Hnv. apply elem_of_cons in Hnv as [->|Hnv]; [|by apply IH2]. intros Ha. by apply Hb in Ha.
    + destruct IH2 as (nv & Hnv & Ha & He). exists nv. split; [by apply list_elem_of_further|done].
Qed.

Lemma reject_overrides_scan (s : iost) :
  reject_environment_overrides s = for_each (map_to_list (pr_env (io_proc s))) reject_override s.
Proof. reflexivity. Qed.

(** The environment gate is exact. It passes exactly when no variable of the process's environment
    changes what cargo builds: one of the fixed names, a target's RUSTFLAGS or LINKER, or a setting of the bench or release
    profile; otherwise it names an offending variable. It changes nothing. *)
Theorem environment_gate_exact (s : iost) :
  (reject_environment_overrides s).2 = s /\
  ((reject_environment_overrides s).1 = Ok tt <->
   forall name value, pr_env (io_proc s) !! name = Some value -> ~ affects name) /\
  (forall e, (reject_environment_overrides s).1 = Err e ->
   exists name value, pr_env (io_proc s) !! name = Some value /\ affects name /\
     e = Preflight ("build-affecting environment override is rejected: " +:+ name)).
Proof.
  rewrite reject_overrides_scan.
  destruct (overrides_scan (map_to_list (pr_env (io_proc s))) s) as [H1 H2]. split; [exact H1|].
  destruct (for_each _ _ s).1 as [[]|e]; split.
  - split; [|done]. intros _ name value Hn. apply (H2 (name, value)). by apply elem_of_map_to_list.
  - intros e [=].
  - split; [done|]. intros Hno. destruct H2 as ([name value] & Hnv & Ha & _). exfalso.
    apply elem_of_map_to_list in Hnv. by apply (Hno name value).
  - intros e' [= <-]. destruct H2 as ([name value] & Hnv & Ha & He). apply elem_of_map_to_list in Hnv.
    by exists name, value.
Qed.

(** ** The gates of a build *)

Definition outside_config (pr : proc) (home : string) (repository : path) (p : rpath) : Prop :=
  exists directory name, p = rjoin directory [name] /\ name ∈ ["config"; "config.toml"] /\
    (directory = rjoin (rpath_of_string home) [".cargo"] \/
     exists ancestor, ancestor ∈ ancestors repository /\ directory = Absolute (ancestor ++ [".cargo"])).

(** The cargo configuration is the repository's: what it has is tracked, HOME's cargo directory is the one
    used, and neither it nor a directory above the repository configures cargo. *)
Definition configured `{CommandOs} (calm : Prop) (ns : nodes) (pr : proc) (repository : path) : Prop :=
  (calm -> forall relative, relative ∈ [[".cargo"; "config"]; [".cargo"; "config.toml"]] ->
     is_Some (stat ns (repository ++ relative)) ->
     succeeds ns (git_argv repository ["ls-files"; "--error-unmatch"; relative_name relative])) /\
  exists home, pr_env pr !! "HOME" = Some home /\
    (forall dir, pr_env pr !! "CARGO_HOME" = Some dir -> rpath_of_string dir = rjoin (rpath_of_string home) [".cargo"]) /\
    (calm -> forall p, outside_config pr home repository p -> stat ns (at_cwd (pr_cwd pr) p) = None).

(** What [prepare_build] found. *)
Record prepared `{CommandOs} (calm : Prop) (ns : nodes) (pr : proc) (q : BuildRequest) (p : Prepared) : Prop := mkPd {
  pd_named : bq_bench q <> EmptyString /\ Forall (fun f => f <> EmptyString) (bq_features q);
  pd_environment : forall name value, pr_env pr !! name = Some value -> ~ affects name;
  pd_manifest : canonical ns pr (bq_manifest_path q) (pp_manifest_path p);
  pd_tracked : tracked ns (pp_repository p) (pp_manifest_path p);
  pd_configured : configured calm ns pr (pp_repository p);
  pd_toolchain : exists channel text version,
    content ns (pp_repository p ++ ["rust-toolchain.toml"]) = Some text /\
    omap channel_of_line (lines text) = [channel] /\
    match pr_env pr !! "RUSTUP_TOOLCHAIN" with
    | None => pp_rustup_toolchain p = "repository-toolchain-file"
    | Some value => pp_rustup_toolchain p = value /\ (value = channel \/ exists a, value = (channel +:+ "-") +:+ a)
    end /\
    prints ns ["rustc"; "--version"] version /\ exists a, version = ("rustc " +:+ channel +:+ " ") +:+ a;
  pd_host : prints ns ["rustc"; "-vV"] (pp_rustc p) /\ host_of (pp_rustc p) = Some (pp_target_triple p);
}.
(** What [check_metadata] found. *)
Record resolved `{CommandOs} `{Serde} (ns : nodes) (pr : proc) (q : BuildRequest) (p : Prepared) (metadata : Metadata)
    (r : Resolved) : Prop := mkRv {
  rv_owner : exists package m,
    List.filter (fun package => existsb (owns_bench (bq_bench q)) (pk_targets package)) (md_packages metadata)
      = [package] /\ pk_id package = rs_package_id r /\
    canonical ns pr (pk_manifest_path package) m /\ tracked ns (pp_repository p) m;
  rv_graph : graph_local ns pr metadata (rs_package_id r) (pp_repository p);
  rv_commit : exists text, prints ns (git_argv (pp_repository p) HEAD) text /\ rs_source_commit r = trim text;
  rv_clean : prints ns (git_argv (pp_repository p) PORCELAIN) EmptyString;
  rv_lockfile : exists root c, canonical ns pr (md_workspace_root metadata) root /\
    tracked ns (pp_repository p) (root ++ ["Cargo.toml"]) /\ rs_lockfile r = root ++ ["Cargo.lock"] /\
    tracked ns (pp_repository p) (rs_lockfile r) /\
    content ns (rs_lockfile r) = Some c /\ rs_lockfile_sha256 r = hex_digest c;
}.
(** What [record_build] found and put into the receipt. *)
Record recorded `{CommandOs} `{Serde} `{ReceiptSerde} `{CargoFormats} (ns : nodes) (pr : proc) (q : BuildRequest)
    (p : Prepared) (r : Resolved) (messages : path) (receipt : BuildReceipt) : Prop := mkRd {
  rd_artifact : exists text, content ns messages = Some text /\
    bench_executables (bq_bench q) (parse_stream text) = Some [(br_executable receipt, rs_package_id r)];
  rd_executable : exists c, content ns (at_cwd (pr_cwd pr) (br_executable receipt)) = Some c /\
    br_executable_sha256 receipt = hex_digest c;
  rd_identity : identity_digest receipt = Ok (br_build_id receipt);
  rd_fields : br_manifest_path receipt = Absolute (pp_manifest_path p) /\
    br_repository receipt = Absolute (pp_repository p) /\ br_source_commit receipt = rs_source_commit r /\
    br_lockfile_path receipt = Absolute (rs_lockfile r) /\ br_lockfile_sha256 receipt = rs_lockfile_sha256 r /\
    br_package_id receipt = rs_package_id r /\ br_bench receipt = bq_bench q /\
    br_rustc receipt = trim (pp_rustc p) /\ br_rustup_toolchain receipt = pp_rustup_toolchain p /\
    br_target_triple receipt = pp_target_triple p;
  rd_made : br_features receipt = dedup_strings (merge_sort string_leb (bq_features q)) /\ br_profile receipt = "bench" /\
    exists c, br_benchctl_executable_sha256 receipt = hex_digest c;
  rd_commit : exists text, prints ns (git_argv (pp_repository p) HEAD) text /\ trim text = rs_source_commit r;
  rd_clean : prints ns (git_argv (pp_repository p) PORCELAIN) EmptyString;
  rd_lockfile : exists c, content ns (rs_lockfile r) = Some c /\ hex_digest c = rs_lockfile_sha256 r;
}.

Section gates.
Context `{CommandOs} `{Serde} (calm : Prop) (ns : nodes) (pr : proc).

Lemma finds_environment :
  finds calm ns pr reject_environment_overrides (fun _ => forall name value, pr_env pr !! name = Some value -> ~ affects name).
Proof.
  intros s Hn Hp _. unfold iwp. rewrite reject_overrides_scan.
  destruct (overrides_scan (map_to_list (pr_env (io_proc s))) s) as [H1 H2]. rewrite H1.
  split; [apply same_refl|]. intros [] Hok name value Hn'. rewrite Hok in H2. rewrite <- Hp in Hn'.
  apply (H2 (name, value)). by apply elem_of_map_to_list.
Qed.

Lemma finds_reject_config directory :
  finds calm ns pr (reject_config_files directory) (fun _ => Forall (fun name =>
    calm -> stat ns (at_cwd (pr_cwd pr) (rjoin directory [name])) = None) ["config"; "config.toml"]).
Proof.
  apply finds_for_each. intros name. eapply finds_bind; [apply finds_exists_at|]. intros [] Hb; [apply finds_throw|].
  apply finds_ret. intros Hc. specialize (Hb Hc). symmetry in Hb. rewrite bool_decide_eq_false in Hb.
  destruct (stat ns _) as [n|]; [|done]. destruct Hb. by exists n.
Qed.

Lemma finds_configuration repository :
  finds calm ns pr (verify_cargo_configuration repository) (fun _ => configured calm ns pr repository).
Proof.
  eapply finds_bind.
  { apply (finds_for_each _ _ _ _ _ (fun relative => calm -> is_Some (stat ns (repository ++ relative)) ->
      succeeds ns (git_argv repository ["ls-files"; "--error-unmatch"; relative_name relative]))).
    intros relative. eapply finds_bind; [apply finds_exists|]. intros [] Hb.
    - eapply finds_bind; [apply finds_command|]. intros [[b st] out] [n Hn]. destruct b; cbn [negb]; [|apply finds_throw].
      apply finds_ret. intros _ _. by exists n, st, out.
    - apply finds_ret. intros Hc. specialize (Hb Hc). symmetry in Hb. by rewrite bool_decide_eq_false in Hb. }
  intros [] Hin. rewrite Forall_forall in Hin. eapply finds_bind; [by apply (finds_get _ _ _ _ (fun env => env = pr_env pr))|].
  intros env ->. destruct (pr_env pr !! "HOME") as [home|] eqn:Eh; [|apply finds_throw].
  cbv zeta. match goal with |- finds _ _ _ (if ?b then _ else _) _ => destruct b eqn:Ec; [apply finds_throw|] end.
  eapply finds_bind; [apply finds_reject_config|]. intros [] Hhome. eapply finds_mono.
  { apply (finds_for_each _ _ _ _ _ (fun a => Forall (fun name => calm -> stat ns (at_cwd (pr_cwd pr)
      (rjoin (Absolute (a ++ [".cargo"])) [name])) = None) ["config"; "config.toml"])).
    intros a. apply finds_reject_config. }
  intros [] Habove. rewrite Forall_forall in Habove. split; [intros; by apply Hin|]. exists home. split; [done|]. split.
  - intros dir Hd. rewrite Hd in Ec. apply negb_false_iff, bool_decide_eq_true in Ec. done.
  - intros Hc p (directory & name & -> & Hname & [->|(a & Ha & ->)]).
    + rewrite Forall_forall in Hhome. by apply Hhome.
    + specialize (Habove a Ha). rewrite Forall_forall in Habove. by apply Habove.
Qed.

Lemma finds_toolchain repository :
  finds calm ns pr (pinned_toolchain repository) (fun channel => exists text,
    content ns (repository ++ ["rust-toolchain.toml"]) = Some text /\ omap channel_of_line (lines text) = [channel]).
Proof.
  eapply finds_bind; [apply finds_read|]. intros text Ht. destruct (omap channel_of_line _) as [|c [|]] eqn:E;
    [apply finds_throw| |apply finds_throw]. apply finds_ret. by exists text.
Qed.
Lemma finds_override channel :
  finds calm ns pr (validate_toolchain_override channel) (fun res =>
    match pr_env pr !! "RUSTUP_TOOLCHAIN" with
    | None => res = "repository-toolchain-file"
    | Some value => res = value /\ (value = channel \/ exists a, value = (channel +:+ "-") +:+ a)
    end).
Proof.
  eapply finds_bind; [by apply (finds_get _ _ _ _ (fun env => env = pr_env pr))|]. intros env ->.
  destruct (pr_env pr !! _) as [value|] eqn:E; [|by apply finds_ret]. case_bool_decide as Hc; cbn [negb andb].
  { apply finds_ret. split; [done|by left]. }
  destruct (begins_with _ _) eqn:Eb; cbn [negb]; [|apply finds_throw]. apply finds_ret.
  split; [done|right]. by apply begins_with_spec.
Qed.

Lemma finds_prepare q : finds calm ns pr (prepare_build q) (prepared calm ns pr q).
Proof.
  unfold prepare_build. destruct (is_empty (bq_bench q)) eqn:Eb; [apply finds_throw|].
  destruct (existsb is_empty (bq_features q)) eqn:Ef; cbn [orb]; [apply finds_throw|].
  eapply finds_bind; [apply finds_environment|]. intros [] Henv.
  eapply finds_bind; [apply finds_canonical|]. intros manifest Hm. case_bool_decide; [apply finds_throw|].
  eapply finds_bind; [apply finds_git|]. intros top _. eapply finds_bind; [apply finds_canonical|].
  intros repository _. case_bool_decide; cbn [negb]; [|apply finds_throw].
  eapply finds_bind; [apply finds_configuration|]. intros [] Hconf.
  eapply finds_bind; [apply finds_tracked|]. intros [] Ht.
  eapply finds_bind; [apply finds_toolchain|]. intros channel (text & Hc & Hch).
  eapply finds_bind; [apply finds_override|]. intros toolchain Ho.
  eapply finds_bind; [apply finds_stdout|]. intros version Hv.
  destruct (begins_with _ version) eqn:Ebw; cbn [negb]; [|apply finds_throw].
  eapply finds_bind; [apply finds_stdout|]. intros rustc Hr.
  destruct (host_of rustc) as [triple|] eqn:Eh; [|apply finds_throw]. apply finds_ret. split; try done.
  - split; [by apply bool_decide_eq_false in Eb|]. apply Forall_forall. intros f Hin Hf.
    assert (Hx : existsb is_empty (bq_features q) = true); [|congruence].
    apply existsb_exists. exists f. split; [by apply list_elem_of_In|]. by apply bool_decide_eq_true.
  - exists channel, text, version. by apply begins_with_spec in Ebw.
Qed.

Lemma finds_check `{HashOrder} q p metadata :
  (forall l, hash_order l ≡ₚ l) ->
  finds calm ns pr (check_metadata q p metadata) (resolved ns pr q p metadata).
Proof.
  intros Hperm. unfold check_metadata. eapply finds_bind; [apply finds_canonical|]. intros root Hroot.
  case_bool_decide; cbn [negb]; [|apply finds_throw]. eapply finds_bind; [apply finds_tracked|]. intros [] Hcargo.
  destruct (List.filter _ (md_packages metadata)) as [|package [|]] eqn:Esel; [apply finds_throw| |apply finds_throw].
  eapply finds_bind; [apply finds_canonical|]. intros m Hm. eapply finds_bind; [apply finds_tracked|]. intros [] Htm.
  eapply finds_bind; [by apply finds_local_graph|]. intros [] Hg.
  eapply finds_bind; [apply finds_git|]. intros commit Hcommit.
  eapply finds_bind; [apply finds_git|]. intros st Hst.
  destruct (is_empty st) eqn:Est; cbn [negb]; [|apply finds_throw]. apply bool_decide_eq_true in Est as ->.
  eapply finds_bind; [apply finds_tracked|]. intros [] Hlock.
  eapply finds_bind; [apply finds_digest|]. intros d (c & Hc & ->). apply finds_ret. split; try done.
  - by exists package, m.
  - by exists commit.
  - by exists root, c.
Qed.
End gates.

(** ** Behind the gates *)

Lemma iwp_finds {A B} ns pr (m : IO A) (k : A -> IO B) (Q : A -> Prop) s (R : result B BenchError -> iost -> Prop) :
  finds False ns pr m Q -> io_nodes s = ns -> io_proc s = pr -> (forall e s', R (Err e) s') ->
  (forall x s', io_nodes s' = ns -> io_proc s' = pr -> Q x -> iwp (k x) s' R) -> iwp (mbind k m) s R.
Proof.
  intros Hm Hn Hp He Hk. apply iwp_bind. eapply iwp_mono; [by apply Hm|]. intros [x|e] s' [[K E] Hr]; [|apply He].
  apply Hk; [by rewrite E|by rewrite (kept_proc _ _ K)|by apply Hr].
Qed.

Section records.
Context `{CommandOs} `{Serde} `{ReceiptSerde} `{CargoFormats}.

Lemma finds_receipt_new ns pr bp bench features exe :
  finds False ns pr (receipt_new bp bench features exe) (fun receipt =>
    br_executable receipt = exe /\
    (exists c, content ns (at_cwd (pr_cwd pr) exe) = Some c /\ br_executable_sha256 receipt = hex_digest c) /\
    identity_digest receipt = Ok (br_build_id receipt) /\
    br_manifest_path receipt = bp_manifest_path bp /\ br_repository receipt = bp_repository bp /\
    br_source_commit receipt = bp_source_commit bp /\ br_lockfile_path receipt = bp_lockfile_path bp /\
    br_lockfile_sha256 receipt = bp_lockfile_sha256 bp /\ br_package_id receipt = bp_package_id bp /\
    br_bench receipt = bench /\ br_rustc receipt = bp_rustc bp /\
    br_rustup_toolchain receipt = bp_rustup_toolchain bp /\ br_target_triple receipt = bp_target_triple bp /\
    br_features receipt = dedup_strings (merge_sort string_leb features) /\ br_profile receipt = "bench" /\
    exists c, br_benchctl_executable_sha256 receipt = hex_digest c).
Proof.
  eapply finds_bind; [apply finds_digest|]. intros h (c & Hc & ->).
  eapply (finds_bind _ _ _ _ _ (fun b => exists c, b = hex_digest c)).
  { intros s Hn Hp _. eapply iwp_mono; [apply benchctl_digest_spec|]. intros res s' [Hs Hb]. split; [done|].
    intros b Eb. destruct (Hb b Eb) as (c0 & _ & ->). by exists c0. }
  intros b Hb. eapply (finds_bind _ _ _ _ _ (fun _ => True)); [by intros s _ _ _; split; [apply same_refl|]|].
  intros t _. cbv zeta. set (receipt := mkReceipt _ _ _ _ _ _ _ _ _ _ _ _ _ _ _ _ _ _ _ _).
  eapply (finds_bind _ _ _ _ _ (fun id => identity_digest receipt = Ok id)); [by intros s _ _ _; split; [apply same_refl|]|].
  intros id Hid. apply finds_ret. repeat split; try done. by exists c.
Qed.

Lemma iwp_record_build q p r messages s :
  iwp (record_build q p r messages) s (fun res s' => res = Ok tt -> exists receipt b s1 s2,
    recorded (io_nodes s) (io_proc s) q p r messages receipt /\ receipt_to_vec_pretty receipt = Some b /\
    io_nodes s1 = io_nodes s /\ io_proc s1 = io_proc s /\
    atomic_write_at (bq_receipt_path q) b s1 = (Ok tt, s2) /\ s' = io_print (rdisplay (bq_receipt_path q)) s2).
Proof.
  unfold record_build.
  eapply iwp_finds; [apply finds_read|done..|]. intros text s1 N1 P1 Htext.
  destruct (bench_executables _ _) as [[|[exe id] [|]]|] eqn:Ebe; try done.
  case_bool_decide as Hid; cbn [negb]; [subst id|done].
  eapply iwp_finds; [apply finds_receipt_new|done..|]. intros receipt s2 N2 P2.
  cbn [bp_manifest_path bp_repository bp_source_commit bp_lockfile_path bp_lockfile_sha256 bp_package_id bp_rustc
    bp_rustup_toolchain bp_target_triple].
  intros (Hexe & Hdig & Hident & F1 & F2 & F3 & F4 & F5 & F6 & F7 & F8 & F9 & F10 & F11 & F12 & F13). subst exe.
  eapply (iwp_finds _ _ _ _ (fun _ => (exists t, prints (io_nodes s) (git_argv (pp_repository p) HEAD) t /\
      trim t = rs_source_commit r) /\ prints (io_nodes s) (git_argv (pp_repository p) PORCELAIN) EmptyString /\
      exists c, content (io_nodes s) (rs_lockfile r) = Some c /\ hex_digest c = rs_lockfile_sha256 r)); [|exact N2|exact P2|done|].
  { rewrite F3, F4, F5. unfold verify_checkout_unchanged. eapply finds_bind; [apply finds_git|]. intros commit Hc.
    case_bool_decide; cbn [negb]; [|apply finds_throw]. eapply finds_bind; [apply finds_git|]. intros st Hst.
    destruct (is_empty st) eqn:Est; cbn [negb]; [|apply finds_throw]. apply bool_decide_eq_true in Est as ->.
    eapply finds_bind; [apply finds_digest|]. intros d (c & Hcont & ->).
    case_bool_decide; cbn [negb]; [|apply finds_throw]. apply finds_ret. split; [by exists commit|]. split; [done|].
    by exists c. }
  intros [] s3 N3 P3 (Hcommit & Hclean & Hlock).
  unfold store_receipt_at. destruct (receipt_to_vec_pretty receipt) as [b|] eqn:Eb; [|done].
  apply iwp_bind. unfold iwp at 1. destruct (atomic_write_at (bq_receipt_path q) b s3) as [[[]|e] s4] eqn:Ew; [|done].
  unfold iwp, println. cbn [fst snd]. intros _. exists receipt, b, s3, s4. split; [|done].
  split; try done. by exists text.
Qed.
End records.

(** ** Successful runs *)

Lemma bindW_ok {A B} (m : W A) (k : A -> W B) w y w' :
  (m ≫= k) w = (Some (Ok y), w') -> exists x w1, m w = (Some (Ok x), w1) /\ k x w1 = (Some (Ok y), w').
Proof. unfold mbind, W_bind. destruct (m w) as [[[x|e]|] w1]; intros E; try done. by exists x, w1. Qed.
Lemma scoped_ok {A} drop (m : W A) w y w' :
  scoped drop m w = (Some (Ok y), w') -> exists w1, m w = (Some (Ok y), w1).
Proof.
  intros E. apply bindW_ok in E as (r & w1 & E1 & E2). apply bindW_ok in E2 as (d & w2 & _ & E2).
  unfold wlift in E2. injection E2 as -> _. unfold attempt in E1. destruct (m w) as [[r|] w3]; [|done].
  injection E1 as -> _. by exists w3.
Qed.
Lemma wio_ok `{Environment} {A} (m : IO A) w x w' :
  wio m w = (Some (Ok x), w') -> m (w_io (env_turn w)) = (Ok x, w_io w').
Proof. unfold wio, act. destruct (m (w_io (env_turn w))) as [r s]. by intros [= -> <-]. Qed.

(** No operation changes the process itself. *)
Definition keeps {A} (m : W A) : Prop := forall w, io_proc (w_io (m w).2) = io_proc (w_io w).
Definition io_keeps {A} (m : IO A) : Prop := forall s, io_proc (m s).2 = io_proc s.

Section keeps.
Context `{Environment}.
Lemma keeps_act {A} (f : world -> result A BenchError * world) :
  (forall w, io_proc (w_io (f w).2) = io_proc (w_io w)) -> keeps (act f).
Proof. intros Hf w. unfold act. specialize (Hf (env_turn w)). by destruct (f (env_turn w)). Qed.
Lemma kept_bind {A B} (m : W A) (k : A -> W B) : keeps m -> (forall x, keeps (k x)) -> keeps (mbind k m).
Proof.
  intros Hm Hk w. unfold mbind, W_bind. specialize (Hm w). destruct (m w) as [[[x|e]|] w1]; [|done|done].
  by rewrite Hk.
Qed.
Lemma keeps_ret {A} (x : A) : keeps (mret x). Proof. done. Qed.
Lemma keeps_fail {A} e : keeps (fail (A := A) e). Proof. done. Qed.
Lemma keeps_lift {A} (r : result A BenchError) : keeps (wlift r). Proof. done. Qed.
Lemma keeps_get {A} (f : world -> A) : keeps (wget f). Proof. done. Qed.
Lemma keeps_attempt {A} (m : W A) : keeps m -> keeps (attempt m).
Proof. intros Hm w. unfold attempt. specialize (Hm w). by destruct (m w) as [[r|] w1]. Qed.
Lemma keeps_repeat {A} n (body : W (option A)) : keeps body -> keeps (repeat_until n body).
Proof.
  intros Hb. induction n as [|n IH]; [done|]. cbn [repeat_until]. apply kept_bind; [done|]. by intros [x|].
Qed.
Lemma keeps_wio {A} (m : IO A) : io_keeps m -> keeps (wio m).
Proof. intros Hm. apply keeps_act. intros w. specialize (Hm (w_io w)). by destruct (m (w_io w)). Qed.
Lemma keeps_pcall {A} op (f : world -> result A io_error * world) :
  (forall w, io_proc (w_io (f w).2) = io_proc (w_io w)) -> keeps (pcall op f).
Proof.
  intros Hf. apply keeps_act. intros w. destruct (io_faults _ _); [done|].
  specialize (Hf (set_wio (io_step (w_io w)) w)). by destruct (f _) as [[]].
Qed.
Lemma keeps_spawn op argv : keeps (spawn op argv).
Proof. apply keeps_pcall. intros w. cbv zeta. by destruct (_ && _). Qed.
Lemma keeps_try_wait op pid : keeps (try_wait op pid).
Proof. apply keeps_pcall. intros w. repeat case_match; done. Qed.
Lemma keeps_now : keeps instant_now. Proof. by apply keeps_act. Qed.
Lemma keeps_sleep ms : keeps (sleep ms). Proof. by apply keeps_act. Qed.
Lemma keeps_flag : keeps flag_load. Proof. by apply keeps_act. Qed.

Lemma io_keeps_bind {A B} (m : IO A) (k : A -> IO B) : io_keeps m -> (forall x, io_keeps (k x)) -> io_keeps (mbind k m).
Proof.
  intros Hm Hk s. unfold mbind, IO_bind. specialize (Hm s). destruct (m s) as [[x|e] s1]; [|done]. by rewrite Hk.
Qed.
Lemma io_keeps_sys {A} op (f : iost -> result A io_error * iost) :
  (forall s, io_proc (f s).2 = io_proc s) -> io_keeps (io_op op (syscall f)).
Proof.
  intros Hf s. unfold io_op, syscall. destruct (io_faults _ _); [done|]. specialize (Hf (io_step s)).
  by destruct (f (io_step s)) as [[]].
Qed.
Lemma io_keeps_ret {A} (x : A) : io_keeps (mret x). Proof. done. Qed.
Lemma io_keeps_throw {A} e : io_keeps (throw (A := A) e). Proof. done. Qed.
Lemma io_keeps_exists p : io_keeps (sys_exists p).
Proof. intros s. apply (kept_proc _ _ (proj1 (ro_exists p s))). Qed.
Lemma io_keeps_ro {A} (m : IO A) : ro m -> io_keeps m.
Proof. intros Hm s. apply (kept_proc _ _ (proj1 (Hm s))). Qed.
Lemma io_keeps_write p b : io_keeps (atomic_write p b).
Proof.
  unfold atomic_write. destruct p as [|c p]; [apply io_keeps_throw|].
  repeat (apply io_keeps_bind; [first [apply io_keeps_sys; intros s; repeat case_match; done
    | case_bool_decide; [apply io_keeps_throw|apply io_keeps_ret]]|intros _]).
  apply io_keeps_sys; intros s; repeat case_match; done.
Qed.
End keeps.
Create HintDb keeps.
#[export] Hint Resolve kept_bind keeps_ret keeps_fail keeps_lift keeps_get keeps_attempt keeps_repeat keeps_wio
  keeps_spawn keeps_try_wait io_keeps_bind io_keeps_ret io_keeps_throw io_keeps_exists io_keeps_write : keeps.
#[export] Hint Resolve keeps_now keeps_sleep keeps_flag : keeps.

Ltac keeps_tac := repeat first
  [ progress intros | progress cbv beta zeta | apply kept_bind | apply keeps_attempt | apply keeps_repeat
  | apply keeps_wio | apply io_keeps_bind | case_match
  | solve [eauto with keeps] | solve [apply io_keeps_sys; intros; repeat case_match; done] ].

Section kept_runs.
Context `{Environment} (fuel : nat) `{CargoFormats}.

Lemma keeps_elapsed t : keeps (elapsed t).
Proof. unfold elapsed. keeps_tac. Qed.
Lemma keeps_guardian_success g : keeps (require_guardian_success fuel g).
Proof. unfold require_guardian_success, wait_child. keeps_tac. Qed.
Lemma keeps_build_drain d g : keeps (request_build_drain fuel d g).
Proof. unfold request_build_drain. keeps_tac. Qed.
#[local] Hint Resolve keeps_elapsed keeps_guardian_success keeps_build_drain : keeps.
Lemma keeps_wait_for_cargo g a b c t : keeps (wait_for_cargo fuel g a b c t).
Proof. unfold wait_for_cargo, wexists. keeps_tac. Qed.
#[local] Hint Resolve keeps_wait_for_cargo : keeps.
Lemma keeps_temp `{TempOs} make op : io_keeps (io_op op (sys_temp make)).
Proof. apply io_keeps_sys. intros s. cbv zeta. destruct (at_path _ _); [done|]. by destruct (at_path _ _) as [[]|]. Qed.
#[local] Hint Resolve keeps_temp : keeps.
Lemma keeps_scoped {A} d (m : W A) : keeps d -> keeps m -> keeps (scoped d m).
Proof. intros Hd Hm. unfold scoped. keeps_tac. Qed.
Lemma keeps_guarded_cargo `{TempOs} repo out args t env : keeps (guarded_cargo fuel repo out args t env).
Proof. unfold guarded_cargo, temp_dir. keeps_tac. Qed.
Lemma keeps_remaining a b : keeps (remaining_build_time a b).
Proof. unfold remaining_build_time. keeps_tac. Qed.
Lemma keeps_handlers : keeps install_build_signal_handlers.
Proof. unfold install_build_signal_handlers, fd_call. keeps_tac; by apply keeps_pcall. Qed.
End kept_runs.

(** A run of cargo that succeeds hands its log to what follows. *)
Lemma cargo_phase_ok `{Environment} `{CargoFormats} `{TempOs} {A} fuel op started limit repository args env bad
    (k : path -> W A) w y w' :
  with_temp_file op (fun out =>
    t ← remaining_build_time started limit;
    st ← guarded_cargo fuel repository out args t env;
    if negb (build_success st) then fail (bad st) else k out) w = (Some (Ok y), w') ->
  exists out v v', k out v = (Some (Ok y), v') /\ io_proc (w_io v) = io_proc (w_io w).
Proof.
  intros E. apply bindW_ok in E as (out & w1 & E1 & E).
  pose proof (keeps_wio _ (keeps_temp (fun uid => File EmptyString uid 384) op) w) as P1.
  unfold temp_file in E1. rewrite E1 in P1. cbn [snd] in P1. apply scoped_ok in E as [w9 E].
  apply bindW_ok in E as (t & w2 & E2 & E). pose proof (keeps_remaining started limit w1) as P2.
  rewrite E2 in P2. cbn [snd] in P2. apply bindW_ok in E as (st & w3 & E3 & E).
  pose proof (keeps_guarded_cargo fuel repository out args t env w2) as P3. rewrite E3 in P3. cbn [snd] in P3.
  destruct (negb (build_success st)); [done|]. exists out, w3, w9. split; [done|]. congruence.
Qed.
Lemma finds_ok {A} calm (m : IO A) (Q : A -> Prop) s x s' :
  finds calm (io_nodes s) (io_proc s) m Q -> (calm -> no_faults s) -> m s = (Ok x, s') ->
  Q x /\ io_proc s' = io_proc s.
Proof.
  intros Hf Hc E. specialize (Hf s eq_refl eq_refl Hc). apply (iwp_run _ _ _ _ _ Hf) in E as [[K _] Hr].
  split; [by apply Hr|apply (kept_proc _ _ K)].
Qed.

(** What a build leaves behind it when it succeeds. *)
Definition gated `{CommandOs} `{Serde} `{ReceiptSerde} `{CargoFormats} (q : BuildRequest) (pr : proc)
    (calm : Prop) : Prop :=
  exists p metadata r receipt bytes messages ns1 ns2 ns3 s s',
    prepared calm ns1 pr q p /\ resolved ns2 pr q p metadata r /\ recorded ns3 pr q p r messages receipt /\
    receipt_to_vec_pretty receipt = Some bytes /\ io_nodes s = ns3 /\ io_proc s = pr /\
    atomic_write_at (bq_receipt_path q) bytes s = (Ok tt, s').


(** *** A simulated build *)

Fixpoint argument (name : string) (argv : list string) : option string :=
  match argv with
  | x :: (y :: _) as r => if bool_decide (x = name) then Some y else argument name r
  | _ => None
  end.
Definition components (p : string) : path := match rpath_of_string p with Absolute p | Relative p => p end.

(** Cargo's guardian, for the newest child: it fills the log and records a success, then exits. *)
Definition cargo_turn : Environment := fun _ w =>
  let quiet ns ps := mkEffect ns ps (w_locks w) (w_flag w) (w_pid w + 1) 1 in
  match w_log w with
  | EvSpawn pid argv :: _ =>
      match w_procs w !! pid, argument "--status" argv, argument "--stdout" argv with
      | Some p, Some status, Some out =>
          if bool_decide (is_Some (w_nodes w !! components status)) then
            quiet (w_nodes w) (<[pid := mkProcess (ps_group p) (ps_parent p) (Some (Exited 0))]> (w_procs w))
          else
            quiet (<[components status := File "done" 1000 384]>
                     (<[components out := File (if bool_decide ("bench" ∈ argv) then "messages" else "metadata") 1000 384]>
                       (w_nodes w))) (w_procs w)
      | _, _, _ => quiet (w_nodes w) (w_procs w)
      end
  | _ => quiet (w_nodes w) (w_procs w)
  end.
Definition demo_formats : CargoFormats := {|
  metadata_from_reader t := if bool_decide (t = "metadata") then Some demo_metadata else None;
  parse_stream t := if bool_decide (t = "messages")
    then [Some OtherMessage; Some (CompilerArtifact (mkTarget "wake" ["bench"] (Absolute ["repo"; "wake.rs"]))
            (Some (Absolute ["target"])) "b")]
    else [];
  build_status_to_vec _ := Some "done";
  build_status_from_slice _ := Some (mkBuildStatus (Some 0) None) |}.
Definition demo_receipts : ReceiptSerde := {|
  identity_to_vec _ := Some "id";
  receipt_to_vec_pretty _ := Some "receipt";
  receipt_from_slice _ := None |}.
Definition demo_temp : TempOs := fun n => ["tmp"; pretty (N.of_nat n)].
Definition build_proc : proc := mkProc 1000 1000 77 [] {["HOME" := "/home"]} ["benchctl"].
Definition build_start : world :=
  mkWorld (mkIo checkout (fun _ => None) 0 (fun l => l) 0 [] build_proc) 0 {[ 77 := mkProcess 77 1 None ]} ∅ false 100 ∅ [] 0.
Definition demo_build (receipt : rpath) : BuildRequest :=
  mkBuildRequest (Absolute ["repo"; "Cargo.toml"]) "wake" [] receipt 300000.
Definition run_demo_build (receipt : rpath) : option (result unit BenchError) * world :=
  @cargo_bench cargo_turn 10 demo_serde demo_receipts demo_commands demo_formats any_order demo_temp (demo_build receipt)
    build_start.
Lemma demo_run_ok : (run_demo_build (Absolute ["run"; "r.json"])).1 = Some (Ok tt).
Proof. by vm_compute. Qed.


(** A receipt named by a bare file name is published, and yet the build reports a failure: the directory
    to sync is the empty path, which cannot be opened. *)
Lemma bare_receipt_name_fails :
  (run_demo_build (Relative ["r.json"])).1 = Some (Err (Io "syncing state directory" NotFound)) /\
  w_nodes (run_demo_build (Relative ["r.json"])).2 !! ["r.json"] = Some (File "receipt" 1000 384).
Proof. by split; vm_compute. Qed.
