(* ===== verification/CargoGuardian.v ===== *)
(** * What cargo's guardian guarantees (build.rs: build_guardian, monitor_cargo, wait_for_cargo)

    The status record is written only when no process of cargo is left, and a guardian that
    ends without reporting a failed cleanup leaves none behind. *)

From stdpp Require Import pretty.
From S2P Require Import Prelude BenchFs Process ProcessProofs Journal Receipt Cpuidle Supervision SupervisionProofs Build.
Open Scope Z_scope.

Section guardian.
Context `{Environment} `{CargoFormats} (r : BuildGuardianRequest) (dir : path).

(** The files of the guardian's directory, and those that are writable there. *)
Abbreviation status_file := (dir ++ ["status.json"]).
Definition files_of : list string := ["ready"; "drain"; "status.json"].
Lemma files_ready : "ready" ∈ files_of. Proof. unfold files_of. set_solver. Qed.
Lemma files_status : "status.json" ∈ files_of. Proof. unfold files_of. set_solver. Qed.
Lemma files_dots n : n ∈ files_of -> n <> "..". Proof. unfold files_of. intros Hn ->. set_solver. Qed.
Record request_in : Prop := mkIn {
  ri_ready : bg_ready r = dir ++ ["ready"];
  ri_drain : bg_drain r = dir ++ ["drain"];
  ri_status : bg_status r = status_file;
}.

(** No process that the guardian started, nor any that one of them started in its group, is left. *)
Definition nothing_left (w : world) : Prop := forall g argv, EvSpawn g argv ∈ w_log w -> group_empty w g.

(** The directory is in shape, and a status record means that nothing is left. *)
Record cargo_world (w : world) : Prop := mkCargo {
  kw_dir : dir_path (w_nodes w) dir;
  kw_files n : n ∈ files_of -> regular (w_nodes w) (dir ++ [n]);
  kw_status : is_Some (w_nodes w !! status_file) -> nothing_left w;
}.
(** The other actors keep the directory in shape, forge no status record and do not reuse the group of a process the guardian
    started. *)
Record cargo_rely : Prop := mkCargoRely {
  ky_dir w : dir_path (w_nodes w) dir -> dir_path (w_nodes (env_turn w)) dir;
  ky_files w n : n ∈ files_of -> regular (w_nodes w) (dir ++ [n]) -> regular (w_nodes (env_turn w)) (dir ++ [n]);
  ky_status w : w_nodes w !! status_file = None -> w_nodes (env_turn w) !! status_file = None;
  ky_empty w g argv : EvSpawn g argv ∈ w_log w -> group_empty w g -> group_empty (env_turn w) g;
}.
Context (Hin : request_in) (Hrely : cargo_rely).

Lemma left_reap w pid st : nothing_left w ->
  nothing_left (set_procs (delete pid (w_procs w)) (set_reaped (<[pid := st]> (w_reaped w)) w)).
Proof. intros Hn g argv Hg. apply empty_reap. by apply (Hn g argv). Qed.

#[local] Instance quiet_cargo : Quiet cargo_world.
Proof.
  split.
  - intros w [A B C]. split; [by apply Hrely|intros n Hn; by apply Hrely, B|]. intros Hs g argv Hg.
    apply (ky_empty Hrely w g argv Hg). apply (C ltac:(destruct (w_nodes w !! status_file) eqn:E; [by eexists|];
      rewrite (ky_status Hrely w E) in Hs; by destruct Hs) g argv Hg).
  - intros t w [A B C] _. by split.
  - intros s w [A B C] [_ Hn]. split; cbn [w_io set_wio]; by rewrite Hn.
  - intros pid st w [A B C]. split; [done|done|]. intros Hs. by apply left_reap, C.
Qed.

(** Nothing recorded, and only [g] started. *)
Definition only (g : Z) (w : world) : Prop :=
  (exists argv, EvSpawn g argv ∈ w_log w) /\ forall g' argv, EvSpawn g' argv ∈ w_log w -> g' = g.
Definition unrecorded (w : world) : Prop := w_nodes w !! status_file = None.
#[local] Instance quiet_only g : Quiet (only g).
Proof. by split. Qed.
#[local] Instance quiet_unrecorded : Quiet unrecorded.
Proof.
  split; [apply Hrely|done| |done]. intros s w Hn [_ E]. unfold unrecorded. cbn [w_io set_wio]. by rewrite E.
Qed.
Definition started (g : Z) (w : world) : Prop := cargo_world w /\ only g w.
Definition pending (g : Z) (w : world) : Prop := started g w /\ unrecorded w.
#[local] Instance quiet_started g : Quiet (started g).
Proof. apply quiet_and; apply _. Qed.
#[local] Instance quiet_pending g : Quiet (pending g).
Proof. apply quiet_and; apply _. Qed.

(** A started group that is seen empty stays so. *)
Definition gone (g : Z) (w : world) : Prop := started g w /\ group_empty w g.
#[local] Instance quiet_gone g : Quiet (gone g).
Proof.
  split.
  - intros w [Hs He]. split; [by apply quiet_turn|]. destruct Hs as [_ [[argv Hg] _]].
    by apply (ky_empty Hrely w g argv).
  - intros t w [Hs He] Ht. split; [by apply quiet_now|done].
  - intros s w [Hs He] Hsame. split; [by apply quiet_io|done].
  - intros pid st w [Hs He]. split; [by apply quiet_reap|by apply empty_reap].
Qed.

Lemma only_left g w : only g w -> group_empty w g -> nothing_left w.
Proof. intros [_ Ho] He g' argv Hg. by rewrite (Ho g' argv Hg). Qed.
Lemma signal_cargo g sig w : cargo_world w -> cargo_world (log_event (EvSignal g sig) w).
Proof.
  intros [A B C]. split; [done|done|]. intros Hs g' argv Hg. apply elem_of_cons in Hg as [[=]|Hg].
  by apply (C Hs g' argv).
Qed.
Lemma signal_started g g' sig w : started g w -> started g (log_event (EvSignal g' sig) w).
Proof.
  intros [Hc [[argv0 Hin0] Ho]]. split; [by apply signal_cargo|]. split.
  { exists argv0. by apply list_elem_of_further. }
  intros g2 argv Hg. apply elem_of_cons in Hg as [[=]|Hg]. by apply (Ho g2 argv).
Qed.
Lemma signal_pending g g' sig w : pending g w -> pending g (log_event (EvSignal g' sig) w).
Proof. intros [Hs Hu]. split; [by apply signal_started|done]. Qed.

(** Writing one of the files. *)
Lemma cargo_write q c u m w s' :
  (forall n, w_nodes w !! q = Some n -> exists c' u' m', n = File c' u' m') \/ (exists n, q = dir ++ [n] /\ n ∈ files_of) ->
  (q = status_file -> w_nodes w !! status_file = None -> nothing_left w) ->
  cargo_world w -> io_nodes s' = <[q := File c u m]> (w_nodes w) -> cargo_world (set_wio s' w).
Proof.
  intros Hq Hst [A B C] Hn.
  assert (Hreg : forall n, w_nodes w !! q = Some n -> exists c' u' m', n = File c' u' m').
  { destruct Hq as [Hq|(n & -> & Hin')]; [done|by apply B]. }
  split; cbn [w_io set_wio]; rewrite Hn.
  - intros a x rest Ha. destruct (A a x rest Ha) as (Hx & u' & m' & Hd). split; [done|]. exists u', m'.
    rewrite lookup_insert_ne; [done|]. intros ->. by destruct (Hreg _ Hd) as (c2 & u2 & m2 & ?).
  - intros n Hn' x. rewrite lookup_insert_Some. intros [[_ <-]|[_ Hl]]; [eauto|by apply (B n Hn')].
  - intros Hs. destruct (decide (q = status_file)) as [Heq|Hne].
    + destruct (w_nodes w !! status_file) eqn:E; [by apply C; eexists|by apply Hst].
    + rewrite lookup_insert_ne in Hs by done. by apply C.
Qed.

Lemma wwp_atomic I `{!Quiet I} n b w (Q : result unit BenchError -> world -> Prop) :
  (forall w, I w -> cargo_world w) -> n ∈ files_of -> I w ->
  (forall u s', io_nodes s' = <[dir ++ [n] := File b u 384]> (w_nodes (env_turn w)) -> I (env_turn w) ->
     I (set_wio s' (env_turn w))) ->
  (forall res w', I w' -> Q res w') -> wwp I (wio (atomic_write (dir ++ [n]) b)) w Q.
Proof.
  intros HI Hn Hi Hw HQ. apply wwp_wio. pose proof (quiet_turn w Hi) as Ht. destruct (HI _ Ht) as [A B _].
  eapply iwp_mono; [apply atomic_write_spec; [done|by apply files_dots|]|].
  { intros u m Hd. by destruct (B n Hn _ Hd) as (c & u' & m' & ?). }
  intros res s' (Hk & Hor & _). assert (I (set_wio s' (env_turn w))); [|split; [done|by apply HQ]].
  destruct Hor as [Hs|Hs]; [apply quiet_io; [done|by split]|by eapply Hw].
Qed.

(** Draining cargo's group, with or without reaping its leader *)
Lemma wwp_terminate I `{!Quiet I} fuel g w (Q : result unit BenchError -> world -> Prop) :
  I w -> (forall s w, I w -> I (log_event (EvSignal g s) w)) -> (forall e w', I w' -> Q (Err e) w') ->
  (forall w', I w' -> group_empty w' g -> Q (Ok tt) w') -> wwp I (terminate_cargo_group fuel g) w Q.
Proof.
  intros Hi Hsig He Hok. unfold terminate_cargo_group. destruct (_ <? _); [by apply wwp_fail; [|apply He]|].
  apply (wwp_drain_group I); [done|done|done|by intros; apply Hsig|by intros; apply Hsig| | |by intros; apply He|by intros; apply He|done];
    intros v Hv; unfold poll_child; apply wwp_bind, (wwp_try_wait I); [done|by intros; apply He| |done|by intros; apply He|];
    intros o v' Hv' _; by apply wwp_ret.
Qed.
Lemma wwp_drain_cargo I `{!Quiet I} fuel g w (Q : result unit BenchError -> world -> Prop) :
  I w -> (forall s w, I w -> I (log_event (EvSignal g s) w)) -> (forall e w', I w' -> Q (Err e) w') ->
  (forall w', I w' -> group_empty w' g -> Q (Ok tt) w') -> wwp I (drain_cargo_group fuel g) w Q.
Proof.
  intros Hi Hsig He Hok.
  apply (wwp_drain_group I); [done|done|done|by intros; apply Hsig|by intros; apply Hsig| | |by intros; apply He|by intros; apply He|done];
    intros v Hv; by apply wwp_ret.
Qed.

Lemma pending_write g n b u w s' :
  n ∈ files_of -> n <> "status.json" -> pending g w ->
  io_nodes s' = <[dir ++ [n] := File b u 384]> (w_nodes w) -> pending g (set_wio s' w).
Proof.
  intros Hn Hne [[Hc Ho] Hu] Hs.
  assert (Hd : dir ++ [n] <> status_file) by (intros Heq; by apply app_inj_tail in Heq as [_ ?]).
  split; [split; [|done]|].
  - eapply cargo_write; [right; by exists n|by intros ?|done|done].
  - unfold unrecorded. cbn [w_io set_wio]. by rewrite Hs, lookup_insert_ne.
Qed.

(** The monitor: success means nothing is left. *)
Lemma wwp_monitor fuel g w :
  pending g w -> wwp (started g) (monitor_cargo fuel r g) w (fun res w' => res = Ok tt -> nothing_left w').
Proof.
  intros Hp. assert (Hps : forall w, pending g w -> started g w) by (by intros ? []).
  assert (Hpc : forall w, pending g w -> cargo_world w) by (by intros ? [[]]).
  unfold monitor_cargo. rewrite (ri_ready Hin), (ri_drain Hin), (ri_status Hin). apply wwp_bind.
  eapply wwp_mono; [apply (wwp_within (pending g) _ _ _ (fun res w' => pending g w') Hps), (wwp_atomic (pending g))|];
    [done|apply files_ready|done| |done|].
  { intros u s' Hs Ht. by eapply pending_write; [apply files_ready|done|exact Ht|exact Hs]. }
  intros [[]|e] w1 _ Hw1; [|done]. apply (wwp_repeat (started g) (pending g)); [done|done|]. clear w w1 Hp Hw1.
  intros w Hw. apply wwp_bind.
  eapply wwp_mono; [apply (wwp_within (pending g) _ _ _ (fun res w' => pending g w') Hps), (wwp_exists (pending g));
    [done|by intros]|].
  intros [drain|e] w1 _ Hw1; [|done]. apply wwp_bind.
  eapply wwp_mono; [apply (wwp_within (pending g) _ _ _ (fun res w' => pending g w') Hps)|].
  { destruct drain; [by apply wwp_ret|]. apply wwp_bind. unfold has_parent.
    apply wwp_act; [by apply quiet_turn|]. cbn [fst snd]. pose proof (quiet_turn w1 Hw1). by apply wwp_ret. }
  intros [stop|e] w2 _ Hw2; [|done]. destruct stop.
  - apply wwp_bind, (wwp_terminate (started g)); [by apply Hps|by intros; apply signal_started|done|].
    intros w3 Hw3 He. apply wwp_ret; [done|]. intros _. by apply (only_left g); [apply Hw3|].
  - apply wwp_bind. eapply wwp_mono;
      [apply (wwp_within (pending g) _ _ _ (fun res w' => pending g w') Hps), (wwp_try_wait (pending g)); [done|done|by intros]|].
    intros [[st|]|e] w3 _ Hw3; [| |done].
    2: { apply wwp_bind. eapply wwp_mono; [apply (wwp_within (pending g) _ _ _ (fun res w' => pending g w') Hps),
           (wwp_sleep (pending g)); [lia|done|by intros]|].
         intros [[]|e] w4 Hw4 Hq; [by apply wwp_ret|done]. }
    apply wwp_bind. eapply wwp_mono; [apply (wwp_within (pending g) _ _ _ (fun res w' => pending g w' /\
      (res = Ok tt -> group_empty w' g)) Hps), (wwp_drain_cargo (pending g)); [done|by intros; apply signal_pending|done|done]|].
    intros [[]|e] w4 _ [Hw4 He4]; [|done]. specialize (He4 eq_refl).
    destruct (build_status_to_vec _) as [b|]; [|by apply wwp_fail; [apply Hps|]].
    apply wwp_bind. eapply wwp_mono; [apply (wwp_within (gone g) (started g) _ _ (fun res w' => gone g w')); [by intros ? []|];
      apply (wwp_atomic (gone g)); [by intros ? [[]]|by apply files_status|by split; [apply Hps|]| |done]|].
    { intros u s' Hs [[Hc Ho] He]. split; [split; [|done]|done].
      eapply cargo_write; [right; exists "status.json"; by split; [|apply files_status]| |done|exact Hs].
      intros _ _. by apply (only_left g). }
    intros [[]|e] w5 Hw5 Hg; [|done]. apply wwp_ret; [done|]. intros _. by apply (only_left g); [apply Hw5|apply Hg].
Qed.

(** Before cargo is started *)
Definition unstarted (w : world) : Prop :=
  cargo_world w /\ unrecorded w /\ forall g argv, EvSpawn g argv ∉ w_log w.
#[local] Instance quiet_unstarted : Quiet unstarted.
Proof. apply quiet_and; [apply _|]. apply quiet_and; [apply _|]. by split. Qed.
Lemma unstarted_left w : unstarted w -> nothing_left w.
Proof. intros (_ & _ & Hn) g argv Hg. by destruct (Hn g argv). Qed.

Lemma unstarted_spawn g argv w : unstarted w -> pending g (spawned g argv w).
Proof.
  intros ([A B C] & Hu & Hn). assert (Hc : cargo_world (spawned g argv w)).
  { split; [done|done|]. intros [x Hx]. change (w_nodes w !! status_file = Some x) in Hx. by rewrite Hu in Hx. }
  split; [split; [done|split]|done].
  - exists argv. apply list_elem_of_here.
  - intros g' argv' Hg. apply elem_of_cons in Hg as [[= -> _]|Hg]; [done|]. by destruct (Hn g' argv').
Qed.

Lemma wwp_truncate op p w (Q : result unit BenchError -> world -> Prop) :
  unstarted w -> (forall res w', unstarted w' -> Q res w') -> wwp unstarted (wio (io_op op (sys_truncate p))) w Q.
Proof.
  intros Hi HQ. apply wwp_wio. pose proof (quiet_turn w Hi) as Ht. pose proof (quiet_syscall unstarted w Hi) as Hs.
  apply iwp_sys.
  - intros e _. split; [done|by apply HQ].
  - intros x s' Hx. cbn [io_nodes io_step] in Hx. destruct (resolve _ p) as [q|]; [|done].
    destruct (at_path _ q) as [[c u m|u m|t]|] eqn:Eq; simplify_eq.
    assert (Hq : w_nodes (env_turn w) !! q = Some (File c u m)).
    { unfold at_path in Eq. destruct (decide (q = [])) as [->|Hne]; [done|]. by rewrite bool_decide_false in Eq. }
    assert (unstarted (set_wio (io_set (<[q := File EmptyString u m]> (w_nodes (env_turn w))) (io_step (w_io (env_turn w))))
      (env_turn w))); [|split; [done|by apply HQ]].
    destruct Ht as (Hc & Hu & Hn). split; [|split; [|done]].
    + eapply cargo_write; [left; intros n Hl; rewrite Hq in Hl; injection Hl as <-; by eexists _, _, _| |done|done].
      intros _ _ g argv Hg. by destruct (Hn g argv).
    + unfold unrecorded. cbn [w_io set_wio io_set io_nodes]. rewrite lookup_insert_ne; [done|]. intros ->. unfold unrecorded in Hu.
      by rewrite Hu in Hq.
  - intros e s' He. assert (s' = io_step (w_io (env_turn w))) as ->; [|split; [done|by apply HQ]].
    destruct (resolve _ p) as [q|]; [|by simplify_eq]. by destruct (at_path _ q) as [[]|]; simplify_eq.
Qed.

Definition cleanup_failed : BenchError := State "Cargo guardian failed; cleanup also failed".
Definition pid_range : BenchError := State "Cargo PID is outside the process-group range".
Definition clean_exit (res : result unit BenchError) (w : world) : Prop :=
  res <> Err cleanup_failed -> res <> Err pid_range -> nothing_left w.

Lemma wwp_build_guardian fuel w :
  unstarted w -> wwp cargo_world (build_guardian fuel r) w clean_exit.
Proof.
  intros Hu. assert (Hc : forall w, unstarted w -> cargo_world w) by (by intros ? []).
  assert (Hclean : forall res w, unstarted w -> clean_exit res w) by (intros res v Hv _ _; by apply unstarted_left).
  unfold build_guardian. destruct (_ <? _); [by apply wwp_fail; [apply Hc|apply Hclean]|].
  apply wwp_bind. unfold has_parent. apply wwp_act; [by apply Hc, quiet_turn|]. cbn [fst snd].
  pose proof (quiet_turn w Hu) as Ht. destruct (negb _); [by apply wwp_ret; [apply Hc|apply Hclean]|].
  apply wwp_bind. eapply wwp_mono; [apply (wwp_within unstarted _ _ _ (fun res w' => unstarted w') Hc), wwp_truncate;
    [done|by intros]|].
  intros [[]|e] w1 _ Hw1; [|by apply Hclean].
  apply wwp_bind, (wwp_spawn unstarted); [apply _|exact Hc|done|by intros; apply Hclean|].
  intros w2 g Hw2. pose proof (unstarted_spawn g ("cargo" :: bg_cargo_arguments r) w2 Hw2) as Hp.
  split; [apply Hp|]. destruct (_ <? g); [apply wwp_fail; [apply Hp|by intros _ ?]|].
  apply wwp_bind, wwp_attempt. eapply wwp_mono; [apply (wwp_within (started g) _ _ _ (fun res w' => started g w' /\
    (res = Ok tt -> nothing_left w'))); [by intros ? []|]|].
  { destruct (wwp_monitor fuel g _ Hp) as [A B]. split; [exact A|]. destruct (monitor_cargo fuel r g _).1; [|done].
    split; [exact A|exact B]. }
  intros [[]|e] w3 _ [Hw3 Hok]; [by apply wwp_ret; [apply Hw3|intros _ _; apply Hok]|].
  apply wwp_bind, wwp_attempt. eapply wwp_mono; [apply (wwp_within (started g) _ _ _ (fun res w' => started g w' /\
    (res = Ok tt -> nothing_left w'))); [by intros ? []|]|].
  { apply (wwp_terminate (started g)); [done|by intros; apply signal_started|by intros|].
    intros w4 Hw4 He. split; [done|]. intros _. by apply (only_left g); [apply Hw4|]. }
  intros [[]|e2] w4 _ [Hw4 Hleft]; apply wwp_fail; try apply Hw4; [intros _ _; by apply Hleft|by intros ?].
Qed.
End guardian.

(** C22: Cargo's guardian proves what it reports. Beside any actors that keep its directory in shape, forge no status
    record and do not reuse its processes' groups, and whatever call fails: stopped at any point, the
    guardian never leaves a status record on disk while a process of the group it started for cargo
    is left; and when it ends, successfully or not, none is left, unless the error it ends with says that the cleanup
    failed or that the kernel gave a process number outside its range. *)
Theorem cargo_guardian_sound `{Environment} `{CargoFormats} (fuel : nat) (r : BuildGuardianRequest) (dir : path)
    (w : world) :
  request_in r dir -> cargo_rely dir -> unstarted dir w ->
  let '(o, w') := build_guardian fuel r w in
  (is_Some (w_nodes w' !! (dir ++ ["status.json"])) -> nothing_left w') /\
  (forall res, o = Some res -> res <> Err cleanup_failed -> res <> Err pid_range -> nothing_left w').
Proof.
  intros Hin Hrely Hu. destruct (wwp_build_guardian r dir Hin Hrely fuel w Hu) as [A B].
  destruct (build_guardian fuel r w) as [o w']. split; [apply A|]. intros res -> H1 H2. by apply B.
Qed.

(** ** Runs *)

(** Cargo, the guardian's child, exits at once. *)
Definition exit_child (me : Z) (p : process) : process :=
  if ps_parent p =? me then mkProcess (ps_group p) (ps_parent p) (Some (Exited 0)) else p.
Definition finishing : Environment := fun _ w =>
  mkEffect (w_nodes w) (exit_child 77 <$> w_procs w) (w_locks w) (w_flag w) (w_pid w + 1) 1.
Definition demo_guardian : BuildGuardianRequest :=
  mkBuildGuardian 50 ["tmp"; "ready"] ["tmp"; "drain"] ["tmp"; "status.json"] ["log"] ["repo"] ["bench"].
Definition guardian_nodes : nodes := {[ ["tmp"] := Dir 0 448; ["log"] := File "old" 0 384 ]}.
Definition guardian_world : world :=
  demo_world guardian_nodes {[ 50 := mkProcess 50 1 None; 77 := mkProcess 77 50 None ]}.
Definition status_format : CargoFormats := {|
  metadata_from_reader _ := None;
  parse_stream _ := [];
  build_status_to_vec _ := Some "0";
  build_status_from_slice _ := Some (mkBuildStatus (Some 0) None) |}.

Lemma guardian_unstarted : unstarted ["tmp"] guardian_world.
Proof.
  split; [split|split].
  - by eapply (dir_path_one _ "tmp" 0 448).
  - intros n Hn. apply (Forall_forall (fun n => regular guardian_nodes (["tmp"] ++ [n])) files_of); [|done].
    repeat constructor; intros x Hx; vm_compute in Hx; discriminate.
  - intros [n Hn]. vm_compute in Hn. discriminate.
  - done.
  - intros g argv Hg. by apply elem_of_nil in Hg.
Qed.
Lemma finishing_rely : @cargo_rely finishing ["tmp"].
Proof.
  split; try done. intros w g argv _ He pid p Hp. unfold env_turn, finishing, turn in Hp. cbn in Hp.
  rewrite lookup_fmap in Hp. destruct (w_procs w !! pid) as [p0|] eqn:E; [|done]. injection Hp as <-.
  specialize (He pid p0 E). unfold exit_child. by destruct (_ =? _).
Qed.

Lemma cargo_guardian_sound_witness :
  nothing_left (@build_guardian finishing 20 status_format demo_guardian guardian_world).2 /\
  is_Some (w_nodes (@build_guardian finishing 20 status_format demo_guardian guardian_world).2 !! ["tmp"; "status.json"]).
Proof.
  pose proof (@cargo_guardian_sound finishing status_format 20 demo_guardian ["tmp"] guardian_world
    (mkIn demo_guardian ["tmp"] eq_refl eq_refl eq_refl) finishing_rely guardian_unstarted) as Hs.
  assert (Hx : is_Some (w_nodes (@build_guardian finishing 20 status_format demo_guardian guardian_world).2
    !! ["tmp"; "status.json"])) by (apply (bool_decide_unpack _); vm_compute; reflexivity).
  destruct (@build_guardian finishing 20 status_format demo_guardian guardian_world) as [o w'].
  split; [exact (proj1 Hs Hx)|exact Hx].
Defined.

(** The guardian records cargo's status and exits between the coordinator's look for the record and its look at the
    guardian. *)
Definition racing : Environment := fun n w =>
  if bool_decide (n = 4%nat) then
    mkEffect (<[ ["tmp"; "status.json"] := File "0" 0 384 ]> (w_nodes w))
      (<[ 100 := mkProcess 100 77 (Some (Exited 0)) ]> (w_procs w)) (w_locks w) (w_flag w) (w_pid w) 1
  else mkEffect (w_nodes w) (w_procs w) (w_locks w) (w_flag w) (w_pid w) 1.
(** The coordinator then reports that the guardian ended without a record, although the record of a successful build
    is there. *)
Lemma cargo_status_race :
  let w := @wait_for_cargo racing 5 status_format 100 ["tmp"; "ready"] ["tmp"; "drain"] ["tmp"; "status.json"] 300000
    (demo_world guardian_nodes {[ 77 := mkProcess 77 1 None; 100 := mkProcess 100 77 None ]}) in
  w.1 = Some (Err early_exit) /\ is_Some (w_nodes w.2 !! ["tmp"; "status.json"]).
Proof. split; [by vm_compute|]. apply (bool_decide_unpack _). by vm_compute. Qed.
