(* ===== verification/Cli.v ===== *)
(** * The command line and the exit status (tools/benchctl/src/cli.rs, lib.rs, main.rs)

    clap's parser is a parameter ([ClapParser]); what the commands do with its values, and what the process prints and
    returns, is modelled. The commands of cpuidle.rs run with the supervision of supervision.rs,
    which continues from the world in which the command is. *)

From stdpp Require Import pretty.
From Stdlib Require Import Ascii.
From S2P Require Import Prelude BenchFs Process ProcessProofs Journal Receipt Cpuidle CpuidleProofs.
From S2P Require Import CpuidleSafety RunSafety Supervision RunComposed Build.
Open Scope Z_scope.

(** ** The arguments *)

Record CargoBenchArgs := mkCargoBench {
  cb_manifest_path : rpath;
  cb_bench : string;
  cb_features : list string;
  cb_receipt : rpath;
  cb_timeout : Z;
}.
Inductive CpuIdlePolicy := PollC1.
Record RunArgs := mkRunArgs {
  ra_receipt : rpath;
  ra_operation_id : option string;
  ra_cpuidle : CpuIdlePolicy;
  ra_cpus : list N;
  ra_timeout : Z;
  ra_sysfs_root : rpath;
  ra_state_root : rpath;
  ra_coordinator : bool;
  ra_client_pid : option Z;
  ra_workload : list string;
}.
Record ControlArgs := mkControlArgs {
  ca_operation_id : option string;
  ca_sysfs_root : rpath;
  ca_state_root : rpath;
  ca_coordinator : bool;
}.
Record WorkloadArgs := mkWorkloadArgs {
  wa_go : rpath;
  wa_status : rpath;
  wa_receipt : rpath;
  wa_executable : rpath;
  wa_operation_id : string;
  wa_coordinator_pid : Z;
  wa_uid : Z;
  wa_gid : Z;
  wa_production_control : bool;
  wa_workload : list string;
}.
Record GuardianArgs := mkGuardianArgs {
  ga_coordinator_pid : Z;
  ga_pgid : Z;
  ga_active_lock : rpath;
  ga_ready : rpath;
  ga_drain : rpath;
  ga_drained : rpath;
}.
Record BuildGuardianArgs := mkBuildGuardianArgs {
  ba_coordinator_pid : Z;
  ba_ready : rpath;
  ba_drain : rpath;
  ba_status : rpath;
  ba_stdout : rpath;
  ba_repository : rpath;
  ba_cargo_arguments : list string;
}.

Inductive Command :=
| CommandBuild (value : CargoBenchArgs)
| CommandRun (value : RunArgs)
| CommandStatus (value : ControlArgs)
| CommandRecover (value : ControlArgs)
| CommandWorkload (value : WorkloadArgs)
| CommandGuardian (value : GuardianArgs)
| CommandBuildGuardian (value : BuildGuardianArgs).

(** clap: the command of the arguments, or the rendering of its error *)
Class ClapParser := try_parse_from : list string -> result Command string.
(** [Display] of the errors that are not this program's: of the standard library and of serde_json *)
Class ForeignDisplay := {
  io_display : io_error -> string;
  json_display : string -> string;
}.

(** [Display] of [BenchError] *)
Definition bench_message `{ForeignDisplay} (e : BenchError) : string :=
  match e with
  | Usage s => "invalid request: " +:+ s
  | Preflight s => "preflight rejected the operation: " +:+ s
  | RequestConflict operation_id => "operation " +:+ operation_id +:+ " conflicts with its recorded request"
  | RecoveryRequired operation_id => "operation " +:+ operation_id +:+ " needs explicit recovery"
  | RestoreConflictError p expected actual =>
      "cpuidle restore conflict at " +:+ display p +:+ ": expected current " +:+ expected +:+ ", found " +:+ actual
  | State s => "operation state is unavailable: " +:+ s
  | Workload s => "workload failed: " +:+ s
  | Io operation source => "I/O during " +:+ operation +:+ ": " +:+ io_display source
  | Json operation => "JSON during " +:+ operation +:+ ": " +:+ json_display operation
  end.

(** ** Dispatch *)

Definition build_request (value : CargoBenchArgs) : BuildRequest :=
  mkBuildRequest (cb_manifest_path value) (cb_bench value) (cb_features value) (cb_receipt value)
    (cb_timeout value * 1000).
Definition run_request (value : RunArgs) : RunRequest rpath :=
  mkRun (ra_operation_id value) (ra_receipt value) (ra_cpus value) (ra_timeout value) (ra_workload value)
    (ra_sysfs_root value) (ra_state_root value) (ra_coordinator value) (ra_client_pid value).
Definition control_request (value : ControlArgs) : ControlRequest :=
  mkControl (ca_operation_id value) (ca_sysfs_root value) (ca_state_root value) (ca_coordinator value).
Definition supervisor_request (cwd : path) (value : WorkloadArgs) : SupervisorRequest :=
  mkSupervisor (at_cwd cwd (wa_go value)) (at_cwd cwd (wa_status value)) (at_cwd cwd (wa_receipt value))
    (at_cwd cwd (wa_executable value)) (wa_operation_id value) (wa_coordinator_pid value) (wa_uid value)
    (wa_gid value) (wa_workload value) (wa_production_control value).
Definition guardian_of (cwd : path) (value : GuardianArgs) : GuardianRequest :=
  mkGuardian (ga_coordinator_pid value) (ga_pgid value) (at_cwd cwd (ga_active_lock value))
    (at_cwd cwd (ga_ready value)) (at_cwd cwd (ga_drain value)) (at_cwd cwd (ga_drained value)).
Definition build_guardian_of (cwd : path) (value : BuildGuardianArgs) : BuildGuardianRequest :=
  mkBuildGuardian (ba_coordinator_pid value) (at_cwd cwd (ba_ready value)) (at_cwd cwd (ba_drain value))
    (at_cwd cwd (ba_status value)) (at_cwd cwd (ba_stdout value)) (at_cwd cwd (ba_repository value))
    (ba_cargo_arguments value).

Section cli.
Context `{Environment} (fuel : nat).
Context `{Serde} `{ReceiptSerde} `{GitOs} `{BenchOs} `{SupervisionSerde} `{PipeOs}.
Context `{CommandOs} `{CargoFormats} `{HashOrder} `{TempOs} `{ClapParser} `{ForeignDisplay}.

(** A command of cpuidle.rs in a world *)
Definition with_supervision (command : SupervisionOps -> IO unit) : W unit := fun w =>
  wio (command (supervision_ops fuel (fun s => set_wio s (env_turn w)))) w.

Definition dispatch (command : Command) : W unit :=
  cwd ← wget (fun w => pr_cwd (io_proc (w_io w)));
  match command with
  | CommandBuild value => cargo_bench fuel (build_request value)
  | CommandRun value => with_supervision (fun _ => Cpuidle.run (run_request value))
  | CommandStatus value => with_supervision (fun _ => Cpuidle.status (control_request value))
  | CommandRecover value => with_supervision (fun _ => Cpuidle.recover (control_request value))
  | CommandWorkload value => workload_supervisor fuel (supervisor_request cwd value)
  | CommandGuardian value => guardian fuel (guardian_of cwd value)
  | CommandBuildGuardian value => build_guardian fuel (build_guardian_of cwd value)
  end.

Definition cli_run (arguments : list string) : W unit :=
  match try_parse_from arguments with
  | Err error => fail (Usage error)
  | Ok command => dispatch command
  end.

(** The exit status, and what is printed to the standard error *)
Definition run_from (arguments : list string) : world -> option (Z * list string) * world := fun w =>
  match cli_run arguments w with
  | (Some (Ok tt), w') => (Some (0, []), w')
  | (Some (Err error), w') =>
      (Some (exit_code error, ["benchctl: " +:+ bench_message error; "retry: " +:+ retry_advice error]), w')
  | (None, w') => (None, w')
  end.
End cli.

(** ** Which errors are workload failures

    [mild m]: whatever fails, [m] does not end with a workload failure. *)

Definition mild {A} (m : IO A) : Prop := forall s x, (m s).1 <> Err (Workload x).

Lemma mild_bind {A B} (m : IO A) (k : A -> IO B) : mild m -> (forall x, mild (k x)) -> mild (mbind k m).
Proof.
  intros Hm Hk s x. unfold mbind, IO_bind. specialize (Hm s x). destruct (m s) as [[y|e] s']; [apply Hk|].
  intros [= ->]. by destruct Hm.
Qed.
Lemma mild_ret {A} (y : A) : mild (mret y). Proof. by intros s x. Qed.
Lemma mild_throw {A} e : exit_code e <> 1 -> mild (throw (A := A) e).
Proof. intros He s x [= ->]. by destruct He. Qed.
Lemma mild_op {A} op (m : sys A) : mild (io_op op m).
Proof. intros s x. unfold io_op. by destruct (m s) as [[]]. Qed.
Lemma mild_exists p : mild (sys_exists p).
Proof. intros s x. unfold sys_exists. by destruct (syscall _ s) as [[]]. Qed.
Lemma mild_try {A} (m : IO A) : mild (try m).
Proof. intros s x. unfold try. by destruct (m s). Qed.
Lemma mild_get {A} (f : proc -> A) : mild (get_proc f). Proof. by intros s x. Qed.
Lemma mild_now : mild now_millis. Proof. by intros s x. Qed.
Create HintDb mild.
#[export] Hint Resolve mild_ret mild_op mild_exists mild_try mild_get mild_now : mild.
Ltac mild_tac := repeat first
  [ progress intros | progress cbv beta zeta | solve [eauto with mild] | solve [apply mild_throw; discriminate]
  | apply mild_bind | case_match ].

Section mild.
Context `{Serde}.

Lemma mild_atomic_write p b : mild (atomic_write p b).
Proof. unfold atomic_write. mild_tac. Qed.
Lemma mild_transition st a j : mild (transition st a j).
Proof. unfold transition. mild_tac. Qed.
Lemma mild_actor : mild actor.
Proof. unfold actor. mild_tac. Qed.
#[local] Hint Resolve mild_atomic_write mild_transition mild_actor : mild.
Lemma mild_store p j : mild (store_journal p j).
Proof.
  assert (Hv : forall x, validate j <> Err (Workload x)).
  { intros x. unfold validate, digest. repeat case_match; by simplify_eq. }
  unfold store_journal. mild_tac; intros s x; apply Hv.
Qed.
#[local] Hint Resolve mild_store : mild.
Lemma mild_read_trimmed p op : mild (read_trimmed p op).
Proof. unfold read_trimmed. mild_tac. Qed.
#[local] Hint Resolve mild_read_trimmed : mild.
Lemma mild_read_bit p : mild (read_bit p).
Proof. unfold read_bit. mild_tac. Qed.
Lemma mild_write_bit p b : mild (write_bit p b).
Proof. unfold write_bit. mild_tac. Qed.
Lemma mild_reject p : mild (reject_symlink p).
Proof. unfold reject_symlink. mild_tac. Qed.
#[local] Hint Resolve mild_read_bit mild_write_bit mild_reject : mild.
Lemma mild_item cpu root i : mild (inventory_item cpu root i).
Proof. unfold inventory_item. mild_tac. Qed.
#[local] Hint Resolve mild_item : mild.
Lemma mild_items cpu root items a b es : mild (inventory_items cpu root items a b es).
Proof. revert a b es. induction items as [|i items IH]; intros a b es; cbn [inventory_items]; mild_tac; apply IH. Qed.
#[local] Hint Resolve mild_items : mild.
Lemma mild_inventory d cpus : mild (inventory d cpus).
Proof. induction cpus as [|c cpus IH]; cbn [inventory]; unfold inventory_cpu; mild_tac. Qed.
#[local] Hint Resolve mild_inventory : mild.
Lemma mild_validate d es : mild (validate_inventory d es).
Proof. unfold validate_inventory. mild_tac. Qed.
#[local] Hint Resolve mild_validate : mild.
Lemma mild_apply d es : mild (apply d es).
Proof.
  assert (Hes : forall l, mild (apply_entries l)) by (induction l; cbn [apply_entries]; mild_tac).
  unfold apply. mild_tac.
Qed.
Lemma mild_conflict {A} p j q e c : mild (restore_conflict (A := A) p j q e c).
Proof. unfold restore_conflict. mild_tac. Qed.
#[local] Hint Resolve mild_conflict : mild.
Lemma mild_restore d p j : mild (restore d p j).
Proof.
  assert (H1 : forall j es, mild (check_entries p j es)) by (intros j0 es; induction es; cbn [check_entries]; mild_tac).
  assert (H2 : forall j es, mild (restore_entries p j es)) by (intros j0 es; induction es; cbn [restore_entries]; mild_tac).
  assert (H3 : forall j es, mild (verify_entries p j es)) by (intros j0 es; induction es; cbn [verify_entries]; mild_tac).
  unfold restore. mild_tac.
Qed.
End mild.
#[export] Hint Resolve mild_atomic_write mild_transition mild_actor mild_store mild_apply mild_restore : mild.

(** The same for programs over worlds *)
Definition mild_run {A} (m : W A) : Prop := forall w x, (m w).1 <> Some (Err (Workload x)).

Lemma mild_run_bind {A B} (m : W A) (k : A -> W B) : mild_run m -> (forall x, mild_run (k x)) -> mild_run (mbind k m).
Proof.
  intros Hm Hk w x. unfold mbind, W_bind. specialize (Hm w x). destruct (m w) as [[[y|e]|] w']; [apply Hk| |done].
  intros [= ->]. by destruct Hm.
Qed.
Lemma mild_run_ret {A} (y : A) : mild_run (mret y). Proof. by intros w x. Qed.
Lemma mild_run_fail {A} e : exit_code e <> 1 -> mild_run (fail (A := A) e).
Proof. intros He w x [= ->]. by destruct He. Qed.
Lemma mild_run_repeat {A} n (body : W (option A)) : mild_run body -> mild_run (repeat_until n body).
Proof. intros Hb. induction n as [|n IH]; [by intros w x|]. cbn [repeat_until]. apply mild_run_bind; [done|]. by intros [y|]. Qed.
Lemma mild_run_attempt {A} (m : W A) : mild_run (attempt m).
Proof. intros w x. unfold attempt. by destruct (m w) as [[]]. Qed.
Lemma mild_run_caught {A B} (m : W A) (k : result A BenchError -> W B) :
  mild_run m -> (forall r, (forall x, r <> Err (Workload x)) -> mild_run (k r)) -> mild_run (mbind k (attempt m)).
Proof.
  intros Hm Hk w x. unfold mbind, W_bind, attempt. specialize (Hm w). destruct (m w) as [[r|] w']; [|done].
  apply Hk. intros y ->. by destruct (Hm y).
Qed.
Lemma mild_run_get {A} (f : world -> A) : mild_run (wget f). Proof. by intros w x. Qed.

Section mild_runs.
Context `{Environment}.
Lemma mild_run_act {A} (f : world -> result A BenchError * world) :
  (forall w x, (f w).1 <> Err (Workload x)) -> mild_run (act f).
Proof.
  intros Hf w x. unfold act. specialize (Hf (env_turn w) x). destruct (f (env_turn w)) as [r w'].
  intros [= ->]. by destruct Hf.
Qed.
Lemma mild_run_wio {A} (m : IO A) : mild m -> mild_run (wio m).
Proof. intros Hm. apply mild_run_act. intros w x. specialize (Hm (w_io w) x). by destruct (m (w_io w)). Qed.
Lemma mild_run_pcall {A} op (f : world -> result A io_error * world) : mild_run (pcall op f).
Proof. apply mild_run_act. intros w x. destruct (io_faults _ _); [done|]. by destruct (f _) as [[]]. Qed.
Lemma mild_run_killpg op g sig : mild_run (killpg op g sig).
Proof. apply mild_run_act. intros w x. destruct (io_faults _ _); [done|]. cbv zeta. by destruct (group_emptyb _ _). Qed.
Lemma mild_run_now : mild_run instant_now. Proof. by apply mild_run_act. Qed.
Lemma mild_run_sleep ms : mild_run (sleep ms). Proof. by apply mild_run_act. Qed.
Lemma mild_run_flag : mild_run flag_load. Proof. by apply mild_run_act. Qed.
Lemma mild_run_forever {A} : mild_run (sleep_forever (A := A)). Proof. by intros w x. Qed.
Lemma mild_run_spawn op argv : mild_run (spawn op argv). Proof. apply mild_run_pcall. Qed.
Lemma mild_run_try_wait op pid : mild_run (try_wait op pid). Proof. apply mild_run_pcall. Qed.
End mild_runs.
#[export] Hint Resolve mild_run_ret mild_run_attempt mild_run_get mild_run_killpg mild_run_now mild_run_sleep
  mild_run_flag mild_run_forever mild_run_spawn mild_run_try_wait mild_run_pcall mild_run_repeat mild_run_wio : mild.
Ltac mild_run_tac := repeat first
  [ progress intros | progress cbv beta zeta | solve [eauto with mild] | solve [apply mild_run_fail; discriminate]
  | apply mild_run_bind | apply mild_run_repeat | apply mild_run_wio; solve [mild_tac] | case_match ].

Section mild_coordinate.
Context `{Environment} (fuel : nat) `{SupervisionSerde}.

Lemma mild_drain n a b c r1 r2 x y g : mild_run r1 -> mild_run r2 -> mild_run (drain_group n a b c r1 r2 x y g).
Proof. intros H1 H2. unfold drain_group, drain_loop, elapsed. mild_run_tac. Qed.
Lemma mild_terminate g l : mild_run (terminate_and_drain fuel g) /\ mild_run (terminate_and_reap_group fuel g l).
Proof. split; apply mild_drain; unfold reap_leader; mild_run_tac. Qed.
Lemma mild_read_status p : mild (read_status p).
Proof. unfold read_status. mild_tac. Qed.
Lemma mild_store_outcome p o : mild (store_outcome p o).
Proof. unfold store_outcome. mild_tac. Qed.
Lemma mild_current_exe : mild current_exe. Proof. apply mild_op. Qed.
Lemma mild_absolute p : mild (absolute p). Proof. unfold absolute. mild_tac. Qed.
#[local] Hint Resolve mild_read_status mild_store_outcome mild_current_exe mild_absolute : mild.
Lemma mild_ready p g s q : mild_run (wait_for_ready fuel p g s q).
Proof. pose proof (mild_terminate q s) as []. unfold wait_for_ready, elapsed, wexists. mild_run_tac. Qed.
Lemma mild_drained p g s : mild_run (wait_for_drained fuel p g s).
Proof. unfold wait_for_drained, elapsed, wexists. mild_run_tac. Qed.
Lemma mild_watch p t t0 g s : mild_run (watch_outcome fuel p t t0 g s).
Proof. pose proof (mild_terminate s s) as []. unfold watch_outcome, elapsed. mild_run_tac. Qed.
#[local] Hint Resolve mild_ready mild_drained mild_watch : mild.

Lemma mild_coordinate r : mild_run (coordinate fuel r).
Proof.
  unfold coordinate. pose proof (fun s => mild_terminate s s) as Ht.
  assert (H1 : forall a b c d, mild_run (drain_and_reap fuel a b c d)).
  { unfold drain_and_reap, wait_child. mild_run_tac. }
  assert (H2 : mild_run (outcome_ready_seam r)) by (unfold outcome_ready_seam; mild_run_tac).
  assert (H3 : forall v, mild_run (cancellation_flag v)) by (unfold cancellation_flag, fd_call; mild_run_tac).
  assert (H4 : forall g (k : W Outcome), mild_run k -> mild_run (_ ← terminate_and_reap_group fuel g g; k)).
  { intros g k Hk. apply mild_run_bind; [apply Ht|done]. }
  cbv zeta. do 4 (apply mild_run_bind; [solve [mild_run_tac]|intros ?]). case_match; [by apply mild_run_fail|].
  apply mild_run_caught; [apply mild_run_spawn|]. intros [g|e] He; [mild_run_tac|].
  apply H4, mild_run_fail. destruct e; try discriminate. by destruct (He s).
Qed.
Lemma mild_run_world {A} launch (m : W A) : mild_run m -> mild (run_world launch m).
Proof.
  intros Hm s x. unfold run_world. specialize (Hm (set_wio s (launch s)) x). destruct (m _) as [[r|] w']; [|done].
  intros [= ->]. by destruct Hm.
Qed.
End mild_coordinate.

(** A supervision that reports a workload's failure as an outcome, never as an error of its own *)
Class MildSupervision `{SupervisionOps} := {
  coordinate_mild r : mild (Cpuidle.coordinate r);
  recover_mild d id : mild (Cpuidle.recover_outcome d id);
  cleanup_mild d id : mild (Cpuidle.cleanup_runtime d id);
}.
(** supervision.rs is one. *)
#[export] Instance supervision_mild `{Environment} `{SupervisionSerde} (fuel : nat) (launch : iost -> world) :
  @MildSupervision (supervision_ops fuel launch).
Proof.
  split.
  - intros r. apply mild_run_world, mild_coordinate.
  - intros d id. cbn. unfold recover_outcome, read_status. mild_tac.
  - intros d id. cbn. unfold cleanup_runtime. mild_tac.
Qed.

Lemma mild_caught {A B} (m : IO A) (k : result A BenchError -> IO B) :
  mild m -> (forall r, (forall x, r <> Err (Workload x)) -> mild (k r)) -> mild (mbind k (try m)).
Proof.
  intros Hm Hk s x. unfold mbind, IO_bind, try. specialize (Hm s). destruct (m s) as [r s'].
  apply Hk. intros y ->. by destruct (Hm y).
Qed.
Lemma mild_rethrow {A} (e : BenchError) : (forall x, Err (T := A) e <> Err (Workload x)) -> mild (throw (A := A) e).
Proof. intros He. by intros s x [= ->]; destruct (He x). Qed.

Lemma mild_run_restored `{Serde} `{SO : SupervisionOps} `{!MildSupervision} r p id a b ar ae watch j :
  mild (run_restored r p id a b ar ae watch j).
Proof.
  pose proof coordinate_mild as H1. pose proof recover_mild as H2. pose proof cleanup_mild as H3.
  assert (Hr : forall j, mild (reconcile_runtime_outcome (rr_state_root r) p j))
    by (intros j0; unfold reconcile_runtime_outcome; mild_tac).
  assert (He : forall A B (e : BenchError), (forall x, Err (T := A) e <> Err (Workload x)) -> mild (throw (A := B) e)).
  { intros A B e He s x [= ->]. by destruct (He x). }
  unfold run_restored. apply mild_caught; [eauto with mild|]. intros [[]|e] Happ.
  - do 4 (apply mild_bind; [eauto with mild|intros ?]). apply mild_caught; [apply H1|]. intros [o|e] Hc; [mild_tac|].
    do 4 (apply mild_bind; [eauto with mild|intros ?]). by apply (He Outcome).
  - apply mild_bind; [eauto with mild|]. intros [?|?]; [by apply (He unit)|by apply mild_throw].
Qed.


(** A workload that fails *)
Definition failing_workload : SupervisionOps := {|
  Cpuidle.require_inactive _ := mret tt;
  Cpuidle.client_watch _ := mret None;
  Cpuidle.coordinate _ := mret (O_Failed "exit code 3");
  Cpuidle.recover_outcome _ _ := mret None;
  Cpuidle.cleanup_runtime _ _ := mret tt |}.
Lemma failing_mild : @MildSupervision failing_workload.
Proof. split; intros; by intros s x. Qed.

Lemma failing_frame P root id : @SupervisionFrame failing_workload P (fun _ => True) root id.
Proof. split; try done; intros; by intros s. Qed.

Definition exit_3 : TerminalOutcome := TO_Failed "exit code 3".


(** Every end of the process is reported once. The process exits with 0 exactly when its command succeeded, and then
    prints no error; otherwise it prints the error and the advice for it, and exits with 1 for a workload
    failure and with 2 for everything else, arguments that do not parse included. *)
Theorem exit_status_exact `{Environment} `{Serde} `{ReceiptSerde} `{GitOs} `{BenchOs} `{SupervisionSerde} `{PipeOs}
    `{CommandOs} `{CargoFormats} `{HashOrder} `{TempOs} `{ClapParser} `{ForeignDisplay}
    (fuel : nat) (arguments : list string) (w : world) :
  let '(o, w') := run_from fuel arguments w in
  match o with
  | None => (cli_run fuel arguments w).1 = None
  | Some (code, lines) =>
      (code = 0 <-> (cli_run fuel arguments w).1 = Some (Ok tt)) /\
      (code = 1 <-> exists s, (cli_run fuel arguments w).1 = Some (Err (Workload s))) /\
      (code = 0 /\ lines = [] \/ exists e, (cli_run fuel arguments w).1 = Some (Err e) /\ code = exit_code e /\
         lines = ["benchctl: " +:+ bench_message e; "retry: " +:+ retry_advice e]) /\
      (forall error, try_parse_from arguments = Err error -> code = 2 /\ w' = w /\
         head lines = Some ("benchctl: invalid request: " +:+ error))
  end.
Proof.
  unfold run_from. destruct (cli_run fuel arguments w) as [[[[]|e]|] w'] eqn:E; [..|done].
  - split; [done|]. split; [split; [done|by intros [s [=]]]|]. split; [by left|].
    intros error Hp. unfold cli_run in E. by rewrite Hp in E.
  - split; [by split; destruct e|]. split; [split; [destruct e; try done; by eexists|by intros [s [= ->]]]|].
    split; [right; by exists e|]. intros error Hp. unfold cli_run in E. rewrite Hp in E. injection E as <- <-. done.
Qed.
