(* ===== verification/Platform.v ===== *)
(** * The benchmark's view of the machine (benches/support/platform.rs)

    Which CPUs there are and which roles they take, the cpuidle policy that an official run requires, the
    affinity mask, and the descriptions of a CPU. The benchmark reads the same sysfs files as
    benchctl, by code of its own. The system calls are those of [BenchFs]. *)

From stdpp Require Import pretty sorting.
From Stdlib Require Import Ascii.
From S2P Require Import Prelude BenchFs Pure ControlProof Journal Cpuidle.
Open Scope Z_scope.

(** ** Programs: [Result<T, Box<dyn Error>>] with effects *)

(** What is boxed: a message, an I/O error, a number or a CPU list that does not parse. *)
Inductive any_error :=
| AnyMessage (message : string)
| AnyIo (source : io_error)
| AnyParseInt
| AnyCpuList (source : CpuListError).

Definition PB (A : Type) : Type := iost -> result A any_error * iost.
#[export] Instance PB_ret : MRet PB := fun A x s => (Ok x, s).
#[export] Instance PB_bind : MBind PB := fun A B k m s =>
  match m s with
  | (Ok x, s') => k x s'
  | (Err e, s') => (Err e, s')
  end.
Definition message {A} (text : string) : PB A := fun s => (Err (AnyMessage text), s).
Definition from_result {A} (r : result A any_error) : PB A := fun s => (r, s).
Definition any_io {A} (m : sys A) : PB A := fun s =>
  match m s with
  | (Ok x, s') => (Ok x, s')
  | (Err e, s') => (Err (AnyIo e), s')
  end.
(** [Path::is_dir] and [Path::exists]: an error reads as no. *)
Definition sys_stat (p : path) : sys node := syscall (fun s => (ok_or (stat (io_nodes s) p) NotFound, s)).
Definition is_dir_at (p : path) : PB bool := fun s =>
  match sys_stat p s with
  | (Ok (Dir _ _), s') => (Ok true, s')
  | (_, s') => (Ok false, s')
  end.
Definition exists_at_any (p : path) : PB bool := fun s =>
  match sys_stat p s with
  | (Ok _, s') => (Ok true, s')
  | (Err _, s') => (Ok false, s')
  end.

Definition platform_read_trimmed (p : path) : PB string := v ← any_io (sys_read p); mret (trim v).

(** [to_ascii_uppercase] *)
Definition upper_char (c : ascii) : ascii :=
  let n := N_of_ascii c in if (97 <=? n)%N && (n <=? 122)%N then ascii_of_N (n - 32) else c.
Fixpoint to_ascii_uppercase (s : string) : string :=
  match s with EmptyString => EmptyString | String c r => String (upper_char c) (to_ascii_uppercase r) end.

Definition parse_u32 (s : string) : result N any_error :=
  match parse_unsigned u32_max s with Some n => Ok (Z.to_N n) | None => Err AnyParseInt end.

(** ** Topology *)

Definition CPU_SET_BITS : N := 1024.
Definition CPU_SET_WORDS : nat := 16.

Record CpuInfo := mkCpuInfo {
  ci_cpu : N;
  ci_package : N;
  ci_core : N;
  ci_siblings : gset N;
}.
Record Topology := mkTopology {
  tp_waiter : N;
  tp_victim : N;
  tp_producer : N;
  tp_controller : N;
  tp_cpus : gmap N CpuInfo;
  tp_sysfs_root : path;
}.
Record CpuIdleState := mkIdleState {
  is_cpu : N;
  is_name : string;
  is_disabled : bool;
}.

(** The order of a BTreeSet and of a BTreeMap's values *)
Definition ascending_cpus (X : gset N) : list N := merge_sort N.le (elements X).
Definition cpu_values (cpus : gmap N CpuInfo) : list CpuInfo := omap (fun cpu => cpus !! cpu) (ascending_cpus (dom cpus)).

Definition same_core (left right : CpuInfo) : bool :=
  (ci_package left =? ci_package right)%N && (ci_core left =? ci_core right)%N.

Definition selected (t : Topology) : list N := [tp_waiter t; tp_victim t; tp_producer t; tp_controller t].

Definition choose_roles (cpus : gmap N CpuInfo) : result (N * N * N * N) any_error :=
  match List.find (fun c => 2 <=? Z.of_nat (size (ci_siblings c))) (cpu_values cpus) with
  | None => Err (AnyMessage "no online SMT sibling pair was found")
  | Some waiter =>
      match List.find (fun cpu => negb (cpu =? ci_cpu waiter)%N && bool_decide (is_Some (cpus !! cpu)))
              (ascending_cpus (ci_siblings waiter)) with
      | None => Err (AnyMessage "the waiter sibling is not online")
      | Some victim =>
          match List.find (fun c => (ci_package c =? ci_package waiter)%N && negb (same_core c waiter))
                  (cpu_values cpus) with
          | None => Err (AnyMessage "no separate physical core is available for the producer")
          | Some producer =>
              match List.find (fun c => (ci_package c =? ci_package waiter)%N && negb (same_core c waiter)
                                        && negb (same_core c producer)) (cpu_values cpus) with
              | None => Err (AnyMessage "no third physical core is available for the controller")
              | Some controller => Ok (ci_cpu waiter, victim, ci_cpu producer, ci_cpu controller)
              end
          end
      end
  end.

(** The loop over the selected CPUs *)
Fixpoint validate_assigned (cpus : gmap N CpuInfo) (l : list N) (assigned : gset N) : result unit any_error :=
  match l with
  | [] => Ok tt
  | cpu :: l =>
      if (CPU_SET_BITS <=? cpu)%N
      then Err (AnyMessage ("CPU " +:+ pretty cpu +:+ " exceeds the Linux affinity mask limit"))
      else if negb (bool_decide (is_Some (cpus !! cpu)))
      then Err (AnyMessage ("CPU " +:+ pretty cpu +:+ " is not online in the selected sysfs tree"))
      else if bool_decide (cpu ∈ assigned)
      then Err (AnyMessage ("CPU " +:+ pretty cpu +:+ " is assigned to more than one role"))
      else validate_assigned cpus l ({[cpu]} ∪ assigned)
  end.

(** [self.cpus[&cpu]] panics on a CPU that is not there; the loop has looked at all four. *)
Definition topology_validate (t : Topology) : result unit any_error :=
  match validate_assigned (tp_cpus t) (selected t) ∅ with
  | Err e => Err e
  | Ok _ =>
      match tp_cpus t !! tp_waiter t, tp_cpus t !! tp_victim t, tp_cpus t !! tp_producer t,
            tp_cpus t !! tp_controller t with
      | Some waiter, Some victim, Some producer, Some controller =>
          if negb (same_core waiter victim) then Err (AnyMessage "waiter and victim must be SMT siblings")
          else if existsb (fun c => negb (ci_package c =? ci_package waiter)%N) [victim; producer; controller]
          then Err (AnyMessage "all benchmark roles must use one physical CPU package")
          else if same_core waiter producer || same_core waiter controller || same_core producer controller
          then Err (AnyMessage
            "producer and controller must each use a physical core separate from the waiter")
          else Ok tt
      | _, _, _, _ => Err (AnyMessage "panic")
      end
  end.

Definition cpu_is_online (root : path) (cpu : N) : PB bool :=
  let online := root ++ ["cpu" +:+ pretty cpu; "online"] in
  x ← exists_at_any online;
  if negb x then mret true
  else v ← platform_read_trimmed online; mret (bool_decide (v = "1")).

Definition parse_siblings (s : string) : result (gset N) any_error :=
  match parse_cpu_list s with Ok l => Ok (set_map Z.to_N l) | Err e => Err (AnyCpuList e) end.

Fixpoint discover_entries (root : path) (names : list string) (result : gmap N CpuInfo) : PB (gmap N CpuInfo) :=
  match names with
  | [] => mret result
  | name :: names =>
      match raw_cpu ← str_strip_prefix "cpu" name; parse_unsigned u64_max raw_cpu with
      | None => discover_entries root names result
      | Some n =>
          let cpu := Z.to_N n in
          let topology := root ++ [name; "topology"] in
          d ← is_dir_at topology;
          online ← (if d : bool then cpu_is_online root cpu else mret false);
          if negb online then discover_entries root names result
          else
            package ← platform_read_trimmed (topology ++ ["physical_package_id"]);
            package ← from_result (parse_u32 package);
            core ← platform_read_trimmed (topology ++ ["core_id"]);
            core ← from_result (parse_u32 core);
            siblings ← platform_read_trimmed (topology ++ ["thread_siblings_list"]);
            siblings ← from_result (parse_siblings siblings);
            discover_entries root names (<[cpu := mkCpuInfo cpu package core siblings]> result)
      end
  end.

Definition discover_cpu_info (root : path) : PB (gmap N CpuInfo) :=
  names ← any_io (sys_read_dir root);
  result ← discover_entries root names ∅;
  if bool_decide (result = ∅) then message "Linux sysfs contains no online CPU topology" else mret result.

Definition discover (overrides : option (N * N * N * N)) (sysfs_root : path) : PB Topology :=
  cpus ← discover_cpu_info sysfs_root;
  '(waiter, victim, producer, controller) ← from_result
    (match overrides with Some roles => Ok roles | None => choose_roles cpus end);
  let topology := mkTopology waiter victim producer controller cpus sysfs_root in
  _ ← from_result (topology_validate topology);
  mret topology.

(** ** The cpuidle policy *)

(** [u8::saturating_add(1)] *)
Definition sat_succ (n : Z) : Z := Z.min 255 (n + 1).

(** The loop over one CPU's directory, with its two counters. *)
Fixpoint read_states (cpu : N) (dir : path) (items : list string) (exact_poll exact_c1 : Z)
    (result : list CpuIdleState) : PB (Z * Z * list CpuIdleState) :=
  match items with
  | [] => mret (exact_poll, exact_c1, result)
  | item :: items =>
      d ← is_dir_at (dir ++ [item]);
      if negb d || negb (bool_decide (is_Some (str_strip_prefix "state" item)))
      then read_states cpu dir items exact_poll exact_c1 result
      else
        name ← platform_read_trimmed ((dir ++ [item]) ++ ["name"]);
        let name := to_ascii_uppercase name in
        value ← platform_read_trimmed ((dir ++ [item]) ++ ["disable"]);
        disabled ← (if bool_decide (value = "0") then mret false
                    else if bool_decide (value = "1") then mret true
                    else message ("CPU " +:+ pretty cpu +:+ " state " +:+ name +:+ " has invalid disable value"));
        let exact_poll := if bool_decide (name = "POLL") then sat_succ exact_poll else exact_poll in
        let exact_c1 := if bool_decide (name = "C1") then sat_succ exact_c1 else exact_c1 in
        read_states cpu dir items exact_poll exact_c1 (result ++ [mkIdleState cpu name disabled])
  end.

Fixpoint read_cpus (root : path) (cpus : list N) (result : list CpuIdleState) : PB (list CpuIdleState) :=
  match cpus with
  | [] => mret result
  | cpu :: cpus =>
      let cpuidle := cpuidle_dir root cpu in
      d ← is_dir_at cpuidle;
      if negb d then message ("CPU " +:+ pretty cpu +:+ " has no cpuidle sysfs directory")
      else
        items ← any_io (sys_read_dir cpuidle);
        '(exact_poll, exact_c1, result) ← read_states cpu cpuidle items 0 0 result;
        if negb (exact_poll =? 1) || negb (exact_c1 =? 1)
        then message ("CPU " +:+ pretty cpu +:+ " must expose exactly one POLL and one exact CPU C1 state")
        else read_cpus root cpus result
  end.

Definition read_cpuidle (t : Topology) : PB (list CpuIdleState) := read_cpus (tp_sysfs_root t) (selected t) [].

Definition is_exact (name : string) : bool := bool_decide (name = "POLL") || bool_decide (name = "C1").
Fixpoint check_policy (states : list CpuIdleState) : result unit any_error :=
  match states with
  | [] => Ok tt
  | st :: states =>
      if is_exact (is_name st) then
        if is_disabled st
        then Err (AnyMessage ("CPU " +:+ pretty (is_cpu st) +:+ ": exact " +:+ is_name st +:+ " must be enabled"))
        else check_policy states
      else if negb (is_disabled st)
      then Err (AnyMessage ("CPU " +:+ pretty (is_cpu st) +:+ ": " +:+ is_name st
             +:+ " is enabled; only exact POLL/CPU C1 are allowed"))
      else check_policy states
  end.

Definition validate_cpuidle (t : Topology) : PB (list CpuIdleState) :=
  states ← read_cpuidle t;
  _ ← from_result (check_policy states);
  mret states.

(** ** Affinity *)

(** [set.words[cpu / usize::BITS] |= 1 << (cpu % usize::BITS)] *)
Definition set_bit (words : list Z) (cpu : N) : list Z :=
  alter (fun word => Z.lor word (Z.shiftl 1 (Z.of_N (cpu mod 64)))) (N.to_nat (cpu / 64)) words.
Definition affinity_words (cpus : list N) : list Z := foldl set_bit (replicate CPU_SET_WORDS 0) cpus.

(** sched_setaffinity(0, ...): the error it leaves, if any *)
Class AffinityOs := sched_setaffinity : list Z -> option io_error.
Definition set_current_affinity `{AffinityOs} (cpus : list N) : result unit io_error :=
  if bool_decide (cpus = []) then Err InvalidInput
  else if existsb (fun cpu => (CPU_SET_BITS <=? cpu)%N) cpus then Err InvalidInput
  else match sched_setaffinity (affinity_words cpus) with Some e => Err e | None => Ok tt end.
Definition pin_current `{AffinityOs} (cpu : N) : result unit io_error := set_current_affinity [cpu].

(** ** Descriptions *)

Record CpuPowerPolicy := mkPower {
  pw_cpu : N;
  pw_governor : string;
  pw_energy_preference : string;
}.
Definition cannot_read (p : path) (m : PB string) : PB string := fun s =>
  match m s with
  | (Ok x, s') => (Ok x, s')
  | (Err _, s') => (Err (AnyMessage ("cannot read " +:+ display p)), s')
  end.
Definition cpu_power_policy (cpu : N) (sysfs_root : path) : PB CpuPowerPolicy :=
  let policy := sysfs_root ++ ["cpu" +:+ pretty cpu; "cpufreq"] in
  let governor_path := policy ++ ["scaling_governor"] in
  let energy_preference_path := policy ++ ["energy_performance_preference"] in
  governor ← cannot_read governor_path (platform_read_trimmed governor_path);
  energy_preference ← cannot_read energy_preference_path (platform_read_trimmed energy_preference_path);
  if bool_decide (governor = EmptyString) || bool_decide (energy_preference = EmptyString)
  then message ("CPU " +:+ pretty cpu +:+ " exposes an empty governor or energy preference")
  else mret (mkPower cpu governor energy_preference).

Definition field (section key : string) : option string :=
  head (omap (fun line =>
    '(name, value) ← split_once ":" line;
    if bool_decide (trim name = key) then Some (trim value) else None) (lines section)).

(** [str::split] at blank lines *)
Fixpoint split_blank (current s : string) : list string :=
  match s with
  | EmptyString => [current]
  | String c (String d r as rest) =>
      if bool_decide (c = Ascii.ascii_of_nat 10) && bool_decide (d = Ascii.ascii_of_nat 10) then current :: split_blank EmptyString r
      else split_blank (current +:+ String c EmptyString) rest
  | String c EmptyString => [current +:+ String c EmptyString]
  end.
Definition or_else (m : PB string) (d : string) : PB string := fun s =>
  match m s with (Ok v, s) => (Ok v, s) | (Err _, s) => (Ok d, s) end.

Record CpuMetadata := mkCpuMetadata { md_model : string; md_microcode : string; md_kernel : string }.

Definition cpu_metadata (cpu : N) : PB CpuMetadata :=
  cpuinfo ← or_else (any_io (sys_read ["proc"; "cpuinfo"])) EmptyString;
  let section := default EmptyString
    (head (filter (fun section => field section "processor" = Some (pretty cpu)) (split_blank EmptyString cpuinfo))) in
  kernel ← or_else (platform_read_trimmed ["proc"; "sys"; "kernel"; "osrelease"]) "unknown";
  mret (mkCpuMetadata (default "unknown" (field section "model name")) (default "unknown" (field section "microcode")) kernel).
