(* ===== verification/PlatformProofs.v ===== *)
(** * The benchmark's gates on the machine

    What the checks of [Platform] accept, exactly: the roles of the CPUs and the affinity mask. The cpuidle
    policy is in [PolicyProofs]. *)

From stdpp Require Import pretty sorting.
From Stdlib Require Import Ascii.
From S2P Require Import Prelude BenchFs Pure ControlProof Journal Cpuidle CpuidleProofs CpuidleSafety Platform.
Open Scope Z_scope.

(** ** Roles *)

(** What the roles of a topology must satisfy. *)
Record roles_fit (t : Topology) : Prop := mkFit {
  rf_range : Forall (fun cpu => (cpu < CPU_SET_BITS)%N) (selected t);
  rf_distinct : NoDup (selected t);
  rf_placed : exists waiter victim producer controller,
    tp_cpus t !! tp_waiter t = Some waiter /\ tp_cpus t !! tp_victim t = Some victim /\
    tp_cpus t !! tp_producer t = Some producer /\ tp_cpus t !! tp_controller t = Some controller /\
    ci_package victim = ci_package waiter /\ ci_package producer = ci_package waiter /\
    ci_package controller = ci_package waiter /\ ci_core victim = ci_core waiter /\
    ci_core producer <> ci_core waiter /\ ci_core controller <> ci_core waiter /\
    ci_core producer <> ci_core controller;
}.

Lemma validate_assigned_spec cpus l seen :
  validate_assigned cpus l seen = Ok tt <->
  Forall (fun cpu => (cpu < CPU_SET_BITS)%N /\ is_Some (cpus !! cpu) /\ cpu ∉ seen) l /\ NoDup l.
Proof.
  revert seen. induction l as [|cpu l IH]; intros seen; cbn [validate_assigned];
    [by split; [intros _; split; constructor|]|].
  rewrite Forall_cons, NoDup_cons. destruct (N.leb_spec CPU_SET_BITS cpu) as [Hle|Hlt]; [split; [done|lia]|].
  case_bool_decide as Hon; cbn [negb]; [|split; [done|tauto]].
  case_bool_decide as Hin; [split; [done|tauto]|]. rewrite IH, !Forall_forall. split.
  - intros [Hl Hnd]. split; [split; [done|]|split; [|done]].
    + intros c Hc. destruct (Hl c Hc) as (? & ? & ?). set_solver.
    + intros Hc. destruct (Hl cpu Hc) as (_ & _ & Hno). set_solver.
  - intros [[_ Hl] [Hcl Hnd]]. split; [|done]. intros c Hc. destruct (Hl c Hc) as (? & ? & Hno).
    split; [done|]. split; [done|]. rewrite not_elem_of_union, not_elem_of_singleton. split; [|done]. by intros ->.
Qed.

Lemma same_core_spec a b :
  BoolSpec (ci_package a = ci_package b /\ ci_core a = ci_core b)
    (~ (ci_package a = ci_package b /\ ci_core a = ci_core b)) (same_core a b).
Proof.
  unfold same_core. destruct (N.eqb_spec (ci_package a) (ci_package b)), (N.eqb_spec (ci_core a) (ci_core b));
    constructor; tauto.
Qed.

(** The topology check accepts exactly the fitting roles. *)
Lemma topology_validate_exact t : topology_validate t = Ok tt <-> roles_fit t.
Proof.
  unfold topology_validate. destruct (validate_assigned _ _ _) as [[]|e] eqn:Ea.
  2: { split; [done|]. intros [Hr Hd (w & v & p & c & Hw & Hv & Hp & Hc & _)].
       assert (Hx : validate_assigned (tp_cpus t) (selected t) ∅ = Ok tt); [|congruence].
       apply validate_assigned_spec. split; [|done]. unfold selected in *.
       rewrite !Forall_cons in Hr |- *. set_solver by eauto. }
  apply validate_assigned_spec in Ea as [Hf Hd].
  assert (Hs : forall cpu, cpu ∈ selected t -> is_Some (tp_cpus t !! cpu)).
  { rewrite Forall_forall in Hf. intros cpu Hc. apply (Hf cpu Hc). }
  destruct (Hs (tp_waiter t)) as [w Ew]; [set_solver|]. destruct (Hs (tp_victim t)) as [v Ev]; [set_solver|].
  destruct (Hs (tp_producer t)) as [p Ep]; [set_solver|]. destruct (Hs (tp_controller t)) as [c Ec]; [set_solver|].
  rewrite Ew, Ev, Ep, Ec.
  assert (Hfit : roles_fit t <-> ci_package v = ci_package w /\ ci_package p = ci_package w /\
    ci_package c = ci_package w /\ ci_core v = ci_core w /\ ci_core p <> ci_core w /\
    ci_core c <> ci_core w /\ ci_core p <> ci_core c).
  { split.
    - intros [_ _ (w' & v' & p' & c' & Hw & Hv & Hp & Hc & Hrest)]. congruence.
    - intros Hrest. split; [|done|by exists w, v, p, c]. eapply Forall_impl; [exact Hf|]. by intros cpu []. }
  rewrite Hfit. cbn [existsb].
  destruct (same_core_spec w v) as [Hwv|Hwv]; cbn [negb]; [|split; [done|intros (?&?&?&?&_); destruct Hwv; split; congruence]].
  destruct Hwv as [Hwvp Hwvc].
  destruct (N.eqb_spec (ci_package v) (ci_package w)), (N.eqb_spec (ci_package p) (ci_package w)),
    (N.eqb_spec (ci_package c) (ci_package w)); cbn [negb orb]; try (split; [done|tauto]).
  destruct (same_core_spec w p), (same_core_spec w c), (same_core_spec p c); cbn [orb];
    (split; [intros Hok; try discriminate Hok; split_and!; try congruence; intros Heq;
               match goal with Hno : ~ (_ /\ _) |- _ => solve [destruct Hno; split; congruence] end
            |intros Hall; try reflexivity; exfalso; intuition congruence]).
Qed.

(** The siblings of a CPU, those that are online, share its core. *)
Definition coherent (cpus : gmap N CpuInfo) : Prop := forall k c sibling c',
  cpus !! k = Some c -> sibling ∈ ci_siblings c -> cpus !! sibling = Some c' ->
  ci_package c' = ci_package c /\ ci_core c' = ci_core c.
Definition keyed (cpus : gmap N CpuInfo) : Prop := forall k c, cpus !! k = Some c -> ci_cpu c = k.

Definition roles_of (cpus : gmap N CpuInfo) (root : path) (roles : N * N * N * N) : Topology :=
  let '(waiter, victim, producer, controller) := roles in mkTopology waiter victim producer controller cpus root.

Lemma find_in {A} (f : A -> bool) l x : List.find f l = Some x -> x ∈ l /\ f x = true.
Proof. intros Hx. apply List.find_some in Hx as [Hin Hf]. by rewrite list_elem_of_In. Qed.

Lemma elem_of_cpu_values cpus c : c ∈ cpu_values cpus -> exists k, cpus !! k = Some c.
Proof. unfold cpu_values. rewrite list_elem_of_omap. intros (k & _ & Hk). by exists k. Qed.
Lemma elem_of_ascending X x : x ∈ ascending_cpus X <-> x ∈ X.
Proof. unfold ascending_cpus. by rewrite merge_sort_Permutation, elem_of_elements. Qed.

(** The automatic choice fits, on a machine whose sibling lists are coherent. *)
Lemma choose_roles_fit cpus root roles :
  keyed cpus -> coherent cpus -> (forall k, is_Some (cpus !! k) -> (k < CPU_SET_BITS)%N) ->
  choose_roles cpus = Ok roles -> roles_fit (roles_of cpus root roles).
Proof.
  intros Hk Hco Hrange. unfold choose_roles.
  assert (Hval : forall f c, List.find f (cpu_values cpus) = Some c -> cpus !! ci_cpu c = Some c /\ f c = true).
  { intros f c Hc. apply find_in in Hc as [Hc Hf]. apply elem_of_cpu_values in Hc as [k Hc]. by rewrite (Hk k c Hc). }
  destruct (List.find _ _) as [w|] eqn:Ew; [|done]. apply Hval in Ew as [Ew _].
  destruct (List.find _ (ascending_cpus _)) as [v|] eqn:Ev; [|done]. apply find_in in Ev as [Hv Hvf].
  apply elem_of_ascending in Hv. apply andb_true_iff in Hvf as [Hvw Hvo]. apply bool_decide_eq_true in Hvo as [vi Evi].
  destruct (List.find _ (cpu_values cpus)) as [p|] eqn:Ep; [|done]. apply Hval in Ep as [Ep Hpf].
  destruct (List.find _ _) as [c|] eqn:Ec; [|done]. apply Hval in Ec as [Ec Hcf]. intros [= <-].
  destruct (Hco _ _ _ _ Ew Hv Evi) as [Hvp Hvc].
  apply andb_true_iff in Hpf as [Hpp Hpw]. rewrite !andb_true_iff in Hcf. destruct Hcf as [[Hcp Hcw] Hcpr].
  apply N.eqb_eq in Hpp, Hcp. apply negb_true_iff in Hvw, Hpw, Hcw, Hcpr. apply N.eqb_neq in Hvw.
  destruct (same_core_spec p w) as [|Npw]; [done|]. destruct (same_core_spec c w) as [|Ncw]; [done|].
  destruct (same_core_spec c p) as [|Ncp]; [done|].
  assert (Hpc : ci_core p <> ci_core w) by (intros Heq; by apply Npw).
  assert (Hcc : ci_core c <> ci_core w) by (intros Heq; by apply Ncw).
  assert (Hpcc : ci_core c <> ci_core p) by (intros Heq; apply Ncp; split; congruence).
  assert (Hne : forall a b x y, cpus !! a = Some x -> cpus !! b = Some y -> ci_core x <> ci_core y -> a <> b).
  { intros a b x y Ha Hb Hxy ->. congruence. }
  assert (Hwv : ci_cpu w <> v) by congruence.
  assert (Hwp : ci_cpu w <> ci_cpu p) by (eapply Hne; [exact Ew|exact Ep|congruence]).
  assert (Hwc : ci_cpu w <> ci_cpu c) by (eapply Hne; [exact Ew|exact Ec|congruence]).
  assert (Hvp' : v <> ci_cpu p) by (eapply Hne; [exact Evi|exact Ep|congruence]).
  assert (Hvc' : v <> ci_cpu c) by (eapply Hne; [exact Evi|exact Ec|congruence]).
  assert (Hpc' : ci_cpu p <> ci_cpu c) by (eapply Hne; [exact Ep|exact Ec|congruence]).
  split; unfold selected; cbn [roles_of tp_waiter tp_victim tp_producer tp_controller tp_cpus].
  - repeat constructor; apply Hrange; by eexists.
  - repeat (apply NoDup_cons; split; [rewrite ?not_elem_of_cons; repeat split; try congruence; apply not_elem_of_nil|]).
    constructor.
  - exists w, vi, p, c. split_and!; congruence.
Qed.

(** ** Inversion of successful runs *)

Lemma pb_bind_ok {A B} (k : A -> PB B) (m : PB A) s y s' :
  (m ≫= k) s = (Ok y, s') <-> exists x s1, m s = (Ok x, s1) /\ k x s1 = (Ok y, s').
Proof. unfold mbind, PB_bind. destruct (m s) as [[x|] s1]; [naive_solver|]. split; [done|]. by intros (? & ? & [=] & _). Qed.

(** Discovery files every CPU under its own number. *)
Lemma discover_entries_keyed root names result s cpus s' :
  keyed result -> discover_entries root names result s = (Ok cpus, s') -> keyed cpus.
Proof.
  revert result s. induction names as [|name names IH]; intros res s Hk; cbn [discover_entries]; [by intros [= <- _]|].
  destruct (raw_cpu ← _; _) as [n|]; [|by apply IH].
  intros (d & s1 & _ & (o & s2 & _ & Hrun)%pb_bind_ok)%pb_bind_ok. destruct o; cbn [negb] in Hrun; [|by eapply IH].
  repeat (apply pb_bind_ok in Hrun as (? & ? & _ & Hrun)).
  eapply IH; [|exact Hrun]. intros k c Hc. by apply lookup_insert_Some in Hc as [[<- <-]|[_ Hc]]; [|apply Hk].
Qed.

Lemma discover_keyed root s cpus s' : discover_cpu_info root s = (Ok cpus, s') -> keyed cpus.
Proof.
  intros (names & s1 & _ & (res & s2 & Hres & Hrun)%pb_bind_ok)%pb_bind_ok.
  case_bool_decide; [done|]. injection Hrun as <- _. by eapply discover_entries_keyed; [|exact Hres].
Qed.


(** A machine of four threads on three cores, for the witness. *)
Definition cpu_files (cpu core siblings : string) : list (path * node) :=
  [(["sys"; cpu], Dir 0 493); (["sys"; cpu; "topology"], Dir 0 493);
   (["sys"; cpu; "topology"; "physical_package_id"], File ("0" +:+ nl) 0 292);
   (["sys"; cpu; "topology"; "core_id"], File (core +:+ nl) 0 292);
   (["sys"; cpu; "topology"; "thread_siblings_list"], File (siblings +:+ nl) 0 292)]%string.
Definition small_machine : nodes := list_to_map (
  [(["sys"]%string, Dir 0 493)] ++ cpu_files "cpu0" "0" "0-1" ++ cpu_files "cpu1" "0" "0-1"
  ++ cpu_files "cpu2" "1" "2" ++ cpu_files "cpu3" "2" "3").


(** ** The affinity mask *)

Definition mask_bit (words : list Z) (cpu : N) : bool :=
  Z.testbit (default 0 (words !! N.to_nat (cpu / 64))) (Z.of_N (cpu mod 64)).

Lemma same_bit (a b : N) : (a / 64 = b / 64 -> a mod 64 = b mod 64 -> a = b)%N.
Proof. intros Hd Hm. rewrite (N.div_mod a 64), (N.div_mod b 64) by done. congruence. Qed.

Lemma mask_bit_set words cpu c : length words = CPU_SET_WORDS -> (cpu < CPU_SET_BITS)%N ->
  mask_bit (set_bit words cpu) c = mask_bit words c || (c =? cpu)%N.
Proof.
  intros Hlen Hcpu. unfold mask_bit, set_bit. rewrite list_lookup_alter.
  destruct (decide (cpu / 64 = c / 64)%N) as [Hd|Hd].
  - rewrite decide_True by congruence. rewrite Hd.
    destruct (lookup_lt_is_Some_2 words (N.to_nat (c / 64))) as [w ->].
    { rewrite Hlen. unfold CPU_SET_BITS, CPU_SET_WORDS in *. rewrite <- Hd. clear Hd.
      apply (N.Div0.div_lt_upper_bound _ 64 16) in Hcpu. lia. }
    simpl. rewrite Z.lor_spec, Z.shiftl_1_l, Z.pow2_bits_eqb by apply N2Z.is_nonneg. f_equal.
    destruct (N.eqb_spec c cpu) as [->|Hne]; [apply Z.eqb_eq; lia|apply Z.eqb_neq]. intros Heq.
    apply Hne, same_bit; [done|lia].
  - rewrite decide_False by lia. destruct (N.eqb_spec c cpu) as [->|]; [done|by rewrite orb_false_r].
Qed.

Lemma length_set_bit words cpu : length (set_bit words cpu) = length words.
Proof. apply length_alter. Qed.

Lemma mask_bits cpus words c : length words = CPU_SET_WORDS -> Forall (fun cpu => cpu < CPU_SET_BITS)%N cpus ->
  mask_bit (foldl set_bit words cpus) c = mask_bit words c || bool_decide (c ∈ cpus).
Proof.
  intros Hlen Hf. revert words Hlen. induction Hf as [|cpu cpus Hcpu Hf IH]; intros words Hlen; cbn [foldl].
  - rewrite bool_decide_false by apply not_elem_of_nil. by rewrite orb_false_r.
  - rewrite IH by (by rewrite length_set_bit). rewrite mask_bit_set by done. rewrite <- orb_assoc. f_equal.
    destruct (N.eqb_spec c cpu) as [->|Hne]; [symmetry; apply bool_decide_eq_true; left|].
    apply bool_decide_ext. set_solver.
Qed.

Lemma lor_below a b n : 0 <= a < 2 ^ n -> 0 <= b < 2 ^ n -> 0 < n -> 0 <= Z.lor a b < 2 ^ n.
Proof.
  intros [Ha Han] [Hb Hbn] Hn. assert (Hl : 0 <= Z.lor a b) by (by apply Z.lor_nonneg). split; [done|].
  destruct (decide (Z.lor a b = 0)) as [->|Hne]; [lia|].
  assert (Hlog : forall x, 0 <= x -> x < 2 ^ n -> Z.log2 x < n).
  { intros x Hx Hxn. destruct (decide (x = 0)) as [->|]; [done|]. apply Z.log2_lt_pow2; lia. }
  apply Z.log2_lt_pow2; [lia|]. rewrite Z.log2_lor by done. apply Z.max_lub_lt; by apply Hlog.
Qed.

Lemma words_fit cpus words : Forall (fun w => 0 <= w < 2 ^ 64) words ->
  Forall (fun w => 0 <= w < 2 ^ 64) (foldl set_bit words cpus).
Proof.
  revert words. induction cpus as [|cpu cpus IH]; intros words Hw; [done|]. apply IH.
  apply Forall_alter; [done|]. intros w _ Hw1. apply lor_below; [done| |done]. rewrite Z.shiftl_1_l.
  split; [lia|]. apply Z.pow_lt_mono_r; [done..|]. pose proof (N.mod_lt cpu 64 ltac:(done)). lia.
Qed.

Lemma length_words cpus words : length (foldl set_bit words cpus) = length words.
Proof. revert words. induction cpus as [|cpu cpus IH]; intros words; [done|]. cbn [foldl]. by rewrite IH, length_set_bit. Qed.

(** The affinity call asks for exactly the given CPUs. It succeeds exactly if there is at least one CPU, all are below the
    limit of 1024 and the kernel accepts the mask; the mask is 16 machine words, and its bit for a CPU
    is set exactly if the CPU was given. *)
Theorem affinity_exact `{AffinityOs} (cpus : list N) :
  (set_current_affinity cpus = Ok tt <->
     cpus <> [] /\ Forall (fun cpu => cpu < CPU_SET_BITS)%N cpus /\ sched_setaffinity (affinity_words cpus) = None) /\
  (length (affinity_words cpus) = CPU_SET_WORDS /\ Forall (fun w => 0 <= w < 2 ^ 64) (affinity_words cpus)) /\
  (Forall (fun cpu => cpu < CPU_SET_BITS)%N cpus ->
   forall cpu, mask_bit (affinity_words cpus) cpu = bool_decide (cpu ∈ cpus)).
Proof.
  assert (Hz : forall cpu, mask_bit (replicate CPU_SET_WORDS 0) cpu = false).
  { intros cpu. unfold mask_bit. destruct (_ !! _) as [w|] eqn:E; [|apply Z.bits_0].
    apply lookup_replicate in E as [-> _]. apply Z.bits_0. }
  split; [|split].
  - unfold set_current_affinity. case_bool_decide as Hne; [by split; [|intros []]|].
    destruct (existsb _ cpus) eqn:E.
    + split; [done|]. intros (_ & Hf & _). apply existsb_exists in E as (cpu & Hin & Hle%N.leb_le).
      rewrite Forall_forall in Hf. apply list_elem_of_In, Hf in Hin. lia.
    + assert (Hf : Forall (fun cpu => cpu < CPU_SET_BITS)%N cpus).
      { apply Forall_forall. intros cpu Hin%list_elem_of_In. apply N.lt_nge. intros Hle%N.leb_le.
        assert (existsb (fun c => CPU_SET_BITS <=? c)%N cpus = true) by (apply existsb_exists; eauto). congruence. }
      destruct (sched_setaffinity _); naive_solver.
  - split; [by unfold affinity_words; rewrite length_words, length_replicate|by apply words_fit, Forall_replicate].
  - intros Hf cpu. unfold affinity_words. by rewrite mask_bits, Hz by done.
Qed.

Lemma affinity_exact_witness :
  let _ : AffinityOs := fun _ => None in
  set_current_affinity [3; 66]%N = Ok tt /\ mask_bit (affinity_words [3; 66]%N) 66 = true.
Proof.
  intros os. destruct (affinity_exact (H := os) [3; 66]%N) as [Hok [_ Hb]].
  assert (Hf : Forall (fun cpu => cpu < CPU_SET_BITS)%N [3; 66]%N) by (repeat constructor).
  split; [apply Hok; split; [discriminate|split; [exact Hf|reflexivity]]|].
  exact (Hb Hf 66%N).
Defined.
