(* ===== verification/PolicyProofs.v ===== *)
(** * The cpuidle policy: what the benchmark requires is what benchctl applies

    The benchmark's own check of the cpuidle directories ([validate_cpuidle]) against a declarative policy,
    and the composition of the two programs: after benchctl has applied its inventory, the benchmark accepts
    the machine. *)

From stdpp Require Import pretty sorting.
From Stdlib Require Import Ascii.
From S2P Require Import Prelude BenchFs Pure ControlProof Journal Cpuidle CpuidleProofs CpuidleSafety Platform.
Open Scope Z_scope.

(** ** Fault-free runs of the benchmark's programs *)

(** The program ends with [r] and changes no file. *)
Definition runs {A} (m : PB A) (s : iost) (r : result A any_error) : Prop := exists s', m s = (r, s') /\ same s s'.

Lemma runs_ret {A} (x : A) s : runs (mret x) s (Ok x).
Proof. exists s. split; [done|apply same_refl]. Qed.
Lemma runs_message {A} text s : runs (message (A := A) text) s (Err (AnyMessage text)).
Proof. exists s. split; [done|apply same_refl]. Qed.
Lemma runs_from_result {A} (r : result A any_error) s : runs (from_result r) s r.
Proof. exists s. split; [done|apply same_refl]. Qed.

Lemma runs_bind {A B} (m : PB A) (k : A -> PB B) s q r :
  no_faults s -> runs m s q ->
  match q with
  | Ok x => forall s', no_faults s' -> io_nodes s' = io_nodes s -> io_order s' = io_order s -> runs (k x) s' r
  | Err e => r = Err e
  end -> runs (mbind k m) s r.
Proof.
  intros Hnf (s1 & Hm & Hs1) Hk. unfold runs, mbind, PB_bind. rewrite Hm. destruct q as [x|e].
  - destruct (Hk s1) as (s2 & Hk2 & Hs2); [by eapply no_faults_same|apply Hs1|apply kept_order, Hs1|].
    exists s2. split; [done|by eapply same_trans].
  - exists s1. by rewrite Hk.
Qed.

(** ** What a fault-free read finds *)

Definition peek (ns : nodes) (p : path) : result string any_error :=
  match resolve ns p with
  | None => Err (AnyIo FilesystemLoop)
  | Some r =>
      match at_path ns r with
      | Some (File c _ _) => Ok (trim c)
      | Some (Dir _ _) => Err (AnyIo IsADirectory)
      | _ => Err (AnyIo NotFound)
      end
  end.
Definition peek_dir (ns : nodes) (p : path) : bool := match stat ns p with Some (Dir _ _) => true | _ => false end.

Lemma read_trimmed_runs p s : no_faults s -> runs (platform_read_trimmed p) s (peek (io_nodes s) p).
Proof.
  intros Hnf. unfold platform_read_trimmed, runs, mbind, PB_bind, any_io, sys_read, syscall, peek.
  rewrite Hnf by done. cbn [io_nodes io_step].
  destruct (resolve _ p) as [r|]; [destruct (at_path _ r) as [[c u m| |]|]|];
    (eexists; split; [reflexivity|apply same_step]).
Qed.

Lemma is_dir_runs p s : no_faults s -> runs (is_dir_at p) s (Ok (peek_dir (io_nodes s) p)).
Proof.
  intros Hnf. unfold is_dir_at, sys_stat, syscall, runs, peek_dir. rewrite Hnf by done. cbn [io_nodes io_step].
  destruct (stat _ p) as [[c u m| |]|]; (eexists; split; [reflexivity|apply same_step]).
Qed.

(** ** The states of one CPU *)

Definition idle_at (ns : nodes) (cpu : N) (dir : path) (item : string) : result CpuIdleState any_error :=
  match peek ns ((dir ++ [item]) ++ ["name"%string]) with
  | Err e => Err e
  | Ok name =>
      match peek ns ((dir ++ [item]) ++ ["disable"%string]) with
      | Err e => Err e
      | Ok value =>
          let name := to_ascii_uppercase name in
          if bool_decide (value = "0"%string) then Ok (mkIdleState cpu name false)
          else if bool_decide (value = "1"%string) then Ok (mkIdleState cpu name true)
          else Err (AnyMessage ("CPU " +:+ pretty cpu +:+ " state " +:+ name +:+ " has invalid disable value"))
      end
  end.
Definition considered (ns : nodes) (dir : path) (item : string) : bool :=
  peek_dir ns (dir ++ [item]) && bool_decide (is_Some (str_strip_prefix "state" item)).
Fixpoint collect (ns : nodes) (cpu : N) (dir : path) (items : list string) : result (list CpuIdleState) any_error :=
  match items with
  | [] => Ok []
  | item :: items =>
      if considered ns dir item then
        match idle_at ns cpu dir item with
        | Err e => Err e
        | Ok st => match collect ns cpu dir items with Err e => Err e | Ok l => Ok (st :: l) end
        end
      else collect ns cpu dir items
  end.

Definition count_exact (name : string) (l : list CpuIdleState) : nat :=
  length (List.filter (fun st => bool_decide (is_name st = name)) l).
(** The counter after [n] increments from [start]. *)
Definition saturated (start : Z) (n : nat) : Z := Z.min 255 (start + Z.of_nat n).

Lemma saturated_bump start name st l : start <= 255 ->
  saturated (if bool_decide (is_name st = name) then sat_succ start else start) (count_exact name l)
  = saturated start (count_exact name (st :: l)).
Proof. intros Hs. unfold saturated, sat_succ, count_exact. cbn [List.filter]. case_bool_decide; cbn [length]; lia. Qed.
Lemma bump_below start (name n : string) : start <= 255 -> (if bool_decide (name = n) then sat_succ start else start) <= 255.
Proof. intros Hs. unfold sat_succ. case_bool_decide; lia. Qed.

Lemma idle_runs cpu dir item (k : string -> bool -> PB (Z * Z * list CpuIdleState)) s r :
  no_faults s ->
  match idle_at (io_nodes s) cpu dir item with
  | Err e => r = Err e
  | Ok st => forall s', no_faults s' -> io_nodes s' = io_nodes s -> io_order s' = io_order s ->
      runs (k (is_name st) (is_disabled st)) s' r
  end ->
  runs (name ← platform_read_trimmed ((dir ++ [item]) ++ ["name"%string]);
        let name := to_ascii_uppercase name in
        value ← platform_read_trimmed ((dir ++ [item]) ++ ["disable"%string]);
        disabled ← (if bool_decide (value = "0"%string) then mret false
                    else if bool_decide (value = "1"%string) then mret true
                    else message ("CPU " +:+ pretty cpu +:+ " state " +:+ name +:+ " has invalid disable value"));
        k name disabled) s r.
Proof.
  intros Hnf. unfold idle_at. intros Hk.
  eapply runs_bind; [done|by apply read_trimmed_runs|]. destruct (peek _ _) as [name|e]; [|done].
  intros s1 N1 E1 O1. cbv zeta. eapply runs_bind; [done|by apply read_trimmed_runs|]. rewrite E1.
  destruct (peek _ _) as [value|e]; [|done]. intros s2 N2 E2 O2. cbv zeta in Hk. rewrite O1 in O2.
  eapply (runs_bind _ _ _ (match (if bool_decide (value = "0"%string) then Ok false else
    if bool_decide (value = "1"%string) then Ok true else Err (AnyMessage _)) with Ok b => Ok b | Err e => Err e end)); [done| |].
  - repeat case_bool_decide; [apply runs_ret|apply runs_ret|apply runs_message].
  - repeat case_bool_decide; [|..|done]; intros s3 N3 E3 O3; (apply Hk; [exact N3|by rewrite E3|by rewrite O3]).
Qed.

Lemma idle_at_cpu ns cpu dir item st : idle_at ns cpu dir item = Ok st -> mkIdleState cpu (is_name st) (is_disabled st) = st.
Proof. unfold idle_at. intros H. repeat (case_match; try discriminate H). all: by injection H as <-. Qed.

Lemma read_states_runs cpu dir items poll c1 result s :
  no_faults s -> poll <= 255 -> c1 <= 255 ->
  runs (read_states cpu dir items poll c1 result) s
    (match collect (io_nodes s) cpu dir items with
     | Ok l => Ok (saturated poll (count_exact "POLL" l), saturated c1 (count_exact "C1" l), result ++ l)
     | Err e => Err e
     end).
Proof.
  revert poll c1 result s. induction items as [|item items IH]; intros poll c1 result s Hnf Hp Hc; cbn [read_states collect].
  - replace (saturated poll _) with poll by (unfold saturated; cbn; lia).
    replace (saturated c1 _) with c1 by (unfold saturated; cbn; lia). rewrite app_nil_r. apply runs_ret.
  - eapply runs_bind; [done|by apply is_dir_runs|]. intros s1 N1 E1 O1.
    unfold considered. destruct (peek_dir _ _); cbn [negb orb andb]; [|rewrite <- E1; by apply IH].
    case_bool_decide; cbn [negb]; [|rewrite <- E1; by apply IH]. rewrite <- E1.
    pose (k := fun (name : string) (disabled : bool) =>
      read_states cpu dir items (if bool_decide (name = "POLL"%string) then sat_succ poll else poll)
        (if bool_decide (name = "C1"%string) then sat_succ c1 else c1) (result ++ [mkIdleState cpu name disabled])).
    apply (idle_runs cpu dir item k); [done|]. destruct (idle_at _ _ _ _) as [st|e] eqn:Est; [|done]. intros s2 N2 E2 O2.
    pose proof (IH (if bool_decide (is_name st = "POLL"%string) then sat_succ poll else poll)
      (if bool_decide (is_name st = "C1"%string) then sat_succ c1 else c1)
      (result ++ [mkIdleState cpu (is_name st) (is_disabled st)]) s2 N2 (bump_below _ _ _ Hp) (bump_below _ _ _ Hc)) as HI.
    rewrite E2 in HI. destruct (collect _ _ _ items) as [l|e]; [|exact HI]. cbn [app] in HI.
    rewrite !saturated_bump in HI by done. rewrite <- app_assoc in HI.
    subst k. cbv beta. by rewrite (idle_at_cpu _ _ _ _ _ Est) in HI |- *.
Qed.

(** One CPU: its directory is there, every state of it can be read, and POLL and C1 occur once each. *)
Definition look (ns : nodes) (order : list string -> list string) (root : path) (cpu : N) : result (list CpuIdleState) any_error :=
  let dir := cpuidle_dir root cpu in
  if peek_dir ns dir then
    match resolve ns dir with
    | None => Err (AnyIo FilesystemLoop)
    | Some r =>
        match collect ns cpu dir (order (children ns r)) with
        | Err e => Err e
        | Ok l =>
            if bool_decide (count_exact "POLL" l = 1%nat) && bool_decide (count_exact "C1" l = 1%nat) then Ok l
            else Err (AnyMessage ("CPU " +:+ pretty cpu +:+ " must expose exactly one POLL and one exact CPU C1 state"))
        end
    end
  else Err (AnyMessage ("CPU " +:+ pretty cpu +:+ " has no cpuidle sysfs directory")).
Fixpoint look_all (ns : nodes) (order : list string -> list string) (root : path) (cpus : list N)
    (result : list CpuIdleState) : Prelude.result (list CpuIdleState) any_error :=
  match cpus with
  | [] => Ok result
  | cpu :: cpus =>
      match look ns order root cpu with
      | Err e => Err e
      | Ok l => look_all ns order root cpus (result ++ l)
      end
  end.

Lemma saturated_one n : (saturated 0 n =? 1) = bool_decide (n = 1%nat).
Proof. unfold saturated. case_bool_decide; [subst; done|]. apply Z.eqb_neq. lia. Qed.

Lemma peek_dir_at ns p : peek_dir ns p = true -> exists r u m, resolve ns p = Some r /\ at_path ns r = Some (Dir u m).
Proof.
  unfold peek_dir, stat. destruct (resolve ns p) as [r|]; [|done]. cbn.
  destruct (at_path ns r) as [[|u m|]|] eqn:E; try done. intros _. by exists r, u, m.
Qed.

Lemma read_dir_runs p r u m s : no_faults s -> resolve (io_nodes s) p = Some r -> at_path (io_nodes s) r = Some (Dir u m) ->
  runs (any_io (sys_read_dir p)) s (Ok (io_order s (children (io_nodes s) r))).
Proof.
  intros Hnf Hr Hd. unfold runs, any_io, sys_read_dir, syscall. rewrite Hnf by done. cbn [io_nodes io_step].
  rewrite Hr, Hd. eexists; split; [reflexivity|apply same_step].
Qed.

Lemma read_cpus_runs root cpus result s : no_faults s ->
  runs (read_cpus root cpus result) s (look_all (io_nodes s) (io_order s) root cpus result).
Proof.
  revert result s. induction cpus as [|cpu cpus IH]; intros result s Hnf; cbn [read_cpus look_all]; [apply runs_ret|].
  unfold look. set (dir := cpuidle_dir root cpu).
  eapply runs_bind; [done|by apply is_dir_runs|]. intros s1 N1 E1 O1.
  destruct (peek_dir _ dir) eqn:Ed; cbn [negb]; [|apply runs_message].
  apply peek_dir_at in Ed as (r & u & m & Hr & Hd). rewrite Hr.
  eapply runs_bind; [done|eapply read_dir_runs; [done|by rewrite E1..]|]. intros s2 N2 E2 O2. rewrite E1, O1.
  eapply runs_bind; [done|by apply read_states_runs|]. rewrite E2, E1.
  destruct (collect _ _ _ _) as [l|e]; [|done]. intros s3 N3 E3 O3. rewrite !saturated_one.
  do 2 (case_bool_decide; cbn [negb orb andb]; [|apply runs_message]).
  rewrite <- E3, <- O1, <- O2, <- O3. by apply IH.
Qed.

Definition verdict (ns : nodes) (order : list string -> list string) (t : Topology) : result (list CpuIdleState) any_error :=
  match look_all ns order (tp_sysfs_root t) (selected t) [] with
  | Err e => Err e
  | Ok states => match check_policy states with Err e => Err e | Ok _ => Ok states end
  end.

(** Without failures the check is a function of the file system. *)
Lemma validate_runs t s : no_faults s -> runs (validate_cpuidle t) s (verdict (io_nodes s) (io_order s) t).
Proof.
  intros Hnf. unfold validate_cpuidle, verdict. eapply runs_bind; [done|by apply read_cpus_runs|].
  destruct (look_all _ _ _ _ _) as [states|e]; [|done]. intros s1 N1 _ _.
  eapply runs_bind; [done|apply runs_from_result|]. destruct (check_policy states); [|done]. intros s2 _ _ _. apply runs_ret.
Qed.

(** ** The policy, stated of the file system *)

Definition holds_text (ns : nodes) (p : path) (v : string) : Prop :=
  exists c u m, stat ns p = Some (File c u m) /\ trim c = v.

(** [item] is an idle state of the directory [dir] (which resolves to [r]). *)
Definition idle_item (ns : nodes) (r dir : path) (item : string) : Prop :=
  item ∈ children ns r /\ (exists u m, stat ns (dir ++ [item]) = Some (Dir u m)) /\ is_Some (str_strip_prefix "state" item).
Definition state_named (ns : nodes) (r dir : path) (n item : string) : Prop :=
  idle_item ns r dir item /\ exists name, holds_text ns ((dir ++ [item]) ++ ["name"%string]) name /\ to_ascii_uppercase name = n.
Definition only_one (P : string -> Prop) : Prop := exists x, P x /\ forall y, P y -> y = x.

(** What an official run requires of a CPU: POLL and C1 are there once each and enabled, every other state is
    disabled. *)
Definition compliant (ns : nodes) (root : path) (cpu : N) : Prop :=
  let dir := cpuidle_dir root cpu in
  exists r u m, resolve ns dir = Some r /\ at_path ns r = Some (Dir u m) /\
    (forall item, idle_item ns r dir item -> exists name,
       holds_text ns ((dir ++ [item]) ++ ["name"%string]) name /\
       holds_text ns ((dir ++ [item]) ++ ["disable"%string]) (if is_exact (to_ascii_uppercase name) then "0" else "1")%string) /\
    only_one (state_named ns r dir "POLL") /\ only_one (state_named ns r dir "C1").

Lemma peek_text ns p v : peek ns p = Ok v <-> holds_text ns p v.
Proof.
  unfold peek, holds_text, stat. destruct (resolve ns p) as [r|]; cbn; [|naive_solver].
  destruct (at_path ns r) as [[]|]; naive_solver.
Qed.
Lemma holds_text_fun ns p v w : holds_text ns p v -> holds_text ns p w -> v = w.
Proof. rewrite <- !peek_text. congruence. Qed.

Lemma considered_spec ns dir item : considered ns dir item = true <->
  (exists u m, stat ns (dir ++ [item]) = Some (Dir u m)) /\ is_Some (str_strip_prefix "state" item).
Proof.
  unfold considered, peek_dir. rewrite andb_true_iff, bool_decide_eq_true.
  destruct (stat _ _) as [[]|]; naive_solver.
Qed.

Lemma filter_single {A} (f : A -> bool) l : length (List.filter f l) = 1%nat <->
  exists i x, l !! i = Some x /\ f x = true /\ forall j y, l !! j = Some y -> f y = true -> j = i.
Proof.
  induction l as [|a l IH]; cbn [List.filter]; [split; [done|by intros (i & x & Hx & _)]|].
  assert (H0 : length (List.filter f l) = 0%nat <-> forall j y, l !! j = Some y -> f y = false).
  { clear IH. induction l as [|b l IH]; cbn [List.filter]; [done|]. destruct (f b) eqn:Eb.
    - split; [done|]. intros H. specialize (H 0%nat b eq_refl). congruence.
    - rewrite IH. split; [intros H [|j] y Hy; [by injection Hy as <-|by eapply H]|intros H j; by apply (H (S j))]. }
  destruct (f a) eqn:Ea; cbn [length].
  - split.
    + intros [= Hl]. exists 0%nat, a. split; [done|]. split; [done|]. intros [|j] y Hy Hf; [done|].
      apply H0 in Hy; [congruence|done].
    + intros (i & x & Hx & Hf & Hu). f_equal. apply H0. intros j y Hy. destruct (f y) eqn:Ey; [|done].
      pose proof (Hu 0%nat a eq_refl Ea). pose proof (Hu (S j) y Hy Ey). congruence.
  - rewrite IH. split.
    + intros (i & x & Hx & Hf & Hu). exists (S i), x. split; [done|]. split; [done|].
      intros [|j] y Hy Hfy; [injection Hy as <-; congruence|]. f_equal. by eapply Hu.
    + intros ([|i] & x & Hx & Hf & Hu); [injection Hx as <-; congruence|]. exists i, x. split; [done|]. split; [done|].
      intros j y Hy Hfy. specialize (Hu (S j) y Hy Hfy). congruence.
Qed.

Lemma collect_ok ns cpu dir items l : collect ns cpu dir items = Ok l <->
  Forall2 (fun item st => idle_at ns cpu dir item = Ok st) (List.filter (considered ns dir) items) l.
Proof.
  revert l. induction items as [|item items IH]; intros l; cbn [collect List.filter].
  { split; [by intros [= <-]|by inversion 1]. }
  destruct (considered ns dir item); [|apply IH].
  destruct (idle_at ns cpu dir item) as [st|e] eqn:Ei.
  - destruct (collect ns cpu dir items) as [l'|e].
    + split; [intros [= <-]; constructor; [done|by apply IH]|]. intros Hf.
      inversion Hf as [|? ? ? ? H1 H2]; subst. apply IH in H2. congruence.
    + split; [done|]. intros Hf. inversion Hf as [|? ? ? ? H1 H2]; subst. apply IH in H2. done.
  - split; [done|]. intros Hf. inversion Hf; congruence.
Qed.

Definition meets_policy (st : CpuIdleState) : Prop := is_disabled st = negb (is_exact (is_name st)).
Lemma check_policy_ok l : check_policy l = Ok tt <-> Forall meets_policy l.
Proof.
  induction l as [|st l IH]; cbn [check_policy]; [by split|]. rewrite Forall_cons, <- IH. unfold meets_policy.
  destruct (is_exact _), (is_disabled _); cbn [negb]; naive_solver.
Qed.

Lemma look_all_ok ns order root cpus result l : look_all ns order root cpus result = Ok l <->
  exists ls, Forall2 (fun cpu l => look ns order root cpu = Ok l) cpus ls /\ l = result ++ concat ls.
Proof.
  revert result. induction cpus as [|cpu cpus IH]; intros result; cbn [look_all].
  - split; [intros [= <-]; exists []; by rewrite app_nil_r|]. intros (ls & Hls & ->). inversion Hls. by rewrite app_nil_r.
  - destruct (look ns order root cpu) as [l1|e] eqn:El.
    + rewrite IH. split.
      * intros (ls & Hls & ->). exists (l1 :: ls). split; [by constructor|]. cbn. by rewrite app_assoc.
      * intros (ls & Hls & ->). inversion Hls as [|? l2 ? ls' H1 H2]; subst. exists ls'. split; [done|].
        assert (l2 = l1) as -> by congruence. cbn. by rewrite app_assoc.
    + split; [done|]. intros (ls & Hls & _). inversion Hls; congruence.
Qed.

Lemma idle_at_ok ns cpu dir item st : idle_at ns cpu dir item = Ok st <->
  exists name, holds_text ns ((dir ++ [item]) ++ ["name"%string]) name /\
    st = mkIdleState cpu (to_ascii_uppercase name) (is_disabled st) /\
    holds_text ns ((dir ++ [item]) ++ ["disable"%string]) (if is_disabled st then "1" else "0")%string.
Proof.
  unfold idle_at. setoid_rewrite <- peek_text. split.
  - intros H. repeat (case_match; try discriminate H); simplify_eq/=; repeat case_bool_decide; simplify_eq/=; eauto.
  - intros (name & -> & Hst & Hd). rewrite Hd, Hst. by destruct (is_disabled st).
Qed.

Lemma only_one_iff (P Q : string -> Prop) : (forall x, P x <-> Q x) -> only_one P <-> only_one Q.
Proof. intros H. unfold only_one. by setoid_rewrite H. Qed.

Section one_cpu.
Context (ns : nodes) (cpu : N) (dir : path) (F : list string) (l : list CpuIdleState).
Hypothesis (Hread : Forall2 (fun item st => idle_at ns cpu dir item = Ok st) F l).

Lemma named_state i item st n : F !! i = Some item -> l !! i = Some st ->
  is_name st = n <-> exists name, holds_text ns ((dir ++ [item]) ++ ["name"%string]) name /\ to_ascii_uppercase name = n.
Proof.
  intros Hi Hst. pose proof (Forall2_lookup_lr _ _ _ _ _ _ Hread Hi Hst) as (nm & Hnm & Heq & _)%idle_at_ok.
  rewrite Heq. cbn [is_name]. split; [intros <-; eauto|]. intros (nm' & Hnm' & <-). f_equal. by eapply holds_text_fun.
Qed.

Lemma count_only n : NoDup F -> count_exact n l = 1%nat <->
  only_one (fun item => item ∈ F /\ exists name, holds_text ns ((dir ++ [item]) ++ ["name"%string]) name /\ to_ascii_uppercase name = n).
Proof.
  intros Hnd. unfold count_exact. rewrite filter_single. split.
  - intros (i & st & Hst & Hn & Hu). destruct (Forall2_lookup_r _ _ _ _ _ Hread Hst) as (item & Hi & _).
    apply bool_decide_eq_true in Hn. exists item. split.
    + split; [by eapply list_elem_of_lookup_2|by eapply named_state].
    + intros item' [[j Hj]%list_elem_of_lookup Hn']. destruct (Forall2_lookup_l _ _ _ _ _ Hread Hj) as (st' & Hst' & _).
      assert (j = i) as ->; [|congruence]. eapply Hu; [exact Hst'|]. apply bool_decide_eq_true. by eapply named_state.
  - intros (item & [[i Hi]%list_elem_of_lookup Hn] & Hu).
    destruct (Forall2_lookup_l _ _ _ _ _ Hread Hi) as (st & Hst & _). exists i, st. split; [done|]. split.
    + apply bool_decide_eq_true. by eapply named_state.
    + intros j st' Hst' Hn'%bool_decide_eq_true. destruct (Forall2_lookup_r _ _ _ _ _ Hread Hst') as (item' & Hj & _).
      assert (item' = item) as ->; [|by eapply NoDup_lookup]. apply Hu. split; [by eapply list_elem_of_lookup_2|].
      by eapply named_state.
Qed.

Lemma all_meet : Forall meets_policy l <-> forall item, item ∈ F -> exists name,
  holds_text ns ((dir ++ [item]) ++ ["name"%string]) name /\
  holds_text ns ((dir ++ [item]) ++ ["disable"%string]) (if is_exact (to_ascii_uppercase name) then "0" else "1")%string.
Proof.
  rewrite Forall_lookup. split.
  - intros Hall item [i Hi]%list_elem_of_lookup. destruct (Forall2_lookup_l _ _ _ _ _ Hread Hi) as (st & Hst & Hok).
    apply idle_at_ok in Hok as (name & Hn & Heq & Hd). exists name. split; [done|].
    pose proof (Hall i st Hst) as Hm. unfold meets_policy in Hm. rewrite Hm, Heq in Hd. cbn in Hd.
    by destruct (is_exact _).
  - intros Hall i st Hst. destruct (Forall2_lookup_r _ _ _ _ _ Hread Hst) as (item & Hi & Hok).
    apply idle_at_ok in Hok as (name & Hn & Heq & Hd).
    destruct (Hall item) as (name' & Hn' & Hd'); [by eapply list_elem_of_lookup_2|].
    rewrite (holds_text_fun _ _ _ _ Hn' Hn) in Hd'. pose proof (holds_text_fun _ _ _ _ Hd Hd') as Hv.
    unfold meets_policy. rewrite Heq. cbn [is_name is_disabled]. by destruct (is_disabled st), (is_exact _).
Qed.
End one_cpu.

Lemma look_ok ns order root cpu : (forall l, order l ≡ₚ l) ->
  (exists l, look ns order root cpu = Ok l /\ Forall meets_policy l) <-> compliant ns root cpu.
Proof.
  intros Hord. unfold look, compliant. cbv zeta. set (dir := cpuidle_dir root cpu). destruct (peek_dir ns dir) eqn:Ed.
  2: { split; [by intros (l & Hl & _)|]. intros (r & u & m & Hr & Hd & _). unfold peek_dir, stat in Ed.
       rewrite Hr in Ed. cbn in Ed. by rewrite Hd in Ed. }
  apply peek_dir_at in Ed as (r & u & m & Hr & Hd). rewrite Hr. set (items := order (children ns r)).
  set (F := List.filter (considered ns dir) items).
  assert (HF : forall item, item ∈ F <-> idle_item ns r dir item).
  { intros item. unfold F, idle_item. rewrite !list_elem_of_In, List.filter_In, <- !list_elem_of_In, considered_spec.
    unfold items. by rewrite Hord. }
  assert (Hnd : NoDup F).
  { unfold F. rewrite NoDup_ListNoDup. apply List.NoDup_filter. rewrite <- NoDup_ListNoDup. unfold items. rewrite Hord. apply NoDup_children. }
  split.
  - intros (l & Hl & Hm). destruct (collect _ _ _ _) as [l'|e] eqn:Ec; [|done]. apply collect_ok in Ec.
    case_bool_decide as HP; cbn [andb] in Hl; [|done]. case_bool_decide as HC; [|done]. injection Hl as ->. exists r, u, m. split; [done|]. split; [done|].
    split; [|split].
    + intros item Hit. by eapply all_meet; [..|apply HF].
    + eapply only_one_iff; [|by eapply count_only, HP]. intros x. unfold state_named. by rewrite <- HF.
    + eapply only_one_iff; [|by eapply count_only, HC]. intros x. unfold state_named. by rewrite <- HF.
  - intros (r' & u' & m' & Hr' & Hd' & Hall & HP & HC). injection Hr' as <-.
    assert (Hc : exists l, Forall2 (fun item st => idle_at ns cpu dir item = Ok st) F l).
    { setoid_rewrite <- HF in Hall. clear -Hall. induction F as [|item F IH]; [exists []; constructor|].
      destruct IH as [l Hl]; [intros it Hit; apply Hall; set_solver|]. destruct (Hall item) as (name & Hn & Hv); [set_solver|].
      exists (mkIdleState cpu (to_ascii_uppercase name) (negb (is_exact (to_ascii_uppercase name))) :: l).
      constructor; [|done]. apply idle_at_ok. exists name. split; [done|]. split; [done|]. cbn. by destruct (is_exact _). }
    destruct Hc as [l Hl]. exists l. rewrite (proj2 (collect_ok ns cpu dir items l) Hl).
    rewrite !bool_decide_true.
    + split; [done|]. eapply all_meet; [done|]. intros item Hit. by apply Hall, HF.
    + eapply count_only; [done|done|]. eapply only_one_iff; [|exact HC]. intros x. unfold state_named. by rewrite <- HF.
    + eapply count_only; [done|done|]. eapply only_one_iff; [|exact HP]. intros x. unfold state_named. by rewrite <- HF.
Qed.

Lemma verdict_ok ns order t : (forall l, order l ≡ₚ l) ->
  (exists l, verdict ns order t = Ok l) <-> Forall (compliant ns (tp_sysfs_root t)) (selected t).
Proof.
  intros Hord. unfold verdict. rewrite <- (Forall_iff _ _ _ (fun cpu => look_ok ns order (tp_sysfs_root t) cpu Hord)).
  destruct (look_all _ _ _ _ _) as [states|e] eqn:E.
  - apply look_all_ok in E as (ls & Hls & ->). cbn [app].
    assert (Hc : check_policy (concat ls) = Ok tt <-> Forall (fun cpu => exists l, look ns order (tp_sysfs_root t) cpu = Ok l /\ Forall meets_policy l) (selected t)).
    { rewrite check_policy_ok. induction Hls as [|cpu l cpus ls Hl Hls IH]; [by split; constructor|].
      cbn [concat]. rewrite Forall_app, Forall_cons, IH. split; [intros []; eauto|].
      intros [(l' & Hl' & Hm) Hr]. split; [congruence|done]. }
    rewrite <- Hc. destruct (check_policy _) as [[]|]; naive_solver.
  - split; [by intros [l Hl]|]. intros Hall. exfalso.
    assert (Hls : exists ls, Forall2 (fun cpu l => look ns order (tp_sysfs_root t) cpu = Ok l) (selected t) ls).
    { clear E. induction Hall as [|cpu cpus (l & Hl & _) _ [ls Hls]]; [exists []; constructor|]. exists (l :: ls). by constructor. }
    destruct Hls as [ls Hls]. assert (look_all ns order (tp_sysfs_root t) (selected t) [] = Ok ([] ++ concat ls)) by (apply look_all_ok; eauto).
    congruence.
Qed.

(** ** What benchctl applies *)

(** Only a directory has something below it. *)
Definition grounded (ns : nodes) : Prop :=
  forall p c, is_Some (ns !! (p ++ [c])) -> p = [] \/ exists u m, ns !! p = Some (Dir u m).
(** The kernel spells the names of the two permitted states in capitals. *)
Definition spelled (e : IdleEntry) : Prop :=
  is_exact (to_ascii_uppercase (ie_name e)) = true -> to_ascii_uppercase (ie_name e) = ie_name e.

Lemma spelled_named e n : spelled e -> n = "POLL"%string \/ n = "C1"%string ->
  to_ascii_uppercase (ie_name e) = n <-> ie_name e = n.
Proof.
  intros Hs Hn. split; [|by intros ->; destruct Hn as [->| ->]]. intros Hu. rewrite <- Hs; [done|].
  rewrite Hu. unfold is_exact. by destruct Hn as [->| ->].
Qed.
Lemma spelled_value e : spelled e ->
  desired_for (ie_name e) = (if is_exact (to_ascii_uppercase (ie_name e)) then "0" else "1")%string.
Proof.
  intros Hs. unfold desired_for, is_exact.
  pose proof (spelled_named e "POLL" Hs (or_introl eq_refl)) as HP. pose proof (spelled_named e "C1" Hs (or_intror eq_refl)) as HC.
  rewrite (bool_decide_ext _ _ HP), (bool_decide_ext _ _ HC). by repeat case_bool_decide.
Qed.

Lemma holds_text_plain ns p c : plain ns (p ++ [c]) -> forall f u m, ns !! (p ++ [c]) = Some (File f u m) ->
  holds_text ns (p ++ [c]) (trim f).
Proof.
  intros Hp f u m Hf. exists f, u, m. split; [|done]. unfold stat. rewrite resolve_plain by done. cbn. by rewrite at_path_snoc.
Qed.

Section applied.
Context (root : path) (order : list string -> list string) (es : list IdleEntry) (ns ns' : nodes).
Hypothesis (Horder : forall l, order l ≡ₚ l) (Hroot : plain ns root) (Hground : grounded ns).
Hypothesis (Hspelled : Forall spelled es) (Hbenign : benign ns ns').
Hypothesis (Hshape : shape root ns ns') (Hheld : forall e, e ∈ es -> holds ns' e (ie_desired e)).

(** An idle state of benchctl's inventory, as the benchmark sees it once the policy is applied. *)
Lemma applied_item cpu item e :
  e ∈ es -> plain ns (cpuidle_dir root cpu) -> item_ok ns cpu (cpuidle_dir root cpu) item (Some e) ->
  let dir := cpuidle_dir root cpu in
  holds_text ns' ((dir ++ [item]) ++ ["name"%string]) (ie_name e) /\
  holds_text ns' ((dir ++ [item]) ++ ["disable"%string]) (desired_for (ie_name e)) /\
  exists u m, stat ns' (dir ++ [item]) = Some (Dir u m).
Proof.
  intros He Hp Hok dir. pose proof (item_ok_recorded _ _ _ _ _ Hp Hok) as [(_ & _ & _ & _ & Hdes) Hpath].
  unfold item_ok in Hok. destruct (str_strip_prefix "state" item) as [index|] eqn:Ei; [|done].
  destruct Hok as (st & name & orig & c & u & m & _ & R1 & R2 & R3 & Hn & Ht & _ & [= Heq]).
  assert (Hpre : root `prefix_of` dir) by (by do 2 apply prefix_app_r).
  assert (Hnd : item <> "disable"%string) by (by intros ->).
  pose proof (plain_real _ _ _ Hp (state_item_not_dots _ _ Ei) R1) as Hp1.
  pose proof (plain_benign _ _ _ Hbenign Hp1) as Hp1'. subst e. cbn [ie_name ie_disable_path ie_desired] in *.
  split; [|split].
  - rewrite <- Ht. eapply holds_text_plain; [eapply plain_benign; [done|]; by apply plain_real|].
    rewrite (shape_other root ns); [exact Hn|done|by apply prefix_app_r|done].
  - destruct (Hheld _ He) as (f & u' & m' & Hf & Hv). cbn [ie_disable_path ie_desired] in Hf, Hv. rewrite <- Hv.
    eapply holds_text_plain; [|exact Hf]. eapply plain_benign; [done|]. by apply plain_real.
  - destruct (Hground (dir ++ [item]) "name"%string) as [Hnil|(u' & m' & Hd)]; [by eexists; exact Hn|by destruct dir|].
    exists u', m'. unfold stat. rewrite resolve_plain by done. cbn. rewrite at_path_snoc.
    by rewrite (shape_other root ns) by done.
Qed.

Lemma applied_compliant cpu block : (forall e, e ∈ block -> e ∈ es) -> cpu_ok ns order root cpu block -> compliant ns' root cpu.
Proof.
  intros Hsub (R1 & R2 & (u & m & Hd) & os & Hos & _ & HP & HC & ->). unfold compliant. cbv zeta.
  set (dir := cpuidle_dir root cpu) in *. assert (Hp : plain ns dir) by (by apply cpuidle_dir_plain).
  assert (Hpre : root `prefix_of` cpu_dir root cpu) by (by apply prefix_app_r).
  assert (Hch : children ns' dir = children ns dir).
  { symmetry. apply children_eq. intros c. by eapply shape_some; [|do 3 apply prefix_app_r]. }
  assert (Hin : forall e, e ∈ omap id os -> e ∈ es) by (intros e He; apply Hsub; by rewrite sort_by_state_perm).
  assert (Hentry : forall item, idle_item ns' dir dir item -> exists e, e ∈ omap id os /\ item_ok ns cpu dir item (Some e)).
  { intros item (Hit & _ & [index Hi]). rewrite Hch, <- Horder in Hit. apply list_elem_of_lookup in Hit as [i Hit].
    destruct (Forall2_lookup_l _ _ _ _ _ Hos Hit) as (o & Ho & Hok). unfold item_ok in Hok |- *. rewrite Hi in Hok |- *.
    pose proof Hok as (st & name & orig & c & u' & m' & _ & _ & _ & _ & _ & _ & _ & ->).
    eexists. split; [|exact Hok]. apply list_elem_of_omap. eexists. split; [by eapply list_elem_of_lookup_2|done]. }
  assert (Hitem : forall e, e ∈ omap id os -> exists item, idle_item ns' dir dir item /\ item_ok ns cpu dir item (Some e)).
  { intros e He. pose proof He as (o & [i Ho]%list_elem_of_lookup & Hoe)%list_elem_of_omap. cbn in Hoe. subst o.
    destruct (Forall2_lookup_r _ _ _ _ _ Hos Ho) as (item & Hit & Hok). exists item. split; [|done].
    split; [rewrite Hch, <- Horder; by eapply list_elem_of_lookup_2|]. split; [by eapply applied_item; [apply Hin|..]|].
    unfold item_ok in Hok. destruct (str_strip_prefix _ item); [done|discriminate Hok]. }
  assert (Hone : forall n, n = "POLL"%string \/ n = "C1"%string -> count_named n (omap id os) = 1%nat -> only_one (state_named ns' dir dir n)).
  { intros n Hn Hc. rewrite Forall_forall in Hspelled.
    assert (Hnamed : forall item e, idle_item ns' dir dir item -> e ∈ omap id os -> item_ok ns cpu dir item (Some e) ->
      state_named ns' dir dir n item <-> named n e = true).
    { intros item e Hit He Hok. destruct (applied_item cpu item e (Hin e He) Hp Hok) as (Hnm & _).
      unfold named. rewrite bool_decide_eq_true, <- spelled_named by auto. split.
      - intros (_ & name & Hnm' & <-). f_equal. by eapply holds_text_fun.
      - intros Hu. split; [done|]. by exists (ie_name e). }
    apply filter_single in Hc as (i & e & Hi & Hne & Hu). destruct (Hitem e) as (item & Hit & Hok); [by eapply list_elem_of_lookup_2|].
    exists item. split; [eapply Hnamed; [done|by eapply list_elem_of_lookup_2|done|done]|]. intros item' Hst.
    destruct (Hentry item') as (e' & He' & Hok'); [apply Hst|]. apply (Hnamed item' e') in Hst; [|apply Hst|done|done].
    apply list_elem_of_lookup in He' as [j Hj]. rewrite (Hu j e' Hj Hst) in Hj. simplify_eq.
    pose proof (item_ok_recorded _ _ _ _ _ Hp Hok) as [_ H1]. pose proof (item_ok_recorded _ _ _ _ _ Hp Hok') as [_ H2].
    rewrite H1 in H2. apply app_inj_tail in H2 as [H2 _]. by apply app_inj_tail in H2 as [_ ->]. }
  exists dir, u, m. split; [apply resolve_plain; by eapply plain_benign|].
  split; [unfold dir at 1; unfold cpuidle_dir; rewrite at_path_snoc, (shape_other root ns) by done; done|].
  split; [|split; apply Hone; auto].
  intros item Hit. destruct (Hentry item Hit) as (e & He & Hok). exists (ie_name e).
  destruct (applied_item cpu item e (Hin e He) Hp Hok) as (Hn & Hv & _). split; [done|].
  rewrite <- spelled_value; [done|]. rewrite Forall_forall in Hspelled. auto.
Qed.
End applied.

(** ** The properties *)

(** C28: The benchmark's cpuidle gate is exact. When no system call fails, the check changes nothing and
    accepts the machine exactly if every selected CPU complies: its cpuidle directory is there, POLL and C1
    occur once each and are enabled, and every other idle state is disabled (the counters of eight bits do not
    wrap, so 257 states called POLL are not taken for one). *)
Theorem policy_gate_exact (t : Topology) (s : iost) :
  no_faults s -> (forall l, io_order s l ≡ₚ l) ->
  exists r s', validate_cpuidle t s = (r, s') /\ io_nodes s' = io_nodes s /\
    ((exists states, r = Ok states) <-> Forall (compliant (io_nodes s) (tp_sysfs_root t)) (selected t)).
Proof.
  intros Hnf Hord. destruct (validate_runs t s Hnf) as (s' & Hr & [_ Hn]). exists (verdict (io_nodes s) (io_order s) t), s'.
  split; [done|]. split; [done|]. by apply verdict_ok.
Qed.

(** Four CPUs with three idle states each; [deep] is what the deep state's disable file holds. *)
Definition idle_cpu (cpu deep : string) : list (path * node) :=
  [(["sys"; cpu]%string, Dir 0 493); (["sys"; cpu; "cpuidle"]%string, Dir 0 493)]
  ++ idle_files cpu "state0" "POLL" "0" ++ idle_files cpu "state1" "C1" "0" ++ idle_files cpu "state2" "C6" deep.
Definition idle_machine (deep : string) : nodes := list_to_map (
  [(["sys"]%string, Dir 0 493)] ++ idle_cpu "cpu0" deep ++ idle_cpu "cpu1" deep ++ idle_cpu "cpu2" deep ++ idle_cpu "cpu3" deep).
Definition four_roles : Topology := mkTopology 0 1 2 3 ∅ ["sys"]%string.

Lemma policy_gate_exact_witness :
  Forall (compliant (idle_machine "1") ["sys"]%string) [0; 1; 2; 3]%N /\
  ~ Forall (compliant (idle_machine "0") ["sys"]%string) [0; 1; 2; 3]%N.
Proof.
  split.
  - destruct (policy_gate_exact four_roles (calm (idle_machine "1"))) as (r & s' & Hr & _ & Hiff);
      [intros k _; reflexivity|intros l; reflexivity|]. apply Hiff.
    assert (Hv : exists states, (validate_cpuidle four_roles (calm (idle_machine "1"))).1 = Ok states)
      by (vm_compute; eexists; reflexivity).
    destruct Hv as [states Hv]. rewrite Hr in Hv. exists states. exact Hv.
  - destruct (policy_gate_exact four_roles (calm (idle_machine "0"))) as (r & s' & Hr & _ & Hiff);
      [intros k _; reflexivity|intros l; reflexivity|]. intros Hall. apply Hiff in Hall as [states Hst].
    assert (Hv : (validate_cpuidle four_roles (calm (idle_machine "0"))).1 <> Ok states) by (vm_compute; discriminate).
    apply Hv. rewrite Hr. exact Hst.
Defined.


(** [grounded], as a check of a finite tree. *)
Definition grounded_check (ns : nodes) : bool :=
  forallb (fun q => match removelast q with
                    | [] => true
                    | d => match ns !! d with Some (Dir _ _) => true | _ => false end
                    end) (map_to_list ns).*1.
Lemma grounded_checked ns : grounded_check ns = true -> grounded ns.
Proof.
  unfold grounded_check. rewrite forallb_forall. intros H p c [n Hn]. specialize (H (p ++ [c])).
  rewrite removelast_last in H. destruct p as [|x p]; [by left|right].
  assert (Hin : In ((x :: p) ++ [c]) (map_to_list ns).*1).
  { apply list_elem_of_In, list_elem_of_fmap. exists ((x :: p) ++ [c], n). split; [done|by apply elem_of_map_to_list]. }
  apply H in Hin. cbn [app] in Hin. destruct (ns !! (x :: p)) as [[|u m|]|]; [done|by exists u, m|done..].
Qed.

