(* ===== verification/BenchCases.v ===== *)
(** * The benchmark's command line, cases, samples and ranking (benches/wake_latency.rs)

    The argument parser, the matrix of benchmark cases and their names, the recording of latency
    samples, and the choice of a winner. The threads of a trial are in [Trial], their results and the lines written
    in [Measure]. *)

From stdpp Require Import pretty sorting.
From Stdlib Require Import SpecFloat.
From S2P Require Import Prelude BenchFs Errors Pure.
Open Scope Z_scope.

(** ** The command line *)

Inductive Mode := Smoke | Official.
#[export] Instance Mode_eq_dec : EqDecision Mode.
Proof. solve_decision. Defined.

Record Arguments := mkArguments {
  ar_mode : Mode;
  ar_trial_duration_ms : Z;
  ar_repetitions : Z;
  ar_warmup_events : Z;
  ar_max_samples : Z;
  ar_waiter_cpu : option Z;
  ar_victim_cpu : option Z;
  ar_producer_cpu : option Z;
  ar_controller_cpu : option Z;
  ar_output : string;
  ar_case_filter : option string;
  ar_preflight_only : bool;
}.

(** The error messages, by what they say. *)
Inductive ArgError :=
| OnlyOnce (name : string) | RequiresValue (name : string) | NotANumber (name : string)
| UnknownArgument (argument : string) | NotPositive | OfficialMinimum | CaseInOfficial | PartialRoles.

(** [--help] prints the usage and exits. *)
Inductive Parse := Parsed (a : Arguments) | HelpShown | Refused (e : ArgError).

(** The variables of the parsing loop; the eight numeric options are the slots of [pa_numbers]. *)
Record ParseState := mkParse {
  pa_mode : option Mode;
  pa_numbers : gmap string Z;
  pa_output : string;
  pa_case : option string;
  pa_preflight_only : bool;
}.
Definition parse_start : ParseState :=
  mkParse None ∅ "target/snoozer-bench/results.jsonl" None false.

Definition numeric_options : list string :=
  ["--duration-ms"; "--repetitions"; "--warmup-events"; "--max-samples"; "--waiter-cpu";
   "--victim-cpu"; "--producer-cpu"; "--controller-cpu"]%string.

(** [set_once] *)
Definition set_once {T} (slot : option T) (value : T) (name : string) : result T ArgError :=
  match slot with Some _ => Err (OnlyOnce name) | None => Ok value end.

(** [parse_next] on the text of the next argument *)
Definition parse_value (text name : string) : result Z ArgError :=
  match parse_unsigned u64_max text with None => Err (NotANumber name) | Some v => Ok v end.

(** One numeric option with its text. *)
Definition numeric_option (st : ParseState) (name text : string) : result ParseState ArgError :=
  match parse_value text name with
  | Err e => Err e
  | Ok v =>
      match set_once (pa_numbers st !! name) v name with
      | Err e => Err e
      | Ok v => Ok (mkParse (pa_mode st) (<[name := v]> (pa_numbers st)) (pa_output st) (pa_case st)
                      (pa_preflight_only st))
      end
  end.

Definition mode_option (st : ParseState) (m : Mode) : result ParseState ArgError :=
  match set_once (pa_mode st) m "--smoke/--official" with
  | Err e => Err e
  | Ok m => Ok (mkParse (Some m) (pa_numbers st) (pa_output st) (pa_case st) (pa_preflight_only st))
  end.

(** The checks after the loop. *)
Definition role_count (st : ParseState) : nat :=
  length (omap (fun n => pa_numbers st !! n)
    ["--waiter-cpu"; "--victim-cpu"; "--producer-cpu"; "--controller-cpu"]%string).

Definition finish_parse (st : ParseState) : Parse :=
  let mode := default Smoke (pa_mode st) in
  let '(d0, r0, w0, m0) :=
    match mode with
    | Smoke => (40, 1, 128, DEFAULT_SMOKE_MAX_SAMPLES)
    | Official => (250, 7, 1024, 5000000)
    end in
  let number name d := default d (pa_numbers st !! name) in
  let duration_ms := number "--duration-ms"%string d0 in
  let repetitions := number "--repetitions"%string r0 in
  let warmup_events := number "--warmup-events"%string w0 in
  let max_samples := number "--max-samples"%string m0 in
  if (duration_ms =? 0) || (repetitions =? 0) || (max_samples =? 0) then Refused NotPositive
  else if bool_decide (mode = Official)
          && ((duration_ms <? 250) || (repetitions <? 7) || (warmup_events <? 1000) || (max_samples <? 10000))
  then Refused OfficialMinimum
  else if bool_decide (mode = Official) && bool_decide (is_Some (pa_case st)) then Refused CaseInOfficial
  else if negb ((role_count st =? 0)%nat || (role_count st =? 4)%nat) then Refused PartialRoles
  else Parsed (mkArguments mode duration_ms repetitions warmup_events max_samples
    (pa_numbers st !! "--waiter-cpu"%string) (pa_numbers st !! "--victim-cpu"%string)
    (pa_numbers st !! "--producer-cpu"%string) (pa_numbers st !! "--controller-cpu"%string)
    (pa_output st) (pa_case st) (pa_preflight_only st)).

(** [Arguments::parse] on the arguments after the program's name *)
Fixpoint parse_arguments (st : ParseState) (args : list string) : Parse :=
  match args with
  | [] => finish_parse st
  | arg :: args =>
      if bool_decide (arg = "--bench"%string) then parse_arguments st args
      else if bool_decide (arg = "--smoke"%string) then
        match mode_option st Smoke with Ok st => parse_arguments st args | Err e => Refused e end
      else if bool_decide (arg = "--official"%string) then
        match mode_option st Official with Ok st => parse_arguments st args | Err e => Refused e end
      else if bool_decide (arg ∈ numeric_options) then
        match args with
        | [] => Refused (RequiresValue arg)
        | text :: args =>
            match numeric_option st arg text with Ok st => parse_arguments st args | Err e => Refused e end
        end
      else if bool_decide (arg = "--output"%string) then
        match args with
        | [] => Refused (RequiresValue arg)
        | text :: args =>
            parse_arguments (mkParse (pa_mode st) (pa_numbers st) text (pa_case st) (pa_preflight_only st)) args
        end
      else if bool_decide (arg = "--case"%string) then
        match args with
        | [] => Refused (RequiresValue arg)
        | text :: args =>
            parse_arguments (mkParse (pa_mode st) (pa_numbers st) (pa_output st) (Some text) (pa_preflight_only st)) args
        end
      else if bool_decide (arg = "--preflight-only"%string) then
        parse_arguments (mkParse (pa_mode st) (pa_numbers st) (pa_output st) (pa_case st) true) args
      else if bool_decide (arg = "--help"%string) || bool_decide (arg = "-h"%string) then HelpShown
      else Refused (UnknownArgument arg)
  end.

Definition cpu_overrides (a : Arguments) : option (Z * Z * Z * Z) :=
  w ← ar_waiter_cpu a; v ← ar_victim_cpu a; p ← ar_producer_cpu a; c ← ar_controller_cpu a;
  Some (w, v, p, c).

(** ** Cases *)

Inductive Workload := Saturated | Bursty.
Inductive Surface := Direct | SurfaceSingleParker | SurfaceMultiParker | SurfaceStdPark.
Inductive Filtering := Raw | Filtered.
Inductive StrategyKind :=
| SK_BusySpin
| SK_SpinThenYield (iterations : N)
| SK_HardwareWait (backend : HardwareBackend)
| SK_SpinThenHardwareWait (backend : HardwareBackend) (iterations : N)
| SK_AmdMwaitxC1
| SK_StdPark.
Record Case := mkCase { c_strategy : StrategyKind; c_surface : Surface; c_filtering : Filtering }.

Definition workload_str (w : Workload) : string := match w with Saturated => "saturated" | Bursty => "bursty" end.
Definition surface_str (s : Surface) : string :=
  match s with
  | Direct => "direct_atomic"
  | SurfaceSingleParker => "single_parker"
  | SurfaceMultiParker => "multi_parker"
  | SurfaceStdPark => "std_parker"
  end.
Definition filtering_str (f : Filtering) : string := match f with Raw => "raw" | Filtered => "filtered" end.
Definition hardware_backend_name (b : HardwareBackend) : string :=
  match b with AmdMwaitx => "amd_mwaitx" | IntelUmwait => "intel_umwait_c0_1" end.

Definition strategy_name (s : StrategyKind) : string :=
  match s with
  | SK_BusySpin => "busy_spin"
  | SK_SpinThenYield n => "spin_then_yield_" +:+ pretty n
  | SK_HardwareWait b => hardware_backend_name b
  | SK_SpinThenHardwareWait b n => "spin_then_" +:+ hardware_backend_name b +:+ "_" +:+ pretty n
  | SK_AmdMwaitxC1 => "amd_mwaitx_cpu_c1_diagnostic"
  | SK_StdPark => "std_park"
  end.
(** [Case::name] *)
Definition case_name (c : Case) : string :=
  strategy_name (c_strategy c) +:+ "/" +:+ surface_str (c_surface c) +:+ "/" +:+ filtering_str (c_filtering c).

Definition SPIN_SWEEP : list N := [32; 128; 512; 2048]%N.

Definition append_surface_matrix (cases : list Case) (s : StrategyKind) : list Case :=
  cases ++ (surface ← [Direct; SurfaceSingleParker; SurfaceMultiParker];
            filtering ← [Raw; Filtered]; [mkCase s surface filtering]).

Definition hardware_backend_of (h : BenchmarkHardware) : HardwareBackend :=
  match h with BH_AmdMwaitx => AmdMwaitx | BH_IntelUmwaitC01 => IntelUmwait end.

Definition all_cases (filter : option string) (matrix : BenchmarkMatrix) : result (list Case) string :=
  let cases := append_surface_matrix [] SK_BusySpin in
  let cases := foldl (fun cs n => append_surface_matrix cs (SK_SpinThenYield n)) cases SPIN_SWEEP in
  let cases :=
    match bm_hardware matrix with
    | None => cases
    | Some hardware =>
        let backend := hardware_backend_of hardware in
        let cases := append_surface_matrix cases (SK_HardwareWait backend) in
        let cases := foldl (fun cs n => append_surface_matrix cs (SK_SpinThenHardwareWait backend n)) cases SPIN_SWEEP in
        if include_amd_cpu_c1_diagnostic matrix then append_surface_matrix cases SK_AmdMwaitxC1 else cases
    end in
  let cases := cases ++ [mkCase SK_StdPark SurfaceStdPark Raw] in
  match filter with
  | None => Ok cases
  | Some f =>
      let cases := List.filter (fun c => bool_decide (case_name c = f)) cases in
      match cases with [] => Err ("unknown benchmark case: " +:+ f)%string | _ => Ok cases end
  end.

(** ** Samples *)

Record WaiterMetrics := mkMetrics {
  wm_latencies_cycles : list Z;
  wm_unclassified_wakes : option Z;
  wm_public_timeouts : Z;
  wm_invalid_samples : Z;
  wm_migrated_samples : Z;
  wm_sample_limit_reached : bool;
}.

(** What a waiter keeps between samples: its event counter, its metrics, and the two shared
    flags the recording stores to. *)
Record Recorder := mkRecorder {
  rc_events : Z;
  rc_metrics : WaiterMetrics;
  rc_stop : bool;
  rc_acknowledged : Z;
}.

(** One observation: the generation, RDTSCP's counter and processor id, and the time stamp sent. *)
Record Sample := mkSample { sa_observed : Z; sa_received : Z; sa_auxiliary : Z; sa_sent : Z }.

(** [i64::try_from(i128::from(received) - i128::from(sent))] *)
Definition sample_cycles (s : Sample) : option Z :=
  let d := i128_wrap (sa_received s - sa_sent s) in
  if (- 2 ^ 63 <=? d) && (d <? 2 ^ 63) then Some d else None.

Definition record_sample (expected_aux warmup_events max_samples : Z) (r : Recorder) (s : Sample) : Recorder :=
  let m := rc_metrics r in
  let count := Z.of_nat (length (wm_latencies_cycles m)) in
  let '(m, stop) :=
    if negb (sa_auxiliary s =? expected_aux) then
      (mkMetrics (wm_latencies_cycles m) (wm_unclassified_wakes m) (wm_public_timeouts m) (wm_invalid_samples m)
         (Z.min u64_max (wm_migrated_samples m + 1)) (wm_sample_limit_reached m), rc_stop r)
    else
      match sample_cycles s with
      | Some raw =>
          if (warmup_events <=? rc_events r) && (count <? max_samples) then
            let l := wm_latencies_cycles m ++ [raw] in
            let reached := Z.of_nat (length l) =? max_samples in
            (mkMetrics l (wm_unclassified_wakes m) (wm_public_timeouts m) (wm_invalid_samples m) (wm_migrated_samples m)
               (reached || wm_sample_limit_reached m), reached || rc_stop r)
          else (m, rc_stop r)
      | None =>
          (mkMetrics (wm_latencies_cycles m) (wm_unclassified_wakes m) (wm_public_timeouts m)
             (Z.min u64_max (wm_invalid_samples m + 1))
             (wm_migrated_samples m) (wm_sample_limit_reached m), rc_stop r)
      end in
  mkRecorder (Z.min u64_max (rc_events r + 1)) m stop (sa_observed s).

Definition recorder_start : Recorder := mkRecorder 0 (mkMetrics [] (Some 0) 0 0 0 false) false 0.

(** ** Summaries and the winner *)

(** [median_u64]; [None]: the panic on an empty iterator *)
Definition median_u64 (values : list Z) : option Z :=
  let values := merge_sort Z.le values in values !! (length values / 2)%nat.

Record Summary := mkSummary {
  su_case : Case;
  su_workload : Workload;
  su_repetitions : Z;
  su_p50_cycles : Z;
  su_p99_cycles : Z;
  su_p999_cycles : Z;
  su_p50_ns : Z;
  su_p99_ns : Z;
  su_p999_ns : Z;
  su_throughput_loss_percent : spec_float;
  su_victim_p99_degradation_percent : spec_float;
  su_invalid_samples : Z;
  su_migrated_samples : Z;
  su_sample_limit_reached : bool;
  su_eligible : bool;
}.

Definition rank_key (s : Summary) : Z * Z * Z :=
  latency_rank_key (su_p50_cycles s) (su_p99_cycles s) (su_p999_cycles s).

(** The lexicographic order of triples. *)
Definition key_ltb (a b : Z * Z * Z) : bool :=
  let '(a1, a2, a3) := a in
  let '(b1, b2, b3) := b in
  (a1 <? b1) || ((a1 =? b1) && ((a2 <? b2) || ((a2 =? b2) && (a3 <? b3)))).

(** [min_by_key] keeps the first of equal keys. *)
Fixpoint min_by_rank (best : Summary) (l : list Summary) : Summary :=
  match l with
  | [] => best
  | s :: r => min_by_rank (if key_ltb (rank_key s) (rank_key best) then s else best) r
  end.
Definition choose_winner (summaries : list Summary) : option Summary :=
  match List.filter su_eligible summaries with
  | [] => None
  | s :: r => Some (min_by_rank s r)
  end.

(** ** Lemmas *)

Definition key_le (a b : Z * Z * Z) : Prop := key_ltb b a = false.

Lemma key_ltb_lt a b : key_ltb a b = true <->
  a.1.1 < b.1.1 \/ (a.1.1 = b.1.1 /\ (a.1.2 < b.1.2 \/ (a.1.2 = b.1.2 /\ a.2 < b.2))).
Proof.
  destruct a as [[a1 a2] a3], b as [[b1 b2] b3]. simpl.
  rewrite !orb_true_iff, !andb_true_iff, !orb_true_iff, !andb_true_iff, !Z.ltb_lt, !Z.eqb_eq. done.
Qed.
Lemma key_le_spec a b : key_le a b <->
  ~ (b.1.1 < a.1.1 \/ (b.1.1 = a.1.1 /\ (b.1.2 < a.1.2 \/ (b.1.2 = a.1.2 /\ b.2 < a.2)))).
Proof. unfold key_le. rewrite <- key_ltb_lt. by rewrite not_true_iff_false. Qed.

Lemma min_by_rank_spec best l :
  min_by_rank best l ∈ best :: l /\ forall s, s ∈ best :: l -> key_le (rank_key (min_by_rank best l)) (rank_key s).
Proof.
  revert best. induction l as [|x l IH]; intros best; cbn [min_by_rank].
  - split; [apply list_elem_of_here|]. intros s ->%list_elem_of_singleton. rewrite key_le_spec. lia.
  - destruct (IH (if key_ltb (rank_key x) (rank_key best) then x else best)) as [Hin Hmin].
    set (w := min_by_rank _ l) in *. split.
    + destruct (key_ltb (rank_key x) (rank_key best)); set_solver.
    + pose proof (Hmin _ (list_elem_of_here _ _)) as Hb. intros s Hs. apply elem_of_cons in Hs as [->|Hs].
      * destruct (key_ltb (rank_key x) (rank_key best)) eqn:E; [|done].
        rewrite key_ltb_lt in E. rewrite key_le_spec in *. lia.
      * apply elem_of_cons in Hs as [->|Hs]; [|apply Hmin; by apply list_elem_of_further].
        destruct (key_ltb (rank_key x) (rank_key best)) eqn:E; [done|].
        fold (key_le (rank_key best) (rank_key x)) in E. rewrite key_le_spec in *. lia.
Qed.

(** The latencies a sequence of samples contributes from event [i] on: those after the warm-up, of an unmigrated
    thread, whose difference fits 64 bits. *)
Fixpoint kept_latencies (expected_aux warmup : Z) (i : Z) (l : list Sample) : list Z :=
  match l with
  | [] => []
  | s :: r =>
      (if (sa_auxiliary s =? expected_aux) && (warmup <=? i)
       then match sample_cycles s with Some d => [d] | None => [] end else [])
      ++ kept_latencies expected_aux warmup (i + 1) r
  end.

Definition recorder_ok (max_samples : Z) (r : Recorder) : Prop :=
  Z.of_nat (length (wm_latencies_cycles (rc_metrics r))) <= max_samples /\
  wm_sample_limit_reached (rc_metrics r)
    = (Z.of_nat (length (wm_latencies_cycles (rc_metrics r))) =? max_samples) /\
  rc_stop r = wm_sample_limit_reached (rc_metrics r).

Lemma record_sample_step aux warmup max r s i :
  0 <= i -> warmup <= u64_max -> rc_events r = Z.min u64_max i -> recorder_ok max r ->
  let r' := record_sample aux warmup max r s in
  rc_events r' = Z.min u64_max (i + 1) /\ recorder_ok max r' /\ rc_acknowledged r' = sa_observed s /\
  wm_latencies_cycles (rc_metrics r') =
    wm_latencies_cycles (rc_metrics r) ++
    (if Z.of_nat (length (wm_latencies_cycles (rc_metrics r))) <? max then
       (if (sa_auxiliary s =? aux) && (warmup <=? i)
        then match sample_cycles s with Some d => [d] | None => [] end else []) else []).
Proof.
  intros Hi Hw He (Hlen & Hlim & Hstop).
  assert (Hwe : (warmup <=? rc_events r) = (warmup <=? i)).
  { rewrite He. destruct (Z.leb_spec warmup i), (Z.leb_spec warmup (Z.min u64_max i)); lia. }
  assert (Hev : Z.min u64_max (rc_events r + 1) = Z.min u64_max (i + 1)) by lia.
  unfold record_sample. rewrite Hwe, Hev. destruct (sa_auxiliary s =? aux); simpl.
  2: { split; [done|]. split; [done|]. split; [done|]. case_match; by rewrite app_nil_r. }
  destruct (sample_cycles s) as [d|]; simpl.
  2: { split; [done|]. split; [done|]. split; [done|]. repeat case_match; by rewrite app_nil_r. }
  destruct (warmup <=? i), (Z.ltb_spec (Z.of_nat (length (wm_latencies_cycles (rc_metrics r)))) max) as [Hlt|Hge];
    simpl; (split; [done|]); (split; [|split; [done|by rewrite ?app_nil_r]]); [|done..].
  unfold recorder_ok. simpl. rewrite Hstop, Hlim, length_app, Nat2Z.inj_add. simpl.
  rewrite (proj2 (Z.eqb_neq (Z.of_nat (length _)) max)) by lia. rewrite orb_false_r. split; [lia|done].
Qed.

Lemma record_all aux warmup max l r i :
  0 <= i -> warmup <= u64_max -> rc_events r = Z.min u64_max i -> recorder_ok max r ->
  let r' := foldl (record_sample aux warmup max) r l in
  recorder_ok max r' /\
  wm_latencies_cycles (rc_metrics r') =
    wm_latencies_cycles (rc_metrics r) ++
    take (Z.to_nat (max - Z.of_nat (length (wm_latencies_cycles (rc_metrics r))))) (kept_latencies aux warmup i l).
Proof.
  revert r i. induction l as [|s l IH]; intros r i Hi Hw He Hok; cbn [foldl kept_latencies].
  - split; [done|]. by rewrite take_nil, app_nil_r.
  - destruct (record_sample_step aux warmup max r s i Hi Hw He Hok) as (He' & Hok' & _ & Hl).
    destruct (IH _ (i + 1) ltac:(lia) Hw He' Hok') as [Hr Hlat]. split; [done|]. rewrite Hlat, Hl. clear Hlat.
    set (c := wm_latencies_cycles (rc_metrics r)). destruct Hok as (Hmax & _). fold c in Hmax.
    set (x := if (sa_auxiliary s =? aux) && (warmup <=? i) then _ else _).
    assert (Hx : (length x <= 1)%nat) by (unfold x; repeat case_match; simpl; lia).
    destruct (Z.ltb_spec (Z.of_nat (length c)) max) as [Hlt|Hge].
    + rewrite <- app_assoc. f_equal. rewrite take_app, length_app.
      rewrite (take_ge x) by lia. f_equal. f_equal. lia.
    + rewrite app_nil_r. f_equal. replace (Z.to_nat (max - Z.of_nat (length c))) with 0%nat by lia. done.
Qed.

Lemma all_cases_filter f m :
  all_cases (Some f) m =
    match all_cases None m with
    | Ok cs => match List.filter (fun c => bool_decide (case_name c = f)) cs with
               | [] => Err ("unknown benchmark case: " +:+ f)%string
               | l => Ok l
               end
    | Err e => Err e
    end.
Proof. unfold all_cases. cbv zeta. by destruct (List.filter _ _). Qed.

(** A filter by name on distinct names finds one case or none. *)
Lemma filter_by_name (cs : list Case) f :
  NoDup (case_name <$> cs) ->
  match List.filter (fun c => bool_decide (case_name c = f)) cs with
  | [] => forall c, c ∈ cs -> case_name c <> f
  | l => exists c, l = [c] /\ c ∈ cs /\ case_name c = f
  end.
Proof.
  induction cs as [|c cs IH]; intros Hnd; simpl.
  { intros c Hc. by apply elem_of_nil in Hc. }
  apply NoDup_cons in Hnd as [Hnot Hnd]. specialize (IH Hnd). case_bool_decide as Hc.
  - assert (Hnil : List.filter (fun c => bool_decide (case_name c = f)) cs = []).
    { destruct (List.filter _ cs) as [|x l]; [done|]. destruct IH as (c' & _ & Hin & Hn). destruct Hnot.
      rewrite Hc, <- Hn. by apply list_elem_of_fmap_2. }
    rewrite Hnil. exists c. split; [done|]. split; [apply list_elem_of_here|done].
  - destruct (List.filter _ cs) as [|x l].
    + intros c' [->|Hin]%elem_of_cons; [done|by apply IH].
    + destruct IH as (c' & E & Hin & Hn). exists c'. split; [done|]. split; [by apply list_elem_of_further|done].
Qed.

(** What the checks after the loop establish. *)
Definition arguments_ok (a : Arguments) : Prop :=
  0 < ar_trial_duration_ms a /\ 0 < ar_repetitions a /\ 0 < ar_max_samples a /\
  (ar_mode a = Official ->
     250 <= ar_trial_duration_ms a /\ 7 <= ar_repetitions a /\ 1000 <= ar_warmup_events a /\
     10000 <= ar_max_samples a /\ ar_case_filter a = None) /\
  (is_Some (cpu_overrides a) \/
   (ar_waiter_cpu a = None /\ ar_victim_cpu a = None /\ ar_producer_cpu a = None /\ ar_controller_cpu a = None)).

(** Parsed numbers are not negative. *)
Definition numbers_ok (st : ParseState) : Prop := map_Forall (fun _ v => 0 <= v) (pa_numbers st).

Lemma parse_digits_nonneg m acc s v : 0 <= acc -> parse_digits m acc s = Some v -> 0 <= v.
Proof.
  revert acc. induction s as [|c s IH]; intros acc Ha; simpl; [by intros [= <-]|].
  destruct (digit_val c) as [d|] eqn:Ed; [|done]. simpl. case_match; [|done].
  apply IH. unfold digit_val in Ed. case_match eqn:Et; [|done]. simplify_eq.
  apply andb_true_iff in Et as [Et _]. apply Z.leb_le in Et. lia.
Qed.
Lemma parse_unsigned_nonneg m s v : parse_unsigned m s = Some v -> 0 <= v.
Proof. unfold parse_unsigned. case_bool_decide; [done|]. by apply parse_digits_nonneg. Qed.

Lemma numeric_option_ok st name text st' :
  numbers_ok st -> numeric_option st name text = Ok st' -> numbers_ok st'.
Proof.
  intros Hst. unfold numeric_option, parse_value.
  destruct (parse_unsigned u64_max text) as [v|] eqn:Ev; [|done].
  destruct (pa_numbers st !! name) eqn:El; simpl; [done|]. intros [= <-].
  apply map_Forall_insert_2; [|done]. by eapply parse_unsigned_nonneg.
Qed.

(** The smoke and official defaults of a number. *)
Lemma number_nonneg st name d : numbers_ok st -> 0 <= d -> 0 <= default d (pa_numbers st !! name).
Proof. intros Hst Hd. destruct (pa_numbers st !! name) as [v|] eqn:E; [|done]. by apply (Hst name v). Qed.

Lemma finish_parse_ok st a : numbers_ok st -> finish_parse st = Parsed a -> arguments_ok a.
Proof.
  intros Hst. unfold finish_parse.
  destruct (match default Smoke (pa_mode st) with Smoke => _ | Official => _ end) as [[[d0 r0] w0] m0] eqn:Ed.
  assert (Hd : 0 <= d0 /\ 0 <= r0 /\ 0 <= m0).
  { unfold DEFAULT_SMOKE_MAX_SAMPLES in Ed. destruct (default Smoke (pa_mode st)); simplify_eq; lia. }
  pose proof (number_nonneg st "--duration-ms" d0 Hst ltac:(lia)).
  pose proof (number_nonneg st "--repetitions" r0 Hst ltac:(lia)).
  pose proof (number_nonneg st "--max-samples" m0 Hst ltac:(lia)).
  destruct (_ || _ || _) eqn:E1; [done|]. destruct (bool_decide _ && _) eqn:E2; [done|].
  destruct (bool_decide _ && bool_decide _) eqn:E3; [done|]. destruct (negb _) eqn:E4; [done|].
  intros [= <-]. unfold arguments_ok. simpl. rewrite !orb_false_iff, !Z.eqb_neq in E1.
  split; [lia|]. split; [lia|]. split; [lia|]. split.
  - intros Hm. rewrite bool_decide_true in E2, E3 by done. simpl in E2, E3. rewrite !orb_false_iff, !Z.ltb_ge in E2.
    split; [lia|]. split; [lia|]. split; [lia|]. split; [lia|].
    apply bool_decide_eq_false in E3. by apply eq_None_not_Some.
  - unfold role_count in E4. unfold cpu_overrides. simpl in *.
    repeat match goal with |- context [pa_numbers st !! ?k] => destruct (pa_numbers st !! k) end;
      simpl in *; naive_solver.
Qed.

Lemma parse_arguments_ok args st a : numbers_ok st -> parse_arguments st args = Parsed a -> arguments_ok a.
Proof.
  revert st. induction args as [args IH] using (induction_ltof1 _ length). unfold ltof in IH.
  intros st Hst. destruct args as [|arg args]; cbn [parse_arguments]; [by apply finish_parse_ok|].
  repeat case_match; try done; intros Hp; (eapply IH; [|..|exact Hp]); simpl; try lia; try done.
  all: try by eapply numeric_option_ok.
  all: unfold mode_option in *; repeat case_match; simplify_eq; done.
Qed.

(** ** The properties *)

(** No truncated distribution is emitted. Whatever samples a trial records, the latencies kept are the first
    [max_samples] of those that are past the warm-up, from an unmigrated waiter and within 64 bits, in
    order; the stop flag is raised exactly when the cap is reached; and if the sample set
    validates, the kept latencies are all of them, and there is at least one. *)
Theorem samples_complete (aux warmup max : Z) (l : list Sample) :
  0 < max -> warmup <= u64_max ->
  let r := foldl (record_sample aux warmup max) recorder_start l in
  let m := rc_metrics r in
  wm_latencies_cycles m = take (Z.to_nat max) (kept_latencies aux warmup 0 l) /\
  rc_stop r = (max <=? Z.of_nat (length (kept_latencies aux warmup 0 l))) /\
  (validate_sample_set (wm_sample_limit_reached m) (Z.of_nat (length (wm_latencies_cycles m))) max = Ok tt ->
     wm_latencies_cycles m = kept_latencies aux warmup 0 l /\ wm_latencies_cycles m <> []).
Proof.
  intros Hmax Hw. assert (H0 : recorder_ok max recorder_start).
  { split; [simpl; lia|]. split; [|done]. symmetry. apply Z.eqb_neq. simpl. lia. }
  destruct (record_all aux warmup max l recorder_start 0 ltac:(lia) Hw eq_refl H0) as [(_ & Hlim & Hstop) Hl].
  simpl in Hl. rewrite Z.sub_0_r in Hl. intros r m. fold r in Hlim, Hstop, Hl. fold m in Hlim, Hstop, Hl.
  split; [done|]. rewrite Hstop, Hlim, Hl, length_take. split.
  - destruct (Z.leb_spec max (Z.of_nat (length (kept_latencies aux warmup 0 l)))); [apply Z.eqb_eq|apply Z.eqb_neq]; lia.
  - unfold validate_sample_set. destruct (Z.eqb_spec (Z.of_nat (Z.to_nat max `min` length (kept_latencies aux warmup 0 l))) max);
      [done|]. destruct (Z.eqb_spec (Z.of_nat (Z.to_nat max `min` length (kept_latencies aux warmup 0 l))) 0); [done|].
    intros _. assert (length (kept_latencies aux warmup 0 l) <= Z.to_nat max)%nat by lia.
    rewrite take_ge by done. split; [done|]. intros Hn. rewrite Hn in *. simpl in *. lia.
Qed.

Lemma samples_complete_witness :
  let l := [mkSample 1 10 0 4; mkSample 2 30 0 21; mkSample 3 50 7 40; mkSample 4 70 0 65] in
  wm_latencies_cycles (rc_metrics (foldl (record_sample 0 1 100) recorder_start l)) = [9; 5] /\
  wm_latencies_cycles (rc_metrics (foldl (record_sample 0 1 100) recorder_start l)) <> [].
Proof.
  intros l. destruct (samples_complete 0 1 100 l) as (_ & _ & H); [lia|unfold u64_max; lia|].
  split; [reflexivity|]. apply H. reflexivity.
Defined.

(** The winner is a best eligible case. A winner is chosen exactly if some summary is eligible; it is one of
    the eligible summaries, and no eligible summary has a smaller 99th percentile, or an
    equal one and a smaller 99.9th, or equal ones and a smaller median. *)
Theorem winner_correct (l : list Summary) :
  (choose_winner l = None <-> forall s, s ∈ l -> su_eligible s = false) /\
  forall w, choose_winner l = Some w -> w ∈ l /\ su_eligible w = true /\
    forall s, s ∈ l -> su_eligible s = true ->
      su_p99_cycles w < su_p99_cycles s \/
      (su_p99_cycles w = su_p99_cycles s /\
        (su_p999_cycles w < su_p999_cycles s \/
          (su_p999_cycles w = su_p999_cycles s /\ su_p50_cycles w <= su_p50_cycles s))).
Proof.
  assert (Hin : forall s, s ∈ List.filter su_eligible l <-> s ∈ l /\ su_eligible s = true).
  { intros s. rewrite !list_elem_of_In. apply filter_In. }
  unfold choose_winner. destruct (List.filter su_eligible l) as [|x r] eqn:E.
  - split; [|done]. split; [|done]. intros _ s Hs. apply not_true_is_false. intros He.
    assert (Hbad : s ∈ []) by (by apply Hin). by apply elem_of_nil in Hbad.
  - split.
    + split; [done|]. intros Hall. destruct (proj1 (Hin x)) as [Hx He]; [apply list_elem_of_here|].
      by rewrite Hall in He.
    + intros w [= <-]. destruct (min_by_rank_spec x r) as [Hw Hmin]. destruct (proj1 (Hin _) Hw) as [Hl He].
      split; [done|]. split; [done|]. intros s Hs Hse. specialize (Hmin s (proj2 (Hin s) (conj Hs Hse))).
      rewrite key_le_spec in Hmin. unfold rank_key, latency_rank_key in Hmin. simpl in Hmin. lia.
Qed.

(** Every hardware choice. *)
Definition hardware_choices : list (option BenchmarkHardware) :=
  [None; Some BH_AmdMwaitx; Some BH_IntelUmwaitC01].

(** The case matrix is complete and unambiguous. For every hardware the unfiltered matrix has 31, 67 or 61
    cases (no hardware, AMD, Intel) with pairwise different names, so that a case filter either
    selects exactly the one case of that name or is refused. *)
Theorem cases_unambiguous (h : option BenchmarkHardware) :
  exists cs, all_cases None (benchmark_matrix h) = Ok cs /\
    length cs = match h with None => 31 | Some BH_AmdMwaitx => 67 | Some BH_IntelUmwaitC01 => 61 end%nat /\
    NoDup (case_name <$> cs) /\
    forall f, match all_cases (Some f) (benchmark_matrix h) with
              | Ok l => exists c, l = [c] /\ c ∈ cs /\ case_name c = f
              | Err _ => forall c, c ∈ cs -> case_name c <> f
              end.
Proof.
  destruct (all_cases None (benchmark_matrix h)) as [cs|e] eqn:E; [|by destruct h as [[]|]].
  assert (Hnd : NoDup (case_name <$> cs)).
  { destruct h as [[]|]; injection E as <-; apply (bool_decide_unpack _); vm_compute; exact I. }
  exists cs. split; [done|]. split; [by destruct h as [[]|]; injection E as <-|]. split; [done|].
  intros f. rewrite all_cases_filter, E. pose proof (filter_by_name cs f Hnd) as Hf.
  by destruct (List.filter _ cs).
Qed.

(** Accepted arguments are within the benchmark's rules. Whatever the command line, if it is accepted then
    duration, repetitions and sample cap are positive; an official run has at least 250 ms, 7
    repetitions, 1000 warm-up events and 10000 samples and no case filter; and the four CPU
    roles are given all together or not at all. *)
Theorem arguments_sound (args : list string) (a : Arguments) :
  parse_arguments parse_start args = Parsed a -> arguments_ok a.
Proof. apply parse_arguments_ok. apply map_Forall_empty. Qed.

Lemma arguments_sound_witness :
  exists a, parse_arguments parse_start ["--official"; "--repetitions"; "9"]%string = Parsed a /\ 250 <= ar_trial_duration_ms a.
Proof.
  destruct (parse_arguments parse_start ["--official"; "--repetitions"; "9"]%string) as [a| |] eqn:E;
    [|vm_compute in E; discriminate E|vm_compute in E; discriminate E].
  exists a. split; [reflexivity|].
  destruct (arguments_sound _ _ E) as (_ & _ & _ & Hofficial & _). apply Hofficial.
  vm_compute in E. injection E as <-. reflexivity.
Defined.
