(* ===== verification/Adapters.v ===== *)
(** * The benchmark's use of the crate (benches/support/snoozer_api.rs and the waiting loops of wake_latency.rs)

    The conversions of the crate's results, and the loops in which a trial's waiter waits for the next generation with them:
    programs over the interleaving machine of [Machine], in which the producer's stores and unparks are the environment's. *)

From S2P Require Import Prelude Machine Strategy Parker BenchCases.
Open Scope Z_scope.

(** ** snoozer_api.rs *)

Inductive Observation := OB_Changed (v : Z) | OB_Unclassified.

Section direct.
Context {St A : Type} `{StrategyImpl St} `{WaitableAtomic A}.

Definition wait_direct_raw (fuel : nat) (strategy : St) (atomic : A) (expected : Z) : M Observation :=
  r ← wait_if_equal fuel strategy atomic expected;
  mret (match r with WR_Changed value => OB_Changed value | WR_Unclassified => OB_Unclassified end).
Definition wait_direct_filtered (fuel : nat) (strategy : St) (atomic : A) (expected : Z) : M Z :=
  wait_until_different fuel strategy atomic expected.
End direct.

Class BenchParker (P : Type) := {
  bench_wait_raw : nat -> P -> M bool;
  bench_wait_filtered : nat -> P -> M unit;
}.
(** [impl_bench_parker!], for both parkers *)
#[export] Instance impl_bench_parker {P : Type -> Type} `{ParkerHandle P} {St} `{StrategyImpl St} : BenchParker (P St) := {
  bench_wait_raw fuel p := r ← parker_park fuel p; mret (match r with PR_Notified => true | PR_Unclassified => false end);
  bench_wait_filtered fuel p := parker_park_until_notified fuel p;
}.
Definition wait_parker_raw {P} `{BenchParker P} (fuel : nat) (p : P) : M bool := bench_wait_raw fuel p.
Definition wait_parker_filtered {P} `{BenchParker P} (fuel : nat) (p : P) : M unit := bench_wait_filtered fuel p.

(** ** The waiters of a trial; [count] is the number of unclassified wakes *)

Definition count_one (count : Z) : Z := Z.min u64_max (count + 1).

Section waiters.
Context {A : Type} `{WaitableAtomic A}.
Variables (fuel : nat) (filtering : Filtering) (generation : A) (observed : Z).

(** [run_direct] *)
Fixpoint direct_raw {St} `{StrategyImpl St} (n : nat) (strategy : St) (count : Z) : M (Z * Z) :=
  match n with
  | O => fun _ => None
  | S n =>
      r ← wait_direct_raw fuel strategy generation observed;
      match r with
      | OB_Changed value => mret (value, count)
      | OB_Unclassified =>
          let count := count_one count in
          value ← load_acquire generation;
          if negb (value =? observed) then mret (value, count) else direct_raw n strategy count
      end
  end.
Definition direct_wait {St} `{StrategyImpl St} (strategy : St) (count : Z) : M (Z * Z) :=
  match filtering with
  | Raw => direct_raw fuel strategy count
  | Filtered => value ← wait_direct_filtered fuel strategy generation observed; mret (value, count)
  end.

(** [run_parker] *)
Fixpoint parker_idle {P} `{BenchParker P} (n : nat) (parker : P) (count : Z) : M Z :=
  match n with
  | O => fun _ => None
  | S n =>
      value ← load_acquire generation;
      if negb (value =? observed) then mret count
      else
        count ← (match filtering with
                 | Raw => notified ← wait_parker_raw fuel parker; mret (if notified : bool then count else count_one count)
                 | Filtered => _ ← wait_parker_filtered fuel parker; mret count
                 end);
        parker_idle n parker count
  end.
Definition parker_wait {P} `{BenchParker P} (parker : P) (count : Z) : M (Z * Z) :=
  count ← parker_idle fuel parker count;
  value ← load_acquire generation;
  mret (value, count).
End waiters.

(** ** Writes to the token leave the generation alone *)

Lemma op_apply_agree m m' op b : mget m b = mget m' b -> mget (op_apply m op) b = mget (op_apply m' op) b.
Proof.
  unfold mget. intros Hm. destruct op as [c v|c bits]; cbn; (destruct (decide (c = b)) as [->|Hc];
    [rewrite !lookup_insert_eq; cbn; unfold mget; congruence|by rewrite !lookup_insert_ne]).
Qed.
Lemma mem_apply_agree m m' ops b : mget m b = mget m' b -> mget (mem_apply m ops) b = mget (mem_apply m' ops) b.
Proof. revert m m'. induction ops as [|op ops IH]; intros m m' Hm; [done|]. cbn. by apply IH, op_apply_agree. Qed.
Lemma sys_iter_pos n s : s_pos (sys_iter n s) = (s_pos s + n)%nat /\ s_sched (sys_iter n s) = s_sched s.
Proof. induction n as [|n [IH1 IH2]]; [split; [cbn; lia|done]|]. rewrite sys_iter_S. cbn. rewrite IH1, IH2. split; [lia|done]. Qed.
Lemma sys_iter_agree n s s' b : s_pos s = s_pos s' -> s_sched s = s_sched s' -> mget (s_mem s) b = mget (s_mem s') b ->
  mget (s_mem (sys_iter n s)) b = mget (s_mem (sys_iter n s')) b.
Proof.
  intros Hp Hs Hm. induction n as [|n IH]; [done|]. rewrite !sys_iter_S. unfold sys_step, cur_tick. cbn.
  destruct (sys_iter_pos n s) as [-> ->], (sys_iter_pos n s') as [-> ->]. rewrite Hp, Hs. by apply mem_apply_agree.
Qed.

(** [w1] is [n] ticks after [w], the thread having written at most the token [a]. *)
Record later (a : Z) (n : nat) (w w1 : world) : Prop := mkLater {
  lt_pos : s_pos (w_sys w1) = (s_pos (w_sys w) + n)%nat;
  lt_sched : s_sched (w_sys w1) = s_sched (w_sys w);
  lt_token : token_inv a (w_sys w1);
  lt_others : forall b i, b <> a -> val_at w1 i b = val_at w (n + i) b;
}.
Lemma later_refl a w : token_inv a (w_sys w) -> later a 0 w w.
Proof. intros Hi. split; [lia|done..]. Qed.
Lemma later_reach a n k w w1 w2 : later a n w w1 -> reach k w1 w2 -> later a (n + k) w w2.
Proof.
  intros [Hp Hs Ht Hv] Hr. split.
  - rewrite Hr. unfold sys_at. rewrite (proj1 (sys_iter_pos _ _)). lia.
  - rewrite Hr. unfold sys_at. by rewrite (proj2 (sys_iter_pos _ _)).
  - rewrite Hr. by apply token_iter.
  - intros b i Hb. rewrite (reach_val_at _ _ _ _ _ Hr), Hv by done. f_equal. lia.
Qed.
Lemma later_take a n k w w1 w2 : later a n w w1 -> w_sys w2 = sys_write a EMPTY_TOKEN (sys_at w1 k) -> later a (n + k) w w2.
Proof.
  intros Hl Hw2. destruct (later_reach a n k w w1 (World (sys_at w1 k) Disarmed []) Hl eq_refl) as [Hp Hs Ht Hv]. cbn in *.
  split; rewrite ?Hw2; try done; [by apply token_write_inv|]. intros b i Hb. rewrite <- Hv by done.
  unfold val_at, sys_at at 1. rewrite Hw2. apply sys_iter_agree; [done|done|]. unfold mget. cbn. by rewrite lookup_insert_ne.
Qed.
Lemma later_post a n w w1 b w2 : later a n w w1 -> park_post a w1 b w2 -> exists k, (n < k)%nat /\ later a k w w2.
Proof.
  intros Hl. destruct b; cbn.
  - intros (k & Hk & _ & Hs). exists (n + k)%nat. split; [lia|by eapply later_take].
  - intros (k & Hk & Hr & _). exists (n + k)%nat. split; [lia|by eapply later_reach].
Qed.

(** A producer unparks in slot [U]. *)
Definition unparks_in (a : Z) (w : world) (U : nat) : Prop :=
  exists op, op ∈ tk_ops (s_sched (w_sys w) (s_pos (w_sys w) + U)) /\ op_addr op = a.
Lemma unparks_later a n w w1 U : later a n w w1 -> (n <= U)%nat -> unparks_in a w U -> unparks_in a w1 (U - n).
Proof. intros [Hp Hs _ _] Hn (op & Hop & Ha). exists op. split; [|done]. rewrite Hs, Hp. by replace (s_pos (w_sys w) + n + (U - n))%nat with (s_pos (w_sys w) + U)%nat by lia. Qed.
Lemma unparks_notifies a w U : token_inv a (w_sys w) -> unparks_in a w U -> val_at w (S U) a = NOTIFIED_TOKEN.
Proof.
  intros Hi (op & Hop & Ha). unfold val_at, sys_at. rewrite sys_iter_S. unfold sys_step, cur_tick. cbn [s_mem].
  destruct (token_iter a _ U Hi) as [[Hv Hp] _]. destruct (sys_iter_pos U (w_sys w)) as [Ep Es].
  rewrite mem_apply_token; [|intros op' Hop'; by eapply Hp|done].
  assert (Hex : existsb (fun op => op_addr op =? a) (tk_ops (s_sched (sys_iter U (w_sys w)) (s_pos (sys_iter U (w_sys w))))) = true); [|by rewrite Hex].
  apply existsb_exists. exists op. rewrite Ep, Es. split; [by apply list_elem_of_In|lia].
Qed.

(** The raw park returns once a token is posted. *)
Lemma park_total {St} `{StrategyLaws St} f (c : ParkerCore St) w N :
  token_inv (tok c) (w_sys w) -> val_at w N (tok c) = NOTIFIED_TOKEN -> (N < f)%nat -> is_Some (park f c w).
Proof.
  intros Hinv HN Hf. eapply wp_is_Some, (wp_bind _ _ _ (fun _ _ => True)), wp_take; [done|..].
  - intros w1 tr _ _ _ _. by apply wp_ret.
  - intros w1 _ Hr1 _. apply wp_bind, wp_bind. eapply wp_mono.
    + apply wlp_wp; [apply untimed_sound|]. apply (untimed_returns _ _ _ _ _ N); [|done]. intros n Hn.
      rewrite (reach_val_at _ _ _ _ _ Hr1). change (monitored_address (sh_token (core_shared c))) with (tok c).
      by rewrite (token_persists _ _ N) by (done || lia).
    + intros r w2 [n Hr2]%raw_post_reach. apply wp_ret, wp_bind.
      eapply wp_mono; [eapply (take_post_later c (1 + n) w w2); [done|by eapply reach_trans]|].
      intros b w3 _. by eexists _, _.
Qed.

(** The generation [v] was read with Acquire by the last access of the call, after it had changed in slot [G]. *)
Definition sees (g observed : Z) (w : world) (G : nat) (v : Z) (w' : world) : Prop :=
  v <> observed /\ (exists n, (G <= n)%nat /\ v = val_at w n g) /\ exists tr, w_trace w' = EvLoad Acquire g v :: tr.

Section waits.
Context {A : Type} `{WaitableAtomic A} (g : A) (observed : Z) (w : world) (G : nat).
Hypothesis (Hg : forall n, val_at w n (monitored_address g) = observed <-> (n < G)%nat).

Lemma load_generation w1 n Q :
  (forall i, val_at w1 i (monitored_address g) = val_at w (n + i) (monitored_address g)) ->
  (forall w2, reach 1 w1 w2 -> (S n < G)%nat -> Q observed w2) ->
  (forall v w2, reach 1 w1 w2 -> (G <= S n)%nat -> sees (monitored_address g) observed w G v w2 -> Q v w2) -> wp (load_acquire g) w1 Q.
Proof.
  intros Hn Hno Hyes. rewrite load_acquire_spec. eapply wp_load; [apply reach_0|]. intros w2 Hr _ Ht. rewrite Hn in *.
  replace (n + 1)%nat with (S n) in * by lia. destruct (Z.eq_dec (val_at w (S n) (monitored_address g)) observed) as [E|E].
  - rewrite E. apply Hno; [done|]. by apply Hg.
  - rewrite Hg in E. assert (HG : (G <= S n)%nat) by lia. apply Hyes; [done|done|]. split; [by rewrite Hg|]. split; [|by eexists]. by exists (S n).
Qed.

Section direct_waits.
Context {St : Type} `{StrategyLaws St} (fuel : nat) (s : St).
Hypothesis (Hfuel : (G < fuel)%nat).

Lemma change_seen k w1 v w2 : reach k w w1 -> observed_change (monitored_address g) observed w1 v w2 ->
  sees (monitored_address g) observed w G v w2.
Proof.
  intros Hr (n & Hn & _ & Hne & Hv & Ht). split; [done|]. split; [|done]. exists (k + n)%nat.
  rewrite <- (reach_val_at _ _ _ _ _ Hr). split; [|done]. destruct (decide (G <= k + n)%nat); [done|].
  destruct Hne. rewrite <- Hv, (reach_val_at _ _ _ _ _ Hr). apply Hg. lia.
Qed.
Lemma changed_from k w1 : reach k w w1 -> forall n, (G - k <= n)%nat -> val_at w1 n (monitored_address g) <> observed.
Proof. intros Hr n Hn. rewrite (reach_val_at _ _ _ _ _ Hr), Hg. lia. Qed.

Lemma direct_raw_sees n k w1 count : reach k w w1 -> (k <= G < k + n)%nat ->
  wp (direct_raw fuel g observed n s count) w1 (fun r w2 => sees (monitored_address g) observed w G r.1 w2).
Proof.
  revert k w1 count. induction n as [|n IH]; intros k w1 count Hr Hn; [lia|]. cbn [direct_raw]. unfold wait_direct_raw, wait_if_equal.
  apply wp_bind, wp_bind, wp_bind. eapply wp_mono.
  { apply wlp_wp; [apply untimed_sound|]. apply (untimed_returns _ _ _ _ _ (G - k)); [by apply changed_from|lia]. }
  intros r w2 Hp. apply wp_ret, wp_ret. pose proof Hp as (i & m & Hi & Hm & _). assert (Hr2 : reach (k + m) w w2) by by eapply reach_trans.
  assert (Hload : forall c, wp (value ← load_acquire g;
    if negb (value =? observed) then mret (value, c) else direct_raw fuel g observed n s c) w2
    (fun r w2 => sees (monitored_address g) observed w G r.1 w2)).
  { intros c. apply wp_bind, (load_generation _ (k + m)); [by intros; apply reach_val_at| |].
    - intros w3 Hr3 HG. rewrite Z.eqb_refl. cbn. apply (IH (k + m + 1)%nat); [by eapply reach_trans|lia].
    - intros v w3 _ _ Hs. pose proof Hs as [Hv _]. destruct (Z.eqb_spec v observed); [done|]. by apply wp_ret. }
  destruct r as [v| |]; [|apply Hload..].
  apply wp_ret. cbn. eapply change_seen; [exact Hr|]. by eapply raw_post_observed.
Qed.
Lemma direct_sees filtering count :
  wp (direct_wait fuel filtering g observed s count) w (fun r w2 => sees (monitored_address g) observed w G r.1 w2).
Proof.
  destruct filtering; cbn; [apply (direct_raw_sees fuel 0); [apply reach_0|lia]|].
  apply wp_bind. eapply wp_mono.
  { apply wlp_wp; [apply wait_until_different_spec|]. apply (wait_until_different_total _ _ _ _ _ G); [|done]. intros n Hn. rewrite Hg. lia. }
  intros v w2 Hc. apply wp_ret. cbn. by apply (change_seen 0 w).
Qed.
End direct_waits.

Section parker_waits.
Context {P : Type -> Type} `{ParkerHandle P} {St : Type} `{StrategyLaws St} (fuel : nat) (p : P St) (U : nat).
#[local] Abbreviation t := (tok (handle_core p)).
Hypothesis (Hother : monitored_address g <> t) (Hposted : unparks_in t w U) (HGU : (G <= S U)%nat) (Hfuel : (S U < fuel)%nat).

(** One park, from before the unpark, comes back. *)
Lemma one_park {B} n w1 (park : M B) Q : later t n w w1 -> (n <= U)%nat ->
  (forall N, val_at w1 N t = NOTIFIED_TOKEN -> (N < fuel)%nat -> is_Some (park w1)) ->
  wlp park w1 (fun _ w2 => exists b, park_post t w1 b w2) ->
  (forall x k w2, (n < k)%nat -> later t k w w2 -> Q x w2) -> wp park w1 Q.
Proof.
  intros Hl Hn Htotal Hspec HQ. eapply wp_mono.
  - apply wlp_wp; [exact Hspec|]. eapply (Htotal (S (U - n))); [|lia]. apply unparks_notifies; [apply Hl|]. by eapply unparks_later.
  - intros x w2 [b Hp]. destruct (later_post _ _ _ _ _ _ Hl Hp) as (k & Hk & Hl2). by eapply HQ.
Qed.
Lemma parker_idle_leaves filtering n k w1 count : later t k w w1 -> (G - k < n)%nat ->
  wp (parker_idle fuel filtering g observed n p count) w1 (fun _ w2 => exists k2, (G <= k2)%nat /\ later t k2 w w2).
Proof.
  revert k w1 count. induction n as [|n IH]; intros k w1 count Hl Hn; [lia|]. cbn [parker_idle].
  apply wp_bind, (load_generation _ k); [intros i; by apply (lt_others _ _ _ _ Hl)| |].
  - intros w2 Hr HG. rewrite Z.eqb_refl. cbn [negb]. assert (Hl2 : later t (k + 1) w w2) by by eapply later_reach.
    assert (Hinv : token_inv t (w_sys w2)) by apply Hl2.
    assert (Hgo : forall c k3 w3, (k + 1 < k3)%nat -> later t k3 w w3 ->
      wp (parker_idle fuel filtering g observed n p c) w3 (fun _ w2 => exists k2, (G <= k2)%nat /\ later t k2 w w2)).
    { intros c k3 w3 Hk3 Hl3. apply (IH k3); [done|lia]. }
    apply wp_bind. destruct filtering; cbn.
    + apply wp_bind, wp_bind. apply (one_park (k + 1) w2 _ _ Hl2 ltac:(lia)).
      * intros N HN Hf. by eapply park_total.
      * intros r w3 Hrun. eexists. by eapply park_spec.
      * intros r k3 w3 Hk3 Hl3. apply wp_ret, wp_ret. by eapply Hgo.
    + apply wp_bind. apply (one_park (k + 1) w2 _ _ Hl2 ltac:(lia)).
      * intros N HN Hf. by eapply park_until_notified_total.
      * intros r w3 Hrun. exists true. by eapply park_until_notified_spec.
      * intros r k3 w3 Hk3 Hl3. apply wp_ret. by eapply Hgo.
  - intros v w2 Hr HG [Hv _]. destruct (Z.eqb_spec v observed); [done|]. apply wp_ret. exists (k + 1)%nat.
    split; [lia|by eapply later_reach].
Qed.
Lemma parker_sees filtering count : token_inv t (w_sys w) ->
  wp (parker_wait fuel filtering g observed p count) w (fun r w2 => sees (monitored_address g) observed w G r.1 w2).
Proof.
  intros Hi. apply wp_bind. eapply wp_mono; [apply (parker_idle_leaves filtering fuel 0); [by apply later_refl|lia]|].
  intros c w1 (k & Hk & Hl). apply wp_bind, (load_generation _ k); [intros i; by apply (lt_others _ _ _ _ Hl)|intros; lia|].
  intros v w2 _ _ Hs. by apply wp_ret.
Qed.
End parker_waits.
End waits.

(** ** The waits see the event *)

(** C18: a trial's waiter cannot miss an event. Let the producer change the generation in slot [G] and unpark in the same slot or a
    later one. Whatever else happens (stale tokens and coalesced unparks, spurious and unclassified wakes of any lawful strategy, raw or filtered
    waiting), the waiter's loop with a strategy, and with a parker of either kind, returns; and the last thing it did was to read, with Acquire, a generation other than the one
    it waited on. *)
Theorem waiter_sees_event {A} `{WaitableAtomic A} {P : Type -> Type} `{ParkerHandle P} {St} `{StrategyLaws St}
    (g : A) (observed : Z) (w : world) (G U : nat) (fuel : nat) (filtering : Filtering) (strategy : St) (parker : P St) (count : Z) :
  (forall n, val_at w n (monitored_address g) = observed <-> (n < G)%nat) ->
  monitored_address g <> tok (handle_core parker) -> token_inv (tok (handle_core parker)) (w_sys w) ->
  unparks_in (tok (handle_core parker)) w U -> (G <= S U < fuel)%nat ->
  wp (direct_wait fuel filtering g observed strategy count) w (fun r w' => sees (monitored_address g) observed w G r.1 w') /\
  wp (parker_wait fuel filtering g observed parker count) w (fun r w' => sees (monitored_address g) observed w G r.1 w').
Proof.
  intros Hg Hother Hi Hu Hf. split.
  - assert (Hf2 : (G < fuel)%nat) by lia. exact (direct_sees g observed w G Hg fuel strategy Hf2 filtering count).
  - apply (parker_sees g observed w G Hg fuel parker U); [done|done|lia|lia|done].
Qed.

(** The generation at 8 changes in the fifth slot, the waiter is unparked in the seventh; a stale token is there from the start. *)
Definition event_ticks : list tick :=
  ops_tick 1000 <$> [[]; []; []; []; [EnvStore 8 1]; []; [EnvFetchOr 0 1]].
Definition event_world : world := start_world {[0 := 1]} (schedule 1000 event_ticks).
Lemma event_world_generation n : val_at event_world n 8 = 0 <-> (n < 5)%nat.
Proof.
  destruct (decide (n < 7)%nat) as [Hn|Hn]; [do 7 (destruct n as [|n]; [vm_compute; (split; [lia|congruence]) || (split; [discriminate|lia])|]); lia|].
  replace n with (7 + (n - 7))%nat by lia. generalize (n - 7)%nat as k. clear.
  intros k. split; [|lia]. unfold val_at, sys_at. rewrite sys_iter_add.
  assert (mget (s_mem (sys_iter k (sys_iter 7 (w_sys event_world)))) 8 = 1) as ->; [|done].
  induction k as [|k IH]; [by vm_compute|]. rewrite sys_iter_S. unfold sys_step, cur_tick. cbn [s_mem].
  destruct (sys_iter_pos k (sys_iter 7 (w_sys event_world))) as [-> ->]. exact IH.
Qed.
Lemma event_world_token : token_inv 0 (w_sys event_world).
Proof.
  split; [by right|]. intros p op Hin Ha. revert Ha.
  apply (schedule_forall (fun op => op_addr op = 0 -> is_unpark 0 op) 1000 event_ticks) with p; [|done].
  repeat (cbn; first [(apply Forall_nil; exact I) | (apply Forall_cons; split)]); intros Ha; try discriminate Ha; by (left + right).
Qed.
Lemma waiter_sees_event_witness :
  wp (parker_wait 9 Filtered (mkAtomicU64 8) 0 (mkSingleParker demo_core) 0) event_world
    (fun r w' => sees (monitored_address (mkAtomicU64 8)) 0 event_world 5 r.1 w') /\
  fst <$> parker_wait 9 Filtered (mkAtomicU64 8) 0 (mkSingleParker demo_core) 0 event_world = Some (1, 0).
Proof.
  split; [|vm_compute; reflexivity].
  apply (fun H1 H2 H3 H4 H5 => proj2 (waiter_sees_event (mkAtomicU64 8) 0 event_world 5 6 9 Filtered mkBusySpin (mkSingleParker demo_core) 0 H1 H2 H3 H4 H5)).
  - exact event_world_generation.
  - discriminate.
  - exact event_world_token.
  - exists (EnvFetchOr 0 1). split; [|reflexivity]. change (EnvFetchOr 0 1 ∈ [EnvFetchOr 0 1]). apply list_elem_of_here.
  - lia.
Defined.
