(* ===== verification/ViewMemory.v ===== *)
(** * A release/acquire memory with explicit views

    Every atomic has a modification order of messages, each carrying the view its release makes
    visible; a thread reads any message not older than the last it has seen, a write goes to the end of the
    order, and a read-modify-write continues the release sequence of the message it reads. The threads of a
    benchmark trial ([Trial]) and of the time stamp handshake ([Clock]) run in it. *)

From stdpp Require Import functions.
From S2P Require Import Prelude Machine.
Open Scope Z_scope.

Section memory.
Context {cell : Type} `{EqDecision cell}.

#[local] Abbreviation view := (cell -> nat).
Record message := mkMessage { m_val : Z; m_view : view }.
#[local] Abbreviation memory := (cell -> list message).

Definition none_seen : view := fun _ => 0%nat.
Definition join (a b : view) : view := fun c => (a c `max` b c)%nat.
(** Every atomic holds 0 ([false]). *)
Definition shared_new : memory := fun _ => [mkMessage 0 none_seen].

Definition releases (o : ordering) : bool := match o with Release => true | _ => false end.
Definition acquires (o : ordering) : bool := match o with Acquire => true | _ => false end.

(** A load reads message [i]. *)
Definition read (o : ordering) (c : cell) (i : nat) (ws : memory) (v : view) : option (Z * view) :=
  if (v c <=? i)%nat then
    m ← ws c !! i;
    Some (m_val m, join (<[c := i]> v) (if acquires o then m_view m else none_seen))
  else None.
(** The view of a write at the end of the order, and what others learn from it. *)
Definition after_write (c : cell) (ws : memory) (v : view) : view := <[c := length (ws c)]> v.
Definition published (o : ordering) (c : cell) (ws : memory) (v : view) : view :=
  if releases o then after_write c ws v else <[c := length (ws c)]> none_seen.
Definition write (o : ordering) (c : cell) (x : Z) (ws : memory) (v : view) : memory * view :=
  (<[c := ws c ++ [mkMessage x (published o c ws v)]]> ws, after_write c ws v).
Definition wrap64 (x : Z) : Z := x mod 2 ^ 64.
Definition fetch_add (o : ordering) (c : cell) (ws : memory) (v : view) : option (memory * view) :=
  m ← last (ws c);
  Some (<[c := ws c ++ [mkMessage (wrap64 (m_val m + 1)) (join (m_view m) (published o c ws v))]]> ws, after_write c ws v).

(** ** What an access teaches *)

Lemma read_some o c i ws v x v' : read o c i ws v = Some (x, v') ->
  exists m, (v c <= i)%nat /\ ws c !! i = Some m /\ x = m_val m /\
    v' = join (<[c := i]> v) (if acquires o then m_view m else none_seen).
Proof.
  unfold read. destruct (Nat.leb_spec (v c) i); [|done]. destruct (ws c !! i) as [m|]; [|done].
  intros [= <- <-]. by exists m.
Qed.

(** What a read teaches. *)
Lemma read_grows o c i ws v x v' : read o c i ws v = Some (x, v') ->
  (forall d, (v d <= v' d)%nat) /\ (i <= v' c)%nat.
Proof.
  intros (m & Hi & _ & _ & ->)%read_some. unfold join. split; [|rewrite fn_lookup_insert; lia].
  intros d. destruct (decide (d = c)) as [->|Hd]; [rewrite fn_lookup_insert|rewrite fn_lookup_insert_ne by done]; lia.
Qed.
Lemma read_acquires c i ws v x v' m : read Acquire c i ws v = Some (x, v') -> ws c !! i = Some m ->
  forall d, (m_view m d <= v' d)%nat.
Proof. intros (m' & _ & Hm & _ & ->)%read_some Hm'. simplify_eq. intros d. unfold join. cbn. lia. Qed.

Lemma after_write_grows c ws v : (v c <= length (ws c))%nat -> forall d, (v d <= after_write c ws v d)%nat.
Proof.
  intros Hc d. unfold after_write. destruct (decide (d = c)) as [->|]; [by rewrite fn_lookup_insert|by rewrite fn_lookup_insert_ne].
Qed.
Lemma after_write_other c ws v d : d <> c -> after_write c ws v d = v d.
Proof. intros Hd. unfold after_write. by rewrite fn_lookup_insert_ne. Qed.
Lemma after_write_same c ws v : after_write c ws v c = length (ws c).
Proof. unfold after_write. by rewrite fn_lookup_insert. Qed.
Lemma write_view o c x ws v ws' v' : write o c x ws v = (ws', v') -> forall d, d <> c -> v' d = v d.
Proof. intros [= _ <-] d Hd. by apply after_write_other. Qed.
Lemma fetch_add_view o c ws v ws' v' : fetch_add o c ws v = Some (ws', v') -> forall d, d <> c -> v' d = v d.
Proof. unfold fetch_add. destruct (last _); [|done]. intros [= _ <-] d Hd. by apply after_write_other. Qed.

(** Histories only grow. *)
Definition grows (ws ws' : memory) : Prop := forall c, (length (ws c) <= length (ws' c))%nat.
Lemma grows_refl ws : grows ws ws.
Proof. intros c. lia. Qed.
Lemma grows_append c m ws : grows ws (<[c := ws c ++ [m]]> ws).
Proof.
  intros d. destruct (decide (d = c)) as [->|Hd]; [rewrite fn_lookup_insert, length_app; lia|by rewrite fn_lookup_insert_ne].
Qed.
Lemma write_extends o c x ws v ws' v' : write o c x ws v = (ws', v') -> grows ws ws'.
Proof. intros [= <- _]. apply grows_append. Qed.
Lemma fetch_add_extends o c ws v ws' v' : fetch_add o c ws v = Some (ws', v') -> grows ws ws'.
Proof. unfold fetch_add. destruct (last _); [|done]. intros [= <- _]. apply grows_append. Qed.
Lemma write_length o c x ws v ws' v' : write o c x ws v = (ws', v') -> length (ws' c) = S (length (ws c)).
Proof. intros [= <- _]. rewrite fn_lookup_insert, length_app. cbn. lia. Qed.
End memory.

Arguments message : clear implicits.
