(* ===== verification/Trial.v ===== *)
(** * A benchmark trial: four threads and six atomics (benches/wake_latency.rs)

    A trial runs a waiter, a producer and a victim against a controller; they share the atomics of
    [TrialShared]. A step of the model is one access of one thread, with the source's ordering, in the
    release/acquire memory of [ViewMemory]. The wait between two looks at the generation (a strategy, a parker or
    [thread::park]) may return at any time, so it is the loop around the load that is modelled. *)

From stdpp Require Import functions.
From S2P Require Import Prelude BenchFs Machine BenchCases ViewMemory.
Open Scope Z_scope.

(** ** The shared atomics *)

(** [TrialShared] *)
Inductive cell := Generation | SentCycles | Acknowledged | Ready | Go | Stop.
#[export] Instance cell_eq_dec : EqDecision cell.
Proof. solve_decision. Defined.

Abbreviation view := (cell -> nat).
Abbreviation message := (ViewMemory.message cell).
Abbreviation memory := (cell -> list message).

(** ** Threads *)

(** What is left of [abort_startup]. *)
Inductive aborting := AbortStop | AbortGo | AbortGeneration.

Inductive waiter_pc :=
| W_start | W_abort (a : aborting)
| W_capture | W_ready (observed : Z) | W_go (observed : Z) | W_startup_stop (observed : Z)
| W_wait (observed : Z) | W_reload | W_check (observed : Z)
| W_sample (observed : Z) | W_limit (observed : Z) | W_ack (observed : Z)
| W_done | W_failed.
Inductive producer_pc :=
| P_start | P_abort (a : aborting) | P_ready | P_go
| P_loop | P_ack | P_ack_stop | P_stop | P_gap | P_gap_stop | P_stamp
| P_sent (stamp : Z) | P_generation | P_end_stop | P_end_generation
| P_done | P_failed.
Inductive victim_pc := V_start | V_abort (a : aborting) | V_ready | V_go | V_run | V_done | V_failed.
Inductive controller_pc :=
| C_ready | C_stop | C_abort (a : aborting) | C_go_failed | C_go | C_delay | C_stop_set | C_done | C_failed.

(** [t_samples] and [t_stamps] record what has been sampled and sent; no step reads them. *)
Record trial := mkTrial {
  t_memory : memory;
  t_waiter : waiter_pc; t_waiter_view : view; t_recorder : Recorder;
  t_producer : producer_pc; t_producer_view : view; t_sequence : Z;
  t_victim : victim_pc; t_victim_view : view;
  t_controller : controller_pc; t_controller_view : view;
  t_samples : list Sample;
  t_stamps : list Z;
}.

(** Whether the source reloads the generation after the wait (the parkers and std::thread::park do, the
    direct waits return it), whether gaps are inserted, and the arguments of [record_sample]. *)
Record setup := mkSetup {
  su_reload : bool;
  su_bursty : bool;
  su_expected_aux : Z;
  su_warmup_events : Z;
  su_max_samples : Z;
}.

(** What is not determined: the message a load reads, what the operating system and the clock say. *)
Inductive choice :=
| Reads (i : nat)
| Pinned (ok : bool)
| Sampled (i : nat) (received auxiliary : Z)
| Stamped (stamp : Z) (migrated : bool)
| Expired (yes : bool)
| Chunk (ok : bool)
| Looks (i : nat) (timeout : bool)
| Runs.

Inductive event := Waiter (c : choice) | Producer (c : choice) | Victim (c : choice) | Controller (c : choice).

Definition abort_step (a : aborting) (ws : memory) (v : view) : option (memory * view * option aborting) :=
  match a with
  | AbortStop => let '(ws, v) := write Release Stop 1 ws v in Some (ws, v, Some AbortGo)
  | AbortGo => let '(ws, v) := write Release Go 1 ws v in Some (ws, v, Some AbortGeneration)
  | AbortGeneration => '(ws, v) ← fetch_add Release Generation ws v; Some (ws, v, None)
  end.

Definition is_set (x : Z) : bool := negb (x =? 0).

Definition set_waiter (s : trial) (ws : memory) (pc : waiter_pc) (v : view) : trial :=
  mkTrial ws pc v (t_recorder s) (t_producer s) (t_producer_view s) (t_sequence s) (t_victim s) (t_victim_view s)
    (t_controller s) (t_controller_view s) (t_samples s) (t_stamps s).
Definition set_recorder (r : Recorder) (l : list Sample) (s : trial) : trial :=
  mkTrial (t_memory s) (t_waiter s) (t_waiter_view s) r (t_producer s) (t_producer_view s) (t_sequence s) (t_victim s)
    (t_victim_view s) (t_controller s) (t_controller_view s) l (t_stamps s).
Definition set_producer (s : trial) (ws : memory) (pc : producer_pc) (v : view) : trial :=
  mkTrial ws (t_waiter s) (t_waiter_view s) (t_recorder s) pc v (t_sequence s) (t_victim s) (t_victim_view s)
    (t_controller s) (t_controller_view s) (t_samples s) (t_stamps s).
Definition set_sequence (q : Z) (s : trial) : trial :=
  mkTrial (t_memory s) (t_waiter s) (t_waiter_view s) (t_recorder s) (t_producer s) (t_producer_view s) q (t_victim s)
    (t_victim_view s) (t_controller s) (t_controller_view s) (t_samples s) (t_stamps s).
Definition add_stamp (x : Z) (s : trial) : trial :=
  mkTrial (t_memory s) (t_waiter s) (t_waiter_view s) (t_recorder s) (t_producer s) (t_producer_view s) (t_sequence s)
    (t_victim s) (t_victim_view s) (t_controller s) (t_controller_view s) (t_samples s) (t_stamps s ++ [x]).
Definition set_victim (s : trial) (ws : memory) (pc : victim_pc) (v : view) : trial :=
  mkTrial ws (t_waiter s) (t_waiter_view s) (t_recorder s) (t_producer s) (t_producer_view s) (t_sequence s) pc v
    (t_controller s) (t_controller_view s) (t_samples s) (t_stamps s).
Definition set_controller (s : trial) (ws : memory) (pc : controller_pc) (v : view) : trial :=
  mkTrial ws (t_waiter s) (t_waiter_view s) (t_recorder s) (t_producer s) (t_producer_view s) (t_sequence s) (t_victim s)
    (t_victim_view s) pc v (t_samples s) (t_stamps s).

(** ** The waiter: the closure of [run_direct], [run_parker] and [run_std_park] *)

Definition waiter_step (u : setup) (c : choice) (s : trial) : option trial :=
  let ws := t_memory s in
  let v := t_waiter_view s in
  match t_waiter s, c with
  | W_start, Pinned ok => Some (set_waiter s ws (if ok then W_capture else W_abort AbortStop) v)
  | W_abort a, Runs =>
      '(ws, v, rest) ← abort_step a ws v;
      Some (set_waiter s ws (match rest with Some a => W_abort a | None => W_failed end) v)
  | W_capture, Reads i => '(x, v) ← read Acquire Generation i ws v; Some (set_waiter s ws (W_ready x) v)
  | W_ready observed, Runs => '(ws, v) ← fetch_add Release Ready ws v; Some (set_waiter s ws (W_go observed) v)
  | W_go observed, Reads i =>
      '(x, v) ← read Acquire Go i ws v;
      Some (set_waiter s ws (if is_set x then W_startup_stop observed else W_go observed) v)
  | W_startup_stop observed, Reads i =>
      '(x, v) ← read Acquire Stop i ws v;
      Some (set_waiter s ws (if is_set x then W_failed else W_wait observed) v)
  | W_wait observed, Reads i =>
      '(x, v) ← read Acquire Generation i ws v;
      Some (set_waiter s ws
        (if x =? observed then W_wait observed else if su_reload u then W_reload else W_check x) v)
  | W_reload, Reads i => '(x, v) ← read Acquire Generation i ws v; Some (set_waiter s ws (W_check x) v)
  | W_check observed, Reads i =>
      '(x, v) ← read Acquire Stop i ws v;
      Some (set_waiter s ws (if is_set x then W_done else W_sample observed) v)
  | W_sample observed, Sampled i received auxiliary =>
      '(sent, v) ← read Relaxed SentCycles i ws v;
      let sample := mkSample observed received auxiliary sent in
      let r := record_sample (su_expected_aux u) (su_warmup_events u) (su_max_samples u) (t_recorder s) sample in
      Some (set_recorder r (t_samples s ++ [sample])
        (set_waiter s ws (if rc_stop r && negb (rc_stop (t_recorder s)) then W_limit observed else W_ack observed) v))
  | W_limit observed, Runs =>
      let '(ws, v) := write Release Stop 1 ws v in Some (set_waiter s ws (W_ack observed) v)
  | W_ack observed, Runs =>
      let '(ws, v) := write Release Acknowledged observed ws v in Some (set_waiter s ws (W_wait observed) v)
  | _, _ => None
  end.

(** ** The producer: [spawn_producer], [wait_for_ack_or_stop] and [cancellable_gap] *)

Definition producer_step (u : setup) (c : choice) (s : trial) : option trial :=
  let ws := t_memory s in
  let v := t_producer_view s in
  match t_producer s, c with
  | P_start, Pinned ok => Some (set_producer s ws (if ok then P_ready else P_abort AbortStop) v)
  | P_abort a, Runs =>
      '(ws, v, rest) ← abort_step a ws v;
      Some (set_producer s ws (match rest with Some a => P_abort a | None => P_failed end) v)
  | P_ready, Runs => '(ws, v) ← fetch_add Release Ready ws v; Some (set_producer s ws P_go v)
  | P_go, Reads i =>
      '(x, v) ← read Acquire Go i ws v; Some (set_producer s ws (if is_set x then P_loop else P_go) v)
  | P_loop, Reads i =>
      '(x, v) ← read Acquire Stop i ws v; Some (set_producer s ws (if is_set x then P_end_stop else P_ack) v)
  | P_ack, Reads i =>
      '(x, v) ← read Acquire Acknowledged i ws v;
      Some (set_producer s ws (if x =? t_sequence s then P_stop else P_ack_stop) v)
  | P_ack_stop, Reads i =>
      '(x, v) ← read Acquire Stop i ws v; Some (set_producer s ws (if is_set x then P_stop else P_ack) v)
  | P_stop, Reads i =>
      '(x, v) ← read Acquire Stop i ws v;
      Some (set_producer s ws (if is_set x then P_end_stop else if su_bursty u then P_gap else P_stamp) v)
  | P_gap, Expired yes => if yes then Some (set_producer s ws P_gap_stop v) else None
  | P_gap, Reads i =>
      '(x, v) ← read Acquire Stop i ws v; Some (set_producer s ws (if is_set x then P_gap_stop else P_gap) v)
  | P_gap_stop, Reads i =>
      '(x, v) ← read Acquire Stop i ws v; Some (set_producer s ws (if is_set x then P_end_stop else P_stamp) v)
  | P_stamp, Stamped stamp migrated =>
      Some (set_sequence (wrap64 (t_sequence s + 1))
        (set_producer s ws (if migrated : bool then P_abort AbortStop else P_sent stamp) v))
  | P_sent stamp, Runs =>
      let '(ws, v) := write Relaxed SentCycles stamp ws v in Some (add_stamp stamp (set_producer s ws P_generation v))
  | P_generation, Runs =>
      let '(ws, v) := write Release Generation (t_sequence s) ws v in Some (set_producer s ws P_loop v)
  | P_end_stop, Runs => let '(ws, v) := write Release Stop 1 ws v in Some (set_producer s ws P_end_generation v)
  | P_end_generation, Runs =>
      '(ws, v) ← fetch_add Release Generation ws v; Some (set_producer s ws P_done v)
  | _, _ => None
  end.

(** ** The victim: [spawn_victim] and [victim_loop] *)

Definition victim_step (c : choice) (s : trial) : option trial :=
  let ws := t_memory s in
  let v := t_victim_view s in
  match t_victim s, c with
  | V_start, Pinned ok => Some (set_victim s ws (if ok then V_ready else V_abort AbortStop) v)
  | V_abort a, Runs =>
      '(ws, v, rest) ← abort_step a ws v;
      Some (set_victim s ws (match rest with Some a => V_abort a | None => V_failed end) v)
  | V_ready, Runs => '(ws, v) ← fetch_add Release Ready ws v; Some (set_victim s ws V_go v)
  | V_go, Reads i => '(x, v) ← read Acquire Go i ws v; Some (set_victim s ws (if is_set x then V_run else V_go) v)
  | V_run, Reads i => '(x, v) ← read Acquire Stop i ws v; Some (set_victim s ws (if is_set x then V_done else V_run) v)
  | V_run, Chunk ok => if ok then None else Some (set_victim s ws V_failed v)
  | _, _ => None
  end.

(** ** The controller: [drive_trial] *)

Definition controller_step (c : choice) (s : trial) : option trial :=
  let ws := t_memory s in
  let v := t_controller_view s in
  match t_controller s, c with
  | C_ready, Reads i =>
      '(x, v) ← read Acquire Ready i ws v; Some (set_controller s ws (if x =? 3 then C_go else C_stop) v)
  | C_stop, Looks i timeout =>
      '(x, v) ← read Acquire Stop i ws v;
      Some (set_controller s ws (if is_set x then C_go_failed else if timeout : bool then C_abort AbortStop else C_ready) v)
  | C_abort a, Runs =>
      '(ws, v, rest) ← abort_step a ws v;
      Some (set_controller s ws (match rest with Some a => C_abort a | None => C_failed end) v)
  | C_go_failed, Runs => let '(ws, v) := write Release Go 1 ws v in Some (set_controller s ws C_failed v)
  | C_go, Runs => let '(ws, v) := write Release Go 1 ws v in Some (set_controller s ws C_delay v)
  | C_delay, Expired yes => if yes then Some (set_controller s ws C_stop_set v) else None
  | C_stop_set, Runs => let '(ws, v) := write Release Stop 1 ws v in Some (set_controller s ws C_done v)
  | _, _ => None
  end.

Definition trial_step (u : setup) (e : event) (s : trial) : option trial :=
  match e with
  | Waiter c => waiter_step u c s
  | Producer c => producer_step u c s
  | Victim c => victim_step c s
  | Controller c => controller_step c s
  end.
Fixpoint trial_run (u : setup) (es : list event) (s : trial) : option trial :=
  match es with
  | [] => Some s
  | e :: es => s ← trial_step u e s; trial_run u es s
  end.

Definition trial_start : trial :=
  mkTrial shared_new W_start none_seen recorder_start P_start none_seen 0 V_start none_seen C_ready none_seen [] [].
Definition reachable (u : setup) (s : trial) : Prop := exists es, trial_run u es trial_start = Some s.
