(* ===== verification/TrialProofs.v ===== *)
(** * A trial measures every wake once

    The invariant of the trial protocol of [Trial], by induction over its steps: whatever the
    interleaving and whatever older messages the loads return, the waiter's samples are the producer's
    sends, each once, in order and with its own time stamp. *)

From stdpp Require Import functions.
From S2P Require Import Prelude BenchFs Machine BenchCases ViewMemory Trial.
Open Scope Z_scope.

(** ** Accesses *)

Definition knows_stop (v : view) : Prop := (1 <= v Stop)%nat.

(** The value of the [k]th generation. *)
Definition nth_value (k : nat) : Z := wrap64 (Z.of_nat k).

(** ** The invariant of each atomic *)

Definition stop_ok (l : list message) : Prop :=
  l <> [] /\ forall i m, l !! i = Some m -> (i = 0%nat /\ m_val m = 0) \/ ((1 <= i)%nat /\ m_val m = 1).
Definition go_ok (passed : Prop) (l : list message) : Prop :=
  l <> [] /\ forall i m, l !! i = Some m ->
    (i = 0%nat /\ m_val m = 0) \/ ((1 <= i)%nat /\ m_val m = 1 /\ (knows_stop (m_view m) \/ passed)).
(** A message of the generation is the producer's [k]th store ([Some k]; 0 is the initial value), or the increment
    of an end or an abort ([None]). *)
Definition tag_ok (stores : nat) (tag : option nat) (m : message) : Prop :=
  match tag with
  | Some k => m_val m = nth_value k /\ (k <= m_view m SentCycles)%nat /\ (k <= stores)%nat
  | None => knows_stop (m_view m)
  end.
Definition gen_ok (tags : list (option nat)) (stores : nat) (l : list message) : Prop := Forall2 (tag_ok stores) tags l.
Definition tags_ok (tags : list (option nat)) : Prop :=
  tags !! 0%nat = Some (Some 0%nat) /\
  forall i j a b, (i < j)%nat -> tags !! i = Some (Some a) -> tags !! j = Some (Some b) -> (a < b)%nat.
Definition sent_ok (stamps : list Z) (l : list message) : Prop := m_val <$> l = 0 :: stamps.
Definition ack_ok (l : list message) : Prop :=
  l <> [] /\ forall j m, l !! j = Some m -> m_val m = nth_value j.
Definition nones (tags : list (option nat)) : nat := length (List.filter (fun t => match t with None => true | _ => false end) tags).
(** An increment adds one to the message before it. *)
Definition values_ok (tags : list (option nat)) (l : list message) : Prop :=
  forall i m m', l !! i = Some m -> l !! S i = Some m' -> tags !! S i = Some None -> m_val m' = wrap64 (m_val m + 1).
Definition ready_ok (q : Z) (l : list message) : Prop := forall m, m ∈ l -> 0 <= m_val m <= q.

(** ** The invariant of each thread *)

Definition passed (pc : waiter_pc) : Prop := match pc with W_start | W_capture | W_ready _ => False | _ => True end.
Definition waiter_count (pc : waiter_pc) : Z := match pc with W_start | W_capture | W_ready _ => 0 | _ => 1 end.
Definition producer_count (pc : producer_pc) : Z := match pc with P_start | P_ready => 0 | _ => 1 end.
Definition victim_count (pc : victim_pc) : Z := match pc with V_start | V_ready => 0 | _ => 1 end.

(** The waiter has seen the [k]th store, whose value is [o]. *)
Definition at_store (tags : list (option nat)) (v : view) (k : nat) : Prop :=
  exists i, (i <= v Generation)%nat /\ tags !! i = Some (Some k).

Definition waiter_ok (tags : list (option nat)) (n acked : nat) (pc : waiter_pc) (v : view) : Prop :=
  match pc with
  | W_abort AbortGo | W_abort AbortGeneration => knows_stop v
  | W_start | W_capture => n = 0%nat /\ acked = 0%nat
  | W_ready o | W_go o | W_startup_stop o => (knows_stop v \/ o = 0) /\ n = 0%nat /\ acked = 0%nat
  | W_wait o => o = nth_value n /\ at_store tags v n /\ acked = n
  | W_reload => (knows_stop v \/ at_store tags v (S n)) /\ acked = n
  | W_check o => (knows_stop v \/ o = nth_value (S n) /\ at_store tags v (S n) /\ (S n <= v SentCycles)%nat) /\ acked = n
  | W_sample o => o = nth_value (S n) /\ at_store tags v (S n) /\ (S n <= v SentCycles)%nat /\ acked = n
  | W_limit o | W_ack o => o = nth_value n /\ at_store tags v n /\ n = S acked
  | _ => True
  end.

Definition producer_ok (p : Prop) (sent acked : nat) (pc : producer_pc) (v : view) (sequence : Z) : Prop :=
  (sent <= S (v Acknowledged))%nat /\
  match pc with
  | P_start | P_ready | P_go => sequence = nth_value sent
  | P_abort AbortGo | P_abort AbortGeneration => knows_stop v
  | P_loop | P_ack | P_ack_stop => sequence = nth_value sent /\ (knows_stop v \/ p)
  | P_stop | P_gap | P_gap_stop =>
      sequence = nth_value sent /\ (knows_stop v \/ p) /\ (knows_stop v \/ (sent <= acked)%nat /\ (sent <= v Acknowledged)%nat)
  | P_stamp => sequence = nth_value sent /\ p /\ (sent <= acked)%nat /\ (sent <= v Acknowledged)%nat
  | P_sent _ => sequence = nth_value (S sent) /\ p /\ (sent <= acked)%nat /\ (sent <= v Acknowledged)%nat
  | P_generation => sequence = nth_value sent /\ p /\ (sent <= v SentCycles)%nat /\ (1 <= sent)%nat
  | P_end_generation => knows_stop v
  | _ => True
  end.
Definition victim_ok (pc : victim_pc) (v : view) : Prop :=
  match pc with V_abort AbortGo | V_abort AbortGeneration => knows_stop v | _ => True end.
(** [stops] and [gos] count the messages of the two flags. *)
Definition controller_ok (p : Prop) (stops gos : nat) (pc : controller_pc) (v : view) : Prop :=
  match pc with
  | C_abort AbortGo | C_go_failed => knows_stop v /\ (2 <= stops)%nat
  | C_abort AbortGeneration => knows_stop v /\ (2 <= stops)%nat /\ (2 <= gos)%nat
  | C_go => p
  | C_delay | C_stop_set => (2 <= gos)%nat
  | C_done | C_failed => (2 <= stops)%nat /\ (2 <= gos)%nat
  | _ => True
  end.

(** How many increments of the generation the threads may have made. *)
Definition waiter_ended (pc : waiter_pc) : nat := match pc with W_failed => 1 | _ => 0 end.
Definition producer_ended (pc : producer_pc) : nat := match pc with P_done | P_failed => 1 | _ => 0 end.
Definition victim_ended (pc : victim_pc) : nat := match pc with V_failed => 1 | _ => 0 end.
Definition controller_ended (pc : controller_pc) : nat := match pc with C_failed => 1 | _ => 0 end.

Definition stores (pc : producer_pc) (sent : nat) : nat := match pc with P_generation => pred sent | _ => sent end.
Definition acks (ws : memory) : nat := pred (length (ws Acknowledged)).

(** The [k]th sample shows the [k]th generation and carries the [k]th stamp. *)
Definition samples_ok (samples : list Sample) (stamps : list Z) : Prop :=
  forall k x, samples !! k = Some x -> sa_observed x = nth_value (S k) /\ stamps !! k = Some (sa_sent x).

Record memory_ok (tags : list (option nat)) (p : Prop) (stored : nat) (stamps : list Z) (q : Z) (ended : nat) (ws : memory) : Prop := mkMemoryOk {
  mo_stop : stop_ok (ws Stop);
  mo_go : go_ok p (ws Go);
  mo_gen : gen_ok tags stored (ws Generation);
  mo_tags : tags_ok tags;
  mo_sent : sent_ok stamps (ws SentCycles);
  mo_ack : ack_ok (ws Acknowledged);
  mo_ready : ready_ok q (ws Ready);
  mo_values : values_ok tags (ws Generation);
  mo_nones : (nones tags <= ended)%nat;
}.
Definition progress_ok (p : Prop) (n stored sent acked : nat) : Prop :=
  (n <= stored)%nat /\ (sent <= S acked)%nat /\ (acked <= n)%nat /\ (p \/ sent = 0%nat).

Record inv (tags : list (option nat)) (s : trial) : Prop := mkInv {
  inv_memory : memory_ok tags (passed (t_waiter s)) (stores (t_producer s) (length (t_stamps s))) (t_stamps s)
    (waiter_count (t_waiter s) + producer_count (t_producer s) + victim_count (t_victim s))
    (waiter_ended (t_waiter s) + producer_ended (t_producer s) + victim_ended (t_victim s) + controller_ended (t_controller s)) (t_memory s);
  inv_samples : samples_ok (t_samples s) (t_stamps s);
  inv_progress : progress_ok (passed (t_waiter s)) (length (t_samples s)) (stores (t_producer s) (length (t_stamps s)))
    (length (t_stamps s)) (acks (t_memory s));
  inv_waiter : waiter_ok tags (length (t_samples s)) (acks (t_memory s)) (t_waiter s) (t_waiter_view s);
  inv_producer : producer_ok (passed (t_waiter s)) (length (t_stamps s)) (acks (t_memory s)) (t_producer s) (t_producer_view s) (t_sequence s);
  inv_victim : victim_ok (t_victim s) (t_victim_view s);
  inv_controller : controller_ok (passed (t_waiter s)) (length (t_memory s Stop)) (length (t_memory s Go))
    (t_controller s) (t_controller_view s);
  inv_ended : (1 <= producer_ended (t_producer s))%nat -> last tags = Some None;
}.

(** ** Appending a message *)

Lemma appended {A} (P : nat -> A -> Prop) (l : list A) x :
  (forall i y, l !! i = Some y -> P i y) -> P (length l) x -> forall i y, (l ++ [x]) !! i = Some y -> P i y.
Proof. intros Hl Hx i y [[_ Hy]|[-> <-]]%lookup_snoc_Some; auto. Qed.

Lemma stop_append l m : stop_ok l -> m_val m = 1 -> stop_ok (l ++ [m]).
Proof.
  intros [Hne Hl] Hm. split; [by destruct l|]. apply appended; [done|]. right. split; [|done]. destruct l; [done|cbn; lia].
Qed.
Lemma go_append p l m : go_ok p l -> knows_stop (m_view m) \/ p -> m_val m = 1 -> go_ok p (l ++ [m]).
Proof.
  intros [Hne Hl] Hm Hv. split; [by destruct l|]. apply appended; [done|]. right. split; [|done]. destruct l; [done|cbn; lia].
Qed.
Lemma go_mono (p p' : Prop) l : (p -> p') -> go_ok p l -> go_ok p' l.
Proof. intros Hp [Hne Hl]. split; [done|]. intros i m Hm. destruct (Hl i m Hm) as [?|(? & ? & [])]; auto 6. Qed.
Lemma gen_mono tags a b l : (a <= b)%nat -> gen_ok tags a l -> gen_ok tags b l.
Proof.
  intros Hab Hl. eapply Forall2_impl; [exact Hl|]. intros [k|] m; [|done]. unfold tag_ok. intros (? & ? & ?). split; [done|]. split; [done|lia].
Qed.
Lemma gen_append tags a l tag m : gen_ok tags a l -> tag_ok a tag m -> gen_ok (tags ++ [tag]) a (l ++ [m]).
Proof. intros Hl Hm. apply Forall2_app; [done|by constructor]. Qed.
Lemma ack_append l m : ack_ok l -> m_val m = nth_value (length l) -> ack_ok (l ++ [m]).
Proof. intros [Hne Hl] Hm. split; [by destruct l|]. by apply appended. Qed.
Lemma sent_append stamps l m : sent_ok stamps l -> sent_ok (stamps ++ [m_val m]) (l ++ [m]).
Proof. unfold sent_ok. intros Hl. by rewrite fmap_app, Hl. Qed.
Lemma ready_mono q q' l : q <= q' -> ready_ok q l -> ready_ok q' l.
Proof. intros Hq Hl m Hm. specialize (Hl m Hm). lia. Qed.
Lemma ready_append q l m : ready_ok q l -> 0 <= m_val m <= q -> ready_ok q (l ++ [m]).
Proof. intros Hl Hm m' [Hin| ->%list_elem_of_singleton]%elem_of_app; [by apply Hl|done]. Qed.
Lemma ready_add q l m m' : ready_ok q l -> last l = Some m -> m_val m' = wrap64 (m_val m + 1) -> ready_ok (q + 1) (l ++ [m']).
Proof.
  intros Hl Hm Hv. apply ready_append; [eapply ready_mono; [|done]; lia|]. rewrite Hv.
  pose proof (Hl m (last_Some_elem_of _ _ Hm)) as Hb. split; [by apply Z.mod_pos_bound|].
  etrans; [apply Z.mod_le; lia|lia].
Qed.

Lemma values_append tags l tag m : length tags = length l -> values_ok tags l ->
  (tag = None -> forall m', last l = Some m' -> m_val m = wrap64 (m_val m' + 1)) -> values_ok (tags ++ [tag]) (l ++ [m]).
Proof.
  intros Hlen Hv Hm i m1 m2 [[Hi H1]|[-> <-]]%lookup_snoc_Some [[Hj H2]|[Hj <-]]%lookup_snoc_Some Ht; try lia.
  - rewrite lookup_app_l in Ht by lia. by eapply Hv.
  - rewrite Hj, <- Hlen in Ht. rewrite lookup_app_r, Nat.sub_diag in Ht by lia. injection Ht as ->.
    apply Hm; [done|]. rewrite last_lookup, <- Hj. done.
Qed.
Lemma nones_app tags ext : nones (tags ++ ext) = (nones tags + nones ext)%nat.
Proof. unfold nones. by rewrite List.filter_app, length_app. Qed.

Lemma tags_add_none tags : tags_ok tags -> tags_ok (tags ++ [None]).
Proof.
  intros [H0 Hi]. split; [by rewrite lookup_app_l by (by eapply lookup_lt_Some)|].
  intros i j a b Hij [[_ Ha]|[_ [=]]]%lookup_snoc_Some [[_ Hb]|[_ [=]]]%lookup_snoc_Some. by eapply Hi.
Qed.
Lemma tags_add_store tags k : tags_ok tags -> (forall i a, tags !! i = Some (Some a) -> (a < k)%nat) -> tags_ok (tags ++ [Some k]).
Proof.
  intros [H0 Hi] Hk. split; [by rewrite lookup_app_l by (by eapply lookup_lt_Some)|].
  intros i j a b Hij [[Hil Ha]|[-> [= <-]]]%lookup_snoc_Some [[Hjl Hb]|[-> [= <-]]]%lookup_snoc_Some; try lia; eauto.
Qed.
Lemma tags_bounded tags a l i k : gen_ok tags a l -> tags !! i = Some (Some k) -> (k <= a)%nat.
Proof. intros Hl Hi. destruct (Forall2_lookup_l _ _ _ _ _ Hl Hi) as (m & _ & Ht). apply Ht. Qed.

(** ** What a reader learns *)

Lemma knows_stop_mono (v v' : view) : (forall d, (v d <= v' d)%nat) -> knows_stop v -> knows_stop v'.
Proof. intros Hv Hk. unfold knows_stop in *. specialize (Hv Stop). lia. Qed.
Lemma at_store_mono tags (v v' : view) k : (forall d, (v d <= v' d)%nat) -> at_store tags v k -> at_store tags v' k.
Proof. intros Hv (i & Hi & Ht). exists i. split; [|done]. specialize (Hv Generation). lia. Qed.
Lemma at_store_app tags tags' v k : at_store tags v k -> at_store (tags ++ tags') v k.
Proof. intros (i & Hi & Ht). exists i. split; [done|]. by apply lookup_app_l_Some. Qed.

(** A reader of the stop flag: set, it knows; clear, it did not. *)
Lemma read_stop ws i v x v' : stop_ok (ws Stop) -> read Acquire Stop i ws v = Some (x, v') ->
  if is_set x then knows_stop v' else ~ knows_stop v.
Proof.
  intros [_ Hs] Hr. pose proof (read_grows _ _ _ _ _ _ _ Hr) as [_ Hi']. apply read_some in Hr as (m & Hi & Hm & -> & _).
  destruct (Hs i m Hm) as [[-> ->]|[H1 ->]]; unfold is_set, knows_stop; cbn [negb Z.eqb]; lia.
Qed.
(** A reader of the go flag, set: it knows of a stop, or the waiter is past its start. *)
Lemma read_go p ws i v x v' : go_ok p (ws Go) -> read Acquire Go i ws v = Some (x, v') -> is_set x = true -> knows_stop v' \/ p.
Proof.
  intros Hg Hr Hx. pose proof Hr as (m & Hi & Hm & -> & _)%read_some. unfold is_set in Hx.
  destruct Hg as [_ Hg]. destruct (Hg i m Hm) as [[_ H0]|(_ & _ & [Hk|Hp])]; [by rewrite H0 in Hx|left|by right].
  unfold knows_stop in *. pose proof (read_acquires _ _ _ _ _ _ _ Hr Hm Stop). lia.
Qed.
(** A reader of the generation: it has seen a store with its stamp, or it knows of a stop. *)
Lemma read_generation tags a ws i v x v' : gen_ok tags a (ws Generation) -> read Acquire Generation i ws v = Some (x, v') ->
  knows_stop v' \/ exists k, tags !! i = Some (Some k) /\ (v Generation <= i <= v' Generation)%nat /\ x = nth_value k /\
    (k <= v' SentCycles)%nat /\ (k <= a)%nat.
Proof.
  intros Hg Hr. pose proof (read_grows _ _ _ _ _ _ _ Hr) as [_ Hi']. pose proof Hr as (m & Hi & Hm & -> & _)%read_some.
  destruct (Forall2_lookup_r _ _ _ _ _ Hg Hm) as ([k|] & Ht & Hok); unfold tag_ok in Hok.
  - right. destruct Hok as (Hv & Hs & Hk). pose proof (read_acquires _ _ _ _ _ _ _ Hr Hm SentCycles). exists k. split; [done|]. split; [done|]. split; [done|lia].
  - left. unfold knows_stop in *. pose proof (read_acquires _ _ _ _ _ _ _ Hr Hm Stop). lia.
Qed.

Lemma next_value k : nth_value (S k) <> nth_value k.
Proof.
  unfold nth_value, wrap64. intros Heq. pose proof (Z.mod_pos_bound (Z.of_nat k) (2 ^ 64) ltac:(lia)).
  rewrite Nat2Z.inj_succ in Heq. unfold Z.succ in Heq. rewrite <- Z.add_mod_idemp_l in Heq by lia.
  set (r := Z.of_nat k mod 2 ^ 64) in *. destruct (decide (r + 1 = 2 ^ 64)) as [Hr|Hr].
  - rewrite Hr, Z.mod_same in Heq by lia. lia.
  - rewrite Z.mod_small in Heq by lia. lia.
Qed.
Lemma succ_value k : wrap64 (nth_value k + 1) = nth_value (S k).
Proof. unfold nth_value, wrap64. rewrite Z.add_mod_idemp_l by lia. f_equal. lia. Qed.

(** From the store it has seen, the waiter next meets the following one, or a stop. *)
Lemma read_next tags a ws i v x v' n j :
  tags_ok tags -> gen_ok tags a (ws Generation) -> (a <= S n)%nat -> (j <= v Generation)%nat ->
  (tags !! j = Some (Some n) /\ x <> nth_value n) \/ tags !! j = Some (Some (S n)) ->
  read Acquire Generation i ws v = Some (x, v') ->
  knows_stop v' \/ x = nth_value (S n) /\ at_store tags v' (S n) /\ (S n <= v' SentCycles)%nat.
Proof.
  intros [_ Hinc] Hg Ha Hj Ht Hr. destruct (read_generation _ _ _ _ _ _ _ Hg Hr) as [|(k & Hk & Hi & -> & Hs & Hka)]; [by left|right].
  assert (k = S n) as ->; [|split; [done|]; split; [|done]; exists i; by split; [lia|]].
  assert (Hcase : j = i \/ (j < i)%nat) by lia. destruct Ht as [[Ht Hx]|Ht]; destruct Hcase as [->|Hlt].
  - simplify_eq.
  - pose proof (Hinc _ _ _ _ Hlt Ht Hk). lia.
  - by simplify_eq.
  - pose proof (Hinc _ _ _ _ Hlt Ht Hk). lia.
Qed.

(** ** What a write keeps *)

Ltac cells := repeat first [rewrite fn_lookup_insert | rewrite fn_lookup_insert_ne by discriminate].

Lemma acks_other c l ws : c <> Acknowledged -> acks (<[c := l]> ws) = acks ws.
Proof. intros Hc. unfold acks. by rewrite fn_lookup_insert_ne. Qed.

Lemma abort_extends a ws v ws' v' rest : abort_step a ws v = Some (ws', v', rest) -> grows ws ws'.
Proof.
  destruct a; cbn [abort_step]; [destruct (write _ _ _ _ _) as [w1 v1] eqn:E; intros; simplify_eq; by eapply write_extends..|].
  destruct (fetch_add _ _ _ _) as [[w1 v1]|] eqn:E; [|done]. cbn. intros; simplify_eq. by eapply fetch_add_extends.
Qed.
#[local] Hint Resolve grows_refl write_extends fetch_add_extends abort_extends : core.

Section writes.
Context (tags : list (option nat)) (p : Prop) (stored : nat) (stamps : list Z) (q : Z) (ended : nat) (ws : memory) (v : view).
Hypothesis (Hm : memory_ok tags p stored stamps q ended ws).

Lemma memory_mono (p' : Prop) stored' q' ended' : (p -> p') -> (stored <= stored')%nat -> q <= q' -> (ended <= ended')%nat ->
  memory_ok tags p' stored' stamps q' ended' ws.
Proof. intros Hp Hs Hq He. destruct Hm. split; eauto using go_mono, gen_mono, ready_mono. lia. Qed.

Lemma memory_stop ws' v' : write Release Stop 1 ws v = (ws', v') ->
  memory_ok tags p stored stamps q ended ws' /\ knows_stop v' /\ acks ws' = acks ws.
Proof.
  intros [= <- <-]. destruct Hm as [[Hne Hs] ? ? ? ? ? ? ? ?]. split; [|split; [|by apply acks_other]].
  - split; cells; try done. by apply stop_append.
  - unfold knows_stop. rewrite after_write_same. destruct (ws Stop); [done|cbn; lia].
Qed.
Lemma memory_go ws' v' : write Release Go 1 ws v = (ws', v') -> knows_stop v \/ p ->
  memory_ok tags p stored stamps q ended ws' /\ (knows_stop v -> knows_stop v') /\ acks ws' = acks ws.
Proof.
  intros [= <- <-] Hk. unfold knows_stop. rewrite after_write_other by done. destruct Hm. split; [|split; [done|by apply acks_other]].
  split; cells; try done. apply go_append; [done| |done]. cbn [m_view published releases]. unfold knows_stop.
  by rewrite after_write_other.
Qed.
Lemma memory_add_generation ws' v' : fetch_add Release Generation ws v = Some (ws', v') -> knows_stop v ->
  memory_ok (tags ++ [None]) p stored stamps q (S ended) ws' /\ knows_stop v' /\ acks ws' = acks ws.
Proof.
  unfold fetch_add. destruct (last (ws Generation)) as [m|] eqn:El; [|done]. intros [= <- <-] Hk. destruct Hm.
  split; [|split; [unfold knows_stop; by rewrite after_write_other|by apply acks_other]].
  split; cells; try done; [|by apply tags_add_none| |rewrite nones_app; cbn; lia].
  - apply gen_append; [done|]. cbn. unfold knows_stop, join in *. rewrite after_write_other by done. lia.
  - apply values_append; [by eapply Forall2_length|done|]. intros _ m' Hm'. by simplify_eq.
Qed.
Lemma memory_add_ready ws' v' : fetch_add Release Ready ws v = Some (ws', v') ->
  memory_ok tags p stored stamps (q + 1) ended ws' /\ (forall c, c <> Ready -> v' c = v c) /\ acks ws' = acks ws.
Proof.
  unfold fetch_add. destruct (last (ws Ready)) as [m|] eqn:El; [|done]. intros [= <- <-]. destruct Hm.
  split; [|split; [intros c Hc; by apply after_write_other|by apply acks_other]].
  split; cells; try done. by eapply ready_add.
Qed.
Lemma memory_sent x ws' v' : write Relaxed SentCycles x ws v = (ws', v') ->
  memory_ok tags p stored (stamps ++ [x]) q ended ws' /\ v' SentCycles = S (length stamps) /\
  (forall c, c <> SentCycles -> v' c = v c) /\ acks ws' = acks ws.
Proof.
  intros [= <- <-]. destruct Hm as [? ? ? ? Hs ? ? ? ?]. rewrite after_write_same.
  split; [|split; [|split; [intros c Hc; by apply after_write_other|by apply acks_other]]].
  - split; cells; try done. by apply sent_append.
  - unfold sent_ok in Hs. apply (f_equal length) in Hs. rewrite length_fmap in Hs. done.
Qed.
Lemma memory_store ws' v' : write Release Generation (nth_value (S stored)) ws v = (ws', v') -> (S stored <= v SentCycles)%nat ->
  memory_ok (tags ++ [Some (S stored)]) p (S stored) stamps q ended ws' /\ (forall c, c <> Generation -> v' c = v c) /\ acks ws' = acks ws.
Proof.
  intros [= <- <-] Hv. destruct Hm as [? ? Hg Ht ? ? ? ? ?]. split; [|split; [intros c Hc; by apply after_write_other|by apply acks_other]].
  split; cells; try done.
  - apply gen_append; [eapply gen_mono; [|done]; lia|]. split; [done|]. cbn [m_view published releases].
    rewrite after_write_other by done. split; [done|lia].
  - apply tags_add_store; [done|]. intros i a Hi. pose proof (tags_bounded _ _ _ _ _ Hg Hi). lia.
  - by apply values_append; [eapply Forall2_length|..].
  - rewrite nones_app. cbn. lia.
Qed.
Lemma memory_ack ws' v' : write Release Acknowledged (nth_value (S (acks ws))) ws v = (ws', v') ->
  memory_ok tags p stored stamps q ended ws' /\ (forall c, c <> Acknowledged -> v' c = v c) /\ acks ws' = S (acks ws).
Proof.
  intros [= <- <-]. destruct Hm as [? ? ? ? ? [Hne Ha] ? ? ?].
  assert (Hl : S (acks ws) = length (ws Acknowledged)) by (unfold acks; destruct (ws Acknowledged); [done|cbn; lia]).
  split; [|split; [intros c Hc; by apply after_write_other|]].
  - split; cells; try done. apply ack_append; [done|]. by rewrite Hl.
  - unfold acks at 1. cells. rewrite length_app. cbn. lia.
Qed.

(** One access of [abort_startup]; the last one increments the generation. *)
Lemma memory_abort a ws' v' rest : abort_step a ws v = Some (ws', v', rest) ->
  match a with AbortStop => True | _ => knows_stop v end ->
  exists ext, ext = (match rest with None => [None] | _ => [] end) /\
    memory_ok (tags ++ ext) p stored stamps q (match rest with None => S ended | _ => ended end) ws' /\
    knows_stop v' /\ acks ws' = acks ws /\ v' Acknowledged = v Acknowledged.
Proof.
  destruct a; cbn [abort_step]; intros Hstep Hk.
  - destruct (write _ _ _ _ _) as [ws1 v1] eqn:E. simplify_eq. destruct (memory_stop _ _ E) as (? & ? & ?). exists [].
    rewrite app_nil_r. pose proof (write_view _ _ _ _ _ _ _ E Acknowledged). auto 6.
  - destruct (write _ _ _ _ _) as [ws1 v1] eqn:E. simplify_eq. destruct (memory_go _ _ E) as (? & ? & ?); [by left|]. exists [].
    rewrite app_nil_r. pose proof (write_view _ _ _ _ _ _ _ E Acknowledged). auto 6.
  - destruct (fetch_add _ _ _ _) as [[ws1 v1]|] eqn:E; [|done]. cbn in Hstep. simplify_eq.
    destruct (memory_add_generation _ _ E Hk) as (? & ? & ?). exists [None]. pose proof (fetch_add_view _ _ _ _ _ _ E Acknowledged). auto 6.
Qed.
End writes.

(** ** The waiter's steps *)

Lemma waiter_ok_app tags tags' n acked pc v : waiter_ok tags n acked pc v -> waiter_ok (tags ++ tags') n acked pc v.
Proof. destruct pc; cbn; intuition auto using at_store_app. Qed.
Lemma producer_ok_mono (p p' : Prop) sent acked acked' pc v q :
  (p -> p') -> (acked <= acked')%nat -> producer_ok p sent acked pc v q -> producer_ok p' sent acked' pc v q.
Proof.
  intros Hp Ha [Hv H]. split; [exact Hv|]. destruct pc; try exact H.
  1-3: destruct H as [? []]; auto.
  1-3: destruct H as (? & [|] & [|[]]); repeat split; auto; right; split; (assumption || lia).
  1-2: destruct H as (? & ? & ? & ?); repeat split; auto; lia.
  destruct H as (? & ? & ? & ?). auto.
Qed.
Lemma controller_ok_mono (p p' : Prop) a a' b b' pc v : (p -> p') -> (a <= a')%nat -> (b <= b')%nat ->
  controller_ok p a b pc v -> controller_ok p' a' b' pc v.
Proof. intros Hp Ha Hb. destruct pc as [| |[]| | | | | |]; cbn; intuition lia. Qed.
(** After the producer's increment there are only increments. *)
Lemma last_none (tags ext : list (option nat)) : last tags = Some None -> ext = [] \/ ext = [None] -> last (tags ++ ext) = Some None.
Proof. intros Hl [->| ->]; [by rewrite app_nil_r|by rewrite last_snoc]. Qed.

Lemma waiter_moves tags ext s ws' pc' v' :
  inv tags s -> ext = [] \/ ext = [None] -> (passed (t_waiter s) -> passed pc') -> grows (t_memory s) ws' ->
  memory_ok (tags ++ ext) (passed pc') (stores (t_producer s) (length (t_stamps s))) (t_stamps s)
    (waiter_count pc' + producer_count (t_producer s) + victim_count (t_victim s))
    (waiter_ended pc' + producer_ended (t_producer s) + victim_ended (t_victim s) + controller_ended (t_controller s)) ws' ->
  (acks (t_memory s) <= acks ws' <= length (t_samples s))%nat ->
  waiter_ok (tags ++ ext) (length (t_samples s)) (acks ws') pc' v' -> inv (tags ++ ext) (set_waiter s ws' pc' v').
Proof.
  intros [] He Hp Hg Hm Ha Hw. split; cbn [set_waiter t_memory t_waiter t_waiter_view t_producer t_producer_view t_sequence
    t_victim t_victim_view t_controller t_controller_view t_samples t_stamps]; try done.
  - unfold progress_ok in *. intuition (auto; lia).
  - eapply producer_ok_mono; [done| |done]. lia.
  - by eapply controller_ok_mono; [|apply Hg|apply Hg|].
  - intros Hpe. apply last_none; auto.
Qed.
Lemma waiter_writes tags s ws' pc' v' :
  inv tags s -> (passed (t_waiter s) -> passed pc') -> grows (t_memory s) ws' ->
  memory_ok tags (passed pc') (stores (t_producer s) (length (t_stamps s))) (t_stamps s)
    (waiter_count pc' + producer_count (t_producer s) + victim_count (t_victim s))
    (waiter_ended pc' + producer_ended (t_producer s) + victim_ended (t_victim s) + controller_ended (t_controller s)) ws' ->
  (acks (t_memory s) <= acks ws' <= length (t_samples s))%nat ->
  waiter_ok tags (length (t_samples s)) (acks ws') pc' v' -> inv tags (set_waiter s ws' pc' v').
Proof. intros I. pose proof (waiter_moves tags [] s ws' pc' v' I) as H. rewrite app_nil_r in H. apply H. by left. Qed.
(** A step that writes nothing. *)
Lemma waiter_reads tags s pc' v' :
  inv tags s -> (passed (t_waiter s) -> passed pc') -> waiter_count (t_waiter s) <= waiter_count pc' ->
  (waiter_ended (t_waiter s) <= waiter_ended pc')%nat ->
  waiter_ok tags (length (t_samples s)) (acks (t_memory s)) pc' v' -> inv tags (set_waiter s (t_memory s) pc' v').
Proof.
  intros I Hp Hc He Hw. apply waiter_writes; try done.
  - eapply memory_mono; [apply I|done|done|lia|lia].
  - split; [done|apply I].
Qed.

Lemma stores_below pc sent : (stores pc sent <= sent)%nat.
Proof. destruct pc; cbn; lia. Qed.
Lemma at_store_eq tags (v v' : view) k : v' Generation = v Generation -> at_store tags v k -> at_store tags v' k.
Proof. intros Hv (i & Hi & Ht). exists i. by rewrite Hv. Qed.

(** The sample taken in state [s] with what it read. *)
Lemma sample_inv tags s i x v' o received auxiliary r pc' :
  inv tags s -> t_waiter s = W_sample o -> read Relaxed SentCycles i (t_memory s) (t_waiter_view s) = Some (x, v') ->
  pc' = W_limit o \/ pc' = W_ack o ->
  inv tags (set_recorder r (t_samples s ++ [mkSample o received auxiliary x]) (set_waiter s (t_memory s) pc' v')).
Proof.
  intros [M S P W Pr V C E] Epc Hr Hpc. rewrite Epc in *. cbn [waiter_ok] in W. destruct W as (-> & Hat & Hv & Hack).
  set (n := length (t_samples s)) in *. destruct P as (Hn & Hsent & Ha & Hp).
  pose proof (read_grows _ _ _ _ _ _ _ Hr) as [Hgrow _]. apply read_some in Hr as (m & Hi & Hm & -> & _).
  pose proof (mo_sent _ _ _ _ _ _ _ M) as Hs. unfold sent_ok in Hs. pose proof (f_equal length Hs) as Hlen.
  rewrite length_fmap in Hlen. cbn [length] in Hlen. pose proof (lookup_lt_Some _ _ _ Hm) as Hlt.
  assert (i = Datatypes.S n) as -> by lia.
  assert (Hx : t_stamps s !! n = Some (m_val m)).
  { change (t_stamps s !! n) with ((0 :: t_stamps s) !! Datatypes.S n). by rewrite <- Hs, list_lookup_fmap, Hm. }
  pose proof (stores_below (t_producer s) (length (t_stamps s))) as Hst.
  assert (Hlt' : (Datatypes.S n <= stores (t_producer s) (length (t_stamps s)))%nat).
  { destruct Hat as (j & _ & Hj). by eapply tags_bounded; [apply (mo_gen _ _ _ _ _ _ _ M)|]. }
  assert (Hpass : passed pc' /\ waiter_count pc' = 1) by (by destruct Hpc as [->| ->]).
  split; cbn [set_recorder set_waiter t_memory t_waiter t_waiter_view t_producer t_producer_view t_sequence
    t_victim t_victim_view t_controller t_controller_view t_samples t_stamps].
  - eapply memory_mono; [exact M|intros _; apply Hpass|done|cbn [waiter_count]; lia|by destruct Hpc as [->| ->]].
  - intros k y [[_ Hk]|[-> <-]]%lookup_snoc_Some; [by apply S|]. done.
  - rewrite length_app. cbn [length]. unfold progress_ok. fold n. split; [lia|]. split; [done|]. split; [lia|]. left. apply Hpass.
  - rewrite length_app. cbn [length]. fold n. replace (n + 1)%nat with (Datatypes.S n) by lia.
    destruct Hpc as [->| ->]; cbn [waiter_ok]; (split; [done|]; split; [by eapply at_store_mono|lia]).
  - eapply producer_ok_mono; [intros _; apply Hpass|done|done].
  - done.
  - eapply controller_ok_mono; [intros _; apply Hpass|done..].
  - done.
Qed.

(** What a step loads, stores, increments, or aborts. *)
Ltac load_step Hstep x v E :=
  destruct (read _ _ _ _ _) as [[x v]|] eqn:E; [|discriminate Hstep]; injection Hstep as <-.
Ltac store_step Hstep ws v E := destruct (write _ _ _ _ _) as [ws v] eqn:E; injection Hstep as <-.
Ltac add_step Hstep ws v E :=
  destruct (fetch_add _ _ _ _) as [[ws v]|] eqn:E; [|discriminate Hstep]; injection Hstep as <-.
Ltac aborted_step Hstep ws v rest E :=
  destruct (abort_step _ _ _) as [[[ws v] rest]|] eqn:E; [|discriminate Hstep]; injection Hstep as <-.

(** Whether the waiter has entered its loop. *)
Definition waiting (pc : waiter_pc) : bool :=
  match pc with
  | W_start | W_abort _ | W_capture | W_ready _ | W_go _ | W_startup_stop _ => false
  | W_wait _ | W_reload | W_check _ | W_sample _ | W_limit _ | W_ack _ | W_done | W_failed => true
  end.
Section waiter_steps.
Variables (u : setup) (tags : list (option nat)).
Lemma waiter_starts c s s' : inv tags s -> waiting (t_waiter s) = false -> waiter_step u c s = Some s' -> exists tags', inv tags' s'.
Proof.
  intros I Hphase Hstep. pose proof (inv_memory _ _ I) as M. pose proof (inv_waiter _ _ I) as W.
  pose proof (inv_progress _ _ I) as (Hn & Hsent & Hack & Hpast). unfold waiter_step in Hstep.
  pose proof (stores_below (t_producer s) (length (t_stamps s))) as Hst.
  destruct (t_waiter s) as [|a| |o|o|o|o| |o|o|o|o| |] eqn:Epc; try discriminate Hphase; clear Hphase; destruct c; try discriminate Hstep; cbn [waiter_ok] in W.
  - (* pin_current *) injection Hstep as <-. exists tags. destruct ok; apply waiter_reads; rewrite ?Epc; try done; apply W.
  - (* abort_startup *) aborted_step Hstep ws' v' rest E.
    destruct (memory_abort _ _ _ _ _ _ _ _ M _ _ _ _ E) as (ext & Hext & M' & Hk & Ha & _); [by destruct a|]. exists (tags ++ ext).
    assert (ext = [] \/ ext = [None]) by (destruct rest; auto).
    destruct rest as [[]|]; apply waiter_moves; rewrite ?Epc, ?Ha; eauto; try done.
  - (* capture *) load_step Hstep x v' E. exists tags.
    apply waiter_reads; rewrite ?Epc; try done. split; [|done].
    destruct (read_generation _ _ _ _ _ _ _ (mo_gen _ _ _ _ _ _ _ M) E) as [|(k & _ & _ & -> & _ & Hk)]; [by left|right].
    destruct Hpast as [[]|Hp]. by replace k with 0%nat by lia.
  - (* ready *) add_step Hstep ws' v' E. exists tags.
    destruct (memory_add_ready _ _ _ _ _ _ _ _ M _ _ E) as (M' & Hv & Ha). unfold knows_stop in W.
    apply waiter_writes; rewrite ?Epc, ?Ha; eauto; cbn [waiter_ok]; unfold knows_stop; rewrite ?Hv by done; try done.
    eapply memory_mono; [exact M'|done..|cbn [waiter_count]; lia|done].
  - (* go *) load_step Hstep x v' E. exists tags.
    pose proof (read_grows _ _ _ _ _ _ _ E) as [Hg _]. destruct W as ([Hk|Ho] & Hrest).
    all: destruct (is_set x); apply waiter_reads; rewrite ?Epc; try done; (split; [eauto using knows_stop_mono|done]).
  - (* stop at startup *) load_step Hstep x v' E. exists tags.
    pose proof (read_stop _ _ _ _ _ (mo_stop _ _ _ _ _ _ _ M) E) as Hk.
    destruct (is_set x); apply waiter_reads; rewrite ?Epc; try done; [cbn; lia|]. destruct W as ([?| ->] & -> & ->); [done|].
    split; [done|]. split; [|done]. exists 0%nat. split; [lia|]. apply (mo_tags _ _ _ _ _ _ _ M).
Qed.
Lemma waiter_loops c s s' : inv tags s -> waiting (t_waiter s) = true -> waiter_step u c s = Some s' -> exists tags', inv tags' s'.
Proof.
  intros I Hphase Hstep. pose proof (inv_memory _ _ I) as M. pose proof (inv_waiter _ _ I) as W.
  pose proof (inv_progress _ _ I) as (Hn & Hsent & Hack & Hpast). unfold waiter_step in Hstep.
  pose proof (stores_below (t_producer s) (length (t_stamps s))) as Hst.
  destruct (t_waiter s) as [|a| |o|o|o|o| |o|o|o|o| |] eqn:Epc; try discriminate Hphase; clear Hphase; destruct c; try discriminate Hstep; cbn [waiter_ok] in W.
  - (* wait *) load_step Hstep x v' E. exists tags.
    pose proof (read_grows _ _ _ _ _ _ _ E) as [Hg _]. destruct W as (-> & Hat & Ha).
    destruct (Z.eqb_spec x (nth_value (length (t_samples s)))) as [Hx|Hx].
    { apply waiter_reads; rewrite ?Epc; try done. split; [done|]. split; [by eapply at_store_mono|done]. }
    assert (Hnext : knows_stop v' \/ x = nth_value (S (length (t_samples s))) /\ at_store tags v' (S (length (t_samples s))) /\
      (S (length (t_samples s)) <= v' SentCycles)%nat).
    { destruct Hat as (j & Hj & Htag).
      eapply read_next; [apply (mo_tags _ _ _ _ _ _ _ M)|apply (mo_gen _ _ _ _ _ _ _ M)|lia|exact Hj|by left|exact E]. }
    destruct (su_reload u); apply waiter_reads; rewrite ?Epc; try done; (split; [|done]); naive_solver.
  - (* reload *) load_step Hstep x v' E. exists tags.
    pose proof (read_grows _ _ _ _ _ _ _ E) as [Hg _]. destruct W as [W Ha].
    apply waiter_reads; rewrite ?Epc; try done. split; [|done].
    destruct W as [?|(j & Hj & Htag)]; [left; by eapply knows_stop_mono|].
    eapply read_next; [apply (mo_tags _ _ _ _ _ _ _ M)|apply (mo_gen _ _ _ _ _ _ _ M)|lia|exact Hj|by right|exact E].
  - (* stop *) load_step Hstep x v' E. exists tags.
    pose proof (read_grows _ _ _ _ _ _ _ E) as [Hg _]. pose proof (read_stop _ _ _ _ _ (mo_stop _ _ _ _ _ _ _ M) E) as Hk.
    destruct (is_set x); apply waiter_reads; rewrite ?Epc; try done. destruct W as ([?|(-> & Hat & Hv)] & Ha); [done|].
    split; [done|]. split; [by eapply at_store_mono|]. split; [|done]. specialize (Hg SentCycles). lia.
  - (* record_sample *) load_step Hstep x v' E. exists tags.
    eapply sample_inv; [done|done|done|]. destruct (_ && _); auto.
  - (* the sample limit *) store_step Hstep ws' v' E. exists tags.
    destruct (memory_stop _ _ _ _ _ _ _ _ M _ _ E) as (M' & _ & Ha).
    apply waiter_writes; rewrite ?Epc, ?Ha; eauto; try done. destruct W as (-> & Hat & Hv). split; [done|]. split; [|done].
    eapply at_store_eq; [by eapply write_view|done].
  - (* acknowledge *) store_step Hstep ws' v' E. exists tags.
    destruct W as (-> & Hat & Hv). rewrite Hv in E.
    destruct (memory_ack _ _ _ _ _ _ _ _ M _ _ E) as (M' & Hview & Ha). rewrite <- Hv in *.
    apply waiter_writes; rewrite ?Epc; eauto; try done; [lia|]. split; [done|]. split; [|lia]. by eapply at_store_eq; [apply Hview|].
Qed.
End waiter_steps.
Lemma waiter_step_inv u c s s' tags : inv tags s -> waiter_step u c s = Some s' -> exists tags', inv tags' s'.
Proof. intros I. destruct (waiting (t_waiter s)) eqn:E; [by eapply waiter_loops|by eapply waiter_starts]. Qed.

(** ** The producer's steps *)

Definition with_producer (s : trial) (ws : memory) (pc : producer_pc) (v : view) (sequence : Z) (stamps : list Z) : trial :=
  mkTrial ws (t_waiter s) (t_waiter_view s) (t_recorder s) pc v sequence (t_victim s) (t_victim_view s)
    (t_controller s) (t_controller_view s) (t_samples s) stamps.

Lemma producer_moves tags ext s ws' pc' v' q' stamps' :
  inv tags s -> t_stamps s `prefix_of` stamps' -> grows (t_memory s) ws' ->
  (stores (t_producer s) (length (t_stamps s)) <= stores pc' (length stamps'))%nat ->
  memory_ok (tags ++ ext) (passed (t_waiter s)) (stores pc' (length stamps')) stamps'
    (waiter_count (t_waiter s) + producer_count pc' + victim_count (t_victim s))
    (waiter_ended (t_waiter s) + producer_ended pc' + victim_ended (t_victim s) + controller_ended (t_controller s)) ws' ->
  acks ws' = acks (t_memory s) -> (length stamps' <= S (acks (t_memory s)))%nat ->
  (passed (t_waiter s) \/ length stamps' = 0%nat) ->
  producer_ok (passed (t_waiter s)) (length stamps') (acks (t_memory s)) pc' v' q' ->
  ((1 <= producer_ended pc')%nat -> last (tags ++ ext) = Some None) ->
  inv (tags ++ ext) (with_producer s ws' pc' v' q' stamps').
Proof.
  intros [M S P W Pr V C E] [more ->] Hg Hst M' Ha Hlen Hp Hok He.
  split; unfold with_producer; cbn [t_memory t_waiter t_waiter_view t_producer t_producer_view t_sequence
    t_victim t_victim_view t_controller t_controller_view t_samples t_stamps]; rewrite ?Ha; try done.
  - intros k x Hx. destruct (S k x Hx) as [H1 H2]. split; [done|]. by apply lookup_app_l_Some.
  - unfold progress_ok in *. split; [lia|]. split; [done|]. split; [lia|done].
  - by apply waiter_ok_app.
  - by eapply controller_ok_mono; [|apply Hg|apply Hg|].
Qed.
Lemma producer_writes tags s ws' pc' v' :
  inv tags s -> grows (t_memory s) ws' -> producer_ended pc' = 0%nat ->
  stores pc' (length (t_stamps s)) = stores (t_producer s) (length (t_stamps s)) ->
  memory_ok tags (passed (t_waiter s)) (stores (t_producer s) (length (t_stamps s))) (t_stamps s)
    (waiter_count (t_waiter s) + producer_count pc' + victim_count (t_victim s))
    (waiter_ended (t_waiter s) + producer_ended (t_producer s) + victim_ended (t_victim s) + controller_ended (t_controller s)) ws' ->
  producer_ended (t_producer s) = 0%nat ->
  acks ws' = acks (t_memory s) ->
  producer_ok (passed (t_waiter s)) (length (t_stamps s)) (acks (t_memory s)) pc' v' (t_sequence s) ->
  inv tags (set_producer s ws' pc' v').
Proof.
  intros I Hg He Hst M' He' Ha Hok. pose proof (inv_progress _ _ I) as (_ & ? & _ & ?).
  rewrite <- (app_nil_r tags). apply (producer_moves tags [] s ws' pc' v' (t_sequence s) (t_stamps s));
    rewrite ?app_nil_r, ?Hst, ?He; try done; [by rewrite <- He'|lia].
Qed.
(** A step that writes nothing. *)
Lemma producer_reads tags s pc' v' q' :
  inv tags s -> stores pc' (length (t_stamps s)) = stores (t_producer s) (length (t_stamps s)) ->
  producer_count (t_producer s) <= producer_count pc' -> producer_ended pc' = 0%nat -> producer_ended (t_producer s) = 0%nat ->
  producer_ok (passed (t_waiter s)) (length (t_stamps s)) (acks (t_memory s)) pc' v' q' ->
  inv tags (with_producer s (t_memory s) pc' v' q' (t_stamps s)).
Proof.
  intros I Hst Hc He He' Hok. rewrite <- (app_nil_r tags). pose proof (inv_progress _ _ I) as (_ & ? & _ & ?).
  apply producer_moves; rewrite ?app_nil_r, ?Hst, ?He; try done; [|lia].
  eapply memory_mono; [apply I|done|done|lia|lia].
Qed.

(** The acknowledgment that lets the producer go on is that of its last send. *)
Lemma read_ack ws sent i v x v' : ack_ok (ws Acknowledged) -> (acks ws <= sent)%nat -> (sent <= S (v Acknowledged))%nat ->
  read Acquire Acknowledged i ws v = Some (x, v') -> x = nth_value sent -> (sent <= acks ws)%nat /\ (sent <= v' Acknowledged)%nat.
Proof.
  intros [_ Ha] Hacks Hv Hr Hx. pose proof (read_grows _ _ _ _ _ _ _ Hr) as [_ Hi']. apply read_some in Hr as (m & Hi & Hm & -> & _).
  pose proof (lookup_lt_Some _ _ _ Hm) as Hlt. rewrite (Ha i m Hm) in Hx. unfold acks in *.
  assert (i = sent \/ sent = S i) as [->| ->] by lia; [lia|]. symmetry in Hx. by apply next_value in Hx.
Qed.

(** The phases of the producer *)
Inductive producer_phase := Starting | Waiting | Pausing | Sending.
Definition phase (pc : producer_pc) : producer_phase :=
  match pc with
  | P_start | P_abort _ | P_ready | P_go => Starting
  | P_loop | P_ack | P_ack_stop | P_stop => Waiting
  | P_gap | P_gap_stop | P_stamp => Pausing
  | P_sent _ | P_generation | P_end_stop | P_end_generation | P_done | P_failed => Sending
  end.
Ltac producer_cases s c I Hphase Hstep :=
  pose proof (inv_memory _ _ I) as M; pose proof (inv_producer _ _ I) as Pr;
  pose proof (inv_progress _ _ I) as (Hn & Hsent & Hack & Hpast); unfold producer_step in Hstep;
  destruct (t_producer s) as [|a| | | | | | | | | |x| | | | |] eqn:Epc; try discriminate Hphase; clear Hphase;
  destruct c; try discriminate Hstep; destruct Pr as [Hview Pr]; cbn [stores] in *.
Section producer_steps.
Variables (u : setup) (tags : list (option nat)).
Lemma producer_starting c s s' : inv tags s -> phase (t_producer s) = Starting -> producer_step u c s = Some s' -> exists tags', inv tags' s'.
Proof.
  intros I Hphase Hstep. producer_cases s c I Hphase Hstep.
  - (* pin_current *) injection Hstep as <-. exists tags. destruct ok; apply producer_reads; rewrite ?Epc; try done; (split; [done|]); done.
  - (* abort_startup *) aborted_step Hstep ws' v' rest E.
    destruct (memory_abort _ _ _ _ _ _ _ _ M _ _ _ _ E) as (ext & Hext & M' & Hk & Ha & Hva); [by destruct a|]. exists (tags ++ ext).
    destruct rest as [[]|]; apply producer_moves; rewrite ?Epc, ?Ha; eauto; try done; try (split; [by rewrite Hva|done]);
      [cbn; lia..| |].
    { eapply memory_mono; [exact M'|done..|cbn; lia]. }
    intros _. by rewrite Hext, last_snoc.
  - (* ready *) add_step Hstep ws' v' E. exists tags.
    destruct (memory_add_ready _ _ _ _ _ _ _ _ M _ _ E) as (M' & Hv & Ha).
    apply producer_writes; rewrite ?Epc; eauto; [|split; [by rewrite Hv|done]].
    eapply memory_mono; [exact M'|done..|cbn [producer_count]; lia|done].
  - (* go *) load_step Hstep x v' E. exists tags.
    pose proof (read_grows _ _ _ _ _ _ _ E) as [Hg _]. pose proof (Hg Acknowledged).
    pose proof (read_go _ _ _ _ _ _ (mo_go _ _ _ _ _ _ _ M) E) as Hgo.
    destruct (is_set x); apply producer_reads; rewrite ?Epc; try done; (split; [lia|]); auto.
Qed.
Lemma producer_waiting c s s' : inv tags s -> phase (t_producer s) = Waiting -> producer_step u c s = Some s' -> exists tags', inv tags' s'.
Proof.
  intros I Hphase Hstep. producer_cases s c I Hphase Hstep.
  - (* loop *) load_step Hstep x v' E. exists tags.
    pose proof (read_grows _ _ _ _ _ _ _ E) as [Hg _]. pose proof (Hg Acknowledged). destruct Pr as [Hq Hk].
    destruct (is_set x); apply producer_reads; rewrite ?Epc; try done; (split; [lia|]); [done|].
    split; [done|]. destruct Hk; eauto using knows_stop_mono.
  - (* acknowledged *) load_step Hstep x v' E. exists tags.
    pose proof (read_grows _ _ _ _ _ _ _ E) as [Hg _]. pose proof (Hg Acknowledged). destruct Pr as [Hq Hk].
    assert (Hk' : knows_stop v' \/ passed (t_waiter s)) by (destruct Hk; eauto using knows_stop_mono).
    destruct (Z.eqb_spec x (t_sequence s)) as [Hx|Hx]; apply producer_reads; rewrite ?Epc; try done; (split; [lia|]); [|done].
    split; [done|]. split; [done|]. right. eapply read_ack; [apply (mo_ack _ _ _ _ _ _ _ M)|lia|exact Hview|exact E|congruence].
  - (* stop, while waiting *) load_step Hstep x v' E. exists tags.
    pose proof (read_grows _ _ _ _ _ _ _ E) as [Hg _]. pose proof (Hg Acknowledged). destruct Pr as [Hq Hk].
    pose proof (read_stop _ _ _ _ _ (mo_stop _ _ _ _ _ _ _ M) E) as Hs.
    destruct (is_set x); apply producer_reads; rewrite ?Epc; try done; (split; [lia|]); [auto|].
    split; [done|]. destruct Hk; [done|by right].
  - (* stop, after the wait *) load_step Hstep x v' E. exists tags.
    pose proof (read_grows _ _ _ _ _ _ _ E) as [Hg _]. pose proof (Hg Acknowledged). destruct Pr as (Hq & Hk & Ha).
    pose proof (read_stop _ _ _ _ _ (mo_stop _ _ _ _ _ _ _ M) E) as Hs.
    destruct (is_set x); [apply producer_reads; rewrite ?Epc; try done; split; [lia|done]|].
    destruct Hk as [|Hp]; [done|]. destruct Ha as [|[Ha Hva]]; [done|].
    destruct (su_bursty u); apply producer_reads; rewrite ?Epc; try done; (split; [lia|]); (split; [done|]).
    + split; [by right|]. right. split; [done|lia].
    + split; [done|]. split; [done|lia].
Qed.
Lemma producer_pausing c s s' : inv tags s -> phase (t_producer s) = Pausing -> producer_step u c s = Some s' -> exists tags', inv tags' s'.
Proof.
  intros I Hphase Hstep. producer_cases s c I Hphase Hstep.
  - (* the gap *) load_step Hstep x v' E. exists tags.
    pose proof (read_grows _ _ _ _ _ _ _ E) as [Hg _]. pose proof (Hg Acknowledged). destruct Pr as (Hq & Hk & Ha).
    assert (Hok : producer_ok (passed (t_waiter s)) (length (t_stamps s)) (acks (t_memory s)) P_gap v' (t_sequence s)).
    { split; [lia|]. split; [done|]. split; [destruct Hk; eauto using knows_stop_mono|].
      destruct Ha as [?|[? ?]]; [eauto using knows_stop_mono|right; split; [done|lia]]. }
    destruct (is_set x); apply producer_reads; rewrite ?Epc; try done.
  - (* the gap's end *) destruct yes; [|discriminate]. injection Hstep as <-. exists tags.
    apply producer_reads; rewrite ?Epc; try done.
  - (* stop, after the gap *) load_step Hstep x v' E. exists tags.
    pose proof (read_grows _ _ _ _ _ _ _ E) as [Hg _]. pose proof (Hg Acknowledged). destruct Pr as (Hq & Hk & Ha).
    pose proof (read_stop _ _ _ _ _ (mo_stop _ _ _ _ _ _ _ M) E) as Hs.
    destruct (is_set x); apply producer_reads; rewrite ?Epc; try done; (split; [lia|]); [done|].
    destruct Hk as [|Hp]; [done|]. destruct Ha as [|[Ha Hva]]; [done|]. split; [done|]. split; [done|]. split; [done|lia].
  - (* the stamp *) injection Hstep as <-. exists tags. destruct Pr as (Hq & Hp & Ha & Hva).
    destruct migrated; apply (producer_reads tags s); rewrite ?Epc; try done. split; [exact Hview|].
    split; [by rewrite Hq, succ_value|done].
Qed.
Lemma producer_sending c s s' : inv tags s -> phase (t_producer s) = Sending -> producer_step u c s = Some s' -> exists tags', inv tags' s'.
Proof.
  intros I Hphase Hstep. producer_cases s c I Hphase Hstep.
  - (* send *) store_step Hstep ws' v' E. exists (tags ++ []).
    destruct Pr as (Hq & Hp & Ha & Hva). destruct (memory_sent _ _ _ _ _ _ _ _ M _ _ _ E) as (M' & Hvs & Hv & Hacks).
    assert (Hlen : length (t_stamps s ++ [x]) = S (length (t_stamps s))) by (rewrite length_app; cbn; lia).
    change (inv (tags ++ []) (with_producer s ws' P_generation v' (t_sequence s) (t_stamps s ++ [x]))).
    apply producer_moves; rewrite ?Epc, ?app_nil_r, ?Hlen; try done.
    + by exists [x].
    + by eapply write_extends.
    + lia.
    + by left.
    + split; [rewrite Hv by done; lia|]. split; [done|]. split; [done|]. split; [by rewrite Hvs|lia].
    + cbn. lia.
  - (* the generation *) store_step Hstep ws' v' E.
    destruct Pr as (Hq & Hp & Hvs & Hone). rewrite Hq in E.
    assert (HS : length (t_stamps s) = S (pred (length (t_stamps s)))) by lia. rewrite HS in E.
    destruct (memory_store _ _ _ _ _ _ _ _ M _ _ E) as (M' & Hv & Hacks); [lia|]. rewrite <- HS in M'.
    exists (tags ++ [Some (length (t_stamps s))]). apply producer_moves; rewrite ?Epc; try done.
    + by eapply write_extends.
    + cbn [stores]. lia.
    + split; [rewrite Hv by done; lia|]. split; [done|by right].
    + cbn. lia.
  - (* the end *) store_step Hstep ws' v' E. exists tags.
    destruct (memory_stop _ _ _ _ _ _ _ _ M _ _ E) as (M' & Hk & Ha).
    apply producer_writes; rewrite ?Epc; eauto; try done. split; [|done].
    by rewrite (write_view _ _ _ _ _ _ _ E Acknowledged).
  - (* the last increment *) add_step Hstep ws' v' E.
    destruct (memory_add_generation _ _ _ _ _ _ _ _ M _ _ E Pr) as (M' & Hk & Ha). exists (tags ++ [None]).
    apply producer_moves; rewrite ?Epc; eauto;
      [eapply memory_mono; [exact M'|done..|cbn; lia]|split; [|done]|intros _; by rewrite last_snoc].
    by rewrite (fetch_add_view _ _ _ _ _ _ E Acknowledged).
Qed.
End producer_steps.
Lemma producer_step_inv u c s s' tags : inv tags s -> producer_step u c s = Some s' -> exists tags', inv tags' s'.
Proof.
  intros I. destruct (phase (t_producer s)) eqn:E; [by eapply producer_starting|by eapply producer_waiting|by eapply producer_pausing|by eapply producer_sending].
Qed.

(** ** The victim's and the controller's steps *)

Lemma victim_moves tags ext s ws' pc' v' :
  inv tags s -> ext = [] \/ ext = [None] -> grows (t_memory s) ws' ->
  memory_ok (tags ++ ext) (passed (t_waiter s)) (stores (t_producer s) (length (t_stamps s))) (t_stamps s)
    (waiter_count (t_waiter s) + producer_count (t_producer s) + victim_count pc')
    (waiter_ended (t_waiter s) + producer_ended (t_producer s) + victim_ended pc' + controller_ended (t_controller s)) ws' ->
  acks ws' = acks (t_memory s) -> victim_ok pc' v' -> inv (tags ++ ext) (set_victim s ws' pc' v').
Proof.
  intros [] He Hg Hm Ha Hv. split; cbn [set_victim t_memory t_waiter t_waiter_view t_producer t_producer_view t_sequence
    t_victim t_victim_view t_controller t_controller_view t_samples t_stamps]; rewrite ?Ha; try done.
  - by apply waiter_ok_app.
  - by eapply controller_ok_mono; [|apply Hg|apply Hg|].
  - intros Hpe. apply last_none; auto.
Qed.
Lemma victim_writes tags s ws' pc' v' :
  inv tags s -> grows (t_memory s) ws' ->
  memory_ok tags (passed (t_waiter s)) (stores (t_producer s) (length (t_stamps s))) (t_stamps s)
    (waiter_count (t_waiter s) + producer_count (t_producer s) + victim_count pc')
    (waiter_ended (t_waiter s) + producer_ended (t_producer s) + victim_ended pc' + controller_ended (t_controller s)) ws' ->
  acks ws' = acks (t_memory s) -> victim_ok pc' v' -> inv tags (set_victim s ws' pc' v').
Proof. intros I. pose proof (victim_moves tags [] s ws' pc' v' I) as H. rewrite app_nil_r in H. apply H. by left. Qed.
Lemma victim_reads tags s pc' v' :
  inv tags s -> victim_count (t_victim s) <= victim_count pc' -> (victim_ended (t_victim s) <= victim_ended pc')%nat ->
  victim_ok pc' v' -> inv tags (set_victim s (t_memory s) pc' v').
Proof.
  intros I Hc He Hv. apply victim_writes; try done. eapply memory_mono; [apply I|done|done|lia|lia].
Qed.

Lemma victim_step_inv c s s' tags : inv tags s -> victim_step c s = Some s' -> exists tags', inv tags' s'.
Proof.
  intros I Hstep. pose proof (inv_memory _ _ I) as M. pose proof (inv_victim _ _ I) as V. unfold victim_step in Hstep.
  destruct (t_victim s) as [|a| | | | |] eqn:Epc; destruct c; try discriminate Hstep; cbn [victim_ok] in V.
  - (* pin_current *) injection Hstep as <-. exists tags. destruct ok; apply victim_reads; rewrite ?Epc; done.
  - (* abort_startup *) aborted_step Hstep ws' v' rest E.
    destruct (memory_abort _ _ _ _ _ _ _ _ M _ _ _ _ E) as (ext & Hext & M' & Hk & Ha & _); [by destruct a|]. exists (tags ++ ext).
    assert (ext = [] \/ ext = [None]) by (destruct rest; auto).
    destruct rest as [[]|]; apply victim_moves; rewrite ?Epc, ?Ha; eauto; try done.
    eapply memory_mono; [exact M'|done..|cbn; lia].
  - (* ready *) add_step Hstep ws' v' E. exists tags.
    destruct (memory_add_ready _ _ _ _ _ _ _ _ M _ _ E) as (M' & Hv & Ha).
    apply victim_writes; rewrite ?Epc; eauto. eapply memory_mono; [exact M'|done..|cbn [victim_count]; lia|done].
  - (* go *) load_step Hstep x v' E. exists tags.
    destruct (is_set x); apply victim_reads; rewrite ?Epc; done.
  - (* stop *) load_step Hstep x v' E. exists tags.
    destruct (is_set x); apply victim_reads; rewrite ?Epc; done.
  - (* a chunk *) destruct ok; [discriminate|]. injection Hstep as <-. exists tags.
    apply victim_reads; rewrite ?Epc; try done. cbn. lia.
Qed.

Lemma controller_moves tags ext s ws' pc' v' :
  inv tags s -> ext = [] \/ ext = [None] -> grows (t_memory s) ws' ->
  memory_ok (tags ++ ext) (passed (t_waiter s)) (stores (t_producer s) (length (t_stamps s))) (t_stamps s)
    (waiter_count (t_waiter s) + producer_count (t_producer s) + victim_count (t_victim s))
    (waiter_ended (t_waiter s) + producer_ended (t_producer s) + victim_ended (t_victim s) + controller_ended pc') ws' ->
  acks ws' = acks (t_memory s) -> controller_ok (passed (t_waiter s)) (length (ws' Stop)) (length (ws' Go)) pc' v' ->
  inv (tags ++ ext) (set_controller s ws' pc' v').
Proof.
  intros [] He Hg Hm Ha Hv. split; cbn [set_controller t_memory t_waiter t_waiter_view t_producer t_producer_view t_sequence
    t_victim t_victim_view t_controller t_controller_view t_samples t_stamps]; rewrite ?Ha; try done.
  - by apply waiter_ok_app.
  - intros Hpe. apply last_none; auto.
Qed.
Lemma controller_writes tags s ws' pc' v' :
  inv tags s -> grows (t_memory s) ws' -> (controller_ended (t_controller s) <= controller_ended pc')%nat ->
  memory_ok tags (passed (t_waiter s)) (stores (t_producer s) (length (t_stamps s))) (t_stamps s)
    (waiter_count (t_waiter s) + producer_count (t_producer s) + victim_count (t_victim s))
    (waiter_ended (t_waiter s) + producer_ended (t_producer s) + victim_ended (t_victim s) + controller_ended (t_controller s)) ws' ->
  acks ws' = acks (t_memory s) -> controller_ok (passed (t_waiter s)) (length (ws' Stop)) (length (ws' Go)) pc' v' ->
  inv tags (set_controller s ws' pc' v').
Proof.
  intros I Hg He M. pose proof (controller_moves tags [] s ws' pc' v' I) as H. rewrite app_nil_r in H. apply H; [by left|done|].
  eapply memory_mono; [exact M|done..|lia].
Qed.
Lemma stop_two ws i v x v' : stop_ok (ws Stop) -> read Acquire Stop i ws v = Some (x, v') -> is_set x = true ->
  (2 <= length (ws Stop))%nat.
Proof.
  intros [_ Hs] Hr Hx. apply read_some in Hr as (m & _ & Hm & -> & _). pose proof (lookup_lt_Some _ _ _ Hm) as Hlt.
  destruct (Hs i m Hm) as [[-> H0]|[H1 _]]; [by rewrite H0 in Hx|lia].
Qed.
(** All three have announced themselves, the waiter among them. *)
Lemma read_ready pw pp pv ws i v x v' : ready_ok (waiter_count pw + producer_count pp + victim_count pv) (ws Ready) ->
  read Acquire Ready i ws v = Some (x, v') -> x = 3 -> passed pw.
Proof.
  intros Hr (m & _ & Hm & -> & _)%read_some Hx. specialize (Hr m (list_elem_of_lookup_2 _ _ _ Hm)). rewrite Hx in Hr.
  assert (producer_count pp <= 1) by (by destruct pp). assert (victim_count pv <= 1) by (by destruct pv).
  destruct pw; cbn [waiter_count passed] in *; try done; lia.
Qed.

Lemma controller_step_inv c s s' tags : inv tags s -> controller_step c s = Some s' -> exists tags', inv tags' s'.
Proof.
  intros I Hstep. pose proof (inv_memory _ _ I) as M. pose proof (inv_controller _ _ I) as C. unfold controller_step in Hstep.
  assert (Hgo2 : go_ok (passed (t_waiter s)) (t_memory s Go)) by apply M.
  destruct (t_controller s) as [| |a| | | | | |] eqn:Epc; destruct c; try discriminate Hstep; cbn [controller_ok] in C.
  - (* ready *) load_step Hstep x v' E. exists tags.
    destruct (Z.eqb_spec x 3) as [Hx|Hx]; apply controller_writes; rewrite ?Epc; try done.
    eapply read_ready; [apply M|exact E|done].
  - (* stop *) load_step Hstep x v' E. exists tags.
    pose proof (read_stop _ _ _ _ _ (mo_stop _ _ _ _ _ _ _ M) E) as Hk. pose proof (stop_two _ _ _ _ _ (mo_stop _ _ _ _ _ _ _ M) E) as H2.
    destruct (is_set x); [|destruct timeout]; apply controller_writes; rewrite ?Epc; try done. split; auto.
  - (* abort_startup *) aborted_step Hstep ws' v' rest E.
    destruct (memory_abort _ _ _ _ _ _ _ _ M _ _ _ _ E) as (ext & Hext & M' & Hk & Ha & _).
    { destruct a; [done|apply C..]. }
    exists (tags ++ ext). assert (He : ext = [] \/ ext = [None]) by (destruct rest; auto).
    pose proof (abort_extends _ _ _ _ _ _ E) as Hg. pose proof (Hg Stop). pose proof (Hg Go).
    destruct a; cbn [abort_step] in E.
    + destruct (write _ _ _ _ _) as [w1 v1] eqn:Ew. injection E as -> -> <-. pose proof (write_length _ _ _ _ _ _ _ Ew).
      apply controller_moves; rewrite ?Epc; try done. split; [done|]. destruct M as [[Hne _] _ _ _ _ _ _ _ _].
      destruct (t_memory s Stop); [done|cbn in *; lia].
    + destruct (write _ _ _ _ _) as [w1 v1] eqn:Ew. injection E as -> -> <-. pose proof (write_length _ _ _ _ _ _ _ Ew).
      destruct Hgo2 as [Hne _]. destruct (t_memory s Go); [done|]. cbn [length] in *.
      apply controller_moves; rewrite ?Epc; try done. split; [done|]. split; lia.
    + destruct (fetch_add _ _ _ _) as [[w1 v1]|] eqn:Ew; [|discriminate]. injection E as -> -> <-.
      apply controller_moves; rewrite ?Epc; try done; [|cbn; lia].
      eapply memory_mono; [exact M'|done..|cbn; lia].
  - (* go, after a failure *) store_step Hstep ws' v' E. exists tags.
    destruct (memory_go _ _ _ _ _ _ _ _ M _ _ E) as (M' & Hk & Ha); [left; apply C|].
    pose proof (write_extends _ _ _ _ _ _ _ E) as Hg. pose proof (Hg Stop). pose proof (write_length _ _ _ _ _ _ _ E).
    destruct Hgo2 as [Hne _]. destruct (t_memory s Go); [done|]. cbn [length] in *.
    apply controller_writes; rewrite ?Epc; try done; [cbn; lia|]. split; lia.
  - (* go *) store_step Hstep ws' v' E. exists tags.
    destruct (memory_go _ _ _ _ _ _ _ _ M _ _ E) as (M' & Hk & Ha); [by right|].
    pose proof (write_extends _ _ _ _ _ _ _ E) as Hg. pose proof (write_length _ _ _ _ _ _ _ E).
    destruct Hgo2 as [Hne _]. destruct (t_memory s Go); [done|]. cbn [length] in *.
    apply controller_writes; rewrite ?Epc; try done. cbn. lia.
  - (* the delay *) destruct yes; [|discriminate]. injection Hstep as <-. exists tags.
    apply controller_writes; rewrite ?Epc; done.
  - (* stop *) store_step Hstep ws' v' E. exists tags.
    destruct (memory_stop _ _ _ _ _ _ _ _ M _ _ E) as (M' & Hk & Ha).
    pose proof (write_extends _ _ _ _ _ _ _ E) as Hg. pose proof (Hg Go). pose proof (write_length _ _ _ _ _ _ _ E).
    destruct M as [[Hne _] _ _ _ _ _ _ _ _]. destruct (t_memory s Stop); [done|]. cbn [length] in *.
    apply controller_writes; rewrite ?Epc; try done. split; lia.
Qed.

(** ** Every reachable state *)

Lemma trial_step_inv u e s s' tags : inv tags s -> trial_step u e s = Some s' -> exists tags', inv tags' s'.
Proof.
  destruct e; cbn [trial_step]; eauto using waiter_step_inv, producer_step_inv, victim_step_inv, controller_step_inv.
Qed.
Lemma trial_start_inv : inv [Some 0%nat] trial_start.
Proof.
  split; cbn; try done; [|by repeat split; auto|split; [lia|done]|lia].
  split; cbn.
  - split; [done|]. intros i m Hm. destruct i as [|i]; [injection Hm as <-; by left|by destruct i].
  - split; [done|]. intros [|i] m Hm; [injection Hm as <-; by left|by destruct i].
  - repeat constructor; cbn; lia.
  - split; [done|]. intros [|i] [|j] a b Hij Ha Hb; try lia; by destruct j.
  - done.
  - split; [done|]. intros [|j] m Hm; [by injection Hm as <-|by destruct j].
  - by intros m ->%list_elem_of_singleton.
  - intros i m m' _ Hm'. by destruct i.
  - cbn. lia.
Qed.
Lemma reachable_inv u s : reachable u s -> exists tags, inv tags s.
Proof.
  intros [es Hrun]. assert (H : exists tags, inv tags trial_start) by (eexists; exact trial_start_inv).
  revert Hrun H. generalize trial_start. induction es as [|e es IH]; intros s0; cbn [trial_run]; [by intros [= ->]|].
  destruct (trial_step u e s0) as [s1|] eqn:E; [|done]. intros Hrun [tags Ht]. apply (IH s1 Hrun).
  by eapply trial_step_inv.
Qed.

(** ** The newest generation *)

Lemma far_value n r : (1 <= r <= 5)%nat -> nth_value (n + r) <> nth_value n.
Proof. unfold nth_value, wrap64. rewrite Nat2Z.inj_add. intros Hr Heq. Z.div_mod_to_equations. lia. Qed.

Lemma nones_take_S tags i t : tags !! i = Some t -> nones (take (S i) tags) = (nones (take i tags) + nones [t])%nat.
Proof. intros Ht. by rewrite (take_S_r _ _ _ Ht), nones_app. Qed.

(** From the store the waiter has seen, the generation has moved at most once by a store and once for each increment. *)
Lemma generation_after tags a l n i0 i m :
  tags_ok tags -> gen_ok tags a l -> values_ok tags l -> (a <= S n)%nat -> tags !! i0 = Some (Some n) ->
  (i0 <= i)%nat -> l !! i = Some m ->
  exists r, m_val m = nth_value (n + r) /\ (r <= 1 + nones (take (S i) tags))%nat /\ (tags !! i = Some None -> (1 <= r)%nat).
Proof.
  intros [_ Hinc] Hg Hv Ha Ht0 Hi Hm. revert m Hm. induction Hi as [|i Hi IH]; intros m Hm.
  - exists 0%nat. destruct (Forall2_lookup_l _ _ _ _ _ Hg Ht0) as (m' & Hm' & Hok & _). simplify_eq.
    rewrite Nat.add_0_r. split; [done|]. split; [lia|]. intros [=]. congruence.
  - destruct (Forall2_lookup_r _ _ _ _ _ Hg Hm) as (t & Ht & Hok). destruct t as [k|].
    + exists 1%nat. pose proof (Hinc i0 (S i) n k ltac:(lia) Ht0 Ht). destruct Hok as (-> & _ & Hk).
      replace (n + 1)%nat with k by lia. split; [done|]. split; [lia|done].
    + destruct (lookup_lt_is_Some_2 l i) as [m0 Hm0]; [apply lookup_lt_Some in Hm; lia|].
      destruct (IH m0 Hm0) as (r & Hr & Hle & _). exists (S r).
      rewrite (Hv _ _ _ Hm0 Hm Ht), Hr, succ_value, Nat.add_succ_r. split; [done|]. split; [|lia].
      rewrite (nones_take_S _ _ _ Ht). cbn. lia.
Qed.
Lemma nones_take tags i : (nones (take i tags) <= nones tags)%nat.
Proof. rewrite <- (take_drop i tags) at 2. rewrite nones_app. lia. Qed.

(** Once the producer has ended, the waiter's next look at the generation releases it. *)
Lemma waiter_released tags s o : inv tags s -> (1 <= producer_ended (t_producer s))%nat -> t_waiter s = W_wait o ->
  exists m, last (t_memory s Generation) = Some m /\ m_val m <> o /\ knows_stop (m_view m).
Proof.
  intros [M _ (_ & Hsent & _) W _ _ _ E] Hp Hw. rewrite Hw in W. destruct W as (-> & (i0 & _ & Ht0) & Ha).
  specialize (E Hp). rewrite last_lookup in E. pose proof (mo_gen _ _ _ _ _ _ _ M) as Hg.
  destruct (Forall2_lookup_l _ _ _ _ _ Hg E) as (m & Hm & Hok). pose proof (Forall2_length _ _ _ Hg) as Hlen.
  exists m. rewrite last_lookup, <- Hlen. split; [done|]. split; [|exact Hok].
  destruct (generation_after tags _ _ (length (t_samples s)) i0 (pred (length tags)) m
    (mo_tags _ _ _ _ _ _ _ M) Hg (mo_values _ _ _ _ _ _ _ M)) as (r & Hr & Hle & H1); [|done| |done|].
  - pose proof (stores_below (t_producer s) (length (t_stamps s))). lia.
  - apply lookup_lt_Some in Ht0. lia.
  - rewrite Hr. apply far_value. split; [auto|]. pose proof (nones_take tags (S (pred (length tags)))).
    pose proof (mo_nones _ _ _ _ _ _ _ M) as Hn. rewrite Hw in Hn. cbn [waiter_ended] in Hn.
    assert (producer_ended (t_producer s) <= 1)%nat by (destruct (t_producer s); cbn; lia).
    assert (victim_ended (t_victim s) <= 1)%nat by (destruct (t_victim s); cbn; lia).
    assert (controller_ended (t_controller s) <= 1)%nat by (destruct (t_controller s); cbn; lia). lia.
Qed.
Lemma newest_set (l : list message) : l <> [] -> (forall i m, l !! i = Some m -> (1 <= i)%nat -> m_val m = 1) -> (2 <= length l)%nat ->
  exists m, last l = Some m /\ m_val m = 1.
Proof.
  intros Hne Hl Hlen. destruct (last l) as [m|] eqn:E; [|by apply last_None in E]. exists m. split; [done|].
  rewrite last_lookup in E. eapply Hl; [exact E|lia].
Qed.

(** ** The properties *)

(** C19: A trial measures every wake once. Whatever the interleaving, the messages the loads return and the failures
    at startup, the waiter's [k]th sample shows the [k]th generation and carries the time stamp the producer took for it
    (no send is missed, measured twice, or paired with another send's stamp), and the producer is never more than one
    send ahead. *)
Theorem samples_are_sends (u : setup) (s : trial) : reachable u s ->
  (forall k x, t_samples s !! k = Some x -> sa_observed x = nth_value (S k) /\ t_stamps s !! k = Some (sa_sent x)) /\
  (length (t_samples s) <= length (t_stamps s) <= S (length (t_samples s)))%nat.
Proof.
  intros (tags & [M S (Hn & Hsent & Hack & _) _ _ _ _ _])%reachable_inv. split; [exact S|].
  pose proof (stores_below (t_producer s) (length (t_stamps s))). lia.
Qed.

(** Two sends, each taken by the waiter. *)
Definition parker_trial : setup := mkSetup true false 7 0 10.
Definition startup_events : list event :=
  [Waiter (Pinned true); Waiter (Reads 0); Waiter Runs; Producer (Pinned true); Producer Runs; Victim (Pinned true); Victim Runs;
   Controller (Reads 3); Controller Runs; Waiter (Reads 1); Waiter (Reads 0); Producer (Reads 1)].
Definition send_events (k : nat) (stamp : Z) : list event :=
  [Producer (Reads 0); Producer (Reads k); Producer (Reads 0); Producer (Stamped stamp false); Producer Runs; Producer Runs].
Definition sample_events (k : nat) (received : Z) : list event :=
  [Waiter (Reads k); Waiter (Reads k); Waiter (Reads 0); Waiter (Sampled k received 7); Waiter Runs].
Definition two_sends : list event :=
  startup_events ++ send_events 0 100 ++ sample_events 1 130 ++ send_events 1 200 ++ sample_events 2 250.

Lemma samples_are_sends_witness :
  exists s, reachable parker_trial s /\ length (t_samples s) = 2%nat /\ t_stamps s = [100; 200] /\
    forall k x, t_samples s !! k = Some x -> t_stamps s !! k = Some (sa_sent x).
Proof.
  destruct (trial_run parker_trial two_sends trial_start) as [s|] eqn:E; [|vm_compute in E; discriminate E].
  assert (Hr : reachable parker_trial s) by (exists two_sends; exact E).
  destruct (samples_are_sends parker_trial s Hr) as [Hs _]. exists s. split; [exact Hr|].
  assert (Hl : option_map (fun s => (length (t_samples s), t_stamps s)) (trial_run parker_trial two_sends trial_start) = Some (2%nat, [100; 200]))
    by (vm_compute; reflexivity).
  rewrite E in Hl. injection Hl as Hl Hst. split; [exact Hl|]. split; [exact Hst|]. intros k x Hk. apply (Hs k x Hk).
Defined.

(** C20: No thread of a trial is left behind. Once the controller has returned (in success, timeout or failure), the newest
    message of the go flag and of the stop flag is set, so that every thread that looks at them leaves its startup, its
    acknowledgment wait, its gap and its work; and once the producer has ended (even by a failure), a waiter that still
    waits finds a changed generation in the newest message and learns of the stop from it. *)
Theorem nobody_left_behind (u : setup) (s : trial) : reachable u s ->
  (t_controller s = C_done \/ t_controller s = C_failed ->
     (exists m, last (t_memory s Stop) = Some m /\ m_val m = 1) /\ (exists m, last (t_memory s Go) = Some m /\ m_val m = 1)) /\
  (t_producer s = P_done \/ t_producer s = P_failed -> forall o, t_waiter s = W_wait o ->
     exists m, last (t_memory s Generation) = Some m /\ m_val m <> o /\ knows_stop (m_view m)).
Proof.
  intros (tags & I)%reachable_inv. split.
  - intros Hc. pose proof (inv_controller _ _ I) as C. destruct (inv_memory _ _ I) as [[Hs Hs'] [Hg Hg'] _ _ _ _ _ _ _].
    assert (H2 : (2 <= length (t_memory s Stop))%nat /\ (2 <= length (t_memory s Go))%nat) by (destruct Hc as [Hc|Hc]; by rewrite Hc in C).
    split; apply newest_set; try tauto; intros i m Hm Hi.
    + destruct (Hs' i m Hm) as [[-> _]|[_ ?]]; [lia|done].
    + destruct (Hg' i m Hm) as [[-> _]|(_ & ? & _)]; [lia|done].
  - intros Hp o Hw. eapply waiter_released; [exact I| |exact Hw]. by destruct Hp as [->| ->].
Qed.

(** The trial is stopped; the producer ends while the waiter waits for the third send. *)
Definition stop_events : list event :=
  [Controller (Expired true); Controller Runs; Producer (Reads 1); Producer Runs; Producer Runs].
Lemma nobody_left_behind_witness :
  exists s m, reachable parker_trial s /\ t_waiter s = W_wait 2 /\
    last (t_memory s Generation) = Some m /\ m_val m <> 2 /\ knows_stop (m_view m).
Proof.
  destruct (trial_run parker_trial (two_sends ++ stop_events) trial_start) as [s|] eqn:E; [|vm_compute in E; discriminate E].
  assert (Hr : reachable parker_trial s) by (exists (two_sends ++ stop_events); exact E).
  destruct (nobody_left_behind parker_trial s Hr) as [_ Hw].
  assert (Hl : option_map (fun s => (t_waiter s, t_producer s)) (trial_run parker_trial (two_sends ++ stop_events) trial_start) = Some (W_wait 2, P_done))
    by (vm_compute; reflexivity).
  rewrite E in Hl. injection Hl as Hwait Hdone.
  destruct (Hw (or_introl Hdone) 2 Hwait) as (m & Hm & Hne & Hk). exists s, m. split; [exact Hr|]. split; [exact Hwait|]. split; [exact Hm|]. split; [exact Hne|exact Hk].
Defined.
