(* ===== verification/Output.v ===== *)
(** * Publishing the results (benches/support/output.rs)

    The benchmark writes its results to a partial file of a fresh name beside the final one and renames it when
    they are complete; dropping an unfinished output removes the partial file. The system calls are those
    of [BenchFs]. [BufWriter] may pass bytes on before it is flushed; they only reach the partial file,
    whose contents nothing reads before the rename, so the model writes them at the flush. *)

From stdpp Require Import pretty.
From S2P Require Import Prelude BenchFs.
Open Scope Z_scope.

#[export] Instance sys_ret : MRet sys := fun A x s => (Ok x, s).
#[export] Instance sys_bind : MBind sys := fun A B k m s =>
  match m s with
  | (Ok x, s') => k x s'
  | (Err e, s') => (Err e, s')
  end.
Definition sys_fail {A} (e : io_error) : sys A := fun s => (Err e, s).
Definition sys_try {A} (m : sys A) : sys (result A io_error) := fun s => let '(r, s') := m s in (Ok r, s').

(** ** Paths *)

Definition MAX_PARTIAL_PATH_ATTEMPTS : nat := 1024.

Definition components (p : rpath) : path := match p with Absolute l | Relative l => l end.
Definition like (p : rpath) (l : path) : rpath := match p with Absolute _ => Absolute l | Relative _ => Relative l end.
(** [Path::parent], with "." for a path that has none; "." is the empty relative path. *)
Definition output_parent (p : rpath) : rpath :=
  match components p with [] => Relative [] | l => like p (removelast l) end.
(** [Path::file_name] *)
Definition file_name (p : rpath) : option string :=
  match last (components p) with
  | Some c => if bool_decide (c = ".."%string) then None else Some c
  | None => None
  end.
Definition path_join (p : rpath) (c : string) : rpath := like p (components p ++ [c]).

Definition partial_name (name : string) (process_id partial_id : Z) : string :=
  "." +:+ name +:+ ".partial-" +:+ pretty process_id +:+ "-" +:+ pretty partial_id.
Definition partial_output_path (final_path : rpath) (process_id partial_id : Z) : result rpath io_error :=
  match file_name final_path with
  | None => Err InvalidInput
  | Some name => Ok (path_join (output_parent final_path) (partial_name name process_id partial_id))
  end.

(** ** System calls *)

Definition here (f : path -> sys unit) (p : rpath) : sys unit := fun s => f (at_cwd (pr_cwd (io_proc s)) p) s.

Definition sys_pid : sys Z := fun s => (Ok (pr_pid (io_proc s)), s).
(** fs::metadata, and opening a directory. *)
Definition sys_metadata (p : path) : sys unit :=
  syscall (fun s => (match stat (io_nodes s) p with Some _ => Ok tt | None => Err NotFound end, s)).
(** fsync *)
Definition sys_sync : sys unit := syscall (fun s => (Ok tt, s)).
(** O_CREAT | O_EXCL | O_WRONLY *)
Definition sys_create_new (p : path) : sys unit :=
  syscall (fun s =>
    match resolve_parent (io_nodes s) p with
    | None => (Err FilesystemLoop, s)
    | Some r =>
        match at_path (io_nodes s) r with
        | Some _ => (Err AlreadyExists, s)
        | None =>
            match at_path (io_nodes s) (removelast r) with
            | Some (Dir _ _) => (Ok tt, io_set (<[r := File EmptyString (pr_euid (io_proc s)) 420]> (io_nodes s)) s)
            | Some _ => (Err NotADirectory, s)
            | None => (Err NotFound, s)
            end
        end
    end).
(** Writing the open file of [p], which this process has created. *)
Definition sys_write_open (p : path) (c : string) : sys unit :=
  syscall (fun s =>
    match resolve_parent (io_nodes s) p with
    | Some r =>
        match at_path (io_nodes s) r with
        | Some (File _ uid mode) => (Ok tt, io_set (<[r := File c uid mode]> (io_nodes s)) s)
        | _ => (Ok tt, s)
        end
    | None => (Ok tt, s)
    end).
Definition sys_rename (from to : path) : sys unit :=
  syscall (fun s =>
    match resolve_parent (io_nodes s) from, resolve_parent (io_nodes s) to with
    | Some f, Some t =>
        match at_path (io_nodes s) f with
        | None => (Err NotFound, s)
        | Some n =>
            match at_path (io_nodes s) t, at_path (io_nodes s) (removelast t) with
            | Some (Dir _ _), _ => (Err IsADirectory, s)
            | _, Some (Dir _ _) => (Ok tt, io_set (<[t := n]> (delete f (io_nodes s))) s)
            | _, _ => (Err NotFound, s)
            end
        end
    | _, _ => (Err FilesystemLoop, s)
    end).

(** ** [AtomicOutput] *)

(** [ao_written] is all that has been written: in the file or still in the buffer. *)
Record AtomicOutput := mkOutput {
  ao_final_path : rpath;
  ao_partial_path : rpath;
  ao_written : string;
  ao_published : bool;
}.

(** The loop that collects the missing ancestors; [None] when the fuel is used up. *)
Fixpoint missing_parents (fuel : nat) (current : rpath) (missing : list rpath) : sys (option (list rpath)) :=
  match fuel with
  | O => mret None
  | S fuel =>
      r ← sys_try (here sys_metadata current);
      match r with
      | Ok _ => mret (Some missing)
      | Err NotFound => missing_parents fuel (output_parent current) (missing ++ [current])
      | Err e => sys_fail e
      end
  end.
Fixpoint sync_parents (missing : list rpath) : sys unit :=
  match missing with
  | [] => mret tt
  | directory :: missing => _ ← here sys_metadata (output_parent directory); _ ← sys_sync; sync_parents missing
  end.
Definition create_parent_durably (fuel : nat) (parent : rpath) : sys (option unit) :=
  missing ← missing_parents fuel parent [];
  match missing with
  | None => mret None
  | Some missing => _ ← here sys_create_dir_all parent; _ ← sync_parents missing; mret (Some tt)
  end.

(** The attempts from [offset] on. *)
Fixpoint reserve (final_path : rpath) (process_id first_id : Z) (offset : Z) (attempts : nat) : sys AtomicOutput :=
  match attempts with
  | O => sys_fail AlreadyExists
  | S attempts =>
      match partial_output_path final_path process_id ((first_id + offset) mod 2 ^ 64) with
      | Err e => sys_fail e
      | Ok partial_path =>
          r ← sys_try (here sys_create_new partial_path);
          match r with
          | Ok _ => mret (mkOutput final_path partial_path EmptyString false)
          | Err AlreadyExists => reserve final_path process_id first_id (offset + 1) attempts
          | Err e => sys_fail e
          end
      end
  end.
(** [first_id] is what [NEXT_PARTIAL_ID.fetch_add(1024)] returns. *)
Definition output_create (fuel : nat) (first_id : Z) (final_path : rpath) : sys (option AtomicOutput) :=
  r ← create_parent_durably fuel (output_parent final_path);
  match r with
  | None => mret None
  | Some _ =>
      process_id ← sys_pid;
      o ← reserve final_path process_id first_id 0 MAX_PARTIAL_PATH_ATTEMPTS;
      mret (Some o)
  end.

(** [write_all] on the output; a failure may have written a part of the bytes. *)
Definition output_write (o : AtomicOutput) (bytes : string) : sys AtomicOutput :=
  syscall (fun s => (Ok (mkOutput (ao_final_path o) (ao_partial_path o) (ao_written o +:+ bytes) (ao_published o)), s)).

(** [Drop::drop]; a failure other than NotFound only prints a line to standard error. *)
Definition output_drop (o : AtomicOutput) : sys unit :=
  if ao_published o then mret tt
  else _ ← sys_try (here sys_remove_file (ao_partial_path o)); mret tt.

(** [finish], which consumes the output: it is dropped at the end, or when a step fails. *)
Definition finish_publish (o : AtomicOutput) : sys unit :=
  _ ← here (fun p => sys_write_open p (ao_written o)) (ao_partial_path o);
  _ ← sys_sync;
  here (fun partial => here (sys_rename partial) (ao_final_path o)) (ao_partial_path o).
Definition output_finish (o : AtomicOutput) : sys unit :=
  r ← sys_try (finish_publish o);
  match r with
  | Err e => _ ← output_drop o; sys_fail e
  | Ok _ => _ ← here sys_metadata (output_parent (ao_final_path o)); sys_sync
  end.

(** The life of an output, as the benchmark uses it: created, written, and finished; an error on the way drops it. *)
Fixpoint output_writes (o : AtomicOutput) (chunks : list string) : sys AtomicOutput :=
  match chunks with
  | [] => mret o
  | c :: chunks => o ← output_write o c; output_writes o chunks
  end.
Definition publish (fuel : nat) (first_id : Z) (final_path : rpath) (chunks : list string) : sys (option unit) :=
  o ← output_create fuel first_id final_path;
  match o with
  | None => mret None
  | Some o =>
      r ← sys_try (output_writes o chunks);
      match r with
      | Err e => _ ← output_drop o; sys_fail e
      | Ok o => _ ← output_finish o; mret (Some tt)
      end
  end.

(** ** Lemmas *)

Definition swp {A} (m : sys A) (s : iost) (Q : result A io_error -> iost -> Prop) : Prop := Q (m s).1 (m s).2.

Lemma swp_bind {A B} (m : sys A) (k : A -> sys B) s Q :
  swp m s (fun r s' => match r with Ok v => swp (k v) s' Q | Err e => Q (Err e) s' end) -> swp (mbind k m) s Q.
Proof. unfold swp, mbind, sys_bind. by destruct (m s) as [[v|e] s']. Qed.
Lemma swp_try {A} (m : sys A) s (Q : result (result A io_error) io_error -> iost -> Prop) :
  swp m s (fun r s' => Q (Ok r) s') -> swp (sys_try m) s Q.
Proof. unfold swp, sys_try. by destruct (m s). Qed.
Lemma swp_mono {A} (m : sys A) s (Q Q' : result A io_error -> iost -> Prop) :
  swp m s Q -> (forall r s', Q r s' -> Q' r s') -> swp m s Q'.
Proof. unfold swp. auto. Qed.
Lemma swp_call {A} (f : iost -> result A io_error * iost) s (Q : result A io_error -> iost -> Prop) :
  (forall e, io_faults s (io_ops s) = Some e -> Q (Err e) (io_step s)) -> Q (f (io_step s)).1 (f (io_step s)).2 ->
  swp (syscall f) s Q.
Proof. intros Hf Hok. unfold swp, syscall. destruct (io_faults s (io_ops s)) eqn:E; [by apply Hf|done]. Qed.

Lemma swp_here (f : path -> sys unit) p s Q : swp (f (at_cwd (pr_cwd (io_proc s)) p)) s Q -> swp (here f p) s Q.
Proof. done. Qed.

(** A program that reads: the same files, and success when nothing fails. *)
Definition quiet {A} (m : sys A) (s : iost) (P : A -> Prop) : Prop :=
  swp m s (fun r s' => same s s' /\ (no_faults s -> exists x, r = Ok x /\ P x)).

Lemma quiet_stat p s : (exists n, stat (io_nodes s) p = Some n) -> quiet (sys_metadata p) s (fun _ => True).
Proof.
  intros [n Hn]. apply swp_call; [|cbn [io_nodes io_step fst snd]; rewrite Hn; split; [apply same_step|by eexists]].
  intros e He. split; [apply same_step|]. intros Hnf. by rewrite Hnf in He.
Qed.
Lemma quiet_sync s : quiet sys_sync s (fun _ => True).
Proof.
  apply swp_call; [|split; [apply same_step|by eexists]]. intros e He. split; [apply same_step|].
  intros Hnf. by rewrite Hnf in He.
Qed.
Lemma same_metadata p s : same s (sys_metadata p s).2.
Proof. unfold sys_metadata, syscall. destruct (io_faults s (io_ops s)); [|cbn [io_nodes io_step fst snd]; destruct (stat (io_nodes s) p)]; apply same_step. Qed.

Lemma at_cwd_join cwd p c : at_cwd cwd (path_join p c) = at_cwd cwd p ++ [c].
Proof. destruct p; cbn; [done|by rewrite app_assoc]. Qed.

Lemma missing_parents_same fuel p missing s : same s (missing_parents fuel p missing s).2.
Proof.
  revert p missing s. induction fuel as [|fuel IH]; intros p missing s; [apply same_refl|]. cbn [missing_parents].
  unfold mbind, sys_bind, sys_try, here. pose proof (same_metadata (at_cwd (pr_cwd (io_proc s)) p) s) as Hs.
  destruct (sys_metadata _ s) as [[x|e] s1]; [done|]. destruct e; try exact Hs. eapply same_trans; [exact Hs|apply IH].
Qed.
Lemma sync_parents_same missing s : same s (sync_parents missing s).2.
Proof.
  revert s. induction missing as [|p missing IH]; intros s; [apply same_refl|]. cbn [sync_parents].
  unfold mbind, sys_bind, here. pose proof (same_metadata (at_cwd (pr_cwd (io_proc s)) (output_parent p)) s) as Hs.
  destruct (sys_metadata _ s) as [[x|e] s1]; [|done]. pose proof (quiet_sync s1) as [Hs1 _].
  destruct (sys_sync s1) as [[]]; [|by eapply same_trans]. eapply same_trans; [exact Hs|]. eapply same_trans; [exact Hs1|apply IH].
Qed.

Section publishing.
Context (final_path : rpath) (name : string).
Hypothesis (Hname : file_name final_path = Some name).
Definition dir (s : iost) : path := at_cwd (pr_cwd (io_proc s)) (output_parent final_path).

Lemma final_at s : at_cwd (pr_cwd (io_proc s)) final_path = dir s ++ [name].
Proof.
  unfold dir. unfold file_name in Hname. destruct final_path as [l|l]; cbn [components] in Hname; destruct (last l) as [c|] eqn:E; try done;
    case_bool_decide; try done; injection Hname as ->; apply last_Some in E as [l' ->];
    unfold output_parent; cbn [components]; (destruct (l' ++ [name]) as [|x r] eqn:E; [by destruct l'|rewrite <- E; clear E x r]);
    cbn [like at_cwd]; rewrite removelast_last; [done|by rewrite app_assoc].
Qed.
Lemma same_dir s s' : kept s s' -> dir s' = dir s.
Proof. intros Hk. unfold dir. by rewrite (kept_proc _ _ Hk). Qed.

(** The directory exists: nothing is created. *)
Lemma parent_quiet fuel s : dir_path (io_nodes s) (dir s) ->
  swp (create_parent_durably fuel (output_parent final_path)) s (fun r s' => same s s' /\
    (no_faults s -> (1 <= fuel)%nat -> r = Ok (Some tt))).
Proof.
  intros Hd. unfold create_parent_durably. apply swp_bind.
  assert (Hm : swp (missing_parents fuel (output_parent final_path) []) s (fun r s' => same s s' /\
    (no_faults s -> (1 <= fuel)%nat -> r = Ok (Some [])))).
  { split; [apply missing_parents_same|]. intros Hnf Hf. destruct fuel as [|fuel]; [lia|]. cbn [missing_parents].
    destruct (stat_dir _ _ Hd) as (u & m & Hst). unfold mbind, sys_bind, sys_try, here, sys_metadata, syscall.
    rewrite Hnf by done. cbn [io_nodes io_step]. fold (dir s). by rewrite Hst. }
  eapply swp_mono; [exact Hm|]. intros [[missing|]|e] s1 [Hs1 Hr].
  2: { split; [done|]. intros Hnf Hf. by specialize (Hr Hnf Hf). }
  2: { split; [done|]. intros Hnf Hf. by specialize (Hr Hnf Hf). }
  apply swp_bind, swp_here. pose proof (kept_proc _ _ (proj1 Hs1)) as Hp1. apply swp_call.
  - intros e He. split; [eapply same_trans; [exact Hs1|apply same_step]|]. intros Hnf _. pose proof (no_faults_same _ _ Hs1 Hnf) as Hnf1.
    by rewrite Hnf1 in He.
  - cbn [io_nodes io_proc io_step fst snd]. rewrite Hp1, (proj2 Hs1). fold (dir s). rewrite mkdirs_noop by done.
    set (s2 := io_set _ (io_step s1)). assert (Hs2 : same s s2).
    { eapply same_trans; [exact Hs1|]. eapply same_trans; [apply same_step|]. split; [apply kept_set|]. cbn. by rewrite (proj2 Hs1). }
    cbn [fst snd]. apply swp_bind. unfold swp at 1. pose proof (sync_parents_same missing s2) as Hy.
    destruct (sync_parents missing s2) as [[[]|e] s3] eqn:E; cbn [fst snd] in *.
    + split; [by eapply same_trans|done].
    + split; [by eapply same_trans|]. intros Hnf Hf. specialize (Hr Hnf Hf). injection Hr as ->. discriminate E.
Qed.

(** Creating a fresh file in the directory. *)
Lemma create_new_spec c s : dir_path (io_nodes s) (dir s) ->
  swp (sys_create_new (dir s ++ [c])) s (fun r s' => kept s s' /\
    match r with
    | Ok _ => io_nodes s !! (dir s ++ [c]) = None /\
        io_nodes s' = <[dir s ++ [c] := File EmptyString (pr_euid (io_proc s)) 420]> (io_nodes s)
    | Err e => io_nodes s' = io_nodes s /\ (no_faults s -> e = AlreadyExists /\ is_Some (io_nodes s !! (dir s ++ [c])))
    end).
Proof.
  intros Hd. apply swp_call.
  - intros e He. split; [apply same_step|]. split; [done|]. intros Hnf. by rewrite Hnf in He.
  - cbn [io_nodes io_proc io_step fst snd]. rewrite resolve_parent_plain, at_path_snoc, removelast_last by (by apply dir_path_plain).
    destruct (io_nodes s !! (dir s ++ [c])) as [n|] eqn:E.
    + split; [apply same_step|]. split; [done|]. intros _. split; [done|by eexists].
    + destruct (at_path_dir _ _ Hd) as (u & m & ->). split; [eapply kept_trans; [apply same_step|apply kept_set]|done].
Qed.

Definition partial_at (s : iost) (id : Z) : path := dir s ++ [partial_name name (pr_pid (io_proc s)) id].
(** What a reserved output looks like. *)
Definition reserved (s s' : iost) (o : AtomicOutput) : Prop :=
  exists id, io_nodes s !! partial_at s id = None /\
    io_nodes s' = <[partial_at s id := File EmptyString (pr_euid (io_proc s)) 420]> (io_nodes s) /\
    o = mkOutput final_path (path_join (output_parent final_path) (partial_name name (pr_pid (io_proc s)) id)) EmptyString false.

Lemma reserve_spec first_id attempts offset s : dir_path (io_nodes s) (dir s) ->
  swp (reserve final_path (pr_pid (io_proc s)) first_id offset attempts) s (fun r s' => kept s s' /\
    match r with
    | Ok o => reserved s s' o
    | Err _ => io_nodes s' = io_nodes s /\ (no_faults s -> forall k, 0 <= k < Z.of_nat attempts ->
        is_Some (io_nodes s !! partial_at s ((first_id + (offset + k)) mod 2 ^ 64)))
    end).
Proof.
  revert offset s. induction attempts as [|attempts IH]; intros offset s Hd; cbn [reserve].
  { split; [apply kept_refl|]. split; [done|]. intros _ k. lia. }
  unfold partial_output_path. rewrite Hname. apply swp_bind, swp_try, swp_here. rewrite at_cwd_join. fold (dir s).
  eapply swp_mono; [by apply create_new_spec|]. intros [[]|e] s1 [Hk Hr].
  - destruct Hr as [Hfree Hn]. split; [done|]. eexists. split; [exact Hfree|]. split; [exact Hn|done].
  - destruct Hr as [Hn Hx]. destruct (decide (e = AlreadyExists)) as [->|Hne].
    + pose proof (same_dir s s1 Hk) as Hdir. pose proof (kept_proc _ _ Hk) as Hproc.
      specialize (IH (offset + 1) s1). rewrite Hdir, Hn, Hproc in IH. specialize (IH Hd).
      assert (Hat : forall id, partial_at s1 id = partial_at s id) by (intros id; unfold partial_at; by rewrite Hdir, Hproc).
      eapply swp_mono; [exact IH|]. intros r s2 [Hk2 Hr]. split; [by eapply kept_trans|]. destruct r as [o|e].
      * destruct Hr as (id & Hf & Hn2 & Ho). rewrite Hat, Hn, Hproc in *. by exists id.
      * destruct Hr as [Hn2 Hall]. split; [congruence|]. intros Hnf k Hk'. destruct (decide (k = 0)) as [->|Hk0].
        { rewrite Z.add_0_r. by apply Hx. }
        specialize (Hall (no_faults_kept _ _ Hk Hnf) (k - 1) ltac:(lia)). rewrite Hat in Hall.
        by replace (offset + 1 + (k - 1)) with (offset + k) in Hall by lia.
    + assert (Hgo : swp (sys_fail (A := AtomicOutput) e) s1 (fun r s' => kept s s' /\
        match r with
        | Ok o => reserved s s' o
        | Err _ => io_nodes s' = io_nodes s /\ (no_faults s -> forall k, 0 <= k < Z.of_nat (S attempts) ->
            is_Some (io_nodes s !! partial_at s ((first_id + (offset + k)) mod 2 ^ 64)))
        end)).
      { split; [done|]. split; [done|]. intros Hnf. by destruct (Hx Hnf). }
      destruct e; try exact Hgo. done.
Qed.

(** ** From the reservation to the end *)

Lemma partial_other s id : partial_at s id <> dir s ++ [name].
Proof.
  unfold partial_at, partial_name. intros [_ Heq]%app_inj_tail. apply (f_equal String.length) in Heq.
  rewrite !length_append in Heq. cbn in Heq. lia.
Qed.

(** The directory stays one when a file is written in it. *)
Lemma dir_path_file ns d c n : dir_path ns d -> dir_path (<[d ++ [c] := n]> ns) d.
Proof.
  intros Hd q x r ->. destruct (Hd q x r eq_refl) as (Hx & u & m & Hn). split; [done|]. exists u, m.
  rewrite lookup_insert_ne; [done|]. intros Hbad. apply (f_equal length) in Hbad.
  rewrite !length_app in Hbad. cbn in Hbad. rewrite ?length_app in Hbad. cbn in Hbad. lia.
Qed.

(** While the output is being written: the files of the beginning and a partial one. *)
Context (s0 : iost) (id : Z).
Let ns := io_nodes s0.
Let P := partial_at s0 id.
Let F := dir s0 ++ [name].
Let u := pr_euid (io_proc s0).
Hypotheses (Hdir : dir_path ns (dir s0)) (Hfree : ns !! P = None)
  (Hfinal : forall u m, ns !! F <> Some (Dir u m)).
Definition pending (c : string) (s : iost) : Prop := kept s0 s /\ io_nodes s = <[P := File c u 420]> ns.
Definition output (w : string) : AtomicOutput :=
  mkOutput final_path (path_join (output_parent final_path) (partial_name name (pr_pid (io_proc s0)) id)) w false.

Lemma pending_at c s : pending c s -> at_cwd (pr_cwd (io_proc s)) (ao_partial_path (output "")) = P.
Proof. intros [Hk _]. cbn. rewrite at_cwd_join, (kept_proc _ _ Hk). done. Qed.
Lemma pending_final c s : pending c s -> at_cwd (pr_cwd (io_proc s)) final_path = F.
Proof. intros [Hk _]. by rewrite final_at, (same_dir _ _ Hk). Qed.
Lemma pending_dir c s : pending c s -> dir_path (io_nodes s) (dir s0).
Proof. intros [_ ->]. by apply dir_path_file. Qed.
Lemma pending_faults c s : pending c s -> no_faults s0 -> no_faults s.
Proof. intros [Hk _]. by apply no_faults_kept. Qed.
Lemma pending_same c s s' : pending c s -> same s s' -> pending c s'.
Proof. intros [Hk Hn] [Hk' Hn']. split; [by eapply kept_trans|congruence]. Qed.

(** A call that fails by a fault only. *)
Lemma swp_pending {A} c (f : iost -> result A io_error * iost) s (Q : result A io_error -> iost -> Prop) :
  pending c s -> (forall e s', pending c s' -> ~ no_faults s0 -> Q (Err e) s') ->
  (forall s', pending c s' -> Q (f s').1 (f s').2) -> swp (syscall f) s Q.
Proof.
  intros Hp He Hok. assert (Hp' : pending c (io_step s)) by (eapply pending_same; [done|apply same_step]).
  apply swp_call; [|by apply Hok]. intros e Hf. apply He; [done|]. intros Hnf.
  by rewrite (pending_faults _ _ Hp Hnf) in Hf.
Qed.

Definition text_of (chunks : list string) : string := foldr String.append EmptyString chunks.
Lemma text_of_cons w c chunks : (w +:+ c) +:+ text_of chunks = w +:+ text_of (c :: chunks).
Proof. apply string_app_assoc. Qed.

Lemma output_writes_spec chunks w s : pending EmptyString s ->
  swp (output_writes (output w) chunks) s (fun r s' => pending EmptyString s' /\
    match r with Ok o => o = output (w +:+ text_of chunks) | Err _ => ~ no_faults s0 end).
Proof.
  revert w s. induction chunks as [|c chunks IH]; intros w s Hp; cbn [output_writes].
  { split; [done|]. f_equal. by rewrite string_nil_r. }
  apply swp_bind. eapply swp_pending; [done|by intros e s'|]. intros s' Hs'. cbn [fst snd].
  eapply swp_mono; [by apply IH|]. intros r s'' [Hp'' Hr]. split; [done|]. destruct r; [|done]. by rewrite Hr, text_of_cons.
Qed.

Lemma finish_publish_spec w s : pending EmptyString s ->
  swp (finish_publish (output w)) s (fun r s' =>
    match r with
    | Ok _ => kept s0 s' /\ io_nodes s' = <[F := File w u 420]> ns
    | Err _ => ~ no_faults s0 /\ exists c, pending c s'
    end).
Proof.
  intros Hp. unfold finish_publish. apply swp_bind, swp_here. rewrite (pending_at _ _ Hp : at_cwd _ (ao_partial_path (output w)) = P).
  assert (Hplain : forall c s1, pending c s1 -> plain (io_nodes s1) (dir s0)) by (intros c s1 Hs1; eapply dir_path_plain, pending_dir, Hs1).
  eapply swp_pending; [done|intros e s1 H1 Hnf; split; [done|by eexists]|]. intros s1 Hp1.
  unfold P, partial_at in *. rewrite resolve_parent_plain, at_path_snoc by (by eapply Hplain).
  destruct Hp1 as [Hk1 Hn1]. rewrite Hn1, lookup_insert_eq, insert_insert_eq. cbn [fst snd].
  assert (Hp1 : pending w (io_set (<[P := File w u 420]> ns) s1)) by (split; [eapply kept_trans; [exact Hk1|apply kept_set]|done]).
  apply swp_bind. eapply swp_pending; [exact Hp1|intros e s2 H2 Hnf; split; [done|by eexists]|].
  intros s2 Hp2. cbn [fst snd]. apply swp_here, swp_here. rewrite (pending_at _ _ Hp2 : at_cwd _ (ao_partial_path (output w)) = P),
    (pending_final _ _ Hp2 : at_cwd _ (ao_final_path (output w)) = F).
  eapply swp_pending; [exact Hp2|intros e s3 H3 Hnf; split; [done|by eexists]|]. intros s3 Hp3.
  pose proof (Hplain _ _ Hp3) as Hpl. unfold P, F, partial_at. rewrite !resolve_parent_plain, !at_path_snoc, removelast_last by done.
  destruct (at_path_dir _ _ (pending_dir _ _ Hp3)) as (u' & m' & ->). destruct Hp3 as [Hk3 Hn3].
  rewrite Hn3. fold P F. rewrite lookup_insert_eq, lookup_insert_ne by apply partial_other.
  rewrite delete_insert_id by done. fold F.
  destruct (ns !! F) as [[]|] eqn:E; [|by destruct (Hfinal uid mode)| |]; (split; [eapply kept_trans; [exact Hk3|apply kept_set]|done]).
Qed.

(** Dropping an unfinished output: the partial file is gone, unless the unlink fails. *)
Lemma output_drop_spec w c s : pending c s ->
  swp (output_drop (output w)) s (fun r s' => r = Ok tt /\
    (kept s0 s' /\ io_nodes s' = ns \/ ~ no_faults s0 /\ pending c s')).
Proof.
  intros Hp. apply swp_bind, swp_try, swp_here. rewrite (pending_at _ _ Hp : at_cwd _ (ao_partial_path (output w)) = P).
  eapply swp_pending; [done| |].
  - intros e s1 Hp1 Hnf. split; [done|]. right. split; [done|exact Hp1].
  - intros s1 Hp1. unfold P, partial_at. rewrite resolve_parent_plain, at_path_snoc by (eapply dir_path_plain, pending_dir, Hp1).
    fold P. destruct Hp1 as [Hk1 Hn1]. rewrite Hn1, lookup_insert_eq. cbn [fst snd]. split; [done|]. left.
    split; [eapply kept_trans; [exact Hk1|apply kept_set]|]. cbn. by rewrite delete_insert_id.
Qed.

(** [finish]: the final file has the bytes, or an error and the files as before or with the partial one. *)
Lemma output_finish_spec w s : pending EmptyString s ->
  swp (output_finish (output w)) s (fun r s' =>
    (r = Ok tt \/ ~ no_faults s0) /\
    (io_nodes s' = <[F := File w u 420]> ns \/
     (exists e, r = Err e) /\ (io_nodes s' = ns \/ exists c, pending c s'))).
Proof.
  intros Hp. unfold output_finish. apply swp_bind, swp_try. eapply swp_mono; [by apply finish_publish_spec|]. intros [[]|e] s1 Hr.
  - destruct Hr as [Hk Hn]. apply swp_bind, swp_here. cbn [ao_final_path output]. rewrite (kept_proc _ _ Hk). fold (dir s0).
    assert (Hst : exists n, stat (io_nodes s1) (dir s0) = Some n).
    { destruct (stat_dir (io_nodes s1) (dir s0)) as (u' & m & ->); [rewrite Hn; by apply dir_path_file|by eexists]. }
    eapply swp_mono; [by apply quiet_stat|]. intros [[]|e] s2 [Hs2 Hq2].
    2: { split; [right|left; by rewrite (proj2 Hs2)]. intros Hnf. by destruct (Hq2 (no_faults_kept _ _ Hk Hnf)) as (? & ? & ?). }
    eapply swp_mono; [apply quiet_sync|]. intros [[]|e] s3 [Hs3 Hq3]; pose proof (same_trans _ _ _ Hs2 Hs3) as Hs.
    + split; [by left|left; by rewrite (proj2 Hs)].
    + split; [right|left; by rewrite (proj2 Hs)]. intros Hnf.
      by destruct (Hq3 (no_faults_same _ _ Hs2 (no_faults_kept _ _ Hk Hnf))) as (? & ? & ?).
  - destruct Hr as [Hnf (c & Hc)]. apply swp_bind. eapply swp_mono; [by apply output_drop_spec|]. intros r s2 [-> Hs2].
    split; [by right|]. right. split; [by eexists|]. destruct Hs2 as [[_ Hn]|[_ Hpc]]; [by left|right; by eexists].
Qed.
End publishing.

(** [create] in an existing directory: a fresh partial file, or the files as they were. *)
Lemma output_create_spec fuel first_id final_path name s :
  file_name final_path = Some name -> dir_path (io_nodes s) (dir final_path s) ->
  swp (output_create fuel first_id final_path) s (fun r s' =>
    match r with
    | Ok (Some o) => exists id, io_nodes s !! partial_at final_path name s id = None /\
        pending final_path name s id EmptyString s' /\ o = output final_path name s id EmptyString
    | _ => io_nodes s' = io_nodes s /\ (no_faults s -> (1 <= fuel)%nat ->
        forall k, 0 <= k < 1024 -> is_Some (io_nodes s !! partial_at final_path name s ((first_id + k) mod 2 ^ 64)))
    end).
Proof.
  intros Hname Hd. unfold output_create. apply swp_bind. eapply swp_mono; [by apply parent_quiet|].
  intros [[[]|]|e] s1 [Hs1 Hr1]; [|split; [exact (proj2 Hs1)|]; intros Hnf Hf; by specialize (Hr1 Hnf Hf)..].
  pose proof (same_dir final_path _ _ (proj1 Hs1)) as Hdir. pose proof (kept_proc _ _ (proj1 Hs1)) as Hproc.
  apply swp_bind. unfold swp at 1, sys_pid. cbn [fst snd]. apply swp_bind.
  eapply swp_mono; [apply reserve_spec; [done|by rewrite Hdir, (proj2 Hs1)]|]. intros [o|e] s2 [Hk2 Hr2].
  - destruct Hr2 as (id & Hfree & Hn2 & ->). unfold partial_at in Hfree, Hn2. rewrite Hdir, Hproc, (proj2 Hs1) in *.
    exists id. split; [done|]. split; [|done]. split; [eapply kept_trans; [exact (proj1 Hs1)|done]|done].
  - destruct Hr2 as [Hn2 Hall]. split; [by rewrite Hn2, (proj2 Hs1)|]. intros Hnf _ k Hk.
    destruct (Hall (no_faults_same _ _ Hs1 Hnf) k ltac:(unfold MAX_PARTIAL_PATH_ATTEMPTS; lia)) as [n Hsome].
    unfold partial_at in *. rewrite Hdir, Hproc, (proj2 Hs1), Z.add_0_l in Hsome. by eexists.
Qed.

(** ** Publishing *)

(** The results as they are published. *)
Definition published (final_path : rpath) (name : string) (chunks : list string) (s : iost) : nodes :=
  <[dir final_path s ++ [name] := File (text_of chunks) (pr_euid (io_proc s)) 420]> (io_nodes s).
(** A partial file has been left behind. *)
Definition leftover (final_path : rpath) (name : string) (s s' : iost) : Prop :=
  exists id c, io_nodes s !! partial_at final_path name s id = None /\
    io_nodes s' = <[partial_at final_path name s id := File c (pr_euid (io_proc s)) 420]> (io_nodes s).

(** The results appear under their final name at once or not at all. When the directory of the
    final path exists, publishing the chunks leaves, whatever calls fail and at whatever point, the file system as it was, or
    with the final file holding all of the chunks and nothing else changed, or (only when some call failed) with one
    partial file left beside it, under a name that was free, and the final one untouched. Success means the second, and
    a run in which no call fails succeeds if one of the 1024 names it tries is free. *)
Theorem output_atomic fuel first_id final_path name chunks s :
  file_name final_path = Some name -> dir_path (io_nodes s) (dir final_path s) ->
  (forall u m, io_nodes s !! (dir final_path s ++ [name]) <> Some (Dir u m)) ->
  let '(r, s') := publish fuel first_id final_path chunks s in
  (io_nodes s' = io_nodes s \/ io_nodes s' = published final_path name chunks s \/
    ~ no_faults s /\ leftover final_path name s s') /\
  (r = Ok (Some tt) -> io_nodes s' = published final_path name chunks s) /\
  (no_faults s -> (1 <= fuel)%nat ->
    (exists k, 0 <= k < 1024 /\ io_nodes s !! partial_at final_path name s ((first_id + k) mod 2 ^ 64) = None) ->
    r = Ok (Some tt)).
Proof.
  intros Hname Hd Hnd.
  enough (Hgo : swp (publish fuel first_id final_path chunks) s (fun r s' =>
    (io_nodes s' = io_nodes s \/ io_nodes s' = published final_path name chunks s \/
      ~ no_faults s /\ leftover final_path name s s') /\
    (r = Ok (Some tt) -> io_nodes s' = published final_path name chunks s) /\
    (no_faults s -> (1 <= fuel)%nat ->
      (exists k, 0 <= k < 1024 /\ io_nodes s !! partial_at final_path name s ((first_id + k) mod 2 ^ 64) = None) ->
      r = Ok (Some tt)))) by (unfold swp in Hgo; by destruct (publish _ _ _ _ s)).
  unfold publish. apply swp_bind. eapply swp_mono; [by apply output_create_spec|]. intros [[o|]|e] s1 Hr1.
  2,3: destruct Hr1 as [Hn Hall]; split; [by left|]; split; [done|]; intros Hnf Hf (k & Hk & Hnone);
    destruct (Hall Hnf Hf k Hk) as [x Hx]; congruence.
  destruct Hr1 as (id & Hfree & Hp & ->). apply swp_bind, swp_try.
  eapply swp_mono; [by apply output_writes_spec|]. intros [o|e] s2 [H2 Hr].
  - subst o. apply swp_bind. eapply swp_mono; [by apply output_finish_spec|]. intros r s3 [Hr3 Hn3].
    destruct r as [[]|e]; cbn; destruct Hn3 as [Hn3|[[e' He'] Hn3]]; try done.
    + split; [by right; left|done].
    + split; [by right; left|]. split; [done|]. intros Hnf. by destruct Hr3.
    + assert (Hnf : ~ no_faults s) by (by destruct Hr3). split; [|by split].
      destruct Hn3 as [Hn3|[c [_ Hc]]]; [by left|right; right]. split; [done|]. by exists id, c.
  - apply swp_bind. eapply swp_mono; [by eapply output_drop_spec|]. intros r s3 [-> Hs3]. cbn. split; [|by split].
    destruct Hs3 as [[_ Hn]|[_ [_ Hn]]]; [by left|right; right]. split; [done|by exists id, EmptyString].
Qed.

Definition results_proc : proc := mkProc 1000 1000 7 ["home"] ∅ ["bin"; "wake_latency"].
(** A directory with the partial file of an earlier run, whose name is the first one tried. *)
Definition results_files : nodes :=
  <[["home"; "out"; ".wake.tsv.partial-7-0"] := File "stale" 1000 420]>
  (<[["home"; "out"] := Dir 1000 493]> (<[["home"] := Dir 0 493]> ∅)).
Definition results_state (faults : nat -> option io_error) : iost :=
  mkIo results_files faults 0 (fun l => l) 0 [] results_proc.

Lemma output_atomic_witness :
  (publish 1 0 (Relative ["out"; "wake.tsv"]) ["a"; "b"] (results_state (fun _ => None))).1 = Ok (Some tt) /\
  io_nodes (publish 1 0 (Relative ["out"; "wake.tsv"]) ["a"; "b"] (results_state (fun _ => None))).2 =
    <[["home"; "out"; "wake.tsv"] := File "ab" 1000 420]> results_files /\
  match (publish 1 0 (Relative ["out"; "wake.tsv"]) ["a"; "b"] (results_state (fun n => if (n =? 8)%nat then Some OtherError else None))).1 with
  | Err OtherError => true
  | _ => false
  end = true.
Proof.
  split; [|split; [|by vm_compute]];
    (pose proof (output_atomic 1 0 (Relative ["out"; "wake.tsv"]) "wake.tsv" ["a"; "b"] (results_state (fun _ => None)) eq_refl) as H;
     destruct (publish _ _ _ _ _) as [r s']; destruct H as (H1 & H2 & H3);
     [intros q c l Heq; destruct q as [|? [|? [|? ?]]]; injection Heq as; subst; try done; (split; [done|]); by eexists _, _|by intros u m|];
     assert (Hr : r = Ok (Some tt)) by (apply H3; [by intros n|lia|exists 1; split; [lia|by vm_compute]])); [exact Hr|exact (H2 Hr)].
Defined.
