(* ===== verification/Clock.v ===== *)
(** * The benchmark's clocks (benches/support/platform.rs)

    The calibration of the time stamp counter against the wall clock, and the handshake of two threads that
    estimates by how much the waiter's counter is ahead of the producer's. What RDTSCP, CPUID and the wall clock answer is
    chosen by the environment. Floats are those of the standard library ([spec_float] with 53 bits), with
    which Rust's [f64] operations agree. *)

From stdpp Require Import pretty sorting functions.
From Stdlib Require Import SpecFloat.
From S2P Require Import Prelude BenchFs Errors Pure Machine Tsc Capabilities Platform ViewMemory.
Open Scope Z_scope.

(** ** Floats *)

Definition f64_div (a b : spec_float) : spec_float := SFdiv 53 1024 a b.
Definition f64_mul (a b : spec_float) : spec_float := SFmul 53 1024 a b.
Definition f64_sub (a b : spec_float) : spec_float := SFsub 53 1024 a b.
Definition f64_add (a b : spec_float) : spec_float := SFadd 53 1024 a b.
Definition is_finite (f : spec_float) : bool :=
  match f with S754_nan | S754_infinity _ => false | _ => true end.
(** [f.round() as u64]: half away from zero, saturating *)
Definition round_as_u64 (f : spec_float) : Z :=
  match f with
  | S754_nan | S754_zero _ | S754_infinity true | S754_finite true _ _ => 0
  | S754_infinity false => u64_max
  | S754_finite false m e =>
      Z.min u64_max (if 0 <=? e then Zpos m * 2 ^ e else (Zpos m + 2 ^ (- e - 1)) / 2 ^ (- e))
  end.
(** [f64::total_cmp]; the not-a-numbers of these computations count as one, above everything. *)
Definition f64_total_leb (a b : spec_float) : bool :=
  match a, b with
  | _, S754_nan => true
  | S754_nan, _ => false
  | S754_zero s, S754_zero t => s || negb t
  | _, _ => SFleb a b
  end.
Definition median_f64 (values : list spec_float) : option spec_float :=
  let values := merge_sort f64_total_leb values in values !! (length values / 2)%nat.

(** ** The calibration *)

Definition CALIBRATION_RUNS : nat := 7.
Definition MAX_CALIBRATION_SPREAD_PERCENT : spec_float := f64_of_usize 1.
Definition MAX_CROSS_CORE_SKEW_BOUND_NS : spec_float := f64_of_usize 100.

(** Why there is no clock. *)
Inductive ClockError :=
| NoCapabilityLeaf | NoTscFeatures (rdtscp invariant_tsc : bool) | ClocksourceUnreadable (e : any_error) | OtherClocksource (name : string)
| MigratedOrBackwards | UnstableCalibration
| PinFailed (e : io_error) | NoStartBarrier | ControllerMigrated | RemoteMigrated | OffsetOverflow
| SkewTooLarge (bound_ns : spec_float).

Definition require_tsc_capabilities (cpuid : Cpuid) : result unit ClockError :=
  let maximum_extended := eax (cpuid 0x80000000 0) in
  if maximum_extended <? 0x80000007 then Err NoCapabilityLeaf
  else
    let rdtscp := has_bit (edx (cpuid 0x80000001 0)) (Z.shiftl 1 27) in
    let invariant_tsc := has_bit (edx (cpuid 0x80000007 0)) (Z.shiftl 1 8) in
    if negb rdtscp || negb invariant_tsc then Err (NoTscFeatures rdtscp invariant_tsc) else Ok tt.

(** One calibration window: the two stamps with their processor ids, and the wall clock's nanoseconds. *)
Record Window := mkWindow {
  wi_cycle_start : Z; wi_aux_start : Z; wi_cycle_end : Z; wi_aux_end : Z; wi_elapsed_nanos : Z;
}.
Record TscClock := mkClock { cycles_per_ns : spec_float; spread_percent : spec_float }.

Fixpoint window_ratios (windows : list Window) (ratios : list spec_float) : result (list spec_float) ClockError :=
  match windows with
  | [] => Ok ratios
  | w :: windows =>
      if negb (wi_aux_start w =? wi_aux_end w) || (wi_cycle_end w <=? wi_cycle_start w) then Err MigratedOrBackwards
      else window_ratios windows
             (ratios ++ [f64_div (f64_of_usize (wi_cycle_end w - wi_cycle_start w)) (f64_of_usize (wi_elapsed_nanos w))])
  end.
(** From the ratios to the clock; [None]: an index out of range. *)
Definition conclude_clock (ratios : list spec_float) : option (result TscClock ClockError) :=
  let ratios := merge_sort f64_total_leb ratios in
  median ← ratios !! (length ratios / 2)%nat;
  minimum ← ratios !! 0%nat;
  maximum ← ratios !! (length ratios - 1)%nat;
  let spread_percent := f64_mul (f64_div (f64_sub maximum minimum) median) (f64_of_usize 100) in
  Some (if negb (is_finite median) || SFleb median (S754_zero false)
           || SFltb MAX_CALIBRATION_SPREAD_PERCENT spread_percent
        then Err UnstableCalibration else Ok (mkClock median spread_percent)).

(** [TscClock::preflight]; [windows] are the calibration windows. *)
Definition clock_preflight (cpuid : Cpuid) (windows : list Window) : iost -> option (result TscClock ClockError) * iost := fun s =>
  match require_tsc_capabilities cpuid with
  | Err e => (Some (Err e), s)
  | Ok _ =>
      let '(r, s) := platform_read_trimmed
        ["sys"; "devices"; "system"; "clocksource"; "clocksource0"; "current_clocksource"]%string s in
      (match r with
       | Err e => Some (Err (ClocksourceUnreadable e))
       | Ok clocksource =>
           if negb (bool_decide (clocksource = "tsc"%string)) then Some (Err (OtherClocksource clocksource))
           else
             match window_ratios windows [] with
             | Err e => Some (Err e)
             | Ok ratios => conclude_clock ratios
             end
       end, s)
  end.
Definition cycles_to_ns (cycles_per_ns : spec_float) (cycles : Z) : Z :=
  round_as_u64 (f64_div (f64_of_usize cycles) cycles_per_ns).

(** ** The handshake

    A step is one access or one stamp of one thread. The producer's counter shows the time; the waiter's is ahead by
    [skew]. A stamp shows some time that is not before the last one taken by either thread. *)

(** [TscHandshake] *)
Inductive hs_cell := Request | Response | RemoteCycles | ReadyFlag | Failed.
#[export] Instance hs_cell_eq_dec : EqDecision hs_cell.
Proof. solve_decision. Defined.

(** The worker; from [R_request] on with the sequence it is at, and the counter it has read. *)
Inductive worker_pc :=
| R_start | R_expected | R_ready
| R_request (sequence : Z) | R_stamp (sequence : Z) | R_failed (sequence cycles : Z) | R_cycles (sequence cycles : Z)
| R_response (sequence : Z) | R_done | R_error.
(** The controller, with the stamp before the request and whether it was taken on its own CPU. *)
Inductive estimate_pc :=
| K_ready | K_aux
| K_before (sequence : Z) | K_request (sequence before : Z) (own : bool) | K_response (sequence before : Z) (own : bool)
| K_remote (sequence before : Z) (own : bool) | K_after (sequence before : Z) (own : bool) (remote : Z)
| K_join | K_check | K_ended (r : result (Z * Z) ClockError).

(** [hs_times] are the times at which the worker has taken its stamps. *)
Record handshake := mkHandshake {
  hs_memory : hs_cell -> list (message hs_cell);
  hs_now : Z;
  hs_times : list Z;
  hs_worker : worker_pc;
  hs_worker_view : hs_cell -> nat;
  hs_controller : estimate_pc;
  hs_controller_view : hs_cell -> nat;
  hs_best_round_trip : Z;
  hs_best_offset : Z;
}.
(** What the environment chooses: the message a load reads, the time of a stamp and whether its processor id is the
    expected one, a failure (of pinning, or no start in time), or nothing. *)
Inductive hs_choice := ReadMessage (i : nat) | TakeStamp (time : Z) (own : bool) | Fails | Proceeds.
Inductive hs_event := Worker (c : hs_choice) | Estimator (c : hs_choice).

Section handshake.
Variables (skew TSC_SKEW_SAMPLES : Z).

Definition set_worker (s : handshake) ws pc v : handshake :=
  mkHandshake ws (hs_now s) (hs_times s) pc v (hs_controller s) (hs_controller_view s) (hs_best_round_trip s) (hs_best_offset s).
Definition set_estimator (s : handshake) ws pc v : handshake :=
  mkHandshake ws (hs_now s) (hs_times s) (hs_worker s) (hs_worker_view s) pc v (hs_best_round_trip s) (hs_best_offset s).
Definition set_time (t : Z) (s : handshake) : handshake :=
  mkHandshake (hs_memory s) t (hs_times s) (hs_worker s) (hs_worker_view s) (hs_controller s) (hs_controller_view s)
    (hs_best_round_trip s) (hs_best_offset s).
Definition add_time (t : Z) (s : handshake) : handshake :=
  mkHandshake (hs_memory s) t (hs_times s ++ [t]) (hs_worker s) (hs_worker_view s) (hs_controller s) (hs_controller_view s)
    (hs_best_round_trip s) (hs_best_offset s).
Definition set_best (round_trip offset : Z) (s : handshake) : handshake :=
  mkHandshake (hs_memory s) (hs_now s) (hs_times s) (hs_worker s) (hs_worker_view s) (hs_controller s) (hs_controller_view s)
    round_trip offset.

(** A time both counters can show. *)
Definition may_stamp (s : handshake) (t : Z) : bool :=
  (hs_now s <=? t) && (t <? u64_max) && (0 <=? t + skew) && (t + skew <=? u64_max).

Definition worker_step (c : hs_choice) (s : handshake) : option handshake :=
  let ws := hs_memory s in
  let v := hs_worker_view s in
  let goto pc := Some (set_worker s ws pc v) in
  match hs_worker s, c with
  | R_start, Proceeds => goto R_expected
  | R_start, Fails => goto R_error
  | R_expected, TakeStamp t _ => if may_stamp s t then Some (set_time t (set_worker s ws R_ready v)) else None
  | R_ready, Proceeds => let '(ws, v) := write Release ReadyFlag 1 ws v in Some (set_worker s ws (R_request 1) v)
  | R_request sequence, ReadMessage i =>
      '(x, v) ← read Acquire Request i ws v;
      Some (set_worker s ws (if x =? sequence then R_stamp sequence else R_request sequence) v)
  | R_stamp sequence, TakeStamp t own =>
      if may_stamp s t
      then Some (add_time t (set_worker s ws (if own then R_cycles sequence (t + skew) else R_failed sequence (t + skew)) v))
      else None
  | R_failed sequence cycles, Proceeds =>
      let '(ws, v) := write Release Failed 1 ws v in Some (set_worker s ws (R_cycles sequence cycles) v)
  | R_cycles sequence cycles, Proceeds =>
      let '(ws, v) := write Relaxed RemoteCycles cycles ws v in Some (set_worker s ws (R_response sequence) v)
  | R_response sequence, Proceeds =>
      let '(ws, v) := write Release Response sequence ws v in
      Some (set_worker s ws (if sequence =? TSC_SKEW_SAMPLES then R_done else R_request (sequence + 1)) v)
  | _, _ => None
  end.

(** The comparison of one sample with the best so far. *)
Definition keep_best (before after remote_cycles : Z) (s : handshake) : handshake :=
  let round_trip := after - before in
  if round_trip <? hs_best_round_trip s
  then set_best round_trip (remote_cycles - (before + round_trip / 2)) s
  else s.
Definition conclude_estimate (best_offset best_round_trip : Z) : result (Z * Z) ClockError :=
  if (- 2 ^ 63 <=? best_offset) && (best_offset <? 2 ^ 63) then Ok (best_offset, best_round_trip / 2) else Err OffsetOverflow.

Definition estimator_step (c : hs_choice) (s : handshake) : option handshake :=
  let ws := hs_memory s in
  let v := hs_controller_view s in
  let goto pc := Some (set_estimator s ws pc v) in
  match hs_controller s, c with
  | K_ready, ReadMessage i =>
      '(x, v) ← read Acquire ReadyFlag i ws v;
      Some (set_estimator s ws (if x =? 0 then K_ready else K_aux) v)
  | K_ready, Fails => goto (K_ended (Err NoStartBarrier))
  | K_aux, TakeStamp t _ => if may_stamp s t then Some (set_time t (set_estimator s ws (K_before 1) v)) else None
  | K_before sequence, TakeStamp t own =>
      if may_stamp s t then Some (set_time t (set_estimator s ws (K_request sequence t own) v)) else None
  | K_request sequence before own, Proceeds =>
      let '(ws, v) := write Release Request sequence ws v in Some (set_estimator s ws (K_response sequence before own) v)
  | K_response sequence before own, ReadMessage i =>
      '(x, v) ← read Acquire Response i ws v;
      Some (set_estimator s ws (if x =? sequence then K_remote sequence before own else K_response sequence before own) v)
  | K_remote sequence before own, ReadMessage i =>
      '(x, v) ← read Relaxed RemoteCycles i ws v;
      Some (set_estimator s ws (K_after sequence before own x) v)
  | K_after sequence before own remote_cycles, TakeStamp t own' =>
      if may_stamp s t then
        if negb own || negb own' || (t <? before) then Some (set_time t (set_estimator s ws (K_ended (Err ControllerMigrated)) v))
        else Some (keep_best before t remote_cycles (set_time t (set_estimator s ws
               (if sequence =? TSC_SKEW_SAMPLES then K_join else K_before (sequence + 1)) v)))
      else None
  | K_join, Proceeds =>
      match hs_worker s with
      | R_done => Some (set_estimator s ws K_check (join v (hs_worker_view s)))
      | R_error => Some (set_estimator s ws (K_ended (Err (PinFailed OtherError))) (join v (hs_worker_view s)))
      | _ => None
      end
  | K_check, ReadMessage i =>
      '(x, v) ← read Acquire Failed i ws v;
      Some (set_estimator s ws
        (K_ended (if x =? 0 then conclude_estimate (hs_best_offset s) (hs_best_round_trip s) else Err RemoteMigrated)) v)
  | _, _ => None
  end.

Definition hs_step (e : hs_event) (s : handshake) : option handshake :=
  match e with Worker c => worker_step c s | Estimator c => estimator_step c s end.
Fixpoint hs_run (es : list hs_event) (s : handshake) : option handshake :=
  match es with [] => Some s | e :: es => s ← hs_step e s; hs_run es s end.
Definition hs_start (now : Z) : handshake :=
  mkHandshake shared_new now [] R_start none_seen K_ready none_seen u64_max 0.
Definition hs_reachable (s : handshake) : Prop := exists now es, 0 <= now /\ hs_run es (hs_start now) = Some s.
End handshake.

(** [TscSkew::preflight] after the estimate: the offset, its uncertainty, the bound in nanoseconds and the correction. *)
Record TscSkew := mkSkew {
  sk_producer_offset_cycles : Z;
  sk_waiter_offset_cycles : Z;
  sk_producer_uncertainty_cycles : Z;
  sk_waiter_uncertainty_cycles : Z;
  sk_producer_to_waiter_bound_ns : spec_float;
  sk_correction_cycles : Z;
}.
Definition skew_preflight (cycles_per_ns : spec_float) (estimate : result (Z * Z) ClockError) : result TscSkew ClockError :=
  match estimate with
  | Err e => Err e
  | Ok (waiter_offset, waiter_uncertainty) =>
      let producer_offset := 0 in
      let producer_uncertainty := 0 in
      let bound_cycles := Z.abs waiter_offset + waiter_uncertainty in
      let bound_ns := f64_div (f64_of_usize bound_cycles) cycles_per_ns in
      if SFltb MAX_CROSS_CORE_SKEW_BOUND_NS bound_ns then Err (SkewTooLarge bound_ns)
      else Ok (mkSkew producer_offset waiter_offset producer_uncertainty waiter_uncertainty bound_ns (waiter_offset - producer_offset))
  end.

(** ** No index is out of range *)

Lemma half_lookup {A} (l : list A) : l <> [] -> is_Some (l !! (length l / 2)%nat).
Proof.
  intros Hl. apply lookup_lt_is_Some. destruct l as [|x l]; [done|]. apply Nat.div_lt; cbn; lia.
Qed.
Lemma merge_sort_nonempty {A} (R : A -> A -> Prop) `{forall x y, Decision (R x y)} (l : list A) : l <> [] -> merge_sort R l <> [].
Proof. intros Hl Hs. pose proof (merge_sort_Permutation R l) as Hp. rewrite Hs in Hp. by apply Permutation_nil in Hp. Qed.

Lemma window_ratios_length windows ratios r : window_ratios windows ratios = Ok r -> length r = (length ratios + length windows)%nat.
Proof.
  revert ratios. induction windows as [|w windows IH]; intros ratios; cbn; [intros [= ->]; lia|].
  destruct (_ || _); [done|]. intros ->%IH. rewrite length_app. cbn. lia.
Qed.
Lemma conclude_clock_total ratios : ratios <> [] -> conclude_clock ratios <> None.
Proof.
  intros Hr%(merge_sort_nonempty f64_total_leb). unfold conclude_clock. revert Hr. generalize (merge_sort f64_total_leb ratios). intros l Hl.
  destruct (half_lookup l Hl) as [x ->]. cbn. destruct l as [|y l]; [done|]. cbn.
  rewrite Nat.sub_0_r. destruct (lookup_lt_is_Some_2 (y :: l) (length l)) as [z ->]; [cbn; lia|done].
Qed.
Lemma clock_total cpuid windows s : windows <> [] -> (clock_preflight cpuid windows s).1 <> None.
Proof.
  intros Hw. unfold clock_preflight. destruct (require_tsc_capabilities _); [|done].
  destruct (platform_read_trimmed _ s) as [[clocksource|e] s1]; [|done]. cbn [fst]. destruct (negb _); [done|].
  destruct (window_ratios _ _) as [r|] eqn:E; [|done]. apply conclude_clock_total. apply window_ratios_length in E.
  intros ->. destruct windows; [done|]. cbn in E. lia.
Qed.
(** An accepted calibration is stable. *)
Lemma clock_stable ratios clock : conclude_clock ratios = Some (Ok clock) ->
  SFltb MAX_CALIBRATION_SPREAD_PERCENT (spread_percent clock) = false.
Proof.
  unfold conclude_clock. cbv zeta. intros (median & _ & (minimum & _ & (maximum & _ & E)%bind_Some)%bind_Some)%bind_Some. revert E.
  destruct (_ || _) eqn:Eg; [done|]. apply orb_false_elim in Eg as [_ Eg]. intros [= <-]. exact Eg.
Qed.
