(* ===== verification/ClockProofs.v ===== *)
(** * The skew estimate is sound

    The invariant of the handshake of [Clock], by induction over its steps: whatever the interleaving and
    whatever older messages the loads return, the stamp the controller reads was taken between its own two. *)

From stdpp Require Import functions.
From S2P Require Import Prelude BenchFs Errors Pure Machine ViewMemory Clock.
Open Scope Z_scope.

(** ** The invariant *)

Abbreviation hs_messages := (list (message hs_cell)).
(** Message [j] says [j]. *)
Definition counts (l : hs_messages) : Prop := l <> [] /\ forall j m, l !! j = Some m -> m_val m = Z.of_nat j.
(** Message [j] knows the worker's [j]th counter. *)
Definition informs (l : hs_messages) : Prop := forall j m, l !! j = Some m -> (j <= m_view m RemoteCycles)%nat.
Definition last_of (l : hs_messages) : nat := pred (length l).

Section invariant.
Variables (skew samples : Z).
Hypothesis (Hsamples : 1 <= samples).

Definition shows (times : list Z) (l : hs_messages) : Prop :=
  l <> [] /\ forall j m, l !! S j = Some m -> exists t, times !! j = Some t /\ m_val m = t + skew.

(** [r] requests, [n] stamps, [c] counters stored, [q] responses *)
Definition worker_ok (r n c q : nat) (times : list Z) (pc : worker_pc) : Prop :=
  match pc with
  | R_start | R_expected | R_ready | R_error => n = 0%nat /\ c = n /\ q = n
  | R_request s => s = Z.of_nat (S n) /\ c = n /\ q = n
  | R_stamp s => s = Z.of_nat (S n) /\ c = n /\ q = n /\ (S n <= r)%nat
  | R_failed s x | R_cycles s x => s = Z.of_nat n /\ n = S c /\ q = c /\ times !! c = Some (x - skew)
  | R_response s => s = Z.of_nat n /\ n = c /\ n = S q
  | R_done => c = n /\ q = n
  end.
Definition controller_ok (r q : nat) (now : Z) (times : list Z) (pc : estimate_pc) (v : hs_cell -> nat) : Prop :=
  match pc with
  | K_ready | K_aux => r = 0%nat
  | K_before s => s = Z.of_nat (S r) /\ q = r
  | K_request s b _ => s = Z.of_nat (S r) /\ q = r /\ 0 <= b <= now
  | K_response s b _ => s = Z.of_nat r /\ (1 <= r)%nat /\ 0 <= b <= now /\ forall t, times !! pred r = Some t -> b <= t
  | K_remote s b _ =>
      s = Z.of_nat r /\ (1 <= r)%nat /\ q = r /\ (r <= v RemoteCycles)%nat /\ 0 <= b <= now /\
      forall t, times !! pred r = Some t -> b <= t
  | K_after s b _ x => s = Z.of_nat r /\ (1 <= r)%nat /\ q = r /\ 0 <= b /\ b <= x - skew <= now
  | K_join | K_check => q = r
  | K_ended _ => True
  end.

Definition close (best offset : Z) : Prop := 0 <= best < u64_max /\ 2 * Z.abs (offset - skew) <= best + 1.
Definition best_ok (pc : estimate_pc) (best offset : Z) : Prop :=
  (best = u64_max \/ close best offset) /\
  match pc with
  | K_before s | K_request s _ _ | K_response s _ _ | K_remote s _ _ | K_after s _ _ _ => s = 1 \/ close best offset
  | K_join | K_check => close best offset
  | K_ended (Ok (o, u)) => Z.abs (o - skew) <= u + 1
  | _ => True
  end.

Record inv (s : handshake) : Prop := mkInv {
  iv_request : counts (hs_memory s Request);
  iv_response : counts (hs_memory s Response) /\ informs (hs_memory s Response);
  iv_remote : shows (hs_times s) (hs_memory s RemoteCycles);
  iv_now : 0 <= hs_now s;
  iv_times : Forall (fun t => t <= hs_now s) (hs_times s);
  iv_requested : (length (hs_times s) <= last_of (hs_memory s Request))%nat;
  iv_worker : worker_ok (last_of (hs_memory s Request)) (length (hs_times s)) (last_of (hs_memory s RemoteCycles))
    (last_of (hs_memory s Response)) (hs_times s) (hs_worker s);
  iv_wview : (last_of (hs_memory s RemoteCycles) <= hs_worker_view s RemoteCycles)%nat;
  iv_controller : controller_ok (last_of (hs_memory s Request)) (last_of (hs_memory s Response)) (hs_now s) (hs_times s)
    (hs_controller s) (hs_controller_view s);
  iv_best : best_ok (hs_controller s) (hs_best_round_trip s) (hs_best_offset s);
}.

Lemma inv_start now : 0 <= now -> inv (hs_start now).
Proof.
  intros Hnow. split; cbn; try done.
  - split; [done|]. intros [|[]] m [= <-]; done.
  - split; [split; [done|]|]; intros [|[]] m [= <-]; done.
  - split; [by left|done].
Qed.

Lemma counts_snoc l x v : counts l -> x = Z.of_nat (length l) -> counts (l ++ [mkMessage x v]).
Proof.
  intros [Hne Hc] Hx. split; [by destruct l|]. intros j m [Hj|[Hj Hm]]%lookup_app_Some; [by apply Hc|].
  destruct (j - length l)%nat as [|k] eqn:E; [|by destruct k]. injection Hm as <-. cbn. lia.
Qed.
Lemma informs_snoc l x v : informs l -> (length l <= v RemoteCycles)%nat -> informs (l ++ [mkMessage x v]).
Proof.
  intros Hc Hx j m [Hj|[Hj Hm]]%lookup_app_Some; [by apply Hc|].
  destruct (j - length l)%nat as [|k] eqn:E; [|by destruct k]. injection Hm as <-. cbn. lia.
Qed.
Lemma shows_snoc times l x v : shows times l -> times !! last_of l = Some (x - skew) -> shows times (l ++ [mkMessage x v]).
Proof.
  intros [Hne Hc] Hx. split; [by destruct l|]. intros j m [Hj|[Hj Hm]]%lookup_app_Some; [by apply Hc|].
  destruct (S j - length l)%nat as [|k] eqn:E; [|by destruct k]. injection Hm as <-. exists (x - skew). split; [|cbn; lia].
  unfold last_of in Hx. by replace j with (pred (length l)) by lia.
Qed.
Lemma shows_times times t l : shows times l -> shows (times ++ [t]) l.
Proof.
  intros [Hne Hc]. split; [done|]. intros j m Hj. destruct (Hc j m Hj) as (t' & Ht & Hm). exists t'. split; [|done].
  by apply lookup_app_l_Some.
Qed.
Lemma last_of_snoc l (m : message hs_cell) : l <> [] -> last_of (l ++ [m]) = S (last_of l).
Proof. intros Hl. unfold last_of. rewrite length_app. destruct l; [done|]. cbn. lia. Qed.
Lemma counts_last l i m : counts l -> l !! i = Some m -> (i <= last_of l)%nat /\ m_val m = Z.of_nat i.
Proof. intros [_ Hc] Hi. split; [|by apply Hc]. apply lookup_lt_Some in Hi. unfold last_of. lia. Qed.

Lemma worker_bounds r n c q times pc : worker_ok r n c q times pc -> (q <= c <= n)%nat.
Proof. destruct pc; cbn; lia. Qed.
Lemma last_of_lt l i (m : message hs_cell) : l !! i = Some m -> (i <= last_of l)%nat.
Proof. intros Hi%lookup_lt_Some. unfold last_of. lia. Qed.
Lemma may_stamp_spec s t : may_stamp skew s t = true -> hs_now s <= t < u64_max.
Proof. unfold may_stamp. lia. Qed.
Lemma Forall_later (t u : Z) times : t <= u -> Forall (fun x => x <= t) times -> Forall (fun x => x <= u) times.
Proof. intros Hu Ht. eapply Forall_impl; [exact Ht|]. cbn. lia. Qed.
(** The controller's part survives a later time, a stamp of the worker's for a request it has seen, and a response. *)
Lemma controller_later r q now now' times pc v : now <= now' -> controller_ok r q now times pc v -> controller_ok r q now' times pc v.
Proof. destruct pc; cbn; lia || (intros; destruct_and?; split_and?; auto; lia). Qed.
Lemma controller_stamped r q now t times pc v : now <= t -> (q = length times)%nat -> (S (length times) <= r)%nat ->
  controller_ok r q now times pc v -> controller_ok r q t (times ++ [t]) pc v.
Proof.
  intros Ht Hq Hr. destruct pc as [| |s|s b o|s b o|s b o|s b o x| | |e]; cbn; try lia.
  intros (-> & Hr1 & Hb & Hs). split_and!; [done|lia|lia|lia|]. intros u [Hu|[Hu Hm]]%lookup_app_Some; [by apply Hs|].
  destruct (pred r - length times)%nat as [|k]; [|by destruct k]. injection Hm as ->. lia.
Qed.
Lemma controller_answered r q now times pc v : (S q <= r)%nat -> controller_ok r q now times pc v -> controller_ok r (S q) now times pc v.
Proof. intros Hq. destruct pc; cbn; try done; lia. Qed.

Ltac cells := repeat (rewrite fn_lookup_insert || rewrite fn_lookup_insert_ne by discriminate).
Ltac opened := repeat match goal with
  | H : (match ?x with _ => _ end) = Some _ |- _ => destruct x eqn:?; try discriminate H
  | H : (if ?x then _ else _) = Some _ |- _ => destruct x eqn:?; try discriminate H
  end.

Lemma worker_step_inv c s s' : worker_step skew samples c s = Some s' -> inv s -> inv s'.
Proof.
  intros Hs [Hq [Hp Hpi] Hr Hn Ht Hrq Hw Hwv Hc Hb]. unfold worker_step in Hs.
  destruct (hs_worker s) as [| | |k|k|k x|k x|k| |] eqn:Epc; destruct c as [i|t own| |]; try discriminate Hs; cbn in Hw.
  - injection Hs as <-. split; cbn; try done.
  - injection Hs as <-. split; cbn; try done.
  - destruct (may_stamp skew s t) eqn:Em; [|done]. apply may_stamp_spec in Em. injection Hs as <-. split; cbn; try done; [lia| |].
    + eapply Forall_later; [|done]. lia.
    + eapply controller_later; [|done]. lia.
  - injection Hs as <-. split; cbn; unfold after_write; cells; try done. cbn. lia.
  - (* reads the request *)
    destruct (read Acquire Request i _ _) as [[x v]|] eqn:Er; [|done]. cbn in Hs. injection Hs as <-.
    pose proof (proj1 (read_grows _ _ _ _ _ _ _ Er) RemoteCycles). apply read_some in Er as (m & _ & Hm & -> & _).
    destruct (counts_last _ _ _ Hq Hm) as [Hi Hx].
    split; cbn; try done; [|lia]. destruct (Z.eqb_spec (m_val m) k); cbn; lia.
  - (* takes the stamp *)
    destruct (may_stamp skew s t) eqn:Em; [|done]. apply may_stamp_spec in Em. injection Hs as <-.
    destruct Hw as (-> & Hcn & Hqn & Hnr). split; cbn; try done; rewrite ?length_app.
    + by apply shows_times.
    + lia.
    + apply Forall_app. split; [eapply Forall_later; [|done]; lia|]. by repeat constructor.
    + cbn. lia.
    + assert (times_last : (hs_times s ++ [t]) !! last_of (hs_memory s RemoteCycles) = Some (t + skew - skew))
        by (rewrite Hcn, lookup_app_r, Nat.sub_diag by lia; cbn; f_equal; lia).
      destruct own; cbn; split_and!; try done; lia.
    + eapply controller_stamped; [| | |exact Hc]; lia.
  - injection Hs as <-. split; cbn; unfold after_write; cells; try done.
  - (* stores the counter *)
    injection Hs as <-. destruct Hw as (-> & Hn' & Hq' & Hx). pose proof (proj1 Hr).
    split; cbn; unfold after_write; cells; rewrite ?last_of_snoc by done; try done.
    + by apply shows_snoc.
    + lia.
    + unfold last_of. destruct (hs_memory s RemoteCycles); [done|]. cbn. lia.
  - (* answers *)
    injection Hs as <-. destruct Hw as (-> & Hn' & Hq'). pose proof (proj1 Hp) as Hne.
    assert (length (hs_memory s Response) = S (last_of (hs_memory s Response)))
      by (unfold last_of; destruct (hs_memory s Response); done).
    split; cbn; unfold after_write; cells; rewrite ?last_of_snoc by done; try done.
    + split; [apply counts_snoc; [done|lia]|]. apply informs_snoc; [done|]. cbn. unfold after_write. cells. lia.
    + destruct (_ =? _); cbn; lia.
    + apply controller_answered; [lia|done].
Qed.

Lemma keep_best_close before after remote s : 0 <= before -> after < u64_max ->
  before <= remote - skew <= after -> hs_best_round_trip s = u64_max \/ close (hs_best_round_trip s) (hs_best_offset s) ->
  close (hs_best_round_trip (keep_best before after remote s)) (hs_best_offset (keep_best before after remote s)).
Proof.
  intros Hb Ha Hr Hc. unfold keep_best, close in *. pose proof (Z.div_mod (after - before) 2 ltac:(lia)).
  pose proof (Z.mod_pos_bound (after - before) 2 ltac:(lia)).
  destruct (Z.ltb_spec (after - before) (hs_best_round_trip s)); cbn; lia.
Qed.
(** A better best changes nothing else. *)
Lemma keep_best_set before after remote s : keep_best before after remote s =
  set_best (hs_best_round_trip (keep_best before after remote s)) (hs_best_offset (keep_best before after remote s)) s.
Proof. unfold keep_best. destruct (_ <? _); [done|by destruct s]. Qed.
Lemma conclude_ok best offset : close best offset -> best_ok (K_ended (conclude_estimate offset best)) best offset.
Proof.
  intros Hc. split; [by right|]. unfold conclude_estimate. destruct (_ && _); [|done]. cbn. unfold close in Hc.
  pose proof (Z.div_mod best 2 ltac:(lia)). pose proof (Z.mod_pos_bound best 2 ltac:(lia)). lia.
Qed.

(** The estimator is in a round trip. *)
Definition in_round (pc : estimate_pc) : bool :=
  match pc with
  | K_before _ | K_request _ _ _ | K_response _ _ _ | K_remote _ _ _ | K_after _ _ _ _ => true
  | K_ready | K_aux | K_join | K_check | K_ended _ => false
  end.
Lemma estimator_round_trips c s s' : estimator_step skew samples c s = Some s' -> in_round (hs_controller s) = true -> inv s -> inv s'.
Proof.
  intros Hs Hphase [Hq [Hp Hpi] Hr Hn Ht Hrq Hw Hwv Hc [Hbest Hb]]. unfold estimator_step in Hs. pose proof (worker_bounds _ _ _ _ _ _ Hw).
  destruct (hs_controller s) as [| |k|k b o|k b o|k b o|k b o x| | |e] eqn:Epc; try discriminate Hphase; clear Hphase;
    destruct c as [i|t own| |]; try discriminate Hs; cbn in Hc.
  - (* stamps *)
    destruct (may_stamp skew s t) eqn:Em; [|done]. apply may_stamp_spec in Em. injection Hs as <-. split; cbn; try done; [lia| |lia].
    eapply Forall_later; [|done]. lia.
  - (* requests *)
    injection Hs as <-. destruct Hc as (-> & Hqr & Hbn). pose proof (proj1 Hq).
    assert (length (hs_memory s Request) = S (last_of (hs_memory s Request))) by (unfold last_of; destruct (hs_memory s Request); done).
    split; cbn; unfold after_write; cells; rewrite ?last_of_snoc by done; try done.
    + apply counts_snoc; [done|lia].
    + lia.
    + destruct (hs_worker s); cbn in *; lia.
    + split_and!; try lia. intros u Hu%lookup_lt_Some. cbn in Hu. lia.
  - (* polls *)
    destruct (read Acquire Response i _ _) as [[x v]|] eqn:Er; [|done]. cbn in Hs. injection Hs as <-. destruct Hc as (-> & Hr1 & Hbn & Hst).
    pose proof (proj1 (read_grows _ _ _ _ _ _ _ Er) RemoteCycles). pose proof (read_some _ _ _ _ _ _ _ Er) as (m & _ & Hm & -> & _).
    pose proof (read_acquires _ _ _ _ _ _ _ Er Hm RemoteCycles). pose proof (Hpi _ _ Hm).
    destruct (counts_last _ _ _ Hp Hm) as [Hi Hx].
    split; cbn; try done; destruct (Z.eqb_spec (m_val m) (Z.of_nat (last_of (hs_memory s Request)))); cbn; try done. split_and!; lia || done.
  - (* reads the counter *)
    destruct (read Relaxed RemoteCycles i _ _) as [[x v]|] eqn:Er; [|done]. cbn in Hs. injection Hs as <-.
    destruct Hc as (-> & Hr1 & Hqr & Hv & Hbn & Hst). apply read_some in Er as (m & Hvi & Hm & -> & _).
    pose proof (last_of_lt _ _ _ Hm). assert (i = last_of (hs_memory s Request)) as -> by lia.
    split; cbn; try done. split_and!; try lia.
    all: destruct Hr as [_ Hr], (last_of (hs_memory s Request)) as [|j]; [lia|].
    all: destruct (Hr j m Hm) as (u & Hu & ->); pose proof (Hst u Hu).
    all: pose proof (proj1 (Forall_lookup _ _) Ht _ _ Hu) as Hun; cbn in Hun; lia.
  - (* the second stamp *)
    destruct (may_stamp skew s t) eqn:Em; [|done]. apply may_stamp_spec in Em. destruct Hc as (-> & Hr1 & Hqr & Hb0 & Hx).
    destruct (_ || _) eqn:Eg; injection Hs as <-.
    + split; cbn; try done; [lia|]. eapply Forall_later; [|done]. lia.
    + set (pc := if _ =? samples then _ else _). set (s1 := set_time _ _).
      pose proof (keep_best_close b t x s1 Hb0 ltac:(lia) ltac:(lia) Hbest) as Hk. rewrite keep_best_set.
      set (best := hs_best_round_trip (keep_best _ _ _ _)) in *. set (offset := hs_best_offset (keep_best _ _ _ _)) in *.
      clearbody best offset. clear Hbest Hb.
      split; cbn; try done; [lia| | |].
      * eapply Forall_later; [|done]. lia.
      * subst pc. destruct (_ =? samples); cbn; lia.
      * subst pc. split; [by right|]. destruct (_ =? samples); [done|by right].
Qed.
Lemma estimator_opens_and_closes c s s' : estimator_step skew samples c s = Some s' -> in_round (hs_controller s) = false -> inv s -> inv s'.
Proof.
  intros Hs Hphase [Hq [Hp Hpi] Hr Hn Ht Hrq Hw Hwv Hc [Hbest Hb]]. unfold estimator_step in Hs. pose proof (worker_bounds _ _ _ _ _ _ Hw).
  destruct (hs_controller s) as [| |k|k b o|k b o|k b o|k b o x| | |e] eqn:Epc; try discriminate Hphase; clear Hphase;
    destruct c as [i|t own| |]; try discriminate Hs; cbn in Hc.
  - (* ready? *)
    destruct (read _ _ _ _ _) as [[x v]|] eqn:Er; [|done]. cbn in Hs. injection Hs as <-.
    split; cbn; try done; [destruct (x =? 0); done|]. split; [done|]. destruct (x =? 0); done.
  - injection Hs as <-. split; cbn; done.
  - destruct (may_stamp skew s t) eqn:Em; [|done]. apply may_stamp_spec in Em. injection Hs as <-. split; cbn; try done; [lia| |lia|].
    + eapply Forall_later; [|done]. lia.
    + by split; [|left].
  - (* joins *)
    destruct (hs_worker s) eqn:Ew; try discriminate Hs; injection Hs as <-; split; cbn; rewrite ?Ew; done.
  - (* concludes *)
    destruct (read _ _ _ _ _) as [[x v]|] eqn:Er; [|done]. cbn in Hs. injection Hs as <-.
    split; cbn -[best_ok]; try done. destruct (x =? 0); [by apply conclude_ok|by split].
Qed.
Lemma estimator_step_inv c s s' : estimator_step skew samples c s = Some s' -> inv s -> inv s'.
Proof. intros Hs. destruct (in_round (hs_controller s)) eqn:E; [by eapply estimator_round_trips|by eapply estimator_opens_and_closes]. Qed.

Lemma hs_run_inv es s s' : hs_run skew samples es s = Some s' -> inv s -> inv s'.
Proof.
  induction es as [|[c|c] es IH] in s |- *; cbn; [by intros [= <-]|..]; intros (s1 & Hs & Hr)%bind_Some Hi;
    (eapply IH; [exact Hr|]); [by eapply worker_step_inv|by eapply estimator_step_inv].
Qed.
End invariant.

(** An estimate of [n] samples in which nobody waits: the events of one round trip. *)
Definition one_sample (before stamped after : Z) (i : nat) : list hs_event :=
  [Estimator (TakeStamp before true); Estimator Proceeds; Worker (ReadMessage i); Worker (TakeStamp stamped true); Worker Proceeds;
   Worker Proceeds; Estimator (ReadMessage i); Estimator (ReadMessage i); Estimator (TakeStamp after true)].
Definition opening (t : Z) : list hs_event :=
  [Estimator (ReadMessage 0); Worker Proceeds; Worker (TakeStamp t true); Estimator (ReadMessage 0); Worker Proceeds;
   Estimator (ReadMessage 1); Estimator (TakeStamp t true)].
Definition closing : list hs_event := [Estimator Proceeds; Estimator (ReadMessage 0)].

(** A value that is the real one up to the reported uncertainty and one cycle. *)
Definition estimates (uncertainty x real : Z) : Prop := Z.abs (x - real) <= uncertainty + 1.

(** The waiter-minus-producer offset of [estimate_remote_tsc_offset] bounds the real skew of the two counters.
    Whatever the interleaving of the two threads, whichever older messages their loads return and whatever the times of the stamps, an estimate that is
    accepted is at most the reported uncertainty and one cycle away from the skew, and so is every latency corrected with it from
    the real time between the two stamps. *)
Theorem skew_estimate_sound (skew samples : Z) (s : handshake) (offset uncertainty : Z) :
  1 <= samples -> hs_reachable skew samples s -> hs_controller s = K_ended (Ok (offset, uncertainty)) ->
  estimates uncertainty offset skew /\
  forall sent received corrected,
    0 <= (received + skew) - sent <= u64_max -> - 2 ^ 63 <= offset < 2 ^ 63 ->
    correct_latency ((received + skew) - sent) offset = Some corrected ->
    estimates uncertainty corrected (received - sent).
Proof.
  intros Hn (now & es & Hnow & Hr) Hk. pose proof (hs_run_inv _ _ _ _ _ Hr (inv_start _ now Hnow)) as [_ _ _ _ _ _ _ _ _ [_ Hb]].
  rewrite Hk in Hb. unfold estimates. split; [done|]. intros sent received corrected Hraw Ho. unfold correct_latency, i128_wrap, u64_max in *.
  rewrite (Z.mod_small (received + skew - sent - offset + 2 ^ 127)) by lia. destruct (_ && _); [|done]. intros [= <-]. lia.
Qed.
Lemma skew_estimate_sound_witness :
  exists s, hs_reachable 40 2 s /\ hs_controller s = K_ended (Ok (40, 2)) /\ estimates 2 40 40.
Proof.
  destruct (hs_run 40 2 (opening 0 ++ one_sample 10 15 20 1 ++ one_sample 30 32 34 2 ++ closing) (hs_start 0)) as [s|] eqn:E;
    [|exfalso; revert E; vm_compute; discriminate].
  assert (Hk : hs_controller s = K_ended (Ok (40, 2))) by (revert E; vm_compute; intros [= <-]; reflexivity).
  assert (Hr : hs_reachable 40 2 s) by (exists 0, (opening 0 ++ one_sample 10 15 20 1 ++ one_sample 30 32 34 2 ++ closing); split; [lia|exact E]).
  exists s. split; [exact Hr|]. split; [exact Hk|]. exact (proj1 (skew_estimate_sound 40 2 s 40 2 ltac:(lia) Hr Hk)).
Defined.

(** The extra cycle is needed: halves are rounded down, in the midpoint and in the uncertainty. *)
Lemma skew_estimate_rounds_down :
  exists s, hs_reachable 40 1 s /\ hs_controller s = K_ended (Ok (42, 1)).
Proof.
  destruct (hs_run 40 1 (opening 0 ++ one_sample 10 13 13 1 ++ closing) (hs_start 0)) as [s|] eqn:E;
    [|exfalso; revert E; vm_compute; discriminate].
  exists s. split; [|revert E; vm_compute; intros [= <-]; reflexivity].
  exists 0, (opening 0 ++ one_sample 10 13 13 1 ++ closing). split; [lia|exact E].
Qed.
