(* ===== verification/Measure.v ===== *)
(** * Trials, repetitions and summaries of the benchmark (benches/wake_latency.rs)

    From what the threads of a trial return to the summary of a case. The threads themselves are the
    subject of [Trial]; here their results are inputs. Floats are those of [Clock]. *)

From stdpp Require Import pretty sorting.
From Stdlib Require Import SpecFloat.
From S2P Require Import Prelude BenchFs Errors Pure BenchCases Clock.
Open Scope Z_scope.
Open Scope snz_scope.

(** [Duration::as_secs_f64] *)
Definition as_secs_f64 (nanos : Z) : spec_float :=
  f64_add (f64_of_usize (nanos / 1000000000)) (f64_div (f64_of_usize (nanos mod 1000000000)) (f64_of_usize 1000000000)).

(** ** Trials *)

Record VictimMetrics := mkVictim {
  vm_operations : Z;
  vm_elapsed_nanos : Z;
  vm_p99_chunk_ns : Z;
}.
Definition throughput_mops (v : VictimMetrics) : spec_float :=
  f64_div (f64_div (f64_of_usize (vm_operations v)) (as_secs_f64 (vm_elapsed_nanos v))) (f64_of_usize 1000000).

Record ContenderTrial := mkContender { ct_waiter : WaiterMetrics; ct_victim : VictimMetrics }.

(** [victim_loop]: what the stamps around its chunks of work and the time it took make of it; [None] stands for a panic. The work itself goes to
    [black_box] only. *)
Definition VICTIM_CHUNK_OPERATIONS : Z := 4096.
Record Chunk := mkChunk { ch_start : Z; ch_start_aux : Z; ch_end : Z; ch_end_aux : Z }.
Fixpoint victim_chunks (cycles_per_ns : spec_float) (expected_aux : Z) (l : list Chunk) (chunks : list Z) (operations : Z)
  : result (list Z * Z) string :=
  match l with
  | [] => Ok (chunks, operations)
  | c :: l =>
      if negb (ch_start_aux c =? expected_aux) || negb (ch_end_aux c =? expected_aux) || (ch_end c <? ch_start c)
      then Err "victim migrated or observed a non-monotonic TSC"%string
      else victim_chunks cycles_per_ns expected_aux l (chunks ++ [cycles_to_ns cycles_per_ns (ch_end c - ch_start c)])
             (Z.min u64_max (operations + VICTIM_CHUNK_OPERATIONS))
  end.
Definition percentile (values : list Z) (quantile : spec_float) : option Z := percentile_sorted (merge_sort Z.le values) quantile.
Definition victim_loop (cycles_per_ns : spec_float) (expected_aux : Z) (l : list Chunk) (elapsed_nanos : Z)
  : option (result VictimMetrics string) :=
  match victim_chunks cycles_per_ns expected_aux l [] 0 with
  | Err e => Some (Err e)
  | Ok (chunks, operations) =>
      if bool_decide (chunks = []) || (elapsed_nanos =? 0) then Some (Err "victim produced no measurable chunks"%string)
      else p99 ← percentile chunks f64_0_99; Some (Ok (mkVictim operations elapsed_nanos p99))
  end.

(** An error of a trial: of its sample set, or any other, by its message. *)
Inductive TrialError := SampleSet (e : SampleSetError) | OtherTrial (message : string).

(** What joining the threads of a contender's trial gives; the std-park trial can fail before, waiting
    for the waiter's handle. *)
Inductive Threads :=
| NoHandle
| Joined (drive : result unit string) (waiter : result WaiterMetrics string) (producer : result unit string)
    (victim : result VictimMetrics string).
Definition other {A} (r : result A string) : result A TrialError :=
  match r with Ok x => Ok x | Err e => Err (OtherTrial e) end.

(** The common end of [run_direct], [run_parker] and [run_std_park] *)
Definition conclude_trial (threads : Threads) (max_samples : Z) : result ContenderTrial TrialError :=
  match threads with
  | NoHandle => Err (OtherTrial "timed out waiting on channel")
  | Joined drive waiter producer victim =>
      _ <-? other drive;
      waiter_metrics <-? other waiter;
      _ <-? other producer;
      victim_metrics <-? other victim;
      match validate_sample_set (wm_sample_limit_reached waiter_metrics)
              (Z.of_nat (length (wm_latencies_cycles waiter_metrics))) max_samples with
      | Err e => Err (SampleSet e)
      | Ok _ => Ok (mkContender waiter_metrics victim_metrics)
      end
  end.

(** What the threads of [run_victim_control] do: the startup fails, or the worker ends. *)
Inductive ControlThreads := StartupFailed | WorkerResult (r : result VictimMetrics string).
Definition run_victim_control (threads : ControlThreads) : result VictimMetrics string :=
  match threads with
  | StartupFailed => Err "control victim did not reach the start barrier"%string
  | WorkerResult r => r
  end.

Inductive RunCaseError :=
| UnsupportedCase (reason : string)
| CaseCapExhausted (e : SampleSetError)
| CaseFailed (e : TrialError).
Definition from_trial (e : TrialError) : RunCaseError :=
  match e with
  | SampleSet (SampleCapExhausted n) => CaseCapExhausted (SampleCapExhausted n)
  | SampleSet EmptySamples => CaseFailed (SampleSet EmptySamples)
  | OtherTrial m => CaseFailed (OtherTrial m)
  end.

(** The constructors of the strategies that may refuse, by their errors' messages, and the feature benchmark-only. *)
Record Constructors := mkConstructors {
  co_hardware_wait : result unit string;
  co_spin_then_hardware_wait : N -> result unit string;
  co_amd_mwaitx_c1 : result unit string;
  co_benchmark_only : bool;
}.
(** What [run_case] does before it starts the threads: an error, or the trial. *)
Definition run_strategy (c : Case) : result unit RunCaseError :=
  match c_surface c with
  | SurfaceStdPark => Err (CaseFailed (OtherTrial "library strategy cannot use the std-park surface"))
  | _ => Ok tt
  end.
Definition supported (r : result unit string) : result unit RunCaseError :=
  match r with Ok _ => Ok tt | Err reason => Err (UnsupportedCase reason) end.
Definition prepare_case (co : Constructors) (c : Case) : result unit RunCaseError :=
  match c_strategy c with
  | SK_BusySpin | SK_SpinThenYield _ => run_strategy c
  | SK_HardwareWait _ => _ <-? supported (co_hardware_wait co); run_strategy c
  | SK_SpinThenHardwareWait _ n => _ <-? supported (co_spin_then_hardware_wait co n); run_strategy c
  | SK_AmdMwaitxC1 =>
      if co_benchmark_only co then _ <-? supported (co_amd_mwaitx_c1 co); run_strategy c
      else Err (UnsupportedCase "diagnostic C1 requires the benchmark-only feature")
  | SK_StdPark =>
      match c_surface c, c_filtering c with
      | SurfaceStdPark, Raw => Ok tt
      | _, _ => Err (CaseFailed (OtherTrial "invalid std-park case"))
      end
  end.

(** ** Repetitions *)

Record RepetitionResult := mkRepetition {
  re_repetition : Z;
  re_control_first : bool;
  re_samples : Z;
  re_p50_cycles : Z; re_p90_cycles : Z; re_p99_cycles : Z; re_p999_cycles : Z; re_max_cycles : Z;
  re_p50_ns : Z; re_p90_ns : Z; re_p99_ns : Z; re_p999_ns : Z; re_max_ns : Z;
  re_unclassified_wakes : option Z;
  re_public_timeouts : Z;
  re_invalid_samples : Z;
  re_migrated_samples : Z;
  re_sample_limit_reached : bool;
  re_victim_control_mops : spec_float;
  re_victim_contender_mops : spec_float;
  re_victim_control_p99_ns : Z;
  re_victim_contender_p99_ns : Z;
  re_throughput_loss_percent : spec_float;
  re_victim_p99_degradation_percent : spec_float;
  re_raw_latency_cycles : list Z;
}.

(** Every error of a repetition or a summary is a message; [None] stands for a panic. *)
Definition Checked (A : Type) : Type := option (result A string).
#[export] Instance checked_ret : MRet Checked := fun A x => Some (Ok x).
#[export] Instance checked_bind : MBind Checked := fun A B k m =>
  match m with None => None | Some (Err e) => Some (Err e) | Some (Ok x) => k x end.
Definition refuse {A} (message : string) : Checked A := Some (Err message).
Definition unwrapped {A} (o : option A) : Checked A := x ← o; Some (Ok x).

Definition f64_0_90 : spec_float := S754_finite false 8106479329266893 (-53).
Definition f64_100 : spec_float := f64_of_usize 100.

(** The loop that corrects the latencies, with the counter it captures. *)
Definition correct_all (raw : list Z) (correction_cycles invalid_samples : Z) : list Z * Z :=
  foldl (fun '(kept, invalid) raw_cycles =>
    match correct_latency raw_cycles correction_cycles with
    | Some c => (kept ++ [c], invalid)
    | None => (kept, Z.min u64_max (invalid + 1))
    end) ([], invalid_samples) raw.

Definition percent_change (baseline measured : Z) : Checked spec_float :=
  if baseline =? 0 then refuse "zero baseline cannot produce a percentage change"
  else mret (f64_mul (f64_div (f64_sub (f64_of_usize measured) (f64_of_usize baseline)) (f64_of_usize baseline)) f64_100).

Definition repetition_new (cycles_per_ns : spec_float) (repetition : Z) (control_first : bool) (control : VictimMetrics)
    (contender : ContenderTrial) (correction_cycles : Z) : Checked RepetitionResult :=
  let cycles_to_ns := cycles_to_ns cycles_per_ns in
  let waiter := ct_waiter contender in
  let '(raw_latency_cycles, invalid_samples) :=
    correct_all (wm_latencies_cycles waiter) correction_cycles (wm_invalid_samples waiter) in
  if bool_decide (raw_latency_cycles = []) then refuse "TSC correction invalidated every latency sample"
  else
    let latencies := merge_sort Z.le raw_latency_cycles in
    p50_cycles ← unwrapped (percentile_sorted latencies f64_0_5);
    p90_cycles ← unwrapped (percentile_sorted latencies f64_0_90);
    p99_cycles ← unwrapped (percentile_sorted latencies f64_0_99);
    p999_cycles ← unwrapped (percentile_sorted latencies f64_0_999);
    max_cycles ← (match last latencies with Some c => mret c | None => refuse "latency sample set is empty" end);
    let control_mops := throughput_mops control in
    let contender_mops := throughput_mops (ct_victim contender) in
    if negb (is_finite control_mops) || SFleb control_mops (S754_zero false)
    then refuse "invalid victim-only control throughput"
    else
      degradation ← percent_change (vm_p99_chunk_ns control) (vm_p99_chunk_ns (ct_victim contender));
      mret (mkRepetition repetition control_first (Z.of_nat (length latencies))
        p50_cycles p90_cycles p99_cycles p999_cycles max_cycles
        (cycles_to_ns p50_cycles) (cycles_to_ns p90_cycles) (cycles_to_ns p99_cycles) (cycles_to_ns p999_cycles)
        (cycles_to_ns max_cycles)
        (wm_unclassified_wakes waiter) (wm_public_timeouts waiter) invalid_samples (wm_migrated_samples waiter)
        (wm_sample_limit_reached waiter) control_mops contender_mops
        (vm_p99_chunk_ns control) (vm_p99_chunk_ns (ct_victim contender))
        (f64_mul (f64_div (f64_sub control_mops contender_mops) control_mops) f64_100)
        degradation raw_latency_cycles).

(** [result.raw_latency_cycles.clear()] *)
Definition clear_raw (r : RepetitionResult) : RepetitionResult :=
  mkRepetition (re_repetition r) (re_control_first r) (re_samples r) (re_p50_cycles r) (re_p90_cycles r) (re_p99_cycles r)
    (re_p999_cycles r) (re_max_cycles r) (re_p50_ns r) (re_p90_ns r) (re_p99_ns r) (re_p999_ns r) (re_max_ns r)
    (re_unclassified_wakes r) (re_public_timeouts r) (re_invalid_samples r) (re_migrated_samples r)
    (re_sample_limit_reached r) (re_victim_control_mops r) (re_victim_contender_mops r) (re_victim_control_p99_ns r)
    (re_victim_contender_p99_ns r) (re_throughput_loss_percent r) (re_victim_p99_degradation_percent r) [].

(** ** Summaries *)

Definition MAX_THROUGHPUT_LOSS_PERCENT : spec_float := f64_of_usize 5.
Definition MAX_P99_DEGRADATION_PERCENT : spec_float := f64_of_usize 10.
(** [u64] sums, which wrap in a release build *)
Definition sum_u64 (l : list Z) : Z := foldr Z.add 0 l mod 2 ^ 64.

Definition from_repetitions (case : Case) (workload : Workload) (repetitions : list RepetitionResult) : Checked Summary :=
  if bool_decide (length repetitions = 0%nat) then refuse "cannot summarize an empty repetition set"
  else
    let median f := unwrapped (median_u64 (f <$> repetitions)) in
    p50_cycles ← median re_p50_cycles;
    p99_cycles ← median re_p99_cycles;
    p999_cycles ← median re_p999_cycles;
    p50_ns ← median re_p50_ns;
    p99_ns ← median re_p99_ns;
    p999_ns ← median re_p999_ns;
    throughput_loss ← unwrapped (median_f64 (re_throughput_loss_percent <$> repetitions));
    degradation ← unwrapped (median_f64 (re_victim_p99_degradation_percent <$> repetitions));
    let invalid_samples := sum_u64 (re_invalid_samples <$> repetitions) in
    let migrated_samples := sum_u64 (re_migrated_samples <$> repetitions) in
    let sample_limit_reached := existsb re_sample_limit_reached repetitions in
    mret (mkSummary case workload (Z.of_nat (length repetitions)) p50_cycles p99_cycles p999_cycles p50_ns p99_ns p999_ns
      throughput_loss degradation invalid_samples migrated_samples sample_limit_reached
      (SFleb throughput_loss MAX_THROUGHPUT_LOSS_PERCENT && SFleb degradation MAX_P99_DEGRADATION_PERCENT
       && (invalid_samples =? 0) && (migrated_samples =? 0) && negb sample_limit_reached)).

(** ** Result lines *)

(** One line of the results, except the metadata. *)
Inductive Line :=
| RepetitionLine (case : Case) (workload : Workload) (value : RepetitionResult)
| SamplesLine (case : Case) (workload : Workload) (repetition : Z) (values : list Z)
| SkipLine (case : Case) (workload : Workload) (reason : string)
| SummaryLine (summary : Summary)
| WinnerLine (winner : Summary)
| NoWinnerLine (workload : Workload).

(** *** Numbers: [{}] of an unsigned and of a signed integer, and [{:.d}] of a float, rounded to even *)

Definition number (n : Z) : string := pretty (Z.to_N n).
Definition signed (n : Z) : string := if n <? 0 then "-" +:+ number (- n) else number n.
Definition round_half_even (n d : Z) : Z :=
  let q := n / d in
  let r := n mod d in
  if (2 * r <? d) || ((2 * r =? d) && Z.even q) then q else q + 1.
Fixpoint zeros (n : nat) : string := match n with O => EmptyString | S n => "0"%string +:+ zeros n end.
Definition padded (d : nat) (s : string) : string := zeros (d - String.length s) +:+ s.
Definition decimal (d : nat) (n : Z) : string :=
  number (n / 10 ^ Z.of_nat d) +:+ "." +:+ padded d (number (n mod 10 ^ Z.of_nat d)).
Definition fixed (d : nat) (f : spec_float) : string :=
  let signed (s : bool) (t : string) := if s then "-" +:+ t else t in
  match f with
  | S754_nan => "NaN"%string
  | S754_infinity s => signed s "inf"%string
  | S754_zero s => signed s (decimal d 0)
  | S754_finite s m e =>
      signed s (decimal d (if 0 <=? e then Zpos m * 2 ^ e * 10 ^ Z.of_nat d
                           else round_half_even (Zpos m * 10 ^ Z.of_nat d) (2 ^ (- e))))
  end.
Definition fixed6 : spec_float -> string := fixed 6.

(** *** The text of a line, as the format strings write it *)

(** [json_escape] of an ASCII text *)
Definition scalars (s : string) : list Z := (fun c => Z.of_nat (Ascii.nat_of_ascii c)) <$> String.list_ascii_of_string s.
Definition escaped (s : string) : string :=
  String.string_of_list_ascii ((fun c => Ascii.ascii_of_nat (Z.to_nat c)) <$> json_escape (scalars s)).
Definition quoted (s : string) : string := quote +:+ s +:+ quote.
Definition boolean (b : bool) : string := if b then "true" else "false".
Definition member (f : string * string) : string := quoted f.1 +:+ ":" +:+ f.2.
Definition object (fields : list string) : string := "{" +:+ String.concat "," fields +:+ "}".

Open Scope string_scope.
Definition line_text (l : Line) : string :=
  match l with
  | RepetitionLine c w v =>
      object (member <$> [
        ("type", quoted "repetition"); ("case", quoted (escaped (case_name c))); ("workload", quoted (workload_str w));
        ("repetition", number (re_repetition v)); ("control_first", boolean (re_control_first v));
        ("samples", number (re_samples v));
        ("latency_cycles", object (member <$> [("p50", number (re_p50_cycles v)); ("p90", number (re_p90_cycles v));
           ("p99", number (re_p99_cycles v)); ("p999", number (re_p999_cycles v)); ("max", number (re_max_cycles v))]));
        ("latency_ns", object (member <$> [("p50", number (re_p50_ns v)); ("p90", number (re_p90_ns v));
           ("p99", number (re_p99_ns v)); ("p999", number (re_p999_ns v)); ("max", number (re_max_ns v))]));
        ("unclassified_wakes", match re_unclassified_wakes v with Some n => number n | None => "null" end);
        ("public_timeouts", number (re_public_timeouts v)); ("invalid_samples", number (re_invalid_samples v));
        ("migrated_samples", number (re_migrated_samples v)); ("sample_limit_reached", boolean (re_sample_limit_reached v));
        ("victim", object (member <$> [("control_mops", fixed6 (re_victim_control_mops v));
           ("contender_mops", fixed6 (re_victim_contender_mops v));
           ("control_p99_chunk_ns", number (re_victim_control_p99_ns v));
           ("contender_p99_chunk_ns", number (re_victim_contender_p99_ns v));
           ("throughput_loss_percent", fixed6 (re_throughput_loss_percent v));
           ("p99_degradation_percent", fixed6 (re_victim_p99_degradation_percent v))]))])
  | SamplesLine c w r values =>
      object (member <$> [
        ("type", quoted "latency_samples"); ("case", quoted (escaped (case_name c))); ("workload", quoted (workload_str w));
        ("repetition", number r); ("unit", quoted "TSC cycles"); ("tsc_offset_correction", quoted "applied");
        ("order", quoted "observation"); ("values", "[" +:+ String.concat "," (number <$> values) +:+ "]")])
  | SkipLine c w reason =>
      object (member <$> [
        ("type", quoted "skip"); ("case", quoted (escaped (case_name c))); ("workload", quoted (workload_str w));
        ("reason", quoted (escaped reason))])
  | SummaryLine s =>
      object ((member <$> [
        ("type", quoted "summary"); ("case", quoted (escaped (case_name (su_case s)))); ("workload", quoted (workload_str (su_workload s)));
        ("repetitions", number (su_repetitions s))])
      ++ [median_latency_json_fields (su_p50_cycles s) (su_p99_cycles s) (su_p999_cycles s) (su_p50_ns s) (su_p99_ns s)
            (su_p999_ns s)]
      ++ (member <$> [
        ("median_victim_throughput_loss_percent", fixed6 (su_throughput_loss_percent s));
        ("median_victim_p99_degradation_percent", fixed6 (su_victim_p99_degradation_percent s));
        ("invalid_samples", number (su_invalid_samples s)); ("migrated_samples", number (su_migrated_samples s));
        ("sample_limit_reached", boolean (su_sample_limit_reached s)); ("eligible", boolean (su_eligible s))]))%list
  | WinnerLine s =>
      object ((member <$> [
        ("type", quoted "winner"); ("workload", quoted (workload_str (su_workload s))); ("case", quoted (escaped (case_name (su_case s))))])
      ++ [median_latency_json_fields (su_p50_cycles s) (su_p99_cycles s) (su_p999_cycles s) (su_p50_ns s) (su_p99_ns s)
            (su_p999_ns s)])%list
  | NoWinnerLine w =>
      object (member <$> [("type", quoted "winner"); ("workload", quoted (workload_str w)); ("case", "null")])
  end.
Close Scope string_scope.

(** ** Lemmas *)

Lemma checked_ok {A B} (m : Checked A) (k : A -> Checked B) y :
  m ≫= k = Some (Ok y) -> exists x, m = Some (Ok x) /\ k x = Some (Ok y).
Proof. destruct m as [[x|e]|]; intros E; try done. by exists x. Qed.
Lemma unwrapped_ok {A} (o : option A) x : unwrapped o = Some (Ok x) <-> o = Some x.
Proof. unfold unwrapped. destruct o; cbn; naive_solver. Qed.

(** *** Nothing panics: no index is out of range *)

Lemma percentile_total values q : values <> [] -> is_Some (percentile_sorted values q).
Proof.
  intros Hv. unfold percentile_sorted. destruct (Z.eqb_spec (Z.of_nat (length values)) 0) as [Hl|Hl].
  { destruct values; [done|cbn in Hl; lia]. }
  apply lookup_lt_is_Some. unfold sat_sub. lia.
Qed.
Lemma percentile_unsorted values q : values <> [] -> is_Some (percentile values q).
Proof. intros Hv. by apply percentile_total, merge_sort_nonempty. Qed.
Lemma checked_total {A B} (p : Checked A) (k : A -> Checked B) : p <> None -> (forall x, k x <> None) -> p ≫= k <> None.
Proof. destruct p as [[x|e]|]; [intros _ Hk; apply Hk|done|done]. Qed.
Lemma unwrapped_total {A} (o : option A) : is_Some o -> unwrapped o <> None.
Proof. by intros [x ->]. Qed.

Lemma repetition_total cpn k first control contender correction : repetition_new cpn k first control contender correction <> None.
Proof.
  unfold repetition_new. destruct (correct_all _ _ _) as [raw invalid]. case_bool_decide as Hraw; [done|]. cbv zeta.
  pose proof (merge_sort_nonempty Z.le raw Hraw) as Hl.
  do 4 (apply checked_total; [by apply unwrapped_total, percentile_total|]; intros ?).
  apply checked_total; [by destruct (last _)|]. intros x5. case_match; [done|].
  apply checked_total; [unfold percent_change; by case_match|done].
Qed.
Lemma summary_total c w rs : from_repetitions c w rs <> None.
Proof.
  unfold from_repetitions. case_bool_decide as Hl; [done|]. assert (Hrs : forall B (f : _ -> B), f <$> rs <> []) by (by destruct rs).
  do 6 (apply checked_total; [by apply unwrapped_total, half_lookup, merge_sort_nonempty, Hrs|]; intros ?).
  do 2 (apply checked_total; [by apply unwrapped_total, half_lookup, merge_sort_nonempty, Hrs|]; intros ?). done.
Qed.

(** *** The victim *)

(** Every chunk is counted, on one processor and in order, or the trial fails. *)
Definition chunk_ok (expected_aux : Z) (c : Chunk) : Prop :=
  ch_start_aux c = expected_aux /\ ch_end_aux c = expected_aux /\ ch_start c <= ch_end c.
Lemma victim_chunks_ok cpn aux l chunks n : 0 <= n <= u64_max ->
  match victim_chunks cpn aux l chunks n with
  | Ok (chunks', n') =>
      Forall (chunk_ok aux) l /\ chunks' = chunks ++ ((fun c => cycles_to_ns cpn (ch_end c - ch_start c)) <$> l) /\
      n' = Z.min u64_max (n + VICTIM_CHUNK_OPERATIONS * Z.of_nat (length l))
  | Err _ => ~ Forall (chunk_ok aux) l
  end.
Proof.
  revert chunks n. induction l as [|c l IH]; intros chunks n Hn; cbn [victim_chunks].
  - cbn [length fmap list_fmap]. rewrite app_nil_r. split; [done|]. split; [done|]. unfold VICTIM_CHUNK_OPERATIONS. lia.
  - destruct (_ || _) eqn:E.
    + intros [(H1 & H2 & H3) _]%Forall_cons. rewrite H1, H2, !Z.eqb_refl in E. cbn in E. lia.
    + assert (Hc : chunk_ok aux c) by (unfold chunk_ok; lia). specialize (IH (chunks ++ [cycles_to_ns cpn (ch_end c - ch_start c)])
        (Z.min u64_max (n + VICTIM_CHUNK_OPERATIONS)) ltac:(unfold VICTIM_CHUNK_OPERATIONS, u64_max in *; lia)).
      destruct (victim_chunks _ _ _ _ _) as [[chunks' n']|e].
      * destruct IH as (Hl & -> & ->). split; [by constructor|]. split; [by rewrite <- app_assoc|].
        unfold VICTIM_CHUNK_OPERATIONS, u64_max in *. cbn [length]. lia.
      * intros [_ Hl]%Forall_cons. done.
Qed.
Lemma victim_total cpn aux l elapsed : victim_loop cpn aux l elapsed <> None.
Proof.
  unfold victim_loop. destruct (victim_chunks _ _ _ _ _) as [[chunks n]|e]; [|done]. case_bool_decide as Hc; [done|]. cbn.
  destruct (elapsed =? 0); [done|]. destruct (percentile_unsorted chunks f64_0_99 Hc) as [p ->]. done.
Qed.
Lemma victim_loop_ok cpn aux l elapsed v : victim_loop cpn aux l elapsed = Some (Ok v) ->
  Forall (chunk_ok aux) l /\ l <> [] /\ vm_elapsed_nanos v = elapsed /\ elapsed <> 0 /\
  vm_operations v = Z.min u64_max (VICTIM_CHUNK_OPERATIONS * Z.of_nat (length l)) /\
  vm_p99_chunk_ns v ∈ ((fun c => cycles_to_ns cpn (ch_end c - ch_start c)) <$> l).
Proof.
  unfold victim_loop. pose proof (victim_chunks_ok cpn aux l [] 0 ltac:(unfold u64_max; lia)) as H.
  destruct (victim_chunks _ _ _ _ _) as [[chunks n]|e]; [|done]. destruct H as (Hl & -> & ->). cbn [app].
  case_bool_decide as Hc; [done|]. cbn. destruct (Z.eqb_spec elapsed 0); [done|]. intros (p & Hp & [= <-])%bind_Some. cbn.
  repeat split; try done.
  - by intros ->.
  - unfold percentile, percentile_sorted in Hp. destruct (_ =? 0); [done|]. apply list_elem_of_lookup_2 in Hp. by rewrite merge_sort_Permutation in Hp.
Qed.
