(* ===== verification/FloatRange.v ===== *)
(** * No float of the results overflows

    Bounds on the magnitude of the standard library's floats through a rounded operation, and what they give for the benchmark: the
    numbers that it computes from counters, durations and operation counts of machine width are finite. The magnitude of a
    float is the exponent of the least power of two above it. *)

From stdpp Require Import sorting.
From Stdlib Require Import SpecFloat.
From S2P Require Import Prelude BenchFs Errors Pure BenchCases Clock Measure.
Open Scope Z_scope.

Abbreviation f64_exp := (fexp 53 1024).

(** ** Binary digits *)

Lemma digits_pos p : Zdigits2 (Zpos p) = Z.log2 (Zpos p) + 1.
Proof.
  cbn [Zdigits2]. induction p as [p IH|p IH|]; cbn [digits2_pos]; [..|done]; rewrite Pos2Z.inj_succ, IH; unfold Z.succ; f_equal;
    [rewrite (Pos2Z.inj_xI p)|rewrite (Pos2Z.inj_xO p)]; symmetry; [apply Z.log2_succ_double|apply Z.log2_double]; lia.
Qed.
Lemma digits_log m : 0 < m -> Zdigits2 m = Z.log2 m + 1.
Proof. destruct m; try lia. intros _. apply digits_pos. Qed.
Lemma digits_nonneg m : 0 <= m -> 0 <= Zdigits2 m.
Proof. destruct m; cbn; lia. Qed.
Lemma digits_zero m : 0 <= m -> Zdigits2 m = 0 -> m = 0.
Proof. destruct m; cbn; lia. Qed.
Lemma digits_lt m k : 0 <= k -> 0 <= m < 2 ^ k -> Zdigits2 m <= k.
Proof.
  intros Hk [Hm Hlt]. destruct (decide (m = 0)) as [->|Hne]; [done|]. rewrite digits_log by lia.
  apply Z.log2_lt_pow2 in Hlt; lia.
Qed.
Lemma digits_ge m k : 2 ^ k <= m -> 0 <= k -> k + 1 <= Zdigits2 m.
Proof. intros Hm Hk. pose proof (Z.pow_pos_nonneg 2 k ltac:(lia) Hk). rewrite digits_log by lia. apply Z.log2_le_pow2 in Hm; lia. Qed.
Lemma digits_below m : 0 <= m -> m < 2 ^ Zdigits2 m.
Proof.
  intros Hm. destruct (decide (m = 0)) as [->|Hne]; [done|]. rewrite digits_log by lia. by apply Z.log2_spec; lia.
Qed.
Lemma digits_above m : 0 < m -> 2 ^ (Zdigits2 m - 1) <= m.
Proof. intros Hm. rewrite digits_log by lia. replace (_ + 1 - 1) with (Z.log2 m) by lia. apply Z.log2_spec. lia. Qed.
Lemma digits_mono m n : 0 <= m <= n -> Zdigits2 m <= Zdigits2 n.
Proof.
  intros [Hm Hn]. apply digits_lt; [apply digits_nonneg; lia|]. split; [done|]. pose proof (digits_below n ltac:(lia)). lia.
Qed.
Lemma digits_succ m : 0 <= m -> Zdigits2 (m + 1) <= Zdigits2 m + 1.
Proof.
  intros Hm. apply digits_lt; [pose proof (digits_nonneg m Hm); lia|]. split; [lia|].
  pose proof (digits_below m Hm). pose proof (digits_nonneg m Hm). rewrite Z.pow_add_r by lia. lia.
Qed.
Lemma digits_div m n : 0 <= m -> 0 <= n -> Zdigits2 (m / 2 ^ n) = Z.max 0 (Zdigits2 m - n).
Proof.
  intros Hm Hn. pose proof (Z.pow_pos_nonneg 2 n ltac:(lia) Hn) as Hp. pose proof (digits_nonneg m Hm) as Hd.
  destruct (Z.lt_ge_cases n (Zdigits2 m)) as [Hlt|Hge].
  - assert (Hpos : 0 < m) by (destruct (decide (m = 0)) as [->|]; [cbn in Hlt; lia|lia]).
    pose proof (digits_above m Hpos) as Ha. pose proof (digits_below m Hm) as Hb.
    assert (Hlow : Zdigits2 m - n <= Zdigits2 (m / 2 ^ n)).
    { replace (Zdigits2 m - n) with ((Zdigits2 m - 1 - n) + 1) by lia. apply digits_ge; [|lia].
      apply Z.div_le_lower_bound; [lia|]. rewrite <- Z.pow_add_r by lia. by replace (n + (Zdigits2 m - 1 - n)) with (Zdigits2 m - 1) by lia. }
    assert (Hup : Zdigits2 (m / 2 ^ n) <= Zdigits2 m - n).
    { apply digits_lt; [lia|]. split; [by apply Z.div_pos|]. apply Z.div_lt_upper_bound; [lia|]. rewrite <- Z.pow_add_r by lia.
      by replace (n + (Zdigits2 m - n)) with (Zdigits2 m) by lia. }
    lia.
  - rewrite Z.div_small; [cbn; lia|]. split; [done|]. pose proof (digits_below m Hm). pose proof (Z.pow_le_mono_r 2 (Zdigits2 m) n ltac:(lia) Hge). lia.
Qed.
Lemma digits_mul m n : 0 < m -> 0 < n -> Zdigits2 m + Zdigits2 n - 1 <= Zdigits2 (m * n) <= Zdigits2 m + Zdigits2 n.
Proof.
  intros Hm Hn. pose proof (digits_above m Hm). pose proof (digits_above n Hn). pose proof (digits_below m ltac:(lia)). pose proof (digits_below n ltac:(lia)).
  assert (0 < Zdigits2 m /\ 0 < Zdigits2 n) as [D1 D2] by (destruct m, n; cbn; lia). split.
  - replace (Zdigits2 m + Zdigits2 n - 1) with ((Zdigits2 m - 1 + (Zdigits2 n - 1)) + 1) by lia. apply digits_ge; [|lia].
    rewrite Z.pow_add_r by lia. apply Z.mul_le_mono_nonneg; lia.
  - apply digits_lt; [lia|]. split; [lia|]. rewrite Z.pow_add_r by lia. apply Z.mul_lt_mono_nonneg; lia.
Qed.
Lemma digits_shift m n : 0 < m -> 0 <= n -> Zdigits2 (m * 2 ^ n) = Zdigits2 m + n.
Proof. intros Hm Hn. rewrite !digits_log by (try apply Z.mul_pos_pos; lia). rewrite Z.log2_mul_pow2 by lia. lia. Qed.

(** ** Rounding *)

Lemma shr_1_half r : 0 <= shr_m r -> shr_m (shr_1 r) = shr_m r / 2.
Proof. destruct r as [[|[p|p|]|p] x y]; cbn [shr_m shr_1]; intros Hm; try lia; Z.div_mod_to_equations; lia. Qed.
Lemma shr_many n r : 0 <= shr_m r -> shr_m (SpecFloat.iter_pos shr_1 n r) = shr_m r / 2 ^ Zpos n.
Proof.
  revert r. induction n as [n IH|n IH|]; intros r Hr; cbn [SpecFloat.iter_pos]; [..|by apply shr_1_half].
  - assert (H1 : 0 <= shr_m (shr_1 r)) by (rewrite shr_1_half by done; by apply Z.div_pos).
    assert (H2 : 0 <= shr_m (SpecFloat.iter_pos shr_1 n (shr_1 r))) by (rewrite IH by done; apply Z.div_pos; [done|lia]).
    rewrite IH, IH, shr_1_half, !Z.div_div by (done || lia). f_equal. rewrite (Pos2Z.inj_xI n).
    replace (2 * Zpos n + 1) with (1 + (Zpos n + Zpos n)) by lia. rewrite !Z.pow_add_r by lia. lia.
  - assert (H1 : 0 <= shr_m (SpecFloat.iter_pos shr_1 n r)) by (rewrite IH by done; apply Z.div_pos; [done|lia]).
    rewrite IH, IH, Z.div_div by (done || lia). f_equal. rewrite (Pos2Z.inj_xO n).
    replace (2 * Zpos n) with (Zpos n + Zpos n) by lia. by rewrite Z.pow_add_r by lia.
Qed.
(** By how many digits a number is too long *)
Definition excess (m e : Z) : Z := Z.max 0 (f64_exp (Zdigits2 m + e) - e).
Lemma shr_fexp_spec m e l : 0 <= m ->
  shr_m (shr_fexp 53 1024 m e l).1 = m / 2 ^ excess m e /\ (shr_fexp 53 1024 m e l).2 = e + excess m e.
Proof.
  intros Hm. unfold shr_fexp, shr, excess. assert (Hr : shr_m (shr_record_of_loc m l) = m) by (by destruct l as [|[]]).
  destruct (_ - _) as [|n|n]; cbn [fst snd]; rewrite ?Z.max_r, ?Z.max_l by lia.
  - rewrite Hr, Z.div_1_r. lia.
  - rewrite shr_many; rewrite Hr; [done|lia].
  - rewrite Hr, Z.div_1_r. lia.
Qed.
Lemma round_up m l : round_nearest_even m l = m \/ round_nearest_even m l = m + 1.
Proof. destruct l as [|[]]; cbn; [by left| |by left|by right]. destruct (Z.even m); auto. Qed.

(** The magnitude of a rounded number is at most one above that of the exact one, and not below it unless it underflows. *)
Record rounded (m e m' e' : Z) : Prop := mkRounded {
  rd_nonneg : 0 <= m';
  rd_exponent : e' <= Z.max e (Z.max (Zdigits2 m + e - 52) (-1074));
  rd_above : m' = 0 \/ Zdigits2 m' + e' <= Z.max (Zdigits2 m + e + 1) (-1073);
  rd_below : -1000 <= Zdigits2 m + e -> 0 < m -> 0 < m' /\ Zdigits2 m + e <= Zdigits2 m' + e';
}.
Lemma excess_exp m e : e + excess m e = Z.max e (Z.max (Zdigits2 m + e - 53) (-1074)).
Proof. unfold excess, fexp, emin. lia. Qed.
Lemma rounded_twice m e m2 : 0 <= m -> m2 = m / 2 ^ excess m e \/ m2 = m / 2 ^ excess m e + 1 ->
  rounded m e (m2 / 2 ^ excess m2 (e + excess m e)) (e + excess m e + excess m2 (e + excess m e)).
Proof.
  intros Hm Hm2. set (n := excess m e) in *. set (m1 := m / 2 ^ n) in *. set (n' := excess m2 (e + n)).
  assert (Hn : 0 <= n) by (unfold n, excess; lia). assert (Hn' : 0 <= n') by (unfold n', excess; lia).
  assert (Hm1 : 0 <= m1) by (apply Z.div_pos; [done|lia]).
  assert (D1 : Zdigits2 m1 = Z.max 0 (Zdigits2 m - n)) by (by apply digits_div).
  assert (D2 : Zdigits2 m1 <= Zdigits2 m2 <= Zdigits2 m1 + 1).
  { destruct Hm2 as [->| ->]; [lia|]. split; [apply digits_mono; lia|by apply digits_succ]. }
  assert (D3 : Zdigits2 (m2 / 2 ^ n') = Z.max 0 (Zdigits2 m2 - n')) by (apply digits_div; lia).
  pose proof (excess_exp m e) as E1. pose proof (excess_exp m2 (e + n)) as E2. fold n in E1. fold n' in E2.
  pose proof (digits_nonneg m Hm).
  split.
  - apply Z.div_pos; lia.
  - lia.
  - destruct (decide (m2 / 2 ^ n' = 0)) as [|Hne]; [by left|right]. assert (Zdigits2 (m2 / 2 ^ n') <> 0).
    { intros H0. apply Hne, digits_zero; [apply Z.div_pos; lia|done]. }
    lia.
  - intros Hlow Hpos. assert (0 < Zdigits2 m) by (destruct m; cbn in *; lia).
    assert (0 < Zdigits2 (m2 / 2 ^ n')) by lia. split; [|lia].
    destruct (decide (m2 / 2 ^ n' = 0)) as [E|]; [rewrite E in *; cbn in *; lia|]. assert (0 <= m2 / 2 ^ n') by (apply Z.div_pos; lia). lia.
Qed.
Lemma round_spec s m e l : 0 <= m -> exists m' e', rounded m e m' e' /\
  binary_round_aux 53 1024 s m e l =
    match m' with
    | Z0 => S754_zero s
    | Zpos p => if e' <=? 971 then S754_finite s p e' else S754_infinity s
    | Zneg _ => S754_nan
    end.
Proof.
  intros Hm. unfold binary_round_aux. destruct (shr_fexp_spec m e l Hm) as [H1 H2].
  destruct (shr_fexp 53 1024 m e l) as [r1 e1]. cbn [fst snd] in H1, H2. set (m2 := round_nearest_even _ _).
  assert (Hm2 : m2 = m / 2 ^ excess m e \/ m2 = m / 2 ^ excess m e + 1) by (rewrite <- H1; apply round_up).
  assert (Hm2' : 0 <= m2) by (assert (0 <= m / 2 ^ excess m e) by (apply Z.div_pos; unfold excess; lia); lia).
  destruct (shr_fexp_spec m2 e1 loc_Exact Hm2') as [H3 H4]. destruct (shr_fexp 53 1024 m2 e1 loc_Exact) as [r2 e2]. cbn [fst snd] in H3, H4.
  rewrite H2 in H3, H4. eexists _, _. split; [by apply (rounded_twice m e m2)|]. rewrite <- H3, <- H4. done.
Qed.

(** ** Ranges *)

(** Zero, or finite and of magnitude at most [hi] *)
Definition small (hi : Z) (f : spec_float) : Prop :=
  match f with
  | S754_zero _ => True
  | S754_finite _ m e => Zdigits2 (Zpos m) + e <= hi
  | S754_infinity _ | S754_nan => False
  end.
(** Finite, not zero, of sign [s] and of magnitude between [lo] and [hi] *)
Definition ranged (s : bool) (lo hi : Z) (f : spec_float) : Prop :=
  exists m e, f = S754_finite s m e /\ lo <= Zdigits2 (Zpos m) + e <= hi.

Lemma small_finite hi f : small hi f -> is_finite f = true.
Proof. by destruct f. Qed.
Lemma ranged_small s lo hi f : ranged s lo hi f -> small hi f.
Proof. intros (m & e & -> & H). unfold small. lia. Qed.
Lemma ranged_weaken s lo hi lo' hi' f : ranged s lo hi f -> lo' <= lo -> hi <= hi' -> ranged s lo' hi' f.
Proof. intros (m & e & -> & H) ? ?. exists m, e. split; [done|lia]. Qed.
Lemma small_weaken hi hi' f : small hi f -> hi <= hi' -> small hi' f.
Proof. unfold small. destruct f; try done. lia. Qed.
Lemma digits_one p : 1 <= Zdigits2 (Zpos p).
Proof. cbn. lia. Qed.

Lemma round_small s m e l hi : 0 <= m -> Zdigits2 m + e <= hi -> -1000 <= hi <= 1000 -> e <= 971 ->
  small (hi + 1) (binary_round_aux 53 1024 s m e l).
Proof.
  intros Hm Hd Hhi He. destruct (round_spec s m e l Hm) as (m' & e' & [Hn Hx Ha _] & ->).
  destruct m' as [|p|p]; [done| |lia]. rewrite (proj2 (Z.leb_le e' 971)) by lia. destruct Ha as [Ha|Ha]; [done|]. unfold small. lia.
Qed.
Lemma round_ranged s m e l lo hi : 0 < m -> lo <= Zdigits2 m + e <= hi -> -1000 <= lo -> hi <= 1000 -> e <= 971 ->
  ranged s lo (hi + 1) (binary_round_aux 53 1024 s m e l).
Proof.
  intros Hm Hd Hlo Hhi He. destruct (round_spec s m e l ltac:(lia)) as (m' & e' & [Hn Hx Ha Hb] & ->).
  destruct (Hb ltac:(lia) Hm) as [Hpos Hge]. destruct m' as [|p|p]; [lia| |lia]. rewrite (proj2 (Z.leb_le e' 971)) by lia.
  exists p, e'. split; [done|]. destruct Ha as [Ha|Ha]; [done|]. lia.
Qed.

Lemma pos_shift p n : Zpos (Pos.iter xO p n) = Zpos p * 2 ^ Zpos n.
Proof.
  induction n as [|n IH] using Pos.peano_ind; [cbn; lia|].
  rewrite Pos.iter_succ, Pos2Z.inj_xO, IH, Pos2Z.inj_succ, Z.pow_succ_r by lia. lia.
Qed.
Lemma aligned p e e' : let '(m, e2) := shl_align p e e' in e2 <= e /\ Zpos m = Zpos p * 2 ^ (e - e2) /\ (e' <= e -> e2 = e').
Proof.
  unfold shl_align. destruct (e' - e) as [|n|n] eqn:E; [split; [lia|]; split; [by rewrite Z.sub_diag, Z.mul_1_r|lia]..|].
  split; [lia|]. split; [|done]. rewrite pos_shift. f_equal. f_equal. lia.
Qed.
Lemma binary_round_aligned s p e : exists m e', binary_round 53 1024 s p e = binary_round_aux 53 1024 s (Zpos m) e' loc_Exact /\
  e' <= e /\ Zdigits2 (Zpos m) + e' = Zdigits2 (Zpos p) + e.
Proof.
  unfold binary_round. pose proof (aligned p e (f64_exp (Zpos (digits2_pos p) + e))) as H. destruct (shl_align _ _ _) as [m e'].
  destruct H as (He & Hm & _). exists m, e'. split; [done|]. split; [done|]. rewrite Hm, digits_shift by lia. lia.
Qed.
Lemma normalize_small m e z hi : Zdigits2 (Z.abs m) + e <= hi -> -1000 <= hi <= 1000 -> e <= 971 ->
  small (hi + 1) (binary_normalize 53 1024 m e z).
Proof.
  intros Hd Hhi He. destruct m as [|p|p]; [done|..]; cbn [binary_normalize]; [change (Z.abs (Zpos p)) with (Zpos p) in *|change (Z.abs (Zneg p)) with (Zpos p) in *].
  - destruct (binary_round_aligned false p e) as (m2 & e2 & -> & ? & ?). apply round_small; lia.
  - destruct (binary_round_aligned true p e) as (m2 & e2 & -> & ? & ?). apply round_small; lia.
Qed.
Lemma normalize_ranged m e z lo hi : 0 < m -> lo <= Zdigits2 m + e <= hi -> -1000 <= lo -> hi <= 1000 -> e <= 971 ->
  ranged false lo (hi + 1) (binary_normalize 53 1024 m e z).
Proof.
  intros Hm Hd Hlo Hhi He. destruct m as [|p|p]; [lia| |lia]. cbn [binary_normalize].
  destruct (binary_round_aligned false p e) as (m2 & e2 & -> & ? & ?). apply round_ranged; lia.
Qed.

(** ** The operations *)

Lemma usize_ranged n hi : 0 < n < 2 ^ hi -> hi <= 900 -> ranged false 1 (hi + 1) (f64_of_usize n).
Proof.
  intros Hn Hhi. assert (0 <= hi) by (destruct (Z.lt_ge_cases hi 0); [rewrite Z.pow_neg_r in Hn; lia|done]).
  apply normalize_ranged; try lia. rewrite Z.add_0_r. split; [apply (digits_ge n 0); lia|apply digits_lt; lia].
Qed.
Lemma usize_small n hi : 0 <= n < 2 ^ hi -> 0 <= hi <= 900 -> small (hi + 1) (f64_of_usize n).
Proof.
  intros Hn Hhi. destruct (decide (n = 0)) as [->|]; [done|]. eapply ranged_small, usize_ranged; lia.
Qed.

Lemma div_core m1 e1 m2 e2 : 0 < m1 -> 0 < m2 -> -900 <= Zdigits2 m1 + e1 - (Zdigits2 m2 + e2) ->
  let '(q, e, l) := SFdiv_core_binary 53 1024 m1 e1 m2 e2 in
  0 < q /\ Zdigits2 m1 + e1 - (Zdigits2 m2 + e2) <= Zdigits2 q + e <= Zdigits2 m1 + e1 - (Zdigits2 m2 + e2) + 1 /\
  e <= Zdigits2 m1 + e1 - (Zdigits2 m2 + e2).
Proof.
  intros H1 H2 Hlow. unfold SFdiv_core_binary. cbv zeta. set (e := Z.min _ _). set (s := e1 - e2 - e).
  assert (Hs : 0 <= s) by (unfold s, e; lia).
  assert (Hm : match s with Zpos _ => Z.shiftl m1 s | Z0 => m1 | Zneg _ => 0 end = m1 * 2 ^ s).
  { destruct s as [|s|s]; [lia|by rewrite Z.shiftl_mul_pow2 by lia|lia]. }
  rewrite Hm. pose proof (Z.div_eucl_eq (m1 * 2 ^ s) m2 ltac:(lia)) as Hq. pose proof (Z.mod_pos_bound (m1 * 2 ^ s) m2 H2) as Hr.
  unfold Z.modulo in Hr. destruct (Z.div_eucl _ _) as [q r]. pose proof (Z.pow_pos_nonneg 2 s ltac:(lia) Hs).
  assert (D : Zdigits2 (m1 * 2 ^ s) = Zdigits2 m1 + s) by (by apply digits_shift).
  assert (He : e <= Zdigits2 m1 + e1 - (Zdigits2 m2 + e2) - 53 \/ e = Zdigits2 m1 + e1 - (Zdigits2 m2 + e2) - 53 \/ e = e1 - e2)
    by (unfold e, fexp, emin; lia).
  assert (Hk : 53 <= Zdigits2 m1 + s - Zdigits2 m2) by (unfold s, e, fexp, emin; lia).
  pose proof (digits_above (m1 * 2 ^ s) ltac:(lia)) as A. pose proof (digits_below (m1 * 2 ^ s) ltac:(lia)) as B. rewrite D in A, B.
  pose proof (digits_above m2 H2) as A2. pose proof (digits_below m2 ltac:(lia)) as B2.
  pose proof (digits_nonneg m2 ltac:(lia)). assert (1 <= Zdigits2 m2) by (destruct m2; cbn in *; lia).
  set (k := Zdigits2 m1 + s - Zdigits2 m2) in *.
  assert (Hlo : 2 ^ (k - 1) <= q).
  { assert (2 ^ (k - 1) * 2 ^ Zdigits2 m2 = 2 ^ (Zdigits2 m1 + s - 1)) by (rewrite <- Z.pow_add_r by lia; f_equal; lia). nia. }
  assert (Hup : q < 2 ^ (k + 1)).
  { assert (2 ^ (k + 1) * 2 ^ (Zdigits2 m2 - 1) = 2 ^ (Zdigits2 m1 + s)) by (rewrite <- Z.pow_add_r by lia; f_equal; lia). nia. }
  pose proof (Z.pow_pos_nonneg 2 (k - 1) ltac:(lia) ltac:(lia)). split; [lia|].
  pose proof (digits_ge q (k - 1) Hlo ltac:(lia)). pose proof (digits_lt q (k + 1) ltac:(lia) ltac:(lia)). unfold k, s in *. lia.
Qed.
Lemma div_core_small m1 e1 m2 e2 hi : 0 < m1 -> 0 < m2 -> Zdigits2 m1 + e1 - (Zdigits2 m2 + e2) <= hi -> -900 <= hi <= 900 ->
  let '(q, e, l) := SFdiv_core_binary 53 1024 m1 e1 m2 e2 in 0 <= q /\ Zdigits2 q + e <= hi + 1 /\ e <= 900.
Proof.
  intros H1 H2 Hup Hhi. destruct (Z.le_gt_cases (-900) (Zdigits2 m1 + e1 - (Zdigits2 m2 + e2))) as [Hlow|Hlow].
  { pose proof (div_core m1 e1 m2 e2 H1 H2 Hlow) as H. destruct (SFdiv_core_binary _ _ _ _ _ _) as [[q e] l]. lia. }
  unfold SFdiv_core_binary. cbv zeta. set (e := Z.min _ _). set (s := e1 - e2 - e). assert (Hs : 0 <= s) by (unfold s, e; lia).
  assert (Hm : match s with Zpos _ => Z.shiftl m1 s | Z0 => m1 | Zneg _ => 0 end = m1 * 2 ^ s).
  { destruct s as [|s|s]; [lia|by rewrite Z.shiftl_mul_pow2 by lia|lia]. }
  rewrite Hm. pose proof (Z.div_eucl_eq (m1 * 2 ^ s) m2 ltac:(lia)) as Hq. pose proof (Z.mod_pos_bound (m1 * 2 ^ s) m2 H2) as Hr.
  unfold Z.modulo in Hr. destruct (Z.div_eucl _ _) as [q r]. pose proof (Z.pow_pos_nonneg 2 s ltac:(lia) Hs).
  assert (D : Zdigits2 (m1 * 2 ^ s) = Zdigits2 m1 + s) by (by apply digits_shift).
  pose proof (digits_below (m1 * 2 ^ s) ltac:(lia)) as B. rewrite D in B. pose proof (digits_above m2 H2) as A2.
  assert (Hq0 : 0 <= q) by nia. assert (1 <= Zdigits2 m2) by (destruct m2; cbn in *; lia).
  assert (He : e <= Z.max (Zdigits2 m1 + e1 - (Zdigits2 m2 + e2) - 53) (-1074)) by (unfold e, fexp, emin; lia).
  split; [done|]. split; [|lia]. set (k := Zdigits2 m1 + s - Zdigits2 m2).
  destruct (Z.le_gt_cases 0 (k + 1)) as [Hk|Hk].
  - assert (q < 2 ^ (k + 1)).
    { assert (2 ^ (k + 1) * 2 ^ (Zdigits2 m2 - 1) = 2 ^ (Zdigits2 m1 + s)) by (rewrite <- Z.pow_add_r by lia; f_equal; lia). nia. }
    pose proof (digits_lt q (k + 1) Hk ltac:(lia)). unfold k, s in *. lia.
  - assert (q = 0) as ->; [|cbn; lia].
    assert (2 ^ (Zdigits2 m1 + s) <= 2 ^ (Zdigits2 m2 - 1)) by (apply Z.pow_le_mono_r; unfold k in *; lia). nia.
Qed.

Lemma div_ranged sx sy a b c d x y : ranged sx a b x -> ranged sy c d y -> -900 <= a - d -> b - c <= 900 ->
  ranged (xorb sx sy) (a - d) (b - c + 2) (f64_div x y).
Proof.
  intros (m1 & e1 & -> & H1) (m2 & e2 & -> & H2) Hlo Hhi. unfold f64_div, SFdiv.
  pose proof (div_core (Zpos m1) e1 (Zpos m2) e2 ltac:(lia) ltac:(lia) ltac:(lia)) as H.
  destruct (SFdiv_core_binary _ _ _ _ _ _) as [[q e] l]. destruct H as (Hq & Hd & He).
  replace (b - c + 2) with ((b - c + 1) + 1) by lia. apply round_ranged; lia.
Qed.
Lemma div_small sy b c d x y : small b x -> ranged sy c d y -> -900 <= b - c <= 900 -> small (b - c + 2) (f64_div x y).
Proof.
  intros Hx (m2 & e2 & -> & H2) Hhi. destruct x as [s| | |s m1 e1]; try done. unfold small in Hx. unfold f64_div, SFdiv.
  pose proof (div_core_small (Zpos m1) e1 (Zpos m2) e2 (b - c) ltac:(lia) ltac:(lia) ltac:(lia) ltac:(lia)) as H.
  destruct (SFdiv_core_binary _ _ _ _ _ _) as [[q e] l]. destruct H as (Hq & Hd & He).
  replace (b - c + 2) with ((b - c + 1) + 1) by lia. apply round_small; lia.
Qed.
Lemma mul_small j k x y : small j x -> small k y -> -1000 <= j + k <= 900 -> small (j + k + 1) (f64_mul x y).
Proof.
  intros Hx Hy Hjk. destruct x as [s| | |s m1 e1], y as [t| | |t m2 e2]; try done. unfold small in Hx, Hy. unfold f64_mul, SFmul.
  pose proof (digits_mul (Zpos m1) (Zpos m2) ltac:(lia) ltac:(lia)). pose proof (digits_one m1). pose proof (digits_one m2).
  rewrite Pos2Z.inj_mul. apply round_small; lia.
Qed.

(** The two terms of a sum, aligned *)
Lemma term_bound m e ez hi : ez <= e -> Zdigits2 (Zpos m) + e <= hi -> 0 < Zpos (shl_align m e ez).1 < 2 ^ (hi - ez).
Proof.
  intros He Hd. pose proof (aligned m e ez) as H. destruct (shl_align m e ez) as [p e2]. destruct H as (He2 & Hp & Heq).
  cbn [fst]. rewrite (Heq He) in Hp. pose proof (digits_below (Zpos m) ltac:(lia)) as B. rewrite Hp.
  pose proof (Z.pow_pos_nonneg 2 (e - ez) ltac:(lia) ltac:(lia)). split; [lia|].
  assert (Zpos m * 2 ^ (e - ez) < 2 ^ Zdigits2 (Zpos m) * 2 ^ (e - ez)) as Hlt by nia.
  rewrite <- Z.pow_add_r in Hlt by (pose proof (digits_one m); lia).
  pose proof (Z.pow_le_mono_r 2 (Zdigits2 (Zpos m) + (e - ez)) (hi - ez) ltac:(lia) ltac:(lia)). lia.
Qed.
Lemma sum_small hi m1 m2 e : 0 < m1 < 2 ^ (hi - e) -> 0 < m2 < 2 ^ (hi - e) -> forall s t z, -1000 <= hi <= 900 -> e <= 900 -> e <= hi ->
  small (hi + 2) (binary_normalize 53 1024 (cond_Zopp s m1 + cond_Zopp t m2) e z).
Proof.
  intros H1 H2 s t z Hhi He Hle. replace (hi + 2) with ((hi + 1) + 1) by lia. apply normalize_small; [|lia..].
  assert (Habs : Z.abs (cond_Zopp s m1 + cond_Zopp t m2) < 2 ^ (hi - e + 1)) by (rewrite Z.pow_add_r by lia; destruct s, t; cbn; lia).
  pose proof (digits_lt _ (hi - e + 1) ltac:(lia) (conj (Z.abs_nonneg _) Habs)). lia.
Qed.
Lemma sub_small j k x y : small j x -> small k y -> -1000 <= Z.max j k <= 900 -> small (Z.max j k + 2) (f64_sub x y).
Proof.
  intros Hx Hy Hjk. unfold small in Hx, Hy. destruct x as [s| | |s m1 e1], y as [t| | |t m2 e2]; try done; unfold f64_sub, SFsub.
  - by destruct s, t.
  - unfold small. lia.
  - unfold small. lia.
  - pose proof (digits_one m1). pose proof (digits_one m2).
    pose proof (term_bound m1 e1 (Z.min e1 e2) (Z.max j k) ltac:(lia) ltac:(lia)). pose proof (term_bound m2 e2 (Z.min e1 e2) (Z.max j k) ltac:(lia) ltac:(lia)).
    replace (cond_Zopp s _ - cond_Zopp t _) with (cond_Zopp s (Zpos (shl_align m1 e1 (Z.min e1 e2)).1)
      + cond_Zopp (negb t) (Zpos (shl_align m2 e2 (Z.min e1 e2)).1)) by (destruct s, t; cbn; lia).
    apply sum_small; lia.
Qed.

(** *** Sums of numbers that are not negative *)

(** Zero, or positive and ranged *)
Definition positive_small (lo hi : Z) (f : spec_float) : Prop := f = S754_zero false \/ ranged false lo hi f.
Lemma sum_ranged lo hi m1 m2 e z : 0 < m1 < 2 ^ (hi - e) -> 0 <= m2 < 2 ^ (hi - e) -> lo <= Zdigits2 m1 + e ->
  -1000 <= lo -> hi <= 900 -> e <= 900 -> e <= hi -> ranged false lo (hi + 2) (binary_normalize 53 1024 (m1 + m2) e z).
Proof.
  intros H1 H2 Hlow Hlo Hhi He Hle. replace (hi + 2) with ((hi + 1) + 1) by lia. apply normalize_ranged; [lia| |lia..].
  pose proof (digits_mono m1 (m1 + m2) ltac:(lia)).
  pose proof (digits_lt (m1 + m2) (hi - e + 1) ltac:(lia) ltac:(rewrite Z.pow_add_r by lia; lia)). lia.
Qed.
Lemma add_ranged lo hi x y : ranged false lo hi x -> positive_small lo hi y -> -1000 <= lo -> hi <= 900 ->
  ranged false lo (hi + 2) (f64_add x y).
Proof.
  intros (m1 & e1 & -> & H1) [->|(m2 & e2 & -> & H2)] Hlo Hhi; unfold f64_add, SFadd; [exists m1, e1; split; [done|lia]|].
  pose proof (digits_one m1). pose proof (digits_one m2). set (e := Z.min e1 e2).
  pose proof (term_bound m1 e1 e hi ltac:(lia) ltac:(lia)) as T1. pose proof (term_bound m2 e2 e hi ltac:(lia) ltac:(lia)) as T2.
  pose proof (aligned m1 e1 e) as A. destruct (shl_align m1 e1 e) as [p e']. destruct A as (_ & Hp & He'). cbn [fst] in *.
  specialize (He' ltac:(lia)). subst e'. cbn [cond_Zopp]. apply sum_ranged; try lia. rewrite Hp, digits_shift by lia. lia.
Qed.
Lemma zero_add_ranged lo hi y : ranged false lo hi y -> ranged false lo hi (f64_add (S754_zero false) y).
Proof. intros (m & e & -> & H). by exists m, e. Qed.

(** ** The numbers of the benchmark *)

Lemma usize_ranged_64 n : 0 < n <= u64_max -> ranged false 1 65 (f64_of_usize n).
Proof. intros Hn. apply (usize_ranged n 64); unfold u64_max in *; lia. Qed.
Lemma usize_small_64 n : 0 <= n <= u64_max -> small 65 (f64_of_usize n).
Proof. intros Hn. apply (usize_small n 64); unfold u64_max in *; lia. Qed.

(** A [Duration] has 64 bits of seconds. *)
Definition nanos_max : Z := 2 ^ 94.
Lemma billion_ranged : ranged false 30 31 (f64_of_usize 1000000000).
Proof. eexists _, _. split; [by vm_compute|]. vm_compute. split; discriminate. Qed.
Lemma fraction_ranged r : 0 < r < 2 ^ 30 -> ranged false (-30) 95 (f64_div (f64_of_usize r) (f64_of_usize 1000000000)).
Proof.
  intros Hr. eapply ranged_weaken; [apply (div_ranged false false 1 31 30 31); [apply (usize_ranged r 30); lia|exact billion_ranged|..]|..]; lia.
Qed.
Lemma secs_ranged n : 0 < n < nanos_max -> ranged false (-30) 97 (as_secs_f64 n).
Proof.
  unfold nanos_max. intros Hn. unfold as_secs_f64. set (s := n / 1000000000). set (r := n mod 1000000000).
  assert (Hs : 0 <= s < 2 ^ 94 /\ 0 <= r < 2 ^ 30 /\ (s = 0 -> 0 < r)) by (unfold s, r; Z.div_mod_to_equations; lia).
  destruct Hs as (Hs & Hr & Hsr). clearbody s r. destruct (decide (s = 0)) as [->|Hs0].
  - eapply ranged_weaken; [apply zero_add_ranged, fraction_ranged|..]; lia.
  - apply (add_ranged (-30) 95); try lia; [eapply ranged_weaken; [apply (usize_ranged s 94)|..]; lia|].
    destruct (decide (r = 0)) as [->|Hr0]; [left; by vm_compute|right; apply fraction_ranged; lia].
Qed.

(** *** Throughput and percentages *)

Record plausible_victim (v : VictimMetrics) : Prop := mkPlausibleVictim {
  pv_operations : 0 < vm_operations v <= u64_max;
  pv_elapsed : 0 < vm_elapsed_nanos v < nanos_max;
  pv_p99 : 0 <= vm_p99_chunk_ns v <= u64_max;
}.
Lemma million_ranged : ranged false 20 20 (f64_of_usize 1000000).
Proof. eexists _, _. split; [by vm_compute|]. vm_compute. split; discriminate. Qed.
Lemma hundred_small : small 7 f64_100.
Proof. vm_compute. discriminate. Qed.
Lemma mops_ranged v : plausible_victim v -> ranged false (-116) 99 (throughput_mops v).
Proof.
  intros [Hops Hel _]. unfold throughput_mops. pose proof (usize_ranged_64 _ Hops) as H1. pose proof (secs_ranged _ Hel) as H2.
  pose proof (div_ranged _ _ _ _ _ _ _ _ H1 H2 ltac:(lia) ltac:(lia)) as H3.
  pose proof (div_ranged _ _ _ _ _ _ _ _ H3 million_ranged ltac:(lia) ltac:(lia)) as H4. eapply ranged_weaken; [exact H4|lia..].
Qed.
Lemma loss_small control contender : ranged false (-116) 99 control -> ranged false (-116) 99 contender ->
  small 300 (f64_mul (f64_div (f64_sub control contender) control) f64_100).
Proof.
  intros H1 H2. pose proof (sub_small 99 99 _ _ (ranged_small _ _ _ _ H1) (ranged_small _ _ _ _ H2) ltac:(lia)) as H3.
  pose proof (div_small _ _ _ _ _ _ H3 H1 ltac:(lia)) as H4. pose proof (mul_small _ _ _ _ H4 hundred_small ltac:(lia)) as H5.
  eapply small_weaken; [exact H5|lia].
Qed.
Lemma percent_change_small baseline measured : 0 <= baseline <= u64_max -> 0 <= measured <= u64_max ->
  match percent_change baseline measured with Some (Ok f) => small 300 f | Some (Err _) => baseline = 0 | None => False end.
Proof.
  intros Hb Hm. unfold percent_change. destruct (Z.eqb_spec baseline 0) as [|Hne]; [done|]. cbn.
  pose proof (usize_ranged_64 baseline ltac:(lia)) as H1. pose proof (usize_small_64 measured Hm) as H2.
  pose proof (sub_small 65 65 _ _ H2 (ranged_small _ _ _ _ H1) ltac:(lia)) as H3.
  pose proof (div_small _ _ _ _ _ _ H3 H1 ltac:(lia)) as H4. pose proof (mul_small _ _ _ _ H4 hundred_small ltac:(lia)) as H5.
  eapply small_weaken; [exact H5|lia].
Qed.

(** *** Repetitions and summaries *)

Definition finite_repetition (r : RepetitionResult) : Prop :=
  is_finite (re_victim_control_mops r) = true /\ is_finite (re_victim_contender_mops r) = true /\
  is_finite (re_throughput_loss_percent r) = true /\ is_finite (re_victim_p99_degradation_percent r) = true.
Definition finite_summary (s : Summary) : Prop :=
  is_finite (su_throughput_loss_percent s) = true /\ is_finite (su_victim_p99_degradation_percent s) = true.

Lemma repetition_finite cpn k first control contender correction r :
  repetition_new cpn k first control contender correction = Some (Ok r) ->
  plausible_victim control -> plausible_victim (ct_victim contender) -> finite_repetition r.
Proof.
  intros E Hc Hv. unfold repetition_new in E. destruct (correct_all _ _ _) as [raw invalid]. case_bool_decide as Hraw; [done|]. cbv zeta in E.
  do 5 (apply checked_ok in E as (? & _ & E)). case_match; [done|]. apply checked_ok in E as (degradation & Hd & E).
  pose proof (percent_change_small _ _ (pv_p99 _ Hc) (pv_p99 _ Hv)) as Hp. rewrite Hd in Hp.
  pose proof (mops_ranged _ Hc) as H1. pose proof (mops_ranged _ Hv) as H2. unfold mret, checked_ret in E. injection E as <-.
  repeat split; cbn [re_victim_control_mops re_victim_contender_mops re_throughput_loss_percent re_victim_p99_degradation_percent];
    eapply small_finite; [exact (ranged_small _ _ _ _ H1)|exact (ranged_small _ _ _ _ H2)|by apply loss_small|exact Hp].
Qed.
(** The guard against a throughput of the control that is not finite or not positive never refuses. *)
Lemma control_throughput_valid v : plausible_victim v ->
  negb (is_finite (throughput_mops v)) || SFleb (throughput_mops v) (S754_zero false) = false.
Proof. intros (m & e & -> & _)%mops_ranged. done. Qed.

Lemma median_f64_in values x : median_f64 values = Some x -> x ∈ values.
Proof. unfold median_f64. intros Hx%list_elem_of_lookup_2. by rewrite merge_sort_Permutation in Hx. Qed.
Lemma summary_finite c w rs s : from_repetitions c w rs = Some (Ok s) -> Forall finite_repetition rs -> finite_summary s.
Proof.
  intros E Hrs. unfold from_repetitions in E. case_bool_decide as Hl; [done|]. do 6 (apply checked_ok in E as (? & _ & E)).
  apply checked_ok in E as (loss & Hloss%unwrapped_ok%median_f64_in & E). apply checked_ok in E as (deg & Hdeg%unwrapped_ok%median_f64_in & E).
  unfold mret, checked_ret in E. injection E as <-. rewrite Forall_forall in Hrs.
  apply list_elem_of_fmap in Hloss as (r1 & -> & H1%Hrs). apply list_elem_of_fmap in Hdeg as (r2 & -> & H2%Hrs).
  split; [apply H1|apply H2].
Qed.

(** *** The clock and the skew *)

Record plausible_window (w : Window) : Prop := mkPlausibleWindow {
  pw_start : 0 <= wi_cycle_start w;
  pw_end : wi_cycle_end w <= u64_max;
  pw_elapsed : 0 < wi_elapsed_nanos w < nanos_max;
}.
Definition ratio_ranged : spec_float -> Prop := ranged false (-94) 66.
Lemma window_ratios_ranged windows ratios r : window_ratios windows ratios = Ok r -> Forall plausible_window windows ->
  Forall ratio_ranged ratios -> Forall ratio_ranged r.
Proof.
  intros E Hw. revert ratios E. induction Hw as [|w windows [Hs He Hel] _ IH]; intros ratios E Hr; cbn in E; [by injection E as <-|].
  destruct (_ || _) eqn:Eg; [done|]. apply orb_false_iff in Eg as [_ Eg%Z.leb_gt]. eapply IH; [exact E|]. apply Forall_app. split; [done|].
  constructor; [|constructor]. unfold ratio_ranged, nanos_max in *.
  pose proof (usize_ranged_64 (wi_cycle_end w - wi_cycle_start w) ltac:(lia)) as H1. pose proof (usize_ranged (wi_elapsed_nanos w) 94 ltac:(lia) ltac:(lia)) as H2.
  eapply ranged_weaken; [exact (div_ranged _ _ _ _ _ _ _ _ H1 H2 ltac:(lia) ltac:(lia))|lia..].
Qed.
Lemma clock_finite ratios clock : conclude_clock ratios = Some (Ok clock) -> Forall ratio_ranged ratios ->
  ratio_ranged (cycles_per_ns clock) /\ is_finite (spread_percent clock) = true.
Proof.
  intros E Hr. assert (Hs : Forall ratio_ranged (merge_sort f64_total_leb ratios)) by (by rewrite merge_sort_Permutation).
  unfold conclude_clock in E. rewrite Forall_forall in Hs.
  apply bind_Some in E as (median & H1%list_elem_of_lookup_2%Hs & E). apply bind_Some in E as (minimum & H2%list_elem_of_lookup_2%Hs & E).
  apply bind_Some in E as (maximum & H3%list_elem_of_lookup_2%Hs & E). cbv zeta in E. destruct (_ || _); [done|]. injection E as <-.
  cbn [cycles_per_ns spread_percent]. split; [done|]. eapply small_finite.
  pose proof (sub_small 66 66 _ _ (ranged_small _ _ _ _ H3) (ranged_small _ _ _ _ H2) ltac:(lia)) as H4.
  pose proof (div_small _ _ _ _ _ _ H4 H1 ltac:(lia)) as H5. exact (mul_small _ _ _ _ H5 hundred_small ltac:(lia)).
Qed.
Lemma skew_finite cpn offset uncertainty sk : skew_preflight cpn (Ok (offset, uncertainty)) = Ok sk -> ratio_ranged cpn ->
  - 2 ^ 63 <= offset < 2 ^ 63 -> 0 <= uncertainty <= u64_max -> is_finite (sk_producer_to_waiter_bound_ns sk) = true.
Proof.
  unfold skew_preflight, u64_max. intros E Hc Ho Hu. destruct (SFltb _ _); [done|]. injection E as <-. cbn [sk_producer_to_waiter_bound_ns].
  eapply small_finite, (div_small _ 66 _ _ _ _ (usize_small (Z.abs offset + uncertainty) 65 ltac:(lia) ltac:(lia)) Hc). lia.
Qed.
