(* ===== verification/Latency.v ===== *)
(** * From the counters to the reported latencies

    The composition of the clock handshake ([ClockProofs]), the trial ([TrialProofs]), the recording of samples ([BenchCases]) and the
    making of a repetition ([Measure]): what a reported latency is in terms of the time stamps that were taken. *)

From stdpp Require Import sorting.
From Stdlib Require Import SpecFloat.
From S2P Require Import Prelude BenchFs Errors Pure BenchCases ViewMemory Trial TrialProofs Clock ClockProofs Measure.
Open Scope Z_scope.

(** ** The recorder holds what the samples make of it *)

Definition recorded (u : setup) (s : trial) : Prop :=
  t_recorder s = foldl (record_sample (su_expected_aux u) (su_warmup_events u) (su_max_samples u)) recorder_start (t_samples s).
Ltac chosen Hs :=
  repeat match type of Hs with
  | _ ≫= _ = Some _ => apply bind_Some in Hs as ([? ?] & ? & Hs)
  | (let '(_, _) := ?x in _) = Some _ => destruct x as [? ?]
  | (if ?b then _ else _) = Some _ => destruct b
  end; try discriminate Hs.
Lemma recorded_waiter u c s s' : waiter_step u c s = Some s' -> recorded u s -> recorded u s'.
Proof.
  unfold recorded, waiter_step. intros Hs Hr. destruct (t_waiter s), c; try discriminate Hs; chosen Hs; injection Hs as <-; try exact Hr.
  cbn -[record_sample]. by rewrite foldl_app, <- Hr.
Qed.
Lemma reachable_recorded u s : reachable u s -> recorded u s.
Proof.
  intros [es Hrun]. assert (H : recorded u trial_start) by done. revert Hrun H. generalize trial_start.
  induction es as [|e es IH]; intros s0; cbn [trial_run]; [by intros [= ->]|].
  intros (s1 & E & Hrun)%bind_Some H0. apply (IH s1 Hrun). clear IH Hrun.
  destruct e as [c|c|c|c]; cbn [trial_step] in E; [by eapply recorded_waiter|..]; unfold recorded in *.
  - unfold producer_step in E. destruct (t_producer s0), c; try discriminate E; chosen E; injection E as <-; exact H0.
  - unfold victim_step in E. destruct (t_victim s0), c; try discriminate E; chosen E; injection E as <-; exact H0.
  - unfold controller_step in E. destruct (t_controller s0), c; try discriminate E; chosen E; injection E as <-; exact H0.
Qed.

(** ** The samples that are measured *)

(** The sample of event [k] is kept: it is past the warm-up, the waiter did not migrate, and neither the difference of the stamps
    nor the corrected latency leaves its range. *)
Definition measured (aux warmup offset k : Z) (x : Sample) : bool :=
  (sa_auxiliary x =? aux) && (warmup <=? k) &&
  (let d := sa_received x - sa_sent x in (- 2 ^ 63 <=? d) && (d <? 2 ^ 63) && (0 <=? d - offset)).
Fixpoint measured_from (aux warmup offset : Z) (k : nat) (l : list Sample) : list (nat * Sample) :=
  match l with
  | [] => []
  | x :: l => (if measured aux warmup offset (Z.of_nat k) x then [(k, x)] else []) ++ measured_from aux warmup offset (S k) l
  end.
Definition corrected (offset : Z) (x : Sample) : Z := sa_received x - sa_sent x - offset.

Lemma measured_at aux warmup offset k l i x : (i, x) ∈ measured_from aux warmup offset k l <->
  (k <= i)%nat /\ l !! (i - k)%nat = Some x /\ measured aux warmup offset (Z.of_nat i) x = true.
Proof.
  revert k. induction l as [|y l IH]; intros k; cbn [measured_from]; [split; [by intros ?%elem_of_nil|by intros (_ & ? & _)]|].
  rewrite elem_of_app, IH. destruct (decide (i = k)) as [->|Hi].
  - rewrite Nat.sub_diag. cbn [lookup list_lookup]. split.
    + intros [Hy|(? & _)]; [|lia]. destruct (measured _ _ _ _ y) eqn:E; [|by apply elem_of_nil in Hy].
      apply list_elem_of_singleton in Hy. by simplify_eq.
    + intros (_ & [= ->] & E). rewrite E. left. by apply list_elem_of_singleton.
  - split.
    + intros [Hy|(Hk & Hl & Hm)].
      * destruct (measured _ _ _ _ y); [apply list_elem_of_singleton in Hy; by simplify_eq|by apply elem_of_nil in Hy].
      * split; [lia|]. split; [|done]. by replace (i - k)%nat with (S (i - S k)) by lia.
    + intros (Hk & Hl & Hm). right. split; [lia|]. split; [|done]. by replace (i - k)%nat with (S (i - S k)) in Hl by lia.
Qed.

Definition in_words (x : Sample) : Prop := 0 <= sa_received x <= u64_max /\ 0 <= sa_sent x <= u64_max.
Lemma correct_kept aux warmup offset k l : - 2 ^ 63 <= offset < 2 ^ 63 -> Forall in_words l ->
  omap (fun raw => correct_latency raw offset) (kept_latencies aux warmup (Z.of_nat k) l)
  = corrected offset ∘ snd <$> measured_from aux warmup offset k l.
Proof.
  intros Ho Hl. revert k. induction Hl as [|x l [Hr Hs] _ IH]; intros k; [done|]. cbn [kept_latencies measured_from].
  rewrite fmap_app, <- (IH (S k)), omap_app, Nat2Z.inj_succ. unfold Z.succ. f_equal. unfold measured, sample_cycles, i128_wrap, u64_max in *.
  destruct (_ && _); [|done]. rewrite (Z.mod_small (sa_received x - sa_sent x + 2 ^ 127)) by lia. cbn [andb].
  replace (sa_received x - sa_sent x + 2 ^ 127 - 2 ^ 127) with (sa_received x - sa_sent x) by lia.
  destruct (_ && _) eqn:Ed; [|done]. apply andb_prop in Ed as [E1%Z.leb_le E2%Z.ltb_lt]. cbn [omap list_omap]. unfold correct_latency, i128_wrap, u64_max.
  rewrite Z.mod_small by lia. replace (_ + 2 ^ 127 - 2 ^ 127) with (sa_received x - sa_sent x - offset) by lia.
  rewrite (proj2 (Z.leb_le _ (2 ^ 64 - 1))) by lia. rewrite andb_true_r. by destruct (0 <=? _).
Qed.
Lemma correct_all_omap raw offset n : (correct_all raw offset n).1 = omap (fun r => correct_latency r offset) raw.
Proof.
  unfold correct_all. enough (H : forall kept n, (foldl (fun '(kept, invalid) raw_cycles =>
    match correct_latency raw_cycles offset with
    | Some c => (kept ++ [c], invalid)
    | None => (kept, Z.min u64_max (invalid + 1))
    end) (kept, n) raw).1 = kept ++ omap (fun r => correct_latency r offset) raw) by apply H.
  induction raw as [|r raw IH]; intros kept k; cbn [foldl omap list_omap]; [by rewrite app_nil_r|].
  destruct (correct_latency r offset); rewrite IH; [by rewrite <- app_assoc|done].
Qed.

(** ** A repetition reports corrected latencies *)

Definition percentiles (r : RepetitionResult) : list Z :=
  [re_p50_cycles r; re_p90_cycles r; re_p99_cycles r; re_p999_cycles r; re_max_cycles r].
Lemma percentile_in values q x : percentile_sorted values q = Some x -> x ∈ values.
Proof. unfold percentile_sorted. destruct (_ =? 0); [done|]. apply list_elem_of_lookup_2. Qed.
Lemma repetition_reports cpn k first control contender offset re :
  repetition_new cpn k first control contender offset = Some (Ok re) ->
  re_raw_latency_cycles re = omap (fun r => correct_latency r offset) (wm_latencies_cycles (ct_waiter contender)) /\
  re_samples re = Z.of_nat (length (re_raw_latency_cycles re)) /\
  Forall (.∈ re_raw_latency_cycles re) (percentiles re).
Proof.
  unfold repetition_new. rewrite <- (correct_all_omap _ _ (wm_invalid_samples (ct_waiter contender))).
  destruct (correct_all _ _ _) as [raw invalid]. cbn [fst]. case_bool_decide as Hraw; [done|]. cbv zeta. intros E.
  do 4 (apply checked_ok in E as (? & ?%unwrapped_ok%percentile_in & E)). apply checked_ok in E as (max & Hmax & E).
  case_match; [done|]. apply checked_ok in E as (degradation & _ & E). unfold mret, checked_ret in E. injection E as <-. cbn.
  assert (Hin : forall x, x ∈ merge_sort Z.le raw -> x ∈ raw) by (intros y; by rewrite merge_sort_Permutation).
  split; [done|]. split; [by rewrite merge_sort_Permutation|]. repeat constructor; apply Hin; try done.
  destruct (last (merge_sort Z.le raw)) as [c|] eqn:Hl; [|done]. unfold mret, checked_ret in Hmax. injection Hmax as <-.
  rewrite last_lookup in Hl. by eapply list_elem_of_lookup_2.
Qed.

(** A sample [kx.2] of event [kx.1], and a latency that is the real one between its two stamps *)
Definition true_latency (skew uncertainty : Z) (s : trial) (kx : nat * Sample) (latency : Z) : Prop :=
  let '(k, x) := kx in
  t_samples s !! k = Some x /\ sa_observed x = nth_value (S k) /\ t_stamps s !! k = Some (sa_sent x) /\
  estimates uncertainty latency ((sa_received x - skew) - sa_sent x).

(** The reported latencies are true. Take any interleaving of the clock handshake, whatever the real skew of the two counters, and any interleaving
    of a trial. If the trial's sample set is accepted and a repetition is made of it, the latencies it reports, in
    order, are one for each sample that is past the warm-up, unmigrated and in range, and for no other; each is the time between the stamp that the producer
    took for that very generation and the waiter's stamp on waking up, on one clock, up to the reported uncertainty of the handshake and one cycle;
    the count is theirs and every percentile is one of them. *)
Theorem latencies_true (skew samples offset uncertainty : Z) (h : handshake) (cycles_per_ns : spec_float) (sk : TscSkew)
    (u : setup) (s : trial) (drive producer : result unit string) (waiter : WaiterMetrics) (victim : result VictimMetrics string)
    (contender : ContenderTrial) (control : VictimMetrics) (k : Z) (first : bool) (re : RepetitionResult) :
  1 <= samples -> hs_reachable skew samples h -> hs_controller h = K_ended (Ok (offset, uncertainty)) -> - 2 ^ 63 <= offset < 2 ^ 63 ->
  skew_preflight cycles_per_ns (Ok (offset, uncertainty)) = Ok sk ->
  reachable u s -> Forall in_words (t_samples s) -> 0 < su_max_samples u -> su_warmup_events u <= u64_max ->
  wm_latencies_cycles waiter = wm_latencies_cycles (rc_metrics (t_recorder s)) ->
  wm_sample_limit_reached waiter = wm_sample_limit_reached (rc_metrics (t_recorder s)) ->
  conclude_trial (Joined drive (Ok waiter) producer victim) (su_max_samples u) = Ok contender ->
  repetition_new cycles_per_ns k first control contender (sk_correction_cycles sk) = Some (Ok re) ->
  let kept := measured_from (su_expected_aux u) (su_warmup_events u) offset 0 (t_samples s) in
  (forall i x, (i, x) ∈ kept <-> t_samples s !! i = Some x /\ measured (su_expected_aux u) (su_warmup_events u) offset (Z.of_nat i) x = true) /\
  Forall2 (true_latency skew uncertainty s) kept (re_raw_latency_cycles re) /\
  re_samples re = Z.of_nat (length kept) /\
  Forall (fun p => exists kx, kx ∈ kept /\ true_latency skew uncertainty s kx p) (percentiles re).
Proof.
  intros Hn Hh Hk Ho Hsk Hs Hwords Hmax Hwarm Hlat Hlim Hc Hre kept.
  assert (Hskew : estimates uncertainty offset skew) by (by eapply skew_estimate_sound).
  assert (Hcorr : sk_correction_cycles sk = offset).
  { unfold skew_preflight in Hsk. destruct (SFltb _ _); [done|]. injection Hsk as <-. cbn. lia. }
  assert (Hct : ct_waiter contender = waiter /\ validate_sample_set (wm_sample_limit_reached waiter)
    (Z.of_nat (length (wm_latencies_cycles waiter))) (su_max_samples u) = Ok tt).
  { unfold conclude_trial, other in Hc. destruct drive, producer, victim; try done. cbn in Hc.
    destruct (validate_sample_set _ _ _) as [[]|]; [|done]. by injection Hc as <-. }
  destruct Hct as [Hct Hval]. rewrite Hlat, Hlim in Hval. rewrite (reachable_recorded _ _ Hs) in Hval, Hlat.
  destruct (samples_complete (su_expected_aux u) (su_warmup_events u) (su_max_samples u) (t_samples s) Hmax Hwarm) as (_ & _ & Hkept).
  specialize (Hkept Hval) as [Hkept _]. apply repetition_reports in Hre as (Hraw & Hsamples & Hper).
  rewrite Hct, Hcorr, Hlat, Hkept in Hraw. rewrite (correct_kept _ _ _ 0 _ Ho Hwords) in Hraw. fold kept in Hraw.
  assert (Hin : forall i x, (i, x) ∈ kept <-> t_samples s !! i = Some x /\ measured (su_expected_aux u) (su_warmup_events u) offset (Z.of_nat i) x = true).
  { intros i x. unfold kept. rewrite measured_at, Nat.sub_0_r. split; [tauto|]. intros [? ?]. split; [lia|done]. }
  assert (Htrue : forall kx, kx ∈ kept -> true_latency skew uncertainty s kx (corrected offset kx.2)).
  { intros [i x] [Hx _]%Hin. apply reachable_inv in Hs as (tags & I). destruct (inv_samples _ _ I i x Hx) as [? ?].
    split; [done|]. split; [done|]. split; [done|]. unfold estimates, corrected in *. cbn. lia. }
  split; [exact Hin|]. rewrite Hraw in *. split; [|split].
  - clear -Htrue. induction kept as [|kx l IH]; [constructor|]. constructor; [apply Htrue; left|]. apply IH. intros y Hy. apply Htrue. by right.
  - by rewrite Hsamples, length_fmap.
  - eapply Forall_impl; [exact Hper|]. intros p (kx & -> & Hkx)%list_elem_of_fmap. exists kx. split; [done|]. by apply Htrue.
Qed.
