(* ===== verification/Jsonl.v ===== *)
(** * The lines of the results are JSON

    A reader of compact JSON (the grammar of RFC 8259 without white space) and of JSON lines, as the reference that the
    benchmark's format strings are checked against: whatever they write, the reader reads back, and no line
    contains a line break. Texts are read as lists of characters, as [json_read] of [Pure] does. *)

From stdpp Require Import pretty.
From Stdlib Require Import SpecFloat.
From S2P Require Import Prelude BenchFs Errors Pure BenchCases Clock Measure.
Open Scope Z_scope.

(** ** The reader *)

Inductive Json :=
| JNull | JBool (b : bool) | JNumber (token : list Z) | JString (s : list Z)
| JArray (l : list Json) | JObject (l : list (list Z * Json)).

Definition digit (c : Z) : bool := (48 <=? c) && (c <=? 57).
Definition number_char (c : Z) : bool := digit c || (c =? 45) || (c =? 43) || (c =? 46) || (c =? 101) || (c =? 69).
Fixpoint span (p : Z -> bool) (l : list Z) : list Z * list Z :=
  match l with
  | [] => ([], [])
  | c :: r => if p c then let '(a, b) := span p r in (c :: a, b) else ([], l)
  end.
Definition after_char (c : Z) (l : list Z) : option (list Z) :=
  match l with x :: r => if x =? c then Some r else None | [] => None end.
Definition digits1 (l : list Z) : option (list Z) := let '(d, r) := span digit l in match d with [] => None | _ => Some r end.

(** An integer without leading zeros, then perhaps a fraction, then perhaps an exponent *)
Definition number_ok (token : list Z) : bool :=
  let t := default token (after_char 45 token) in
  match (match after_char 48 t with Some r => Some r | None => digits1 t end) with
  | None => false
  | Some r =>
      match (match after_char 46 r with Some r => digits1 r | None => Some r end) with
      | None => false
      | Some [] => true
      | Some (e :: r) =>
          ((e =? 101) || (e =? 69)) &&
          (let r := match after_char 43 r with Some r => r | None => default r (after_char 45 r) end in
           bool_decide (digits1 r = Some []))
      end
  end.

Fixpoint after_text (t l : list Z) : option (list Z) :=
  match t with [] => Some l | c :: t => r ← after_char c l; after_text t r end.
Definition keyword (l : list Z) : option (Json * list Z) :=
  match after_text [110; 117; 108; 108] l with
  | Some r => Some (JNull, r)
  | None =>
      match after_text [116; 114; 117; 101] l with
      | Some r => Some (JBool true, r)
      | None => r ← after_text [102; 97; 108; 115; 101] l; Some (JBool false, r)
      end
  end.
Definition read_number (l : list Z) : option (Json * list Z) :=
  let '(t, r) := span number_char l in if number_ok t then Some (JNumber t, r) else None.

Fixpoint read_value (fuel : nat) (l : list Z) {struct fuel} : option (Json * list Z) :=
  match fuel with
  | O => None
  | S fuel =>
      match l with
      | [] => None
      | c :: r =>
          if c =? 34 then '(s, r) ← json_read r; Some (JString s, r)
          else if c =? 91 then
            match after_char 93 r with
            | Some r => Some (JArray [], r)
            | None => '(vs, r) ← read_items fuel r; Some (JArray vs, r)
            end
          else if c =? 123 then
            match after_char 125 r with
            | Some r => Some (JObject [], r)
            | None => '(fs, r) ← read_fields fuel r; Some (JObject fs, r)
            end
          else match keyword l with Some x => Some x | None => read_number l end
      end
  end
with read_items (fuel : nat) (l : list Z) {struct fuel} : option (list Json * list Z) :=
  match fuel with
  | O => None
  | S fuel =>
      '(v, r) ← read_value fuel l;
      match after_char 44 r with
      | Some r => '(vs, r) ← read_items fuel r; Some (v :: vs, r)
      | None => r ← after_char 93 r; Some ([v], r)
      end
  end
with read_fields (fuel : nat) (l : list Z) {struct fuel} : option (list (list Z * Json) * list Z) :=
  match fuel with
  | O => None
  | S fuel =>
      l ← after_char 34 l;
      '(k, l) ← json_read l;
      l ← after_char 58 l;
      '(v, r) ← read_value fuel l;
      match after_char 44 r with
      | Some r => '(fs, r) ← read_fields fuel r; Some ((k, v) :: fs, r)
      | None => r ← after_char 125 r; Some ([(k, v)], r)
      end
  end.

(** One line; all of it has to be read. *)
Definition read_line (l : list Z) : option Json :=
  '(v, r) ← read_value (2 * length l) l; match r with [] => Some v | _ => None end.
(** The lines of a text that ends in a line break. *)
Fixpoint split_lines (current l : list Z) : option (list (list Z)) :=
  match l with
  | [] => match current with [] => Some [] | _ => None end
  | c :: l =>
      if c =? 10 then ls ← split_lines [] l; Some (current :: ls) else split_lines (current ++ [c]) l
  end.
Definition read_lines (text : string) : option (list Json) := ls ← split_lines [] (scalars text); mapM read_line ls.

(** ** Texts and what they are read as *)

Definition ends (rest : list Z) : Prop :=
  match rest with [] => True | c :: _ => c = 44 \/ c = 93 \/ c = 125 end.
(** What the reader makes of a text: a value, or nothing; the text has no control characters and is no end of an array. *)
Record written (t : string) (o : option Json) : Prop := mkWritten {
  wr_reads : forall fuel rest, (2 * length (scalars t) <= fuel)%nat -> ends rest ->
    read_value fuel (scalars t ++ rest) = j ← o; Some (j, rest);
  wr_plain : Forall (fun c => 32 <= c) (scalars t);
  wr_start : exists c l, scalars t = c :: l /\ c <> 93;
}.
Definition JText (s : string) : option Json := Some (JString (scalars s)).
Definition JToken (t : string) : option Json := Some (JNumber (scalars t)).
Lemma written_some t j : (forall fuel rest, (2 * length (scalars t) <= fuel)%nat -> ends rest ->
    read_value fuel (scalars t ++ rest) = Some (j, rest)) ->
  Forall (fun c => 32 <= c) (scalars t) -> written t (Some j).
Proof.
  intros Hr Hp. split; [exact Hr|exact Hp|]. specialize (Hr _ [] (Nat.le_refl _) I). rewrite app_nil_r in Hr.
  destruct (scalars t) as [|c l]; [done|]. exists c, l. split; [done|]. intros ->. discriminate Hr.
Qed.

Lemma scalars_app a b : scalars (a +:+ b) = scalars a ++ scalars b.
Proof.
  unfold scalars. rewrite <- fmap_app. f_equal. induction a as [|c a IH]; [done|].
  change (String c a +:+ b) with (String c (a +:+ b)). cbn. by rewrite IH.
Qed.
Lemma scalars_char (c : Z) : 0 <= c < 256 -> Z.of_nat (Ascii.nat_of_ascii (Ascii.ascii_of_nat (Z.to_nat c))) = c.
Proof. intros Hc. rewrite Ascii.nat_ascii_embedding by lia. lia. Qed.
Lemma scalars_range s : Forall (fun c => 0 <= c < 256) (scalars s).
Proof.
  unfold scalars. apply Forall_fmap, Forall_forall. intros c _. cbn. pose proof (Ascii.nat_ascii_bounded c). lia.
Qed.

(** *** Strings *)

Lemma escape_char_plain c : 0 <= c < 256 -> Forall (fun c => 32 <= c < 256) (json_escape_char c).
Proof.
  intros Hc. unfold json_escape_char, is_control, hex4, hex_digit.
  repeat match goal with |- context [if ?x then _ else _] => destruct x eqn:? end; repeat constructor; try lia;
    pose proof (Z.mod_pos_bound (c / 4096) 16); pose proof (Z.mod_pos_bound (c / 256) 16);
    pose proof (Z.mod_pos_bound (c / 16) 16); pose proof (Z.mod_pos_bound c 16); lia.
Qed.
Lemma escape_plain l : Forall (fun c => 0 <= c < 256) l -> Forall (fun c => 32 <= c < 256) (json_escape l).
Proof. induction 1 as [|c l Hc _ IH]; [done|]. cbn [json_escape]. apply Forall_app. split; [by apply escape_char_plain|done]. Qed.
Lemma scalars_of_chars l : Forall (fun c => 32 <= c < 256) l ->
  scalars (String.string_of_list_ascii ((fun c => Ascii.ascii_of_nat (Z.to_nat c)) <$> l)) = l.
Proof.
  intros Hl. unfold scalars. rewrite String.list_ascii_of_string_of_list_ascii. rewrite <- list_fmap_compose.
  induction Hl as [|c l Hc _ IH]; [done|]. cbn. f_equal; [apply scalars_char; lia|exact IH].
Qed.
Lemma scalars_escaped s : scalars (escaped s) = json_escape (scalars s).
Proof. unfold escaped. apply scalars_of_chars, escape_plain, scalars_range. Qed.
Lemma scalars_quoted t : scalars (quoted t) = 34 :: scalars t ++ [34].
Proof. unfold quoted. by rewrite !scalars_app. Qed.

Lemma written_string s : written (quoted (escaped s)) (JText s).
Proof.
  apply written_some; rewrite scalars_quoted, scalars_escaped.
  - intros [|fuel] rest Hf _; [cbn in Hf; lia|]. cbn [app read_value]. rewrite <- app_assoc. cbn [app].
    rewrite (json_escape_roundtrip (scalars s) rest); [done|]. eapply Forall_impl; [apply scalars_range|]. cbn. lia.
  - constructor; [lia|]. apply Forall_app. split; [|by repeat constructor].
    eapply Forall_impl; [apply escape_plain, scalars_range|]. cbn. lia.
Qed.
(** A text that needs no escaping *)
Definition plain_text (t : string) : Prop := escaped t = t.
Lemma written_text t : plain_text t -> written (quoted t) (JText t).
Proof. unfold plain_text. intros Ht. pose proof (written_string t) as Hw. by rewrite Ht in Hw. Qed.

(** *** Numbers *)

Lemma span_app p t rest : Forall (fun c => p c = true) t -> match rest with [] => True | c :: _ => p c = false end ->
  span p (t ++ rest) = (t, rest).
Proof.
  intros Ht Hr. induction Ht as [|c t Hc _ IH]; cbn; [|by rewrite Hc, IH].
  destruct rest as [|c rest]; [done|]. cbn. by rewrite Hr.
Qed.
Lemma span_all p t : Forall (fun c => p c = true) t -> span p t = (t, []).
Proof. intros Ht. rewrite <- (app_nil_r t) at 1. by apply span_app. Qed.
Lemma ends_number rest : ends rest -> match rest with [] => True | c :: _ => number_char c = false end.
Proof. destruct rest as [|c rest]; [done|]. by intros [->|[->| ->]]. Qed.
Lemma written_number t : number_ok (scalars t) = true -> Forall (fun c => number_char c = true) (scalars t) ->
  written t (JToken t).
Proof.
  intros Hok Hc. apply written_some; [|eapply Forall_impl; [exact Hc|]; unfold number_char, digit; cbn; intros; lia].
  intros [|fuel] rest Hf Hr; destruct (scalars t) as [|c l] eqn:E; [done|cbn in Hf; lia|done|].
  assert (Hk : keyword (c :: l ++ rest) = None /\ (c =? 34) = false /\ (c =? 91) = false /\ (c =? 123) = false).
  { apply Forall_cons in Hc as [Hc _]. unfold keyword, after_text, after_char. unfold number_char, digit in Hc.
    rewrite !(proj2 (Z.eqb_neq c _)) by lia. done. }
  destruct Hk as (Hk & E1 & E2 & E3). cbn [app read_value]. rewrite E1, E2, E3, Hk. unfold read_number.
  change (c :: l ++ rest) with ((c :: l) ++ rest). rewrite span_app; [by rewrite Hok|done|by apply ends_number].
Qed.

Definition digits (l : list Z) : Prop := Forall (fun c => digit c = true) l.
Definition integral (l : list Z) : Prop := l = [48] \/ exists c r, l = c :: r /\ 49 <= c <= 57 /\ digits r.
Definition fraction (l : list Z) : Prop := l = [] \/ exists d r, l = 46 :: d :: r /\ digits (d :: r).
Lemma digits1_app l rest : l <> [] -> digits l -> match rest with [] => True | c :: _ => digit c = false end ->
  digits1 (l ++ rest) = Some rest.
Proof. intros Hne Hl Hr. unfold digits1. rewrite span_app by done. by destruct l. Qed.
Lemma number_ok_unsigned l f : integral l -> fraction f ->
  number_ok (l ++ f) = true /\ number_ok (45 :: l ++ f) = true.
Proof.
  intros Hl Hf. assert (Hend : match f with [] => True | c :: _ => digit c = false end) by (by destruct Hf as [->|(d & r & -> & _)]).
  assert (Htail : match (match after_char 46 f with Some r => digits1 r | None => Some f end) with Some [] => True | _ => False end).
  { destruct Hf as [->|(d & r & -> & Hd)]; [done|]. cbn. rewrite <- (app_nil_r (d :: r)). by rewrite digits1_app. }
  assert (Hint : (match after_char 48 (l ++ f) with Some r => Some r | None => digits1 (l ++ f) end) = Some f /\ after_char 45 (l ++ f) = None).
  { destruct Hl as [->|(c & r & -> & Hc & Hr)]; [done|]. cbn [app]. unfold after_char at 1 2. rewrite !(proj2 (Z.eqb_neq c _)) by lia.
    split; [|done]. apply (digits1_app (c :: r)); [done| |done]. constructor; [unfold digit; lia|done]. }
  destruct Hint as [Hint H45]. unfold number_ok. cbn [after_char]. rewrite Z.eqb_refl, H45. cbn [default from_option]. unfold id. rewrite !Hint.
  revert Htail. destruct (match after_char 46 f with Some r => digits1 r | None => Some f end) as [[|]|]; done.
Qed.
Lemma digits_numbers l : digits l -> Forall (fun c => number_char c = true) l.
Proof. intros Hl. eapply Forall_impl; [exact Hl|]. cbn. intros c Hc. unfold number_char. by rewrite Hc. Qed.
Lemma integral_digits l : integral l -> digits l.
Proof. intros [->|(c & r & -> & Hc & Hr)]; repeat constructor; [|done]. unfold digit. lia. Qed.
Lemma fraction_numbers l : fraction l -> Forall (fun c => number_char c = true) l.
Proof. intros [->|(d & r & -> & Hd)]; [done|]. constructor; [done|]. by apply digits_numbers. Qed.

(** Decimal digits *)
Lemma scalars_cons c s : scalars (String c s) = Z.of_nat (Ascii.nat_of_ascii c) :: scalars s.
Proof. done. Qed.
Lemma pretty_char (x : N) : (x < 10)%N -> Z.of_nat (Ascii.nat_of_ascii (pretty_N_char x)) = 48 + Z.of_N x.
Proof. intros Hx. assert (Hd : (x = 0 \/ x = 1 \/ x = 2 \/ x = 3 \/ x = 4 \/ x = 5 \/ x = 6 \/ x = 7 \/ x = 8 \/ x = 9)%N) by lia.
  by repeat destruct Hd as [->|Hd]; [..|subst]. Qed.
Lemma pretty_go_integral (x : N) s : (0 < x)%N -> digits (scalars s) ->
  exists c r, scalars (pretty_N_go x s) = c :: r /\ 49 <= c <= 57 /\ digits r.
Proof.
  revert s. induction (N.lt_wf_0 x) as [x _ IH]. intros s Hx Hs. rewrite pretty_N_go_step by lia.
  assert (Hmod : (x mod 10 < 10)%N) by (apply N.mod_lt; lia).
  destruct (decide (x / 10 = 0)%N) as [E|E].
  - rewrite E, pretty_N_go_0. rewrite scalars_cons, pretty_char by done. exists (48 + Z.of_N (x mod 10)), (scalars s).
    split; [done|]. split; [|done]. pose proof (N.div_mod' x 10). lia.
  - apply IH; [apply N.div_lt; lia|by apply N.neq_0_lt_0|]. rewrite scalars_cons, pretty_char by done. constructor; [clear -Hmod; revert Hmod; generalize (x mod 10)%N; intros y Hy; unfold digit; lia|done].
Qed.
Lemma number_integral n : integral (scalars (number n)).
Proof.
  unfold number, pretty, pretty_N. case_decide as Hn; [by left|]. right. apply pretty_go_integral; [lia|constructor].
Qed.
Lemma padded_digits d s : digits (scalars s) -> s <> EmptyString -> digits (scalars (padded d s)) /\ scalars (padded d s) <> [].
Proof.
  intros Hs Hne. unfold padded. rewrite scalars_app. split.
  - apply Forall_app. split; [|done]. induction (d - String.length s)%nat as [|n IH]; [done|]. cbn [zeros]. rewrite scalars_app. by constructor.
  - destruct s; [done|]. rewrite scalars_cons. by destruct (scalars (zeros _)).
Qed.
Lemma number_nonempty n : number n <> EmptyString.
Proof. intros E. pose proof (number_integral n) as H. rewrite E in H. destruct H as [H|(c & r & H & _)]; discriminate H. Qed.
Lemma written_unsigned t l f : scalars t = l ++ f -> integral l -> fraction f ->
  written t (JToken t) /\ written ("-" +:+ t) (JToken ("-" +:+ t)).
Proof.
  intros Et Hl Hf. destruct (number_ok_unsigned l f Hl Hf) as [H1 H2].
  assert (Hc : Forall (fun c => number_char c = true) (l ++ f)).
  { apply Forall_app. split; [by apply digits_numbers, integral_digits|by apply fraction_numbers]. }
  split; apply written_number; rewrite ?scalars_app, ?Et; try done. by constructor.
Qed.
Lemma written_natural n : written (number n) (JToken (number n)).
Proof. eapply (written_unsigned _ _ []); [by rewrite app_nil_r|apply number_integral|by left]. Qed.
Lemma written_signed n : written (signed n) (JToken (signed n)).
Proof.
  unfold signed. destruct (n <? 0); [|apply written_natural].
  eapply (written_unsigned _ _ []); [by rewrite app_nil_r|apply number_integral|by left].
Qed.
Lemma decimal_shape d n : exists f, scalars (decimal d n) = scalars (number (n / 10 ^ Z.of_nat d)) ++ f /\ fraction f.
Proof.
  unfold decimal. rewrite !scalars_app. eexists. split; [done|]. right.
  destruct (padded_digits d (number (n mod 10 ^ Z.of_nat d))) as [Hd Hne];
    [apply integral_digits, number_integral|apply number_nonempty|].
  destruct (scalars (padded _ _)) as [|c r]; [done|]. by exists c, r.
Qed.
(** A float that is not finite has no JSON. *)
Definition JFixed (d : nat) (f : spec_float) : option Json := if is_finite f then JToken (fixed d f) else None.
Lemma not_finite t l : scalars t = l -> (forall rest, read_value 1 (l ++ rest) = None) ->
  (forall fuel rest, read_value (S fuel) (l ++ rest) = read_value 1 (l ++ rest)) ->
  Forall (fun c => 32 <= c) l -> (exists c r, l = c :: r /\ c <> 93) -> written t None.
Proof.
  intros <- H1 Hf Hp Hs. split; [|done|done]. intros [|fuel] rest Hfuel _.
  - destruct Hs as (c & r & E & _). rewrite E in Hfuel. cbn in Hfuel. lia.
  - by rewrite Hf, H1.
Qed.
Lemma written_fixed d f : written (fixed d f) (JFixed d f).
Proof.
  assert (Hd : forall s n, written (if s : bool then "-" +:+ decimal d n else decimal d n)
    (JToken (if s then "-" +:+ decimal d n else decimal d n))).
  { intros s n. destruct (decimal_shape d n) as (fr & E & Hf).
    pose proof (written_unsigned _ _ _ E (number_integral _) Hf) as [Hp Hm]. by destruct s. }
  destruct f as [s|s| |s m e]; [apply Hd| | |apply Hd].
  - destruct s; [apply (not_finite _ [45; 105; 110; 102])|apply (not_finite _ [105; 110; 102])]; try done;
      first [by repeat constructor|by eexists _, _].
  - apply (not_finite _ [78; 97; 78]); try done; first [by repeat constructor|by eexists _, _].
Qed.

(** *** Words, arrays and objects *)

Lemma read_scalars t j l : scalars t = l -> (forall fuel rest, (2 * length l <= fuel)%nat -> ends rest -> read_value fuel (l ++ rest) = Some (j, rest)) ->
  Forall (fun c => 32 <= c) l -> written t (Some j).
Proof. intros <-. apply written_some. Qed.
Lemma written_null : written "null" (Some JNull).
Proof. apply (read_scalars _ _ [110; 117; 108; 108]); [done| |repeat (constructor; [done|]); constructor]. by intros [|fuel] rest Hf _; [cbn in Hf; lia|]. Qed.
Lemma written_boolean b : written (boolean b) (Some (JBool b)).
Proof.
  destruct b.
  - apply (read_scalars _ _ [116; 114; 117; 101]); [done| |repeat (constructor; [done|]); constructor].
    by intros [|fuel] rest Hf _; [cbn in Hf; lia|].
  - apply (read_scalars _ _ [102; 97; 108; 115; 101]); [done| |repeat (constructor; [done|]); constructor].
    by intros [|fuel] rest Hf _; [cbn in Hf; lia|].
Qed.

Lemma after_same c l : after_char c (c :: l) = Some l.
Proof. unfold after_char. by rewrite Z.eqb_refl. Qed.
Definition joined (ts : list string) : list Z := scalars (String.concat "," ts).
Lemma joined_cons t t' ts : joined (t :: t' :: ts) = scalars t ++ 44 :: joined (t' :: ts).
Proof. unfold joined. cbn [String.concat]. by rewrite !scalars_app. Qed.
Lemma joined_plain ts : Forall (fun t => Forall (fun c => 32 <= c) (scalars t)) ts -> Forall (fun c => 32 <= c) (joined ts).
Proof.
  induction 1 as [|t ts Ht Hts IH]; [constructor|]. destruct ts as [|t' ts]; [done|]. rewrite joined_cons.
  apply Forall_app. split; [done|]. by constructor.
Qed.

(** All of the values, or nothing *)
Definition JList (os : list (option Json)) : option Json := JArray <$> mapM id os.
Lemma items_read ts os fuel rest : Forall2 written ts os -> ts <> [] -> (2 * length (joined ts) + 1 <= fuel)%nat ->
  read_items fuel (joined ts ++ 93 :: rest) = js ← mapM id os; Some (js, rest).
Proof.
  intros Hts. revert fuel. induction Hts as [|t o ts os Ht Hts IH]; intros [|fuel] Hne Hf; try done; [lia|].
  destruct Hts as [|t' o' ts os Ht' Hts]; cbn [read_items].
  - change (joined [t]) with (scalars t) in *. rewrite (wr_reads _ _ Ht); [by destruct o|lia|by right; left].
  - rewrite joined_cons, <- app_assoc in *. cbn [app] in *. rewrite length_app in Hf. cbn [length] in Hf.
    rewrite (wr_reads _ _ Ht); [|lia|by left]. destruct o as [j|]; [|done]. cbn [mbind option_bind].
    rewrite after_same, (IH fuel) by (done || lia). change (mapM id (Some j :: o' :: os)) with (js ← mapM id (o' :: os); Some (j :: js)).
    by destruct (mapM id (o' :: os)).
Qed.
Definition bracketed (ts : list string) : string := "[" +:+ String.concat "," ts +:+ "]".
Lemma scalars_bracketed ts : scalars (bracketed ts) = 91 :: joined ts ++ [93].
Proof. unfold bracketed. by rewrite !scalars_app. Qed.
Lemma written_array ts os : Forall2 written ts os -> written (bracketed ts) (JList os).
Proof.
  intros Hts. split; rewrite scalars_bracketed; [| |by eexists _, _].
  - intros [|fuel] rest Hf Hr; [cbn in Hf; lia|]. cbn [app read_value]. rewrite <- app_assoc. cbn [app].
    change (91 =? 34) with false. change (91 =? 91) with true. cbn beta iota.
    destruct Hts as [|t o ts os Ht Hts]; [done|].
    destruct (wr_start _ _ Ht) as (c & l & El & Hc).
    assert (Hn : after_char 93 (joined (t :: ts) ++ 93 :: rest) = None).
    { destruct ts as [|t' ts]; [change (joined [t]) with (scalars t)|rewrite joined_cons]; rewrite El; cbn;
        by rewrite (proj2 (Z.eqb_neq c 93) Hc). }
    rewrite Hn, (items_read _ (o :: os)); [|by constructor|done|].
    + unfold JList. by destruct (mapM id (o :: os)).
    + cbn [length] in Hf. rewrite length_app in Hf. lia.
  - constructor; [lia|]. apply Forall_app. split; [|by constructor; [lia|]]. apply joined_plain.
    induction Hts as [|t j ts js Ht _ IH]; constructor; [apply (wr_plain _ _ Ht)|done].
Qed.

(** A member of an object, whose key needs no escaping *)
Inductive written_member : string -> string * option Json -> Prop :=
| WrittenMember k t o : plain_text k -> written t o -> written_member (member (k, t)) (k, o).

Lemma scalars_member k t : scalars (member (k, t)) = 34 :: scalars k ++ 34 :: 58 :: scalars t.
Proof. unfold member. cbn [fst snd]. rewrite !scalars_app, scalars_quoted. cbn [app]. by rewrite <- app_assoc. Qed.
Lemma member_plain m f : written_member m f -> Forall (fun c => 32 <= c) (scalars m).
Proof.
  intros [k t j Hk Ht]. rewrite scalars_member. constructor; [lia|]. apply Forall_app. split.
  - pose proof (wr_plain _ _ (written_text k Hk)) as Hp. rewrite scalars_quoted in Hp.
    apply Forall_cons in Hp as [_ Hp]. by apply Forall_app in Hp as [Hp _].
  - do 2 (constructor; [lia|]). apply (wr_plain _ _ Ht).
Qed.
Lemma read_key k rest : plain_text k -> json_read (scalars k ++ 34 :: rest) = Some (scalars k, rest).
Proof.
  intros Hk. pose proof (json_escape_roundtrip (scalars k) rest) as H. rewrite <- scalars_escaped, Hk in H. apply H.
  eapply Forall_impl; [apply scalars_range|]. cbn. lia.
Qed.
Lemma read_field fuel k t o r : plain_text k -> written t o -> (2 * length (scalars (member (k, t))) <= S fuel)%nat -> ends r ->
  read_fields (S fuel) (scalars (member (k, t)) ++ r) =
    j ← o;
    match after_char 44 r with
    | Some r => '(fs, r) ← read_fields fuel r; Some ((scalars k, j) :: fs, r)
    | None => r ← after_char 125 r; Some ([(scalars k, j)], r)
    end.
Proof.
  intros Hk Ht Hf Hr. rewrite scalars_member in *. cbn [read_fields app]. rewrite after_same. cbn [mbind option_bind].
  rewrite <- app_assoc. cbn [app]. rewrite read_key by done. cbn [mbind option_bind]. rewrite after_same. cbn [mbind option_bind].
  rewrite (wr_reads _ _ Ht); [by destruct o| |done]. cbn [length] in Hf. rewrite length_app in Hf. cbn [length] in Hf. lia.
Qed.

Definition named (f : string * option Json) : option (list Z * Json) := j ← f.2; Some (scalars f.1, j).
Lemma fields_read ms fs fuel rest : Forall2 written_member ms fs -> ms <> [] -> (2 * length (joined ms) + 1 <= fuel)%nat ->
  read_fields fuel (joined ms ++ 125 :: rest) = js ← mapM named fs; Some (js, rest).
Proof.
  intros Hms. revert fuel. induction Hms as [|m f ms fs Hm Hms IH]; intros [|fuel] Hne Hf; try done; [lia|].
  destruct Hm as [k t o Hk Ht]. destruct Hms as [|m' f' ms fs Hm' Hms].
  - change (joined [member (k, t)]) with (scalars (member (k, t))) in *.
    rewrite (read_field _ _ _ o); [by destruct o|done|done|lia|by right; right].
  - rewrite joined_cons, <- app_assoc in *. cbn [app] in *. rewrite length_app in Hf. cbn [length] in Hf.
    rewrite (read_field _ _ _ o); [|done|done|lia|by left]. destruct o as [j|]; [|done]. cbn [mbind option_bind].
    rewrite after_same, (IH fuel) by (done || lia).
    change (mapM named ((k, Some j) :: f' :: fs)) with (js ← mapM named (f' :: fs); Some ((scalars k, j) :: js)).
    by destruct (mapM named (f' :: fs)).
Qed.
Lemma scalars_object ms : scalars (object ms) = 123 :: joined ms ++ [125].
Proof. unfold object. by rewrite !scalars_app. Qed.
Definition JMembers (fs : list (string * option Json)) : option Json := JObject <$> mapM named fs.
Lemma written_object ms fs : Forall2 written_member ms fs -> written (object ms) (JMembers fs).
Proof.
  intros Hms. split; rewrite scalars_object; [| |by eexists _, _].
  - intros [|fuel] rest Hf Hr; [cbn in Hf; lia|]. cbn [app read_value]. rewrite <- app_assoc. cbn [app].
    change (123 =? 34) with false. change (123 =? 91) with false. change (123 =? 123) with true. cbn beta iota.
    destruct Hms as [|m f ms fs Hm Hms]; [done|].
    assert (Hn : after_char 125 (joined (m :: ms) ++ 125 :: rest) = None).
    { destruct Hm as [k t j _ _]. destruct ms as [|m' ms]; [change (joined [member (k, t)]) with (scalars (member (k, t)))|rewrite joined_cons];
        by rewrite scalars_member. }
    rewrite Hn, (fields_read _ (f :: fs)); [|by constructor|done|].
    + unfold JMembers. by destruct (mapM named (f :: fs)).
    + cbn [length] in Hf. rewrite length_app in Hf. lia.
  - constructor; [lia|]. apply Forall_app. split; [|by constructor; [lia|]]. apply joined_plain.
    induction Hms as [|m f ms fs Hm _ IH]; constructor; [by apply (member_plain _ f)|done].
Qed.

(** ** The lines as JSON values *)

Definition JInteger (n : Z) : option Json := JToken (number n).
Definition JBoolean (b : bool) : option Json := Some (JBool b).

Definition medians_json (s : Summary) : list (string * option Json) :=
  [("median_p50_cycles", JInteger (su_p50_cycles s)); ("median_p99_cycles", JInteger (su_p99_cycles s));
   ("median_p999_cycles", JInteger (su_p999_cycles s)); ("median_p50_ns", JInteger (su_p50_ns s));
   ("median_p99_ns", JInteger (su_p99_ns s)); ("median_p999_ns", JInteger (su_p999_ns s))]%string.
Definition percentiles_json (p50 p90 p99 p999 max : Z) : option Json :=
  JMembers [("p50", JInteger p50); ("p90", JInteger p90); ("p99", JInteger p99); ("p999", JInteger p999); ("max", JInteger max)]%string.
(** What a line says; nothing when one of its floats is not finite *)
Definition line_json (l : Line) : option Json :=
  match l with
  | RepetitionLine c w v =>
      JMembers [
        ("type", JText "repetition"); ("case", JText (case_name c)); ("workload", JText (workload_str w));
        ("repetition", JInteger (re_repetition v)); ("control_first", JBoolean (re_control_first v));
        ("samples", JInteger (re_samples v));
        ("latency_cycles", percentiles_json (re_p50_cycles v) (re_p90_cycles v) (re_p99_cycles v) (re_p999_cycles v) (re_max_cycles v));
        ("latency_ns", percentiles_json (re_p50_ns v) (re_p90_ns v) (re_p99_ns v) (re_p999_ns v) (re_max_ns v));
        ("unclassified_wakes", match re_unclassified_wakes v with Some n => JInteger n | None => Some JNull end);
        ("public_timeouts", JInteger (re_public_timeouts v)); ("invalid_samples", JInteger (re_invalid_samples v));
        ("migrated_samples", JInteger (re_migrated_samples v)); ("sample_limit_reached", JBoolean (re_sample_limit_reached v));
        ("victim", JMembers [
           ("control_mops", JFixed 6 (re_victim_control_mops v)); ("contender_mops", JFixed 6 (re_victim_contender_mops v));
           ("control_p99_chunk_ns", JInteger (re_victim_control_p99_ns v));
           ("contender_p99_chunk_ns", JInteger (re_victim_contender_p99_ns v));
           ("throughput_loss_percent", JFixed 6 (re_throughput_loss_percent v));
           ("p99_degradation_percent", JFixed 6 (re_victim_p99_degradation_percent v))])]
  | SamplesLine c w r values =>
      JMembers [
        ("type", JText "latency_samples"); ("case", JText (case_name c)); ("workload", JText (workload_str w));
        ("repetition", JInteger r); ("unit", JText "TSC cycles"); ("tsc_offset_correction", JText "applied");
        ("order", JText "observation"); ("values", JList (JInteger <$> values))]
  | SkipLine c w reason =>
      JMembers [
        ("type", JText "skip"); ("case", JText (case_name c)); ("workload", JText (workload_str w)); ("reason", JText reason)]
  | SummaryLine s =>
      JMembers ([
        ("type", JText "summary"); ("case", JText (case_name (su_case s))); ("workload", JText (workload_str (su_workload s)));
        ("repetitions", JInteger (su_repetitions s))]
        ++ medians_json s ++ [
        ("median_victim_throughput_loss_percent", JFixed 6 (su_throughput_loss_percent s));
        ("median_victim_p99_degradation_percent", JFixed 6 (su_victim_p99_degradation_percent s));
        ("invalid_samples", JInteger (su_invalid_samples s)); ("migrated_samples", JInteger (su_migrated_samples s));
        ("sample_limit_reached", JBoolean (su_sample_limit_reached s)); ("eligible", JBoolean (su_eligible s))])
  | WinnerLine s =>
      JMembers ([
        ("type", JText "winner"); ("workload", JText (workload_str (su_workload s))); ("case", JText (case_name (su_case s)))]
        ++ medians_json s)
  | NoWinnerLine w => JMembers [("type", JText "winner"); ("workload", JText (workload_str w)); ("case", Some JNull)]
  end%string.

Lemma written_fixed6 f : written (fixed6 f) (JFixed 6 f).
Proof. apply written_fixed. Qed.
Create HintDb json.
#[export] Hint Resolve written_null written_boolean written_natural written_signed written_fixed written_fixed6 written_string : json.
Lemma written_members (ms : list (string * string)) (fs : list (string * option Json)) :
  Forall2 (fun m f => plain_text m.1 /\ m.1 = f.1 /\ written m.2 f.2) ms fs ->
  Forall2 written_member (member <$> ms) fs.
Proof. induction 1 as [|[k t] [k' o] ms fs (Hk & Hkk & Ht) _ IH]; [constructor|]. cbn in *. subst. constructor; [by constructor|done]. Qed.
Lemma written_object_members ms fs : Forall2 (fun m f => plain_text m.1 /\ m.1 = f.1 /\ written m.2 f.2) ms fs ->
  written (object (member <$> ms)) (JMembers fs).
Proof. intros Hms. by apply written_object, written_members. Qed.
Ltac plain := solve [vm_compute; reflexivity].
(** An object's members one by one; what remains are the strings, numbers and objects that need a hypothesis or a lemma of their own. *)
Ltac written_value :=
  first [apply written_text; plain | progress auto with json | idtac].
Ltac members :=
  apply written_object_members; repeat first [apply Forall2_nil_2 | apply Forall2_cons; split];
  (split; [plain|split; [reflexivity|cbn [fst snd]]]); written_value.

Lemma concat_flat sep l1 l2 l3 : l2 <> [] ->
  String.concat sep (l1 ++ [String.concat sep l2] ++ l3) = String.concat sep (l1 ++ l2 ++ l3).
Proof.
  intros Hl2. assert (Hin : String.concat sep ([String.concat sep l2] ++ l3) = String.concat sep (l2 ++ l3)).
  { destruct l3 as [|x l3]; [by rewrite !app_nil_r|]. cbn [app String.concat]. induction l2 as [|y l2 IH]; [done|].
    destruct l2 as [|z l2]; [done|]. cbn [app String.concat] in *. by rewrite !string_app_assoc, (IH ltac:(done)). }
  induction l1 as [|x l1 IH]; [exact Hin|]. destruct l1 as [|y l1].
  - cbn [app] in *. destruct l2 as [|z l2]; [done|]. cbn [app String.concat] in *. by rewrite Hin.
  - cbn [app String.concat] in *. by rewrite IH.
Qed.
Definition medians_text (s : Summary) : list (string * string) :=
  [("median_p50_cycles", number (su_p50_cycles s)); ("median_p99_cycles", number (su_p99_cycles s));
   ("median_p999_cycles", number (su_p999_cycles s)); ("median_p50_ns", number (su_p50_ns s));
   ("median_p99_ns", number (su_p99_ns s)); ("median_p999_ns", number (su_p999_ns s))]%string.
Lemma medians_members (s : Summary) :
  median_latency_json_fields (su_p50_cycles s) (su_p99_cycles s) (su_p999_cycles s) (su_p50_ns s) (su_p99_ns s) (su_p999_ns s)
  = String.concat "," (member <$> medians_text s).
Proof. unfold median_latency_json_fields, json_field, medians_text, member, quoted, number. cbn [fmap list_fmap String.concat fst snd]. by rewrite !string_app_assoc. Qed.
Lemma object_medians l1 s l3 :
  object ((member <$> l1) ++ [median_latency_json_fields (su_p50_cycles s) (su_p99_cycles s) (su_p999_cycles s)
    (su_p50_ns s) (su_p99_ns s) (su_p999_ns s)] ++ (member <$> l3)) = object (member <$> (l1 ++ medians_text s ++ l3)).
Proof. unfold object. rewrite medians_members, concat_flat by done. by rewrite !fmap_app. Qed.

Lemma object_medians_end l1 s :
  object ((member <$> l1) ++ [median_latency_json_fields (su_p50_cycles s) (su_p99_cycles s) (su_p999_cycles s)
    (su_p50_ns s) (su_p99_ns s) (su_p999_ns s)]) = object (member <$> (l1 ++ medians_text s)).
Proof. pose proof (object_medians l1 s []) as H. cbn [fmap list_fmap] in H. by rewrite !app_nil_r in H. Qed.

Lemma written_workload w : written (quoted (workload_str w)) (JText (workload_str w)).
Proof. apply written_text. by destruct w. Qed.
Lemma written_numbers values : written (bracketed (number <$> values)) (JList (JInteger <$> values)).
Proof. apply written_array. induction values as [|n values IH]; constructor; [apply written_natural|done]. Qed.
#[export] Hint Resolve written_workload : json.

Lemma written_line l : written (line_text l) (line_json l).
Proof.
  destruct l as [c w v|c w r values|c w reason|s|s|w]; cbn [line_text line_json].
  - members.
    + members.
    + members.
    + destruct (re_unclassified_wakes v); [apply written_natural|apply written_null].
    + members.
  - members. apply written_numbers.
  - members.
  - rewrite object_medians. unfold medians_text, medians_json. cbn [app]. members.
  - rewrite object_medians_end. unfold medians_text, medians_json. cbn [app]. members.
  - members.
Qed.

(** ** Lines of a text *)

Lemma split_lines_app current l rest : Forall (fun c => 32 <= c) l ->
  split_lines current (l ++ 10 :: rest) = ls ← split_lines [] rest; Some ((current ++ l) :: ls).
Proof.
  intros Hl. revert current. induction Hl as [|c l Hc _ IH]; intros current; cbn [app split_lines]; [by rewrite app_nil_r|].
  rewrite (proj2 (Z.eqb_neq c 10)) by lia. rewrite IH. by rewrite <- app_assoc.
Qed.
Lemma read_written t o : written t o -> read_line (scalars t) = o.
Proof. intros [Hr _ _]. unfold read_line. specialize (Hr _ [] (Nat.le_refl _) I). rewrite app_nil_r in Hr. rewrite Hr. by destruct o. Qed.
Lemma read_lines_cons t o text : written t o ->
  read_lines ((t +:+ String (Ascii.ascii_of_nat 10) EmptyString) +:+ text) = j ← o; js ← read_lines text; Some (j :: js).
Proof.
  intros Ht. unfold read_lines. rewrite !scalars_app. change (scalars (String (Ascii.ascii_of_nat 10) EmptyString)) with [10].
  rewrite <- app_assoc. cbn [app]. rewrite split_lines_app by apply (wr_plain _ _ Ht). cbn [app].
  destruct (split_lines [] (scalars text)) as [ls|]; [|by destruct o]. cbn [mbind option_bind mapM]. by rewrite (read_written t o Ht).
Qed.
