(* ===== verification/Handover.v ===== *)
(** * From the build receipt to the official benchmark (benches/wake_latency.rs, provenance)

    Official mode accepts a run only with the receipt benchctl hands to the workload in its environment: the
    receipt has to describe the running executable, by the stamps compiled into it and by its digest, and the
    production-control proof has to name the receipt's build. The JSON parser ([JsonValue]) and SHA-256 are external. *)

From stdpp Require Import pretty sorting.
From S2P Require Import Prelude BenchFs Journal Receipt Pure Process Supervision Build BuildProofs BenchCases ControlProof WorkloadProofs.
Open Scope Z_scope.
Open Scope snz_scope.

(** [serde_json::Value]; null and numbers are not looked into. *)
Inductive Value :=
| VString (s : string)
| VBool (b : bool)
| VArray (l : list Value)
| VObject (fields : gmap string Value)
| VOther.

Definition as_str (v : Value) : option string := match v with VString s => Some s | _ => None end.
Definition as_bool (v : Value) : option bool := match v with VBool b => Some b | _ => None end.
Definition as_array (v : Value) : option (list Value) := match v with VArray l => Some l | _ => None end.
Definition as_object (v : Value) : option (gmap string Value) := match v with VObject m => Some m | _ => None end.

(** [serde_json::from_str::<Value>] *)
Class JsonValue := json_value : string -> option Value.
(** What the control proof looks at. *)
#[export] Instance json_object_of `{JsonValue} : JsonObject := fun text =>
  match json_value text with
  | None => None
  | Some v => Some ((fun m : gmap string Value => as_str <$> m) <$> as_object v)
  end.

(** The [option_env!] constants of the executable. *)
Record Stamps := mkStamps {
  COMPILED_COMMIT : option string;
  COMPILED_REPOSITORY : option string;
  COMPILED_RUSTC : option string;
  COMPILED_RUSTUP_TOOLCHAIN : option string;
  COMPILED_DIRTY : option string;
}.

Record BuildReceiptProvenance := mkReceiptProvenance {
  rp_version : string;
  rp_build_id : string;
  rp_repository : string;
  rp_source_commit : string;
  rp_lockfile_path : string;
  rp_lockfile_sha256 : string;
  rp_package_id : string;
  rp_bench : string;
  rp_features : list string;
  rp_profile : string;
  rp_rustc : string;
  rp_rustup_toolchain : string;
  rp_target_triple : string;
  rp_benchctl_version : string;
  rp_benchctl_executable_sha256 : string;
  rp_executable_sha256 : string;
}.
Record RepositoryProvenance := mkRepositoryProvenance {
  rv_compiled_commit : string;
  rv_compiled_dirty : option bool;
  rv_checkout_commit : string;
  rv_checkout_dirty : option bool;
  rv_receipt : option BuildReceiptProvenance;
}.

(** The error messages, by what they say. *)
Inductive HandoverError :=
| NoReceipt | ParsingReceipt | ReceiptNotObject | NeedsString (name : string) | UnsupportedVersion (version : string)
| NotCleanSource | NeedsFeatures | BadFeature | Unstamped (what : string) | OtherBuildReceipt
| ReadingExecutable (e : io_error) | OtherExecutable | ControlRefused (e : ProofError).

Definition map_err {A E F} (r : result A E) (f : E -> F) : result A F := match r with Ok x => Ok x | Err e => Err (f e) end.
Definition nonempty (s : string) : bool := negb (bool_decide (s = EmptyString)).
Definition stamped (stamp : option string) (what : string) : result string HandoverError :=
  ok_or (s ← stamp; if nonempty s then Some s else None) (Unstamped what).
(** The closure [string] of [validate_official_receipt] *)
Definition string_field (object : gmap string Value) (name : string) : result string HandoverError :=
  ok_or (v ← object !! name; s ← as_str v; if nonempty s then Some s else None) (NeedsString name).
Fixpoint feature_strings (l : list Value) : result (list string) HandoverError :=
  match l with
  | [] => Ok []
  | v :: l =>
      f <-? ok_or (s ← as_str v; if nonempty s then Some s else None) BadFeature;
      fs <-? feature_strings l;
      Ok (f :: fs)
  end.

Section gate.
Context `{Serde} `{JsonValue}.
Variable stamps : Stamps.
(** fs::read of /proc/self/exe *)
Variable self_exe : result string io_error.

(** The fields, in the order they are asked for. *)
Definition receipt_of (object : gmap string Value) (version : string) : result BuildReceiptProvenance HandoverError :=
  build_id <-? string_field object "build_id";
  repository <-? string_field object "repository";
  source_commit <-? string_field object "source_commit";
  lockfile_path <-? string_field object "lockfile_path";
  lockfile_sha256 <-? string_field object "lockfile_sha256";
  package_id <-? string_field object "package_id";
  bench <-? string_field object "bench";
  features <-? ok_or (v ← object !! "features"%string; as_array v) NeedsFeatures;
  features <-? feature_strings features;
  profile <-? string_field object "profile";
  rustc <-? string_field object "rustc";
  rustup_toolchain <-? string_field object "rustup_toolchain";
  target_triple <-? string_field object "target_triple";
  benchctl_version <-? string_field object "benchctl_version";
  benchctl_executable_sha256 <-? string_field object "benchctl_executable_sha256";
  executable_sha256 <-? string_field object "executable_sha256";
  Ok (mkReceiptProvenance version build_id repository source_commit lockfile_path lockfile_sha256 package_id bench
        features profile rustc rustup_toolchain target_triple benchctl_version benchctl_executable_sha256
        executable_sha256).

Definition validate_official_receipt (value : Value) : result BuildReceiptProvenance HandoverError :=
  object <-? ok_or (as_object value) ReceiptNotObject;
  version <-? string_field object "version";
  if negb (bool_decide (version = RECEIPT_VERSION)) then Err (UnsupportedVersion version)
  else if negb (bool_decide ((object !! "source_clean"%string ≫= as_bool) = Some true)) then Err NotCleanSource
  else
    receipt <-? receipt_of object version;
    commit <-? stamped (COMPILED_COMMIT stamps) "executable";
    repository <-? stamped (COMPILED_REPOSITORY stamps) "repository";
    rustc <-? stamped (COMPILED_RUSTC stamps) "compiler";
    toolchain <-? stamped (COMPILED_RUSTUP_TOOLCHAIN stamps) "toolchain";
    if negb (bool_decide (COMPILED_DIRTY stamps = Some "false"%string))
       || negb (bool_decide (rp_source_commit receipt = commit))
       || negb (bool_decide (rp_rustc receipt = rustc))
       || negb (bool_decide (rp_rustup_toolchain receipt = toolchain))
       || negb (bool_decide (rp_repository receipt = repository))
       || negb (bool_decide (rp_bench receipt = "wake_latency"%string))
       || negb (bool_decide (rp_profile receipt = "bench"%string))
       || negb (existsb (fun f => bool_decide (f = "benchmark-only"%string)) (rp_features receipt))
    then Err OtherBuildReceipt
    else
      _ <-? string_field object "executable";
      current_executable <-? map_err self_exe ReadingExecutable;
      if negb (bool_decide (hex_digest current_executable = rp_executable_sha256 receipt)) then Err OtherExecutable
      else Ok receipt.

Definition official_build_receipt (pf : ProcFs) : result BuildReceiptProvenance HandoverError :=
  encoded <-? ok_or (pf_env pf !! "BENCHCTL_BUILD_RECEIPT_JSON"%string) NoReceipt;
  value <-? ok_or (json_value encoded) ParsingReceipt;
  receipt <-? validate_official_receipt value;
  _ <-? map_err (validate_from_environment pf (rp_build_id receipt)) ControlRefused;
  Ok receipt.

Definition repository_provenance (pf : ProcFs) (mode : Mode) : result RepositoryProvenance HandoverError :=
  match mode with
  | Smoke =>
      Ok (mkRepositoryProvenance
        (default "unknown"%string (s ← COMPILED_COMMIT stamps; if nonempty s then Some s else None))
        (if bool_decide (COMPILED_DIRTY stamps = Some "true"%string) then Some true
         else if bool_decide (COMPILED_DIRTY stamps = Some "false"%string) then Some false else None)
        "unknown" None None)
  | Official =>
      receipt <-? official_build_receipt pf;
      Ok (mkRepositoryProvenance (rp_source_commit receipt) (Some false) (rp_source_commit receipt) (Some false)
            (Some receipt))
  end.
End gate.

(** ** What acceptance means *)

Definition has (object : gmap string Value) (name s : string) : Prop :=
  object !! name = Some (VString s) /\ s <> EmptyString.
(** The object records [p]. *)
Record records (object : gmap string Value) (p : BuildReceiptProvenance) : Prop := mkRecords {
  re_version : has object "version" RECEIPT_VERSION /\ rp_version p = RECEIPT_VERSION;
  re_clean : object !! "source_clean"%string = Some (VBool true);
  re_build_id : has object "build_id" (rp_build_id p);
  re_repository : has object "repository" (rp_repository p);
  re_source_commit : has object "source_commit" (rp_source_commit p);
  re_lockfile_path : has object "lockfile_path" (rp_lockfile_path p);
  re_lockfile_sha256 : has object "lockfile_sha256" (rp_lockfile_sha256 p);
  re_package_id : has object "package_id" (rp_package_id p);
  re_bench : has object "bench" (rp_bench p);
  re_features : object !! "features"%string = Some (VArray (VString <$> rp_features p)) /\
    Forall (fun f => f <> EmptyString) (rp_features p);
  re_profile : has object "profile" (rp_profile p);
  re_rustc : has object "rustc" (rp_rustc p);
  re_rustup_toolchain : has object "rustup_toolchain" (rp_rustup_toolchain p);
  re_target_triple : has object "target_triple" (rp_target_triple p);
  re_benchctl_version : has object "benchctl_version" (rp_benchctl_version p);
  re_benchctl_sha256 : has object "benchctl_executable_sha256" (rp_benchctl_executable_sha256 p);
  re_executable_sha256 : has object "executable_sha256" (rp_executable_sha256 p);
  re_executable : exists e, has object "executable" e;
}.
(** The stamps of the running executable are the ones of [p], an official build of this benchmark. *)
Record stamped_as (stamps : Stamps) (p : BuildReceiptProvenance) : Prop := mkStampedAs {
  sa_commit : COMPILED_COMMIT stamps = Some (rp_source_commit p);
  sa_repository : COMPILED_REPOSITORY stamps = Some (rp_repository p);
  sa_rustc : COMPILED_RUSTC stamps = Some (rp_rustc p);
  sa_toolchain : COMPILED_RUSTUP_TOOLCHAIN stamps = Some (rp_rustup_toolchain p);
  sa_dirty : COMPILED_DIRTY stamps = Some "false"%string;
  sa_bench : rp_bench p = "wake_latency"%string;
  sa_profile : rp_profile p = "bench"%string;
  sa_feature : "benchmark-only"%string ∈ rp_features p;
}.

Lemma nonempty_ok s : nonempty s = true <-> s <> EmptyString.
Proof. unfold nonempty. by rewrite negb_true_iff, bool_decide_eq_false. Qed.
Lemma stamped_ok stamp what s : stamped stamp what = Ok s <-> stamp = Some s /\ s <> EmptyString.
Proof.
  unfold stamped. rewrite ok_or_ok. destruct stamp as [c|]; cbn; [|naive_solver].
  destruct (nonempty c) eqn:E; [apply nonempty_ok in E; naive_solver|].
  split; [done|]. intros [[= ->] Hs%nonempty_ok]. congruence.
Qed.
Lemma string_field_ok object name s : string_field object name = Ok s <-> has object name s.
Proof.
  unfold string_field, has. rewrite ok_or_ok. destruct (object !! name) as [[c| | | |]|]; cbn; try naive_solver.
  destruct (nonempty c) eqn:E; [apply nonempty_ok in E; naive_solver|].
  split; [done|]. intros [[= ->] Hs%nonempty_ok]. congruence.
Qed.
Lemma feature_strings_ok l fs : feature_strings l = Ok fs <-> l = VString <$> fs /\ Forall (fun f => f <> EmptyString) fs.
Proof.
  revert fs. induction l as [|v l IH]; intros fs; cbn [feature_strings].
  { split; [intros [= <-]; by split|]. intros [E _]. by destruct fs. }
  rewrite result_bind_ok. setoid_rewrite result_bind_ok. setoid_rewrite IH. setoid_rewrite ok_or_ok.
  destruct v as [c| | | |]; cbn; try (split; [by intros (? & ? & _)|by intros [E _]; destruct fs]).
  destruct (nonempty c) eqn:E.
  - apply nonempty_ok in E. split.
    + intros (f & [= <-] & fs' & [-> Hfs] & [= <-]). split; [done|by constructor].
    + intros [Heq Hf]. destruct fs as [|f fs]; [done|]. injection Heq as -> ->. apply Forall_cons in Hf as [_ Hf].
      exists f. split; [done|]. by exists fs.
  - split; [by intros (? & ? & _)|]. intros [Heq Hf]. destruct fs as [|f fs]; [done|]. injection Heq as -> ->.
    apply Forall_cons in Hf as [Hf%nonempty_ok _]. congruence.
Qed.
Lemma map_err_ok {A E F} (r : result A E) (f : E -> F) x : map_err r f = Ok x <-> r = Ok x.
Proof. destruct r; naive_solver. Qed.

Section exact.
Context `{Serde} `{JsonValue}.

Lemma receipt_of_ok object version p : has object "version" version ->
  version = RECEIPT_VERSION -> object !! "source_clean"%string = Some (VBool true) ->
  (exists e, has object "executable" e) -> receipt_of object version = Ok p <-> records object p.
Proof.
  intros Hv Hver Hclean Hexe. unfold receipt_of. split.
  - intros E. repeat (apply result_bind_ok in E as (? & ? & E)). injection E as <-.
    repeat match goal with H : string_field _ _ = Ok _ |- _ => apply string_field_ok in H end.
    match goal with H : feature_strings ?l = Ok _ |- _ => apply feature_strings_ok in H as [-> Hf] end.
    match goal with H : ok_or _ NeedsFeatures = Ok _ |- _ =>
      apply ok_or_ok, bind_Some in H as ([] & Hl & Ha); try discriminate Ha; injection Ha as -> end.
    split; cbn; try done. by subst.
  - intros R. destruct p; destruct R; cbn in *.
    repeat match goal with H : has object ?n ?s |- context [string_field object ?n] =>
      rewrite (proj2 (string_field_ok object n s) H); cbn [result_bind] end.
    destruct re_features0 as [-> Hf]. cbn. rewrite (proj2 (feature_strings_ok _ _) (conj eq_refl Hf)). cbn.
    repeat match goal with H : has object ?n ?s |- context [string_field object ?n] =>
      rewrite (proj2 (string_field_ok object n s) H); cbn [result_bind] end.
    destruct re_version0 as [_ ->]. by rewrite Hver.
Qed.

(** The check that compares the receipt with the stamps. *)
Lemma existsb_only fs : existsb (fun f => bool_decide (f = "benchmark-only"%string)) fs = true <-> "benchmark-only"%string ∈ fs.
Proof.
  rewrite existsb_exists. split.
  - intros (x & Hx & E%bool_decide_eq_true). subst. by apply list_elem_of_In.
  - intros Hx. exists "benchmark-only"%string. split; [by apply list_elem_of_In|by apply bool_decide_eq_true].
Qed.

Lemma validate_official_ok stamps self_exe v p :
  validate_official_receipt stamps self_exe v = Ok p <->
  exists object, v = VObject object /\ records object p /\ stamped_as stamps p /\
    exists bytes, self_exe = Ok bytes /\ hex_digest bytes = rp_executable_sha256 p.
Proof.
  unfold validate_official_receipt. split.
  - intros E. apply result_bind_ok in E as (object & Ho%ok_or_ok & E). destruct v as [| | |m|]; try discriminate Ho.
    injection Ho as ->. apply result_bind_ok in E as (version & Hv%string_field_ok & E).
    apply guard_ok in E as [Hver%negb_false_iff%bool_decide_eq_true E]. apply guard_ok in E as [Hc%negb_false_iff%bool_decide_eq_true E].
    apply result_bind_ok in E as (q & Hq & E).
    repeat (apply result_bind_ok in E as (? & ?%stamped_ok & E)). apply guard_ok in E as [Hm E].
    apply result_bind_ok in E as (e & He%string_field_ok & E). apply result_bind_ok in E as (bytes & Hb%map_err_ok & E).
    apply guard_ok in E as [Hd%negb_false_iff%bool_decide_eq_true [= ->]].
    assert (Hclean : object !! "source_clean"%string = Some (VBool true)).
    { destruct (object !! "source_clean"%string) as [[|b| | |]|]; cbn in Hc; congruence. }
    exists object. split; [done|]. subst version.
    split; [by apply (receipt_of_ok object RECEIPT_VERSION); eauto|]. split; [|by exists bytes].
    rewrite !orb_false_iff, !negb_false_iff, !bool_decide_eq_true, existsb_only in Hm.
    destruct Hm as [[[[[[[? ?] ?] ?] ?] ?] ?] ?]. destruct_and?. split; congruence.
  - intros (object & -> & R & St & bytes & -> & Hd). cbn [as_object ok_or result_bind].
    destruct (re_version _ _ R) as [Hv _]. rewrite (proj2 (string_field_ok _ _ _) Hv). cbn [result_bind].
    rewrite (re_clean _ _ R). cbn.
    rewrite (proj2 (receipt_of_ok object RECEIPT_VERSION p Hv eq_refl (re_clean _ _ R) (re_executable _ _ R)) R). cbn.
    destruct St as [-> -> -> -> -> -> -> Hf%existsb_only]. unfold stamped. cbn.
    destruct (re_source_commit _ _ R) as [_ ->%nonempty_ok], (re_repository _ _ R) as [_ ->%nonempty_ok],
      (re_rustc _ _ R) as [_ ->%nonempty_ok], (re_rustup_toolchain _ _ R) as [_ ->%nonempty_ok]. cbn.
    rewrite Hf. cbn. destruct (re_executable _ _ R) as [e He].
    rewrite (proj2 (string_field_ok _ _ _) He). cbn. by rewrite !bool_decide_true.
Qed.

(** The whole gate. *)
Lemma official_ok stamps self_exe pf p :
  official_build_receipt stamps self_exe pf = Ok p <->
  exists text object, pf_env pf !! "BENCHCTL_BUILD_RECEIPT_JSON"%string = Some text /\
    json_value text = Some (VObject object) /\ records object p /\ stamped_as stamps p /\
    (exists bytes, self_exe = Ok bytes /\ hex_digest bytes = rp_executable_sha256 p) /\
    validate_from_environment pf (rp_build_id p) = Ok tt.
Proof.
  unfold official_build_receipt. split.
  - intros E. apply result_bind_ok in E as (text & Ht%ok_or_ok & E). apply result_bind_ok in E as (v & Hv%ok_or_ok & E).
    apply result_bind_ok in E as (q & Hq & E). apply result_bind_ok in E as ([] & Hc%map_err_ok & [= ->]).
    apply validate_official_ok in Hq as (object & -> & R & S & D). by exists text, object.
  - intros (text & object & -> & Hv & R & S & D & Hc). cbn [ok_or result_bind].
    rewrite Hv. cbn [ok_or result_bind].
    rewrite (proj2 (validate_official_ok _ _ _ _)) by (by exists object). cbn. by rewrite Hc.
Qed.
End exact.

(** ** What benchctl hands over *)

(** The fields serde writes for a [BuildReceipt]. *)
Definition receipt_object (r : BuildReceipt) : gmap string Value :=
  list_to_map [
    ("version", VString (br_version r)); ("build_id", VString (br_build_id r));
    ("manifest_path", VString (rdisplay (br_manifest_path r))); ("repository", VString (rdisplay (br_repository r)));
    ("source_commit", VString (br_source_commit r)); ("source_clean", VBool (br_source_clean r));
    ("lockfile_path", VString (rdisplay (br_lockfile_path r))); ("lockfile_sha256", VString (br_lockfile_sha256 r));
    ("package_id", VString (br_package_id r)); ("bench", VString (br_bench r));
    ("features", VArray (VString <$> br_features r)); ("profile", VString (br_profile r));
    ("rustc", VString (br_rustc r)); ("rustup_toolchain", VString (br_rustup_toolchain r));
    ("target_triple", VString (br_target_triple r)); ("benchctl_version", VString (br_benchctl_version r));
    ("benchctl_executable_sha256", VString (br_benchctl_executable_sha256 r));
    ("executable", VString (rdisplay (br_executable r))); ("executable_sha256", VString (br_executable_sha256 r));
    ("built_unix_millis", VOther)]%string.

(** Parsing what serde_json printed; a SHA-256 digest has digits. *)
Class HandoverLaws `{Serde} `{SupervisionSerde} `{JsonValue} := {
  receipt_json r b : receipt_to_string r = Some b -> json_value b = Some (VObject (receipt_object r));
  handed_proof v o b t : proof_to_vec v o b = Some t ->
    json_value t = Some (VObject (<["version" := VString v]> (<["operation_id" := VString o]> {["build_id" := VString b]})));
  digest_nonempty bytes : sha256_hex bytes <> EmptyString;
}.

Definition provenance_of (r : BuildReceipt) : BuildReceiptProvenance :=
  mkReceiptProvenance (br_version r) (br_build_id r) (rdisplay (br_repository r)) (br_source_commit r)
    (rdisplay (br_lockfile_path r)) (br_lockfile_sha256 r) (br_package_id r) (br_bench r) (br_features r) (br_profile r)
    (br_rustc r) (br_rustup_toolchain r) (br_target_triple r) (br_benchctl_version r) (br_benchctl_executable_sha256 r)
    (br_executable_sha256 r).

(** The stamps and the receipt are those of one official build. *)
Record built_as (stamps : Stamps) (r : BuildReceipt) : Prop := mkBuiltAs {
  ba_stamps : stamped_as stamps (provenance_of r);
  ba_benchctl : br_benchctl_executable_sha256 r <> EmptyString;
}.

Lemma display_nonempty l : display l <> EmptyString.
Proof. by destruct l. Qed.
Lemma rdisplay_absolute p : is_absolute p = true -> rdisplay p <> EmptyString.
Proof. destruct p; [intros _; apply display_nonempty|done]. Qed.
Lemma is_empty_false s : is_empty s = false <-> s <> EmptyString.
Proof. unfold is_empty. by rewrite bool_decide_eq_false. Qed.

Section handover.
Context `{SE : Serde} `{RS : ReceiptSerde} `{SS : SupervisionSerde} `{JV : JsonValue} `{HL : !HandoverLaws}.

Lemma sealed_nonempty r : sealed r ->
  Forall (fun f => f <> EmptyString) (br_features r) /\ rdisplay (br_repository r) <> EmptyString /\
  rdisplay (br_lockfile_path r) <> EmptyString /\ rdisplay (br_executable r) <> EmptyString /\
  br_build_id r <> EmptyString /\ br_lockfile_sha256 r <> EmptyString /\ br_package_id r <> EmptyString /\
  br_target_triple r <> EmptyString /\ br_benchctl_version r <> EmptyString /\ br_source_commit r <> EmptyString /\
  br_rustc r <> EmptyString /\ br_rustup_toolchain r <> EmptyString /\ br_bench r <> EmptyString /\ br_profile r = "bench"%string.
Proof.
  intros (_ & _ & I & D). unfold identity_invalid in I.
  rewrite !orb_false_iff, !negb_false_iff, !bool_decide_eq_true, !is_empty_false in I. destruct_and?.
  assert (br_build_id r <> EmptyString).
  { unfold identity_digest in D. destruct (identity_to_vec _) as [b|]; [|done]. injection D as <-. apply digest_nonempty. }
  repeat match goal with H : is_absolute _ = true |- _ => apply rdisplay_absolute in H end.
  split.
  { apply Forall_forall. intros f Hf ->. match goal with H : existsb is_empty _ = false |- _ => apply not_true_iff_false in H; apply H end.
    apply existsb_exists. exists EmptyString. split; [by apply list_elem_of_In|done]. }
  unfold CARGO_PKG_VERSION in *. repeat split; try done; congruence.
Qed.

Lemma records_sealed r bytes : sealed r -> br_benchctl_executable_sha256 r <> EmptyString ->
  hex_digest bytes = br_executable_sha256 r -> records (receipt_object r) (provenance_of r).
Proof.
  intros Hs Hb Hd. destruct (sealed_nonempty r Hs) as (? & ? & ? & ? & ? & ? & ? & ? & ? & ? & ? & ? & ? & Hp).
  destruct Hs as (Hv & Hc & _). assert (br_executable_sha256 r <> EmptyString) by (rewrite <- Hd; apply digest_nonempty).
  split; cbn; unfold has; try (split; [reflexivity|done]).
  - split; [|done]. split; [rewrite <- Hv; reflexivity|done].
  - transitivity (Some (VBool (br_source_clean r))); [reflexivity|by rewrite Hc].
  - split; [reflexivity|by rewrite Hp].
  - eexists. split; [reflexivity|done].
Qed.
Lemma records_inv r p : records (receipt_object r) p -> p = provenance_of r /\ br_benchctl_executable_sha256 r <> EmptyString.
Proof.
  assert (Hinj : forall name s s', has (receipt_object r) name s -> receipt_object r !! name = Some (VString s') ->
    s = s' /\ s' <> EmptyString) by (intros name s s' [Hl Hn] Hl'; rewrite Hl' in Hl; by injection Hl as ->).
  intros [[H0 Hv] _ H1 H2 H3 H4 H5 H6 H7 [H8 _] H9 H10 H11 H12 H13 H14 H15 _].
  destruct (Hinj _ _ (br_version r) H0 eq_refl) as [E0 _], (Hinj _ _ (br_build_id r) H1 eq_refl) as [E1 _], (Hinj _ _ (rdisplay (br_repository r)) H2 eq_refl) as [E2 _],
    (Hinj _ _ (br_source_commit r) H3 eq_refl) as [E3 _], (Hinj _ _ (rdisplay (br_lockfile_path r)) H4 eq_refl) as [E4 _],
    (Hinj _ _ (br_lockfile_sha256 r) H5 eq_refl) as [E5 _], (Hinj _ _ (br_package_id r) H6 eq_refl) as [E6 _],
    (Hinj _ _ (br_bench r) H7 eq_refl) as [E7 _], (Hinj _ _ (br_profile r) H9 eq_refl) as [E9 _],
    (Hinj _ _ (br_rustc r) H10 eq_refl) as [E10 _], (Hinj _ _ (br_rustup_toolchain r) H11 eq_refl) as [E11 _],
    (Hinj _ _ (br_target_triple r) H12 eq_refl) as [E12 _], (Hinj _ _ (br_benchctl_version r) H13 eq_refl) as [E13 _],
    (Hinj _ _ (br_benchctl_executable_sha256 r) H14 eq_refl) as [E14 N], (Hinj _ _ (br_executable_sha256 r) H15 eq_refl) as [E15 _].
  assert (Hf : VString <$> rp_features p = VString <$> br_features r).
  { assert (E : receipt_object r !! "features"%string = Some (VArray (VString <$> br_features r))) by reflexivity.
    rewrite H8 in E. by injection E. }
  apply (list_fmap_eq_inj VString) in Hf; [|by intros ? ? [=]].
  rewrite E0 in Hv.
  clear E0 H0 H1 H2 H3 H4 H5 H6 H7 H8 H9 H10 H11 H12 H13 H14 H15 Hinj.
  split; [|exact N]. destruct p; unfold provenance_of; cbn in *. subst. reflexivity.
Qed.

(** The process in which the benchmark of [e] runs: its environment, with the number of the descriptor, and what
    it sees of the inherited pipe. *)
Record runs (e : exec) (pf : ProcFs) (fd : Z) : Prop := mkRuns {
  ru_env : pf_env pf = <["BENCHCTL_PRODUCTION_CONTROL_FD"%string := pretty (Z.to_N fd)]> (ex_env e);
  ru_fd : 3 <= fd <= 2147483647;
  ru_pipe : pf_metadata pf fd = Ok (0, true);
  ru_root : exists m, pf_uid_map pf = Ok m /\ maps_namespace_root_to_host_root m = true;
  ru_proof : forall p, ex_proof e = Some p -> pf_read pf fd = Ok p;
}.

Lemma workload_env_operation env json op b : workload_env env json op b !! "BENCHCTL_OPERATION_ID"%string = Some op.
Proof. unfold workload_env. destruct b; [rewrite lookup_insert_ne by done|]; apply lookup_insert_eq. Qed.
Lemma workload_env_receipt env json op b : workload_env env json op b !! "BENCHCTL_BUILD_RECEIPT_JSON"%string = Some json.
Proof. unfold workload_env. destruct b; rewrite !lookup_insert_ne by done; apply lookup_insert_eq. Qed.

Lemma runs_control e pf fd build op :
  runs e pf fd -> ex_env e !! "BENCHCTL_OPERATION_ID"%string = Some op ->
  validate_from_environment pf build = validate_descriptor pf fd op build.
Proof.
  intros [Henv Hfd _ _ _] Hop. unfold validate_from_environment. rewrite Henv, lookup_insert_eq. cbn [ok_or result_bind].
  rewrite parse_pretty, Z2N.id by lia. cbn [ok_or result_bind]. rewrite lookup_insert_ne, Hop by done. done.
Qed.

(** The gate in the process of an authorized run. *)
Lemma official_run_ok r text bytes exe p0 e rc stamps pf fd prov :
  authorized r text bytes exe p0 e -> sr_production_control r = true -> receipt_from_slice text = Some rc ->
  runs e pf fd ->
  repository_provenance stamps (Ok bytes) pf Official = Ok prov <->
    built_as stamps rc /\
    prov = mkRepositoryProvenance (br_source_commit rc) (Some false) (br_source_commit rc) (Some false) (Some (provenance_of rc)).
Proof.
  intros (rc' & json & Hrc & Hs & Hj & _ & Hd & _ & _ & _ & Henv & Hproof) Hprod Hrc' Hruns.
  rewrite Hrc in Hrc'. injection Hrc' as ->. rewrite Hprod in Hproof, Henv. destruct Hproof as (_ & proof & Hp & Hvec).
  assert (Hctl : validate_from_environment pf (br_build_id rc) = Ok tt).
  { rewrite (runs_control e pf fd _ (sr_operation_id r) Hruns) by (by rewrite Henv, workload_env_operation).
    apply validate_descriptor_ok. destruct Hruns as [_ ? ? ? Hread]. split; [done|]. split; [done|]. split; [done|].
    eexists proof, _. split; [by apply Hread|]. unfold json_object, json_object_of. rewrite (handed_proof _ _ _ _ Hvec).
    split; [reflexivity|]. cbn beta. rewrite !lookup_fmap. repeat split; reflexivity. }
  cbn [repository_provenance]. rewrite result_bind_ok. setoid_rewrite official_ok. split.
  - intros (p & (t & object & Ht & Hv & R & St & _ & _) & [= <-]). destruct Hruns as [He _ _ _ _].
    rewrite He, Henv, lookup_insert_ne, workload_env_receipt in Ht by done. injection Ht as <-.
    rewrite (receipt_json _ _ Hj) in Hv. injection Hv as <-. apply records_inv in R as [-> Hb]. done.
  - intros [[St Hb] ->]. exists (provenance_of rc). split; [|done]. exists json, (receipt_object rc).
    split; [destruct Hruns as [-> _ _ _ _]; by rewrite Henv, lookup_insert_ne, workload_env_receipt by done|]. split; [by apply receipt_json|].
    split; [by eapply records_sealed|]. split; [done|]. split; [by exists bytes|done].
Qed.

(** What [option_env!] sees when cargo compiles with these variables. *)
Definition stamps_of (env : list (string * string)) : Stamps :=
  let variable name := snd <$> find (fun v => bool_decide (v.1 = name)) env in
  mkStamps (variable "SNOOZER_BENCHMARK_COMMIT"%string) (variable "SNOOZER_BENCHMARK_REPOSITORY"%string)
    (variable "SNOOZER_BENCHMARK_RUSTC"%string) (variable "SNOOZER_BENCHMARK_RUSTUP_TOOLCHAIN"%string)
    (variable "SNOOZER_BENCHMARK_DIRTY"%string).

(** Sorting and removing repetitions keeps the features. *)
Lemma dedup_strings_elem l x : x ∈ dedup_strings l <-> x ∈ l.
Proof.
  split; [apply dedup_strings_sub|]. induction l as [|y l IH]; [done|]. destruct l as [|z l]; [done|].
  change (dedup_strings (y :: z :: l)) with
    (if bool_decide (y = z) then dedup_strings (z :: l) else y :: dedup_strings (z :: l)).
  case_bool_decide; set_solver.
Qed.

(** The receipt of a build and the stamps cargo compiled into its executable belong together. *)
Lemma recorded_built_as `{CommandOs} `{CargoFormats} ns pr q p rs messages rc :
  recorded ns pr q p rs messages rc ->
  built_as (stamps_of (benchmark_environment p rs)) rc <->
    bq_bench q = "wake_latency"%string /\ "benchmark-only"%string ∈ bq_features q.
Proof.
  intros Hr. destruct (rd_fields _ _ _ _ _ _ _ Hr) as (_ & Fr & Fc & _ & _ & _ & Fb & Fu & Ft & _).
  destruct (rd_made _ _ _ _ _ _ _ Hr) as (Ff & Fp & c & Fx).
  assert (Hin : "benchmark-only"%string ∈ br_features rc <-> "benchmark-only"%string ∈ bq_features q).
  { by rewrite Ff, dedup_strings_elem, merge_sort_Permutation. }
  split.
  - intros [[_ _ _ _ _ Hb _ Hf] _]. cbn in Hb, Hf. by rewrite <- Hin, <- Fb.
  - intros [Hb Hf]. split; [|by rewrite Fx; apply digest_nonempty].
    split; cbn; try done; [by rewrite Fc|by rewrite Fr|by rewrite Fu|by rewrite Ft|by rewrite Fb|by apply Hin].
Qed.

End handover.

(** *** A run for the witness *)

Definition run_receipt : BuildReceipt :=
  mkReceipt RECEIPT_VERSION "#id" (Absolute ["repo"; "Cargo.toml"]%string) (Absolute ["repo"]%string) "c0ffee" true
    (Absolute ["repo"; "Cargo.lock"]%string) "10c4" "pkg" "wake_latency" ["benchmark-only"]%string "bench" "rustc 1" "stable" "x86_64"
    CARGO_PKG_VERSION "#tool" (Absolute ["bench"]%string) "#bits" 0.
Definition run_serde : Serde := {|
  request_to_vec _ := None; journal_to_vec_pretty _ := None; journal_from_slice _ := None;
  sha256_hex s := ("#" +:+ s)%string |}.
Definition run_receipts : ReceiptSerde := {|
  identity_to_vec i := if bool_decide (i = identity_fields run_receipt) then Some "id"%string else None;
  receipt_to_vec_pretty r := None;
  receipt_from_slice b := if bool_decide (b = "receipt"%string) then Some run_receipt else None |}.
Definition run_supervision : SupervisionSerde := {|
  receipt_to_string r := if bool_decide (r = run_receipt) then Some "json"%string else None;
  status_to_vec _ := None; status_from_slice _ := None; outcome_to_vec _ := None; outcome_from_slice _ := None;
  proof_to_vec v o b := Some (enc v (enc o (enc b EmptyString))) |}.
Definition run_json : JsonValue := fun t =>
  if bool_decide (t = "json"%string) then Some (VObject (receipt_object run_receipt))
  else
    '(v, t) ← dec t; '(o, t) ← dec t; '(b, _) ← dec t;
    Some (VObject (<["version" := VString v]> (<["operation_id" := VString o]> {["build_id" := VString b]}))).
Lemma run_laws : @HandoverLaws run_serde run_supervision run_json.
Proof.
  split; [| |done].
  - intros r b. cbn. case_bool_decide as E; [|done]. by intros [= <-]; subst r.
  - intros v o b t [= <-]. unfold json_value, run_json. rewrite bool_decide_false by (by destruct v).
    by rewrite dec_enc; simpl; rewrite dec_enc; simpl; rewrite dec_enc.
Qed.

Definition run_request : SupervisorRequest :=
  mkSupervisor ["go"]%string ["status"]%string ["x.receipt"]%string ["x.executable"]%string "op" 50 1000 1000
    ["--bench"; "--official"]%string true.
Definition run_proof : string := enc "benchctl-production-control-v1" (enc "op" (enc "#id" EmptyString)).
Definition run_exec : exec := {|
  ex_program := ["x.executable"]%string; ex_args := ["--bench"; "--official"]%string;
  ex_env := workload_env ∅ "json" "op" true; ex_uid := 1000; ex_gid := 1000; ex_proof := Some run_proof |}.
Definition run_view : ProcFs :=
  mkProcFs (<["BENCHCTL_PRODUCTION_CONTROL_FD"%string := pretty 5%N]> (ex_env run_exec)) (fun _ => Ok (0, true)) (Ok host_map)
    (fun _ => Ok run_proof).
Definition run_stamps (commit : string) : Stamps :=
  mkStamps (Some commit) (Some "/repo"%string) (Some "rustc 1"%string) (Some "stable"%string) (Some "false"%string).
Definition run_proc : proc := mkProc 0 0 77 [] ∅ ["benchctl"]%string.

Lemma run_authorized :
  @authorized run_supervision run_serde run_receipts run_request "receipt" "bits" ["x.executable"]%string run_proc run_exec.
Proof.
  exists run_receipt, "json"%string. split; [done|]. split; [by repeat split; vm_compute|]. split; [by vm_compute|].
  repeat (split; [done|]). by exists run_proof.
Qed.
Lemma run_runs : runs run_exec run_view 5.
Proof. split; [done|done|done|exists host_map; split; [done|by vm_compute]|by intros p [= <-]]. Qed.

