(* ===== verification/Metadata.v ===== *)
(** * The metadata line of the results (benches/wake_latency.rs, JsonlOutput::metadata)

    What a run records about its arguments, the machine, the build and the hardware preflight, as the format strings write
    it. The JSON of a list of strings is serde_json's ([StringsToJson]). *)

From stdpp Require Import pretty.
From Stdlib Require Import SpecFloat.
From S2P Require Import Preflight Prelude Errors Pure BenchCases Platform Handover Clock Measure.
Open Scope Z_scope.
Open Scope snz_scope.

(** [serde_json::to_string] of a list of strings *)
Class StringsToJson := strings_to_json : list string -> result string string.

(** ** Constants and names *)

Open Scope string_scope.
Definition CSTATE_WARNING : string := "OFFICIAL BENCHMARK POLICY: Only POLL and exact CPU C1 may be enabled on the assigned CPUs. C1E and every other CPU idle state, including CPU C2/CPU C3 and deeper states, must be disabled because their exit latency conflicts with the minimum-wake-latency objective. Intel UMWAIT C0.1 is a separate instruction hint. These results do not represent the default power-saving configuration.".
Definition SMOKE_CSTATE_WARNING : string := "NON-OFFICIAL SMOKE: CPU idle states other than POLL and exact CPU C1, including C1E and CPU C2/CPU C3 or deeper states, may be enabled on the assigned CPUs. Intel UMWAIT C0.1 is a separate instruction hint. Official runs enable only POLL and exact CPU C1 because other states conflict with the minimum-wake-latency objective.".
Definition BURSTY_SCHEDULE_VERSION : string := "bursty-v1".
Definition RESULT_SCHEMA_VERSION : string := "snoozer-wake-latency-v3".
Definition mode_str (m : Mode) : string := match m with Smoke => "smoke (non-official)" | Official => "official" end.
(** The warning of a mode *)
Definition cstate_warning (m : Mode) : string := match m with Official => CSTATE_WARNING | Smoke => SMOKE_CSTATE_WARNING end.

Definition preflight_error_status (e : HardwareWaitError) : string :=
  match e with
  | Unsupported _ => "unsupported"
  | PreflightRequired => "preflight_required"
  | PreflightPanicked => "panicked"
  | PreflightFailed _ _ => "failed"
  end.
Definition preflight_failure_name (e : HardwareWaitError) : option string :=
  match e with
  | PreflightFailed _ reason =>
      Some match reason with
           | WaitDidNotBlock => "wait_did_not_block"
           | StoreWakeNotObserved => "store_wake_not_observed"
           | Inconclusive => "inconclusive"
           end
  | PreflightRequired | PreflightPanicked | Unsupported _ => None
  end.

(** ** The objects of the line *)

(** [{:016x}] of a [u64] *)
Definition hex16 (n : Z) : string :=
  String.string_of_list_ascii ((fun i => Ascii.ascii_of_nat (Z.to_nat (hex_digit (n / 16 ^ Z.of_nat i mod 16)))) <$> rev (seq 0 16)).

(** [HardwarePreflight]: the report, or the error of a smoke run *)
Definition HardwarePreflight : Type := result PreflightReport HardwareWaitError.
Definition preflight_json (h : HardwarePreflight) : string :=
  match h with
  | Ok report =>
      object (member <$> [
        ("status", quoted "passed"); ("backend", quoted (hardware_backend_name (pr_backend report)));
        ("attempts", number (pr_attempts report)); ("observed_store_wake_trials", number (pr_verified_store_wakes report));
        ("baseline_wait_ns", number (pr_baseline_wait report))])
  | Err error =>
      object (member <$> [
        ("status", quoted (preflight_error_status error));
        ("backend", match error with PreflightFailed backend _ => quoted (hardware_backend_name backend) | _ => "null" end);
        ("failure", match preflight_failure_name error with Some failure => quoted failure | None => "null" end);
        ("diagnostic", quoted (escaped (hardware_wait_error_display error)))])
  end.

(** The summary that goes to the standard error *)
Definition console_summary (h : HardwarePreflight) : string :=
  match h with
  | Ok report =>
      "hardware preflight passed: backend=" +:+ hardware_backend_name (pr_backend report) +:+ ", attempts=" +:+ number (pr_attempts report)
      +:+ ", observed_store_wake_trials=" +:+ number (pr_verified_store_wakes report)
      +:+ ", baseline_wait_ns=" +:+ number (pr_baseline_wait report)
  | Err error => "hardware preflight " +:+ preflight_error_status error +:+ ": " +:+ hardware_wait_error_display error
  end.

(** A list joined by commas in brackets, text that is escaped and quoted, and a flag that may be unknown *)
Definition listed (items : list string) : string := "[" +:+ String.concat "," items +:+ "]".
Definition number_N (n : N) : string := number (Z.of_N n).
Definition text (s : string) : string := quoted (escaped s).
Definition optional_bool (o : option bool) : string := match o with Some b => boolean b | None => "null" end.

Definition state_text (s : CpuIdleState) : string :=
  object (member <$> [("cpu", number_N (is_cpu s)); ("name", text (is_name s)); ("disabled", boolean (is_disabled s))]).
Definition cpu_text (c : CpuInfo) : string :=
  object (member <$> [("cpu", number_N (ci_cpu c)); ("package", number_N (ci_package c)); ("core", number_N (ci_core c));
    ("siblings", listed (number_N <$> ascending_cpus (ci_siblings c)))]).
Definition policy_text (p : CpuPowerPolicy) : string :=
  object (member <$> [("cpu", number_N (pw_cpu p)); ("governor", text (pw_governor p));
    ("energy_preference", text (pw_energy_preference p))]).
Definition receipt_text (p : BuildReceiptProvenance) (features : string) : string :=
  object (member <$> [
    ("version", text (rp_version p)); ("build_id", text (rp_build_id p)); ("repository", text (rp_repository p));
    ("source_commit", text (rp_source_commit p)); ("lockfile_path", text (rp_lockfile_path p));
    ("lockfile_sha256", text (rp_lockfile_sha256 p)); ("package_id", text (rp_package_id p)); ("bench", text (rp_bench p));
    ("features", features); ("profile", text (rp_profile p)); ("rustc", text (rp_rustc p));
    ("rustup_toolchain", text (rp_rustup_toolchain p)); ("target_triple", text (rp_target_triple p));
    ("benchctl_version", text (rp_benchctl_version p));
    ("benchctl_executable_sha256", text (rp_benchctl_executable_sha256 p)); ("executable_sha256", text (rp_executable_sha256 p))]).

(** [MetadataInput], with what the build's environment and features say *)
Record MetadataInput := mkMetadataInput {
  mi_arguments : Arguments;
  mi_topology : Topology;
  mi_cpuidle : list CpuIdleState;
  mi_clock : TscClock;
  mi_skew : TscSkew;
  mi_cpu : CpuMetadata;
  mi_power_policies : list CpuPowerPolicy;
  mi_provenance : RepositoryProvenance;
  mi_cstate_warning : string;
  mi_hardware_preflight : HardwarePreflight;
  mi_stamps : Stamps;
  mi_benchmark_only : bool;
}.

Definition metadata_members (i : MetadataInput) (provenance_source receipt : string) : list (string * string) :=
  let a := mi_arguments i in
  let t := mi_topology i in
  let k := mi_skew i in
  let p := mi_provenance i in
  [ ("type", quoted "metadata"); ("schema", quoted RESULT_SCHEMA_VERSION); ("mode", quoted (mode_str (ar_mode a)));
    ("warning", text (mi_cstate_warning i)); ("benchmark_commit", text (rv_compiled_commit p));
    ("compiled_working_tree_dirty", optional_bool (rv_compiled_dirty p)); ("checkout_commit", text (rv_checkout_commit p));
    ("checkout_working_tree_dirty", optional_bool (rv_checkout_dirty p));
    ("rustc", text (default "unknown" (COMPILED_RUSTC (mi_stamps i))));
    ("rustup_toolchain", text (default "unknown" (COMPILED_RUSTUP_TOOLCHAIN (mi_stamps i))));
    ("provenance_source", quoted provenance_source); ("build_receipt", receipt);
    ("benchmark_features", listed (if mi_benchmark_only i then [quoted "benchmark-only"] else []));
    ("schedule_version", quoted BURSTY_SCHEDULE_VERSION); ("schedule_seed", quoted ("0x" +:+ hex16 BURSTY_SEED));
    ("bursty_gap_us_weight_percent",
      "[[0,30],[1,15],[5,12],[10,10],[25,10],[50,8],[100,7],[250,5],[1000,3]]");
    ("duration_ms", number (ar_trial_duration_ms a)); ("repetitions", number (ar_repetitions a));
    ("warmup_events", number (ar_warmup_events a)); ("max_samples", number (ar_max_samples a));
    ("acceptance_limits", object (member <$> [
      ("max_victim_throughput_loss_percent", fixed6 MAX_THROUGHPUT_LOSS_PERCENT);
      ("max_victim_p99_degradation_percent", fixed6 MAX_P99_DEGRADATION_PERCENT)]));
    ("clocksource", quoted "tsc"); ("cycles_per_ns", fixed 9 (cycles_per_ns (mi_clock i)));
    ("calibration_spread_percent", fixed6 (spread_percent (mi_clock i)));
    ("hardware_preflight", preflight_json (mi_hardware_preflight i));
    ("tsc_skew", object (member <$> [
      ("producer_offset_cycles", signed (sk_producer_offset_cycles k)); ("waiter_offset_cycles", signed (sk_waiter_offset_cycles k));
      ("producer_uncertainty_cycles", number (sk_producer_uncertainty_cycles k));
      ("waiter_uncertainty_cycles", number (sk_waiter_uncertainty_cycles k));
      ("producer_to_waiter_bound_ns", fixed6 (sk_producer_to_waiter_bound_ns k));
      ("applied_waiter_minus_producer_cycles", signed (sk_correction_cycles k))]));
    ("matched_control", quoted "victim-only baseline; reported loss conservatively includes producer and waiter activity");
    ("cpu_model", text (md_model (mi_cpu i))); ("microcode", text (md_microcode (mi_cpu i)));
    ("kernel", text (md_kernel (mi_cpu i))); ("power_policy", listed (policy_text <$> mi_power_policies i));
    ("roles", object (member <$> [("waiter", number_N (tp_waiter t)); ("victim", number_N (tp_victim t));
      ("producer", number_N (tp_producer t)); ("controller", number_N (tp_controller t))]));
    ("topology", listed (cpu_text <$> cpu_values (tp_cpus t))); ("cpuidle", listed (state_text <$> mi_cpuidle i)) ].

(** The line without its line break; an error when serde_json fails *)
Definition metadata_text `{StringsToJson} (i : MetadataInput) : result string string :=
  source_and_receipt <-? match rv_receipt (mi_provenance i) with
                         | Some receipt =>
                             features <-? strings_to_json (rp_features receipt);
                             Ok ("benchctl_build_receipt", receipt_text receipt features)
                         | None => Ok ("compile_stamps", "null")
                         end;
  Ok (object (member <$> metadata_members i source_and_receipt.1 source_and_receipt.2)).
Close Scope string_scope.
