(* ===== verification/Driver.v ===== *)
(** * The benchmark's main program (benches/wake_latency.rs, main)

    The gates an official run has to pass, the order of the measurements, the lines they are written as and
    the publication of the file. A program is a function of the operating system's state, of the world in which trials run,
    and of the log of the trials run so far. What the threads of a trial and of the handshake answer, CPUID and the calibration's stamps and the
    crate's hardware preflight are inputs. *)

From stdpp Require Import pretty.
From Stdlib Require Import SpecFloat.
From S2P Require Import Preflight.
From S2P Require Import Prelude BenchFs Errors Pure Journal Cpuidle BenchCases Platform ControlProof Handover Output.
From S2P Require Import Capabilities Clock Measure Metadata.
Open Scope Z_scope.
Open Scope snz_scope.

(** Why the program fails; the messages by what they say. *)
Inductive Failure :=
| ArgumentsRefused (e : ArgError)
| FeatureRequired
| SysfsRefused (message : string)
| PlatformFailed (e : any_error)
| AffinityFailed (e : io_error)
| PreflightRefused (e : HardwareWaitError)
| ClockFailed (e : ClockError)
| ProvenanceRefused (e : HandoverError)
| PowerUnreadable (cpu : N) (e : any_error)
| OutputFailed (e : io_error)
| MetadataRefused (message : string)
| UnknownCase (message : string)
| ControlFailed (message : string)
| CapExhausted (e : SampleSetError)
| ContenderFailed (e : TrialError)
| UnsupportedOfficial (case reason : string)
| NotMeasurable (message : string)
| FuelExhausted
| Panicked.

(** The trials run, with their results. *)
Inductive Trialled :=
| ControlTrial (r : result VictimMetrics string)
| ContenderTrialled (case : Case) (workload : Workload) (r : result ContenderTrial TrialError).

Section driver.
Context {W : Type}.

Record run := mkRun { rn_io : iost; rn_world : W; rn_log : list Trialled }.
Definition bench (A : Type) : Type := run -> result A Failure * run.
#[export] Instance bench_ret : MRet bench := fun A x s => (Ok x, s).
#[export] Instance bench_bind : MBind bench := fun A B k m s =>
  match m s with
  | (Ok x, s') => k x s'
  | (Err e, s') => (Err e, s')
  end.
Definition fails {A} (e : Failure) : bench A := fun s => (Err e, s).
Definition of_result {A E} (r : result A E) (f : E -> Failure) : bench A := fun s => (map_err r f, s).
Definition of_io {A E} (m : iost -> result A E * iost) (f : E -> Failure) : bench A := fun s =>
  let '(r, io) := m (rn_io s) in (map_err r f, mkRun io (rn_world s) (rn_log s)).
Definition of_checked {A} (m : Checked A) : bench A := fun s =>
  (match m with None => Err Panicked | Some (Err e) => Err (NotMeasurable e) | Some (Ok x) => Ok x end, s).
Definition attempted {A} (m : bench A) : bench (result A Failure) := fun s => let '(r, s') := m s in (Ok r, s').

(** What the program runs on. *)
Record Machine := mkMachine {
  ma_control : W -> ControlThreads * W;
  ma_contender : Case -> Workload -> W -> Threads * W;
  ma_constructors : Constructors;
  ma_preflight : HardwarePreflight;
  ma_cpuid : Cpuid;
  ma_window : nat -> Window;
  ma_estimate : result (Z * Z) ClockError;
  ma_stamps : Stamps;
  ma_self_exe : result string io_error;
  ma_procfs : ProcFs;
  ma_first_partial_id : Z;
  ma_fuel : nat;
}.
Context `{Serde} `{JsonValue} `{AffinityOs} `{StringsToJson}.
Variable (m : Machine).

(** ** Trials *)

Definition control_trial : bench VictimMetrics := fun s =>
  let '(threads, w) := ma_control m (rn_world s) in
  let r := run_victim_control threads in
  (map_err r ControlFailed, mkRun (rn_io s) w (rn_log s ++ [ControlTrial r])).

(** [run_case]: a trial, or the reason why the case is not supported *)
Definition run_case (a : Arguments) (c : Case) (workload : Workload) : bench (result ContenderTrial string) := fun s =>
  match prepare_case (ma_constructors m) c with
  | Err (UnsupportedCase reason) => (Ok (Err reason), s)
  | Err (CaseCapExhausted e) => (Err (CapExhausted e), s)
  | Err (CaseFailed e) => (Err (ContenderFailed e), s)
  | Ok _ =>
      let '(threads, w) := ma_contender m c workload (rn_world s) in
      let r := conclude_trial threads (ar_max_samples a) in
      let s := mkRun (rn_io s) w (rn_log s ++ [ContenderTrialled c workload r]) in
      match r with
      | Ok t => (Ok (Ok t), s)
      | Err e =>
          match from_trial e with
          | UnsupportedCase reason => (Ok (Err reason), s)
          | CaseCapExhausted e => (Err (CapExhausted e), s)
          | CaseFailed e => (Err (ContenderFailed e), s)
          end
      end
  end.

Definition newline : string := String (Ascii.ascii_of_nat 10) EmptyString.
Definition write_text (o : AtomicOutput) (text : string) : bench AtomicOutput :=
  of_io (output_write o (text +:+ newline)) OutputFailed.
Definition write_line (o : AtomicOutput) (l : Line) : bench AtomicOutput := write_text o (line_text l).

(** One pair of trials, in the order the parity asks for. *)
Definition control_first (case_index repetition : nat) : bool := Nat.even (case_index + repetition).
Definition trial_pair (a : Arguments) (c : Case) (workload : Workload) (first : bool)
  : bench (result (VictimMetrics * ContenderTrial) string) :=
  if first then
    control ← control_trial;
    contender ← run_case a c workload;
    mret (x <-? contender; Ok (control, x))
  else
    contender ← run_case a c workload;
    match contender with
    | Err reason => mret (Err reason)
    | Ok x => control ← control_trial; mret (Ok (control, x))
    end.

(** The repetitions of a case from [repetition] on; the reason when it is skipped. *)
Fixpoint run_repetitions (a : Arguments) (cycles_per_ns : spec_float) (correction : Z) (c : Case) (workload : Workload)
    (case_index repetition remaining : nat) (repetitions : list RepetitionResult) (o : AtomicOutput)
  : bench (AtomicOutput * list RepetitionResult * option string) :=
  match remaining with
  | O => mret (o, repetitions, None)
  | S remaining =>
      let first := control_first case_index repetition in
      pair_result ← trial_pair a c workload first;
      match pair_result with
      | Err reason =>
          if bool_decide (ar_mode a = Official) then fails (UnsupportedOfficial (case_name c) reason)
          else mret (o, repetitions, Some reason)
      | Ok (control, contender) =>
          value ← of_checked (repetition_new cycles_per_ns (Z.of_nat repetition) first control contender correction);
          o ← write_line o (RepetitionLine c workload value);
          o ← write_line o (SamplesLine c workload (re_repetition value) (re_raw_latency_cycles value));
          run_repetitions a cycles_per_ns correction c workload case_index (S repetition) remaining
            (repetitions ++ [clear_raw value]) o
      end
  end.

Fixpoint run_cases (a : Arguments) (cycles_per_ns : spec_float) (correction : Z) (workload : Workload)
    (case_index : nat) (cases : list Case) (summaries : list Summary) (o : AtomicOutput)
  : bench (AtomicOutput * list Summary) :=
  match cases with
  | [] => mret (o, summaries)
  | c :: cases =>
      '(o, repetitions, skipped) ← run_repetitions a cycles_per_ns correction c workload case_index 0
                                     (Z.to_nat (ar_repetitions a)) [] o;
      match skipped with
      | Some reason =>
          o ← write_line o (SkipLine c workload reason);
          run_cases a cycles_per_ns correction workload (S case_index) cases summaries o
      | None =>
          summary ← of_checked (from_repetitions c workload repetitions);
          o ← write_line o (SummaryLine summary);
          run_cases a cycles_per_ns correction workload (S case_index) cases (summaries ++ [summary]) o
      end
  end.

Fixpoint run_workloads (a : Arguments) (cycles_per_ns : spec_float) (correction : Z) (cases : list Case)
    (workloads : list Workload) (o : AtomicOutput) : bench AtomicOutput :=
  match workloads with
  | [] => mret o
  | workload :: workloads =>
      '(o, summaries) ← run_cases a cycles_per_ns correction workload 0 cases [] o;
      o ← write_line o (match choose_winner summaries with
                        | Some winner => WinnerLine winner
                        | None => NoWinnerLine workload
                        end);
      run_workloads a cycles_per_ns correction cases workloads o
  end.

(** ** The program *)

Fixpoint each {A B} (f : A -> bench B) (l : list A) : bench (list B) :=
  match l with
  | [] => mret []
  | x :: l => y ← f x; ys ← each f l; mret (y :: ys)
  end.

(** Everything before the output is created. *)
Record Preparation := mkPreparation {
  pn_topology : Topology;
  pn_cpuidle : list CpuIdleState;
  pn_clock : TscClock;
  pn_skew : TscSkew;
  pn_provenance : RepositoryProvenance;
  pn_metadata : CpuMetadata;
  pn_power : list CpuPowerPolicy;
}.
Definition power_policy (a : Arguments) (root : path) (cpu : N) : bench CpuPowerPolicy := fun s =>
  match of_io (cpu_power_policy cpu root) (PowerUnreadable cpu) s with
  | (Ok policy, s) => (Ok policy, s)
  | (Err e, s) =>
      if bool_decide (ar_mode a = Smoke) then (Ok (mkPower cpu "unknown" "unknown"), s) else (Err e, s)
  end.
Definition overrides_of (a : Arguments) : option (N * N * N * N) :=
  '(w, v, p, c) ← cpu_overrides a; Some (Z.to_N w, Z.to_N v, Z.to_N p, Z.to_N c).
Definition custom_root (pr : proc) : option path :=
  text ← pr_env pr !! "SNOOZER_SYSFS_ROOT"%string; Some (at_cwd (pr_cwd pr) (rpath_of_string text)).

(** [TscClock::preflight] and [TscSkew::preflight] *)
Definition calibrate : bench TscClock := fun s =>
  let '(r, io) := clock_preflight (ma_cpuid m) (ma_window m <$> seq 0 CALIBRATION_RUNS) (rn_io s) in
  (match r with None => Err Panicked | Some r => map_err r ClockFailed end, mkRun io (rn_world s) (rn_log s)).
Definition measure_skew (t : Topology) (clock : TscClock) : bench TscSkew :=
  _ ← of_result (pin_current (tp_producer t)) AffinityFailed;
  _ ← of_result (pin_current (tp_controller t)) AffinityFailed;
  of_result (skew_preflight (cycles_per_ns clock) (ma_estimate m)) ClockFailed.

Definition prepare (a : Arguments) : bench Preparation :=
  _ ← (if bool_decide (ar_mode a = Official) && negb (co_benchmark_only (ma_constructors m))
       then fails FeatureRequired else mret tt);
  pr ← (fun s => (Ok (io_proc (rn_io s)), s) : result proc Failure * run);
  root ← of_result (resolve_cpu_sysfs_root (custom_root pr) (bool_decide (ar_mode a = Smoke))) SysfsRefused;
  topology ← of_io (discover (overrides_of a) root) PlatformFailed;
  cpuidle ← of_io (match ar_mode a with Official => validate_cpuidle topology | Smoke => read_cpuidle topology end)
              PlatformFailed;
  _ ← each (fun cpu => of_result (pin_current cpu) AffinityFailed) (selected topology);
  _ ← of_result (set_current_affinity (selected topology)) AffinityFailed;
  _ ← match ma_preflight m with
      | Ok _ => mret tt
      | Err e => if bool_decide (ar_mode a = Smoke) then mret tt else fails (PreflightRefused e)
      end;
  _ ← of_result (pin_current (tp_controller topology)) AffinityFailed;
  clock ← calibrate;
  skew ← measure_skew topology clock;
  provenance ← of_result (repository_provenance (ma_stamps m) (ma_self_exe m) (ma_procfs m) (ar_mode a)) ProvenanceRefused;
  metadata ← of_io (cpu_metadata (tp_waiter topology)) PlatformFailed;
  power ← each (power_policy a root) (selected topology);
  mret (mkPreparation topology cpuidle clock skew provenance metadata power).

Definition hardware_matrix : BenchmarkMatrix :=
  benchmark_matrix (match ma_preflight m with
                    | Ok report => Some match pr_backend report with
                                        | AmdMwaitx => BH_AmdMwaitx
                                        | IntelUmwait => BH_IntelUmwaitC01
                                        end
                    | Err _ => None
                    end).

Definition metadata_input (a : Arguments) (p : Preparation) : MetadataInput :=
  mkMetadataInput a (pn_topology p) (pn_cpuidle p) (pn_clock p) (pn_skew p) (pn_metadata p) (pn_power p) (pn_provenance p)
    (cstate_warning (ar_mode a)) (ma_preflight m) (ma_stamps m) (co_benchmark_only (ma_constructors m)).

(** Everything that is written. *)
Definition measure (a : Arguments) (p : Preparation) (o : AtomicOutput) : bench AtomicOutput :=
  metadata ← of_result (metadata_text (metadata_input a p)) MetadataRefused;
  o ← write_text o metadata;
  if ar_preflight_only a then mret o
  else
    cases ← of_result (all_cases (ar_case_filter a) hardware_matrix) UnknownCase;
    run_workloads a (cycles_per_ns (pn_clock p)) (sk_correction_cycles (pn_skew p)) cases [Saturated; Bursty] o.

(** [main] after the arguments; an error on the way drops the output. *)
Definition benchmark (a : Arguments) : bench unit :=
  p ← prepare a;
  o ← of_io (output_create (ma_fuel m) (ma_first_partial_id m) (rpath_of_string (ar_output a))) OutputFailed;
  match o with
  | None => fails FuelExhausted
  | Some o =>
      r ← attempted (measure a p o);
      match r with
      | Err e => _ ← of_io (output_drop o) OutputFailed; fails e
      | Ok o => of_io (output_finish o) OutputFailed
      end
  end.
(** [linux::main]; [--help] exits at once. *)
Definition bench_main (args : list string) : bench unit :=
  match parse_arguments parse_start args with
  | HelpShown => mret tt
  | Refused e => fails (ArgumentsRefused e)
  | Parsed a => benchmark a
  end.
End driver.
