(* ===== verification/DriverProofs.v ===== *)
(** * What a run of the benchmark leaves behind

    The shape of the results and of the log of trials ([measured]), and the publication of the file. *)

From stdpp Require Import pretty.
From Stdlib Require Import SpecFloat.
From S2P Require Import Preflight.
From S2P Require Import Prelude BenchFs Errors Pure Journal Cpuidle BenchCases Platform PlatformProofs PolicyProofs ControlProof.
From S2P Require Import Handover Output Capabilities Clock Measure Metadata Driver.
Open Scope Z_scope.

(** ** Shapes *)

(** The control's metrics, the contender's trial, and the repetition made of them. *)
Definition Repeated : Type := VictimMetrics * ContenderTrial * RepetitionResult.
(** A case that was measured, or skipped after some repetitions (and perhaps one more control). *)
Inductive Block :=
| Measured (rs : list Repeated) (summary : Summary)
| Skipped (rs : list Repeated) (reason : string) (control : option VictimMetrics).

Definition result_lines (c : Case) (w : Workload) (r : Repeated) : list Line :=
  [RepetitionLine c w r.2; SamplesLine c w (re_repetition r.2) (re_raw_latency_cycles r.2)].
Definition block_lines (c : Case) (w : Workload) (b : Block) : list Line :=
  match b with
  | Measured rs summary => mjoin (result_lines c w <$> rs) ++ [SummaryLine summary]
  | Skipped rs reason _ => mjoin (result_lines c w <$> rs) ++ [SkipLine c w reason]
  end.

Definition pair_log (c : Case) (w : Workload) (first : bool) (r : Repeated) : list Trialled :=
  let control := ControlTrial (Ok r.1.1) in
  let contender := ContenderTrialled c w (Ok r.1.2) in
  if first then [control; contender] else [contender; control].
(** From repetition [k] of the case of index [i] on *)
Fixpoint repeated_log (c : Case) (w : Workload) (i k : nat) (rs : list Repeated) : list Trialled :=
  match rs with
  | [] => []
  | r :: rs => pair_log c w (control_first i k) r ++ repeated_log c w i (S k) rs
  end.
Definition block_log (c : Case) (w : Workload) (i : nat) (b : Block) : list Trialled :=
  match b with
  | Measured rs _ => repeated_log c w i 0 rs
  | Skipped rs _ control => repeated_log c w i 0 rs ++ match control with Some v => [ControlTrial (Ok v)] | None => [] end
  end.

Section shapes.
Variables (a : Arguments) (cycles_per_ns : spec_float) (correction : Z).

Fixpoint repeated_ok (i k : nat) (rs : list Repeated) : Prop :=
  match rs with
  | [] => True
  | r :: rs =>
      repetition_new cycles_per_ns (Z.of_nat k) (control_first i k) r.1.1 r.1.2 correction = Some (Ok r.2) /\
      repeated_ok i (S k) rs
  end.
Definition block_ok (c : Case) (w : Workload) (i : nat) (b : Block) : Prop :=
  match b with
  | Measured rs summary =>
      length rs = Z.to_nat (ar_repetitions a) /\ repeated_ok i 0 rs /\
      from_repetitions c w ((fun r => clear_raw r.2) <$> rs) = Some (Ok summary)
  | Skipped rs _ control =>
      ar_mode a = Smoke /\ (length rs < Z.to_nat (ar_repetitions a))%nat /\ repeated_ok i 0 rs /\
      (is_Some control <-> control_first i (length rs) = true)
  end.
Fixpoint blocks_ok (w : Workload) (i : nat) (cases : list Case) (bs : list Block) : Prop :=
  match cases, bs with
  | [], [] => True
  | c :: cases, b :: bs => block_ok c w i b /\ blocks_ok w (S i) cases bs
  | _, _ => False
  end.
End shapes.

Definition summaries_of (bs : list Block) : list Summary :=
  omap (fun b => match b with Measured _ s => Some s | Skipped _ _ _ => None end) bs.
Definition winner_line (w : Workload) (summaries : list Summary) : Line :=
  match choose_winner summaries with Some winner => WinnerLine winner | None => NoWinnerLine w end.
Fixpoint cases_lines (w : Workload) (cases : list Case) (bs : list Block) : list Line :=
  match cases, bs with
  | c :: cases, b :: bs => block_lines c w b ++ cases_lines w cases bs
  | _, _ => []
  end.
Fixpoint cases_log (w : Workload) (i : nat) (cases : list Case) (bs : list Block) : list Trialled :=
  match cases, bs with
  | c :: cases, b :: bs => block_log c w i b ++ cases_log w (S i) cases bs
  | _, _ => []
  end.
Definition workload_lines (w : Workload) (cases : list Case) (bs : list Block) : list Line :=
  cases_lines w cases bs ++ [winner_line w (summaries_of bs)].

(** ** Inversion of runs *)

Section runs.
Context {W : Type} `{Serde} `{JsonValue} `{AffinityOs} `{StringsToJson}.
Variable (m : Machine (W := W)).

Lemma bench_ok {A B} (p : bench (W := W) A) (k : A -> bench B) s y s' :
  (p ≫= k) s = (Ok y, s') -> exists x s1, p s = (Ok x, s1) /\ k x s1 = (Ok y, s').
Proof. unfold mbind, bench_bind. destruct (p s) as [[x|e] s1]; intros E; [by exists x, s1|done]. Qed.

(** A step that writes [ls] and leaves the world and the log alone. *)
Definition lines_text (ls : list Line) : string :=
  foldr (fun l t => (line_text l +:+ newline) +:+ t) EmptyString ls.
Definition extended (o : AtomicOutput) (text : string) : AtomicOutput :=
  mkOutput (ao_final_path o) (ao_partial_path o) (ao_written o +:+ text) (ao_published o).

Lemma extended_extended o x y : extended (extended o x) y = extended o (x +:+ y).
Proof. unfold extended. cbn. by rewrite string_app_assoc. Qed.
Lemma extended_nil o : extended o EmptyString = o.
Proof. unfold extended. rewrite string_nil_r. by destruct o. Qed.
Lemma lines_text_app l1 l2 : lines_text (l1 ++ l2) = lines_text l1 +:+ lines_text l2.
Proof. induction l1 as [|l l1 IH]; [done|]. cbn [app lines_text foldr]. fold (lines_text (l1 ++ l2)). by rewrite IH, !string_app_assoc. Qed.

Lemma write_text_ok o text s o' s' : write_text (W := W) o text s = (Ok o', s') ->
  o' = extended o (text +:+ newline) /\ rn_log s' = rn_log s.
Proof.
  unfold write_text, of_io, output_write, syscall.
  destruct (io_faults _ _); cbn; intros E; simplify_eq; done.
Qed.
Lemma write_line_ok o l s o' s' : write_line (W := W) o l s = (Ok o', s') ->
  o' = extended o (lines_text [l]) /\ rn_log s' = rn_log s.
Proof. intros [-> Hl]%write_text_ok. unfold lines_text. cbn [foldr]. by rewrite string_nil_r. Qed.

Lemma control_trial_ok s v s' : control_trial m s = (Ok v, s') -> rn_log s' = rn_log s ++ [ControlTrial (Ok v)].
Proof.
  unfold control_trial. destruct (ma_control m (rn_world s)) as [threads w].
  destruct (run_victim_control threads) as [x|e]; cbn; intros E; simplify_eq; done.
Qed.
(** The errors of a trial never count as an unsupported case. *)
Lemma run_case_ok a c w s r s' : run_case m a c w s = (Ok r, s') ->
  match r with
  | Ok t => rn_log s' = rn_log s ++ [ContenderTrialled c w (Ok t)]
  | Err _ => rn_log s' = rn_log s
  end.
Proof.
  unfold run_case. destruct (prepare_case (ma_constructors m) c) as [[]|[]]; intros E; [|by injection E as <- <-|done|done].
  destruct (ma_contender m c w (rn_world s)) as [threads w']. destruct (conclude_trial _ _) as [t|e]; [by injection E as <- <-|].
  by destruct e as [[]|].
Qed.
Lemma trial_pair_ok a c w first s r s' : trial_pair m a c w first s = (Ok r, s') ->
  match r with
  | Ok (v, t) => forall value, rn_log s' = rn_log s ++ pair_log c w first (v, t, value)
  | Err _ => exists control, (is_Some control <-> first = true) /\
      rn_log s' = rn_log s ++ match control with Some v => [ControlTrial (Ok v)] | None => [] end
  end.
Proof.
  destruct first; cbn [trial_pair]; intros E; apply bench_ok in E as (x & s1 & E1 & E).
  - apply control_trial_ok in E1. apply bench_ok in E as (y & s2 & E2 & E). apply run_case_ok in E2.
    unfold mret, bench_ret in E. injection E as <- <-. destruct y as [t|reason]; cbn.
    + intros value. by rewrite E2, E1, <- app_assoc.
    + exists (Some x). split; [by split|]. by rewrite E2, E1.
  - apply run_case_ok in E1. destruct x as [t|reason].
    + apply bench_ok in E as (v & s2 & E2 & E). apply control_trial_ok in E2. unfold mret, bench_ret in E.
      injection E as <- <-. intros value. by rewrite E2, E1, <- app_assoc.
    + unfold mret, bench_ret in E. injection E as <- <-. exists None. split; [by split; [intros []|]|]. by rewrite E1, app_nil_r.
Qed.

Lemma of_checked_ok {A} (c : Checked A) s x s' : of_checked (W := W) c s = (Ok x, s') -> c = Some (Ok x) /\ s' = s.
Proof. unfold of_checked. destruct c as [[y|e]|]; intros E; by simplify_eq. Qed.
Lemma of_result_ok {A E} (r : result A E) f s x s' : of_result (W := W) r f s = (Ok x, s') -> r = Ok x /\ s' = s.
Proof. unfold of_result. destruct r; cbn; intros Hr; by simplify_eq. Qed.

(** ** The loops *)

Variables (a : Arguments) (cycles_per_ns : spec_float) (correction : Z).

Lemma run_repetitions_ok c w i k n acc o s o' reps skipped s' :
  run_repetitions m a cycles_per_ns correction c w i k n acc o s = (Ok (o', reps, skipped), s') ->
  exists rs control, reps = acc ++ ((fun r => clear_raw r.2) <$> rs) /\ repeated_ok cycles_per_ns correction i k rs /\
    o' = extended o (lines_text (mjoin (result_lines c w <$> rs))) /\
    rn_log s' = rn_log s ++ repeated_log c w i k rs ++ match control with Some v => [ControlTrial (Ok v)] | None => [] end /\
    match skipped with
    | None => length rs = n /\ control = None
    | Some _ => ar_mode a = Smoke /\ (length rs < n)%nat /\ (is_Some control <-> control_first i (k + length rs) = true)
    end.
Proof.
  revert k acc o s. induction n as [|n IH]; intros k acc o s E; cbn [run_repetitions] in E.
  - unfold mret, bench_ret in E. injection E as <- <- <- <-. exists [], None. cbn. rewrite !app_nil_r, extended_nil. done.
  - apply bench_ok in E as (pair & s1 & E1 & E). apply trial_pair_ok in E1. destruct pair as [[v t]|reason].
    + apply bench_ok in E as (value & s2 & [Hv ->]%of_checked_ok & E). apply bench_ok in E as (o1 & s3 & [-> L3]%write_line_ok & E).
      apply bench_ok in E as (o2 & s4 & [-> L4]%write_line_ok & E). apply IH in E as (rs & control & -> & Hok & -> & Hlog & Hsk).
      exists ((v, t, value) :: rs), control. cbn [fmap list_fmap]. split; [by rewrite <- app_assoc|]. split; [by split|]. split.
      { rewrite !extended_extended, <- lines_text_app. f_equal. cbn [mjoin list_join]. by rewrite <- lines_text_app. }
      split; [rewrite Hlog, L4, L3, (E1 value); cbn [repeated_log]; by rewrite !app_assoc|].
      destruct skipped as [reason|]; cbn [length]; [|destruct Hsk; split; [lia|done]].
      destruct Hsk as (? & ? & ?). split; [done|]. split; [lia|]. by rewrite <- Nat.add_succ_comm.
    + case_bool_decide as Hm; [done|]. unfold mret, bench_ret in E. injection E as <- <- <- <-.
      destruct E1 as (control & Hc & Hlog). exists [], control. cbn [fmap list_fmap mjoin list_join repeated_log length].
      rewrite app_nil_r, extended_nil, Nat.add_0_r. destruct (ar_mode a); [|done]. repeat split; try done; try lia; apply Hc.
Qed.

Lemma run_cases_ok w i cases summaries o s o' summaries' s' :
  run_cases m a cycles_per_ns correction w i cases summaries o s = (Ok (o', summaries'), s') ->
  exists bs, blocks_ok a cycles_per_ns correction w i cases bs /\ summaries' = summaries ++ summaries_of bs /\
    o' = extended o (lines_text (cases_lines w cases bs)) /\ rn_log s' = rn_log s ++ cases_log w i cases bs.
Proof.
  revert i summaries o s. induction cases as [|c cases IH]; intros i summaries o s E; cbn [run_cases] in E.
  - unfold mret, bench_ret in E. injection E as <- <- <-. exists []. cbn. by rewrite !app_nil_r, extended_nil.
  - apply bench_ok in E as ([[o1 reps] skipped] & s1 & E1 & E).
    apply run_repetitions_ok in E1 as (rs & control & -> & Hok & -> & L1 & Hsk). cbn [app] in E.
    destruct skipped as [reason|].
    + apply bench_ok in E as (o2 & s2 & [-> L2]%write_line_ok & E). apply IH in E as (bs & Hbs & -> & -> & L3).
      exists (Skipped rs reason control :: bs). destruct Hsk as (? & ? & ?). split; [by split|]. split; [done|].
      cbn [cases_lines cases_log block_lines block_log]. split; [by rewrite !extended_extended, <- !lines_text_app, <- ?app_assoc|].
      by rewrite L3, L2, L1, !app_assoc.
    + apply bench_ok in E as (summary & s2 & [Hs ->]%of_checked_ok & E).
      apply bench_ok in E as (o2 & s3 & [-> L2]%write_line_ok & E). apply IH in E as (bs & Hbs & -> & -> & L3).
      exists (Measured rs summary :: bs). destruct Hsk as [Hlen ->]. split; [by split|]. split; [by rewrite <- app_assoc|].
      cbn [cases_lines cases_log block_lines block_log]. split; [by rewrite !extended_extended, <- !lines_text_app, <- ?app_assoc|].
      rewrite L3, L2, L1, app_nil_r. by rewrite app_assoc.
Qed.
End runs.

(** ** Nothing but the output is written *)

Definition pb_ro {A} (p : PB A) : Prop := forall s, same s (p s).2.
Lemma pb_ret {A} (x : A) : pb_ro (mret x).
Proof. intros s. apply same_refl. Qed.
Lemma pb_message {A} text : pb_ro (message (A := A) text).
Proof. intros s. apply same_refl. Qed.
Lemma pb_from_result {A} (r : result A any_error) : pb_ro (from_result r).
Proof. intros s. apply same_refl. Qed.
Lemma pb_bind {A B} (p : PB A) (k : A -> PB B) : pb_ro p -> (forall x, pb_ro (k x)) -> pb_ro (p ≫= k).
Proof.
  intros Hp Hk s. unfold mbind, PB_bind. specialize (Hp s). destruct (p s) as [[x|e] s1]; [|done].
  eapply same_trans; [exact Hp|apply Hk].
Qed.
Lemma pb_call {A} (f : iost -> result A io_error * iost) : (forall s, (f s).2 = s) -> pb_ro (any_io (syscall f)).
Proof.
  intros Hf s. unfold any_io, syscall. destruct (io_faults s (io_ops s)); [apply same_step|].
  specialize (Hf (io_step s)). destruct (f (io_step s)) as [[]]; cbn in *; subst; apply same_step.
Qed.
Lemma stat_same p s : same s (sys_stat p s).2.
Proof. unfold sys_stat, syscall. destruct (io_faults s (io_ops s)); apply same_step. Qed.
Lemma pb_is_dir p : pb_ro (is_dir_at p).
Proof. intros s. pose proof (stat_same p s) as Hs. unfold is_dir_at. by destruct (sys_stat p s) as [[[]|]]. Qed.
Lemma pb_exists p : pb_ro (exists_at_any p).
Proof. intros s. pose proof (stat_same p s) as Hs. unfold exists_at_any. by destruct (sys_stat p s) as [[]]. Qed.
Lemma pb_file p : pb_ro (any_io (sys_read p)).
Proof. by apply pb_call. Qed.
Lemma pb_read p : pb_ro (platform_read_trimmed p).
Proof. apply pb_bind; [by apply pb_call|intros; apply pb_ret]. Qed.
Lemma pb_read_dir p : pb_ro (any_io (sys_read_dir p)).
Proof. by apply pb_call. Qed.
Lemma pb_cannot_read p q : pb_ro q -> pb_ro (cannot_read p q).
Proof. intros Hq s. unfold cannot_read. specialize (Hq s). by destruct (q s) as [[]]. Qed.
#[local] Hint Resolve pb_file pb_ret pb_message pb_from_result pb_is_dir pb_exists pb_read pb_read_dir pb_cannot_read : core.
Ltac pb_tac := repeat first [progress intros | apply pb_bind | progress case_match | solve [auto]].

Lemma pb_discover overrides root : pb_ro (discover overrides root).
Proof.
  assert (Hentries : forall names result, pb_ro (discover_entries root names result)).
  { induction names as [|n names IH]; intros result; cbn [discover_entries]; unfold cpu_is_online; pb_tac. }
  unfold discover, discover_cpu_info. pb_tac.
Qed.
Lemma pb_read_cpuidle t : pb_ro (read_cpuidle t).
Proof.
  assert (Hstates : forall cpu dir items p c result, pb_ro (read_states cpu dir items p c result)).
  { intros cpu dir items. induction items as [|i items IH]; intros p c result; cbn [read_states]; pb_tac. }
  unfold read_cpuidle. generalize (@nil CpuIdleState). generalize (selected t). intros cpus.
  induction cpus as [|cpu cpus IH]; intros result; cbn [read_cpus]; pb_tac.
Qed.
Lemma pb_validate_cpuidle t : pb_ro (validate_cpuidle t).
Proof. apply pb_bind; [apply pb_read_cpuidle|]. intros states. pb_tac. Qed.
Lemma pb_power cpu root : pb_ro (cpu_power_policy cpu root).
Proof. unfold cpu_power_policy. pb_tac. Qed.
Lemma pb_or_else p d : pb_ro p -> pb_ro (or_else p d).
Proof. intros Hp s. unfold or_else. specialize (Hp s). by destruct (p s) as [[]]. Qed.
Lemma pb_metadata cpu : pb_ro (cpu_metadata cpu).
Proof. unfold cpu_metadata. apply pb_bind; [by apply pb_or_else|]. intros cpuinfo. apply pb_bind; [by apply pb_or_else|]. auto. Qed.

Section within.
Context {W : Type} `{Serde} `{JsonValue} `{AffinityOs} `{StringsToJson}.
Variable (m : Machine (W := W)).

(** Every run of [p] keeps the state within [R]. *)
Definition within (R : run -> run (W := W) -> Prop) {A} (p : bench A) : Prop := forall s, R s (p s).2.
Definition calm (s s' : run (W := W)) : Prop := same (rn_io s) (rn_io s').
Definition silent (s s' : run (W := W)) : Prop := same (rn_io s) (rn_io s') /\ rn_log s' = rn_log s.
#[local] Instance calm_preorder : PreOrder calm.
Proof. split; [intros s; apply same_refl|intros s1 s2 s3; apply same_trans]. Qed.
#[local] Instance silent_preorder : PreOrder silent.
Proof.
  split; [intros s; split; [apply same_refl|done]|]. intros s1 s2 s3 [S1 L1] [S2 L2].
  split; [by eapply same_trans|congruence].
Qed.

Section rules.
Context (R : run -> run (W := W) -> Prop) `{!PreOrder R}.
Lemma within_ret {A} (x : A) : within R (mret x).
Proof. intros s. reflexivity. Qed.
Lemma within_fails {A} e : within R (fails (A := A) e).
Proof. intros s. reflexivity. Qed.
Lemma within_result {A E} (r : result A E) f : within R (of_result r f).
Proof. intros s. reflexivity. Qed.
Lemma within_checked {A} (c : Checked A) : within R (of_checked c).
Proof. intros s. reflexivity. Qed.
Lemma within_bind {A B} (p : bench A) (k : A -> bench B) : within R p -> (forall x, within R (k x)) -> within R (p ≫= k).
Proof.
  intros Hp Hk s. unfold mbind, bench_bind. specialize (Hp s). destruct (p s) as [[x|e] s1]; [|done].
  etransitivity; [exact Hp|apply Hk].
Qed.
Lemma within_each {A B} (f : A -> bench B) l : (forall x, within R (f x)) -> within R (each f l).
Proof.
  intros Hf. induction l as [|x l IH]; cbn [each]; [apply within_ret|].
  apply within_bind; [done|]. intros y. apply within_bind; [done|]. intros ys. apply within_ret.
Qed.
End rules.

Lemma silent_io {A E} (p : iost -> result A E * iost) f : (forall s, same s (p s).2) -> within silent (of_io p f).
Proof. intros Hp s. unfold of_io. specialize (Hp (rn_io s)). by destruct (p (rn_io s)). Qed.
Lemma within_calm {A} (p : bench A) : within silent p -> within calm p.
Proof. intros Hp s. apply Hp. Qed.
Lemma of_io_ok {A E} (p : iost -> result A E * iost) f s x s' : of_io (W := W) p f s = (Ok x, s') ->
  p (rn_io s) = (Ok x, rn_io s') /\ rn_log s' = rn_log s.
Proof. unfold of_io. destruct (p (rn_io s)) as [[y|e] io]; cbn; intros E'; by simplify_eq. Qed.

Lemma silent_power a root cpu : within silent (power_policy a root cpu).
Proof.
  intros s. pose proof (silent_io (cpu_power_policy cpu root) (PowerUnreadable cpu) (pb_power cpu root) s) as Hs.
  unfold power_policy. destruct (of_io _ _ s) as [[policy|e] s']; [done|]. by destruct (bool_decide _).
Qed.
Lemma silent_write o text : within silent (write_text o text).
Proof. apply silent_io. intros s. unfold output_write, syscall. destruct (io_faults s (io_ops s)); apply same_step. Qed.
Lemma silent_line o l : within silent (write_line o l).
Proof. apply silent_write. Qed.

(** What holds of every trial and of every step that runs none holds of the measurements. *)
Section measuring.
Context (R : run -> run (W := W) -> Prop) `{!PreOrder R} (a : Arguments).
Hypothesis (R_silent : forall s s', silent s s' -> R s s').
Hypothesis (R_control : within R (control_trial m)) (R_case : forall c w, within R (run_case m a c w)).
Lemma within_silent {A} (p : bench A) : within silent p -> within R p.
Proof. intros Hp s. apply R_silent, Hp. Qed.
#[local] Hint Resolve within_ret within_fails within_result within_checked within_silent silent_line silent_write : core.
Ltac within_tac := repeat first [progress intros | solve [auto] | apply within_bind | progress case_match | solve [eauto]].

Lemma within_repetitions cpn k c w i n r acc o : within R (run_repetitions m a cpn k c w i n r acc o).
Proof. revert n acc o. induction r as [|r IH]; intros n acc o; cbn [run_repetitions]; unfold trial_pair; within_tac. Qed.
Lemma within_cases cpn k w i cases acc o : within R (run_cases m a cpn k w i cases acc o).
Proof.
  revert i acc o. induction cases as [|c cases IH]; intros i acc o; cbn [run_cases]; [auto|].
  apply within_bind; [auto|apply within_repetitions|]. within_tac.
Qed.
Lemma within_measure p o : within R (measure m a p o).
Proof.
  unfold measure. apply within_bind; [auto|auto|]. intros metadata. apply within_bind; [auto|auto|]. intros o1. case_match; [auto|].
  apply within_bind; [auto|auto|]. intros cases. generalize [Saturated; Bursty] o1. induction l as [|w l IH]; intros o2; cbn [run_workloads]; [auto|].
  apply within_bind; [auto|apply within_cases|]. within_tac.
Qed.
End measuring.

Lemma calm_control : within calm (control_trial m).
Proof. intros s. unfold control_trial. destruct (ma_control m (rn_world s)). apply same_refl. Qed.
Lemma calm_case a c w : within calm (run_case m a c w).
Proof.
  intros s. unfold run_case. destruct (prepare_case _ c) as [[]|[]]; try apply same_refl.
  destruct (ma_contender m c w (rn_world s)) as [th w1]. destruct (conclude_trial _ _) as [t|e]; [apply same_refl|].
  destruct (from_trial e); apply same_refl.
Qed.
Lemma calm_measure a p o : within calm (measure m a p o).
Proof. apply within_measure; [exact calm_preorder|by intros s s' []|apply calm_control|apply calm_case]. Qed.

(** A trial of the log is one that the machine ran. *)
Definition ran (a : Arguments) (t : Trialled) : Prop :=
  match t with
  | ControlTrial r => exists w, r = run_victim_control (ma_control m w).1
  | ContenderTrialled c wl r => exists w, r = conclude_trial (ma_contender m c wl w).1 (ar_max_samples a)
  end.
Definition logs (a : Arguments) (s s' : run (W := W)) : Prop := exists l, rn_log s' = rn_log s ++ l /\ Forall (ran a) l.
#[local] Instance logs_preorder a : PreOrder (logs a).
Proof.
  split; [intros s; exists []; by rewrite app_nil_r|]. intros s1 s2 s3 (l1 & E1 & F1) (l2 & E2 & F2). exists (l1 ++ l2).
  split; [by rewrite E2, E1, app_assoc|by apply Forall_app].
Qed.
Lemma logs_measure a p o : within (logs a) (measure m a p o).
Proof.
  apply within_measure; [apply logs_preorder|intros s s' [_ E]; exists []; by rewrite app_nil_r|..].
  - intros s. unfold control_trial. destruct (ma_control m (rn_world s)) as [th w] eqn:E. eexists. split; [done|].
    constructor; [|done]. exists (rn_world s). by rewrite E.
  - intros c w s. unfold run_case. assert (Hsame : logs a s s) by reflexivity. destruct (prepare_case _ c) as [[]|[]]; try exact Hsame.
    destruct (ma_contender m c w (rn_world s)) as [th w1] eqn:E.
    assert (Hran : logs a s (mkRun (rn_io s) w1 (rn_log s ++ [ContenderTrialled c w (conclude_trial th (ar_max_samples a))]))).
    { eexists. split; [done|]. constructor; [|done]. exists (rn_world s). by rewrite E. }
    destruct (conclude_trial _ _) as [t|e]; [exact Hran|]. destruct (from_trial e); exact Hran.
Qed.
#[local] Hint Resolve within_ret within_fails within_result within_checked calm_preorder silent_preorder
  calm_control calm_case silent_write silent_power : core.
Ltac calm_tac := repeat first [progress intros | solve [auto] | apply within_bind | progress case_match | solve [eauto]].
Lemma silent_calibrate : within silent (calibrate m).
Proof.
  intros s. unfold calibrate, clock_preflight. destruct (require_tsc_capabilities _); [|by repeat split].
  pose proof (pb_read ["sys"; "devices"; "system"; "clocksource"; "clocksource0"; "current_clocksource"]%string (rn_io s)) as Hs.
  destruct (platform_read_trimmed _ _). cbn. by split.
Qed.
Lemma silent_skew t clock : within silent (measure_skew m t clock).
Proof. unfold measure_skew. do 2 (apply within_bind; [auto|auto|]; intros _). auto. Qed.
#[local] Hint Resolve silent_calibrate silent_skew : core.
Lemma silent_prepare a : within silent (prepare m a).
Proof.
  unfold prepare. apply within_bind; [auto|calm_tac|]. intros _. apply within_bind; [auto|by intros s|]. intros pr.
  apply within_bind; [auto|auto|]. intros root.
  apply within_bind; [auto|apply silent_io, pb_discover|]. intros t.
  apply within_bind; [auto|apply silent_io; destruct (ar_mode a); [apply pb_read_cpuidle|apply pb_validate_cpuidle]|]. intros states.
  apply within_bind; [auto|apply within_each; auto|]. intros _. do 6 (apply within_bind; [auto|calm_tac|]; intros ?).
  apply within_bind; [auto|apply silent_io, pb_metadata|]. intros metadata.
  apply within_bind; [auto|apply within_each; auto|]. auto.
Qed.
(** No run of [p] panics. *)
Definition sound {A} (p : bench (W := W) A) : Prop := forall s, (p s).1 <> Err Panicked.
Lemma sound_ret {A} (x : A) : sound (mret x).
Proof. by intros s. Qed.
Lemma sound_fails {A} e : e <> Panicked -> sound (fails (A := A) e).
Proof. intros He s [=]. done. Qed.
Lemma sound_result {A E} (r : result A E) f : (forall e, f e <> Panicked) -> sound (of_result r f).
Proof. intros Hf s. unfold of_result. destruct r as [x|e]; cbn; [done|]. intros [= He]. by apply (Hf e). Qed.
Lemma sound_io {A E} (p : iost -> result A E * iost) f : (forall e, f e <> Panicked) -> sound (of_io p f).
Proof. intros Hf s. unfold of_io. destruct (p (rn_io s)) as [[x|e] io]; cbn; [done|]. intros [= He]. by apply (Hf e). Qed.
Lemma sound_checked {A} (c : Checked A) : c <> None -> sound (of_checked c).
Proof. intros Hc s. by destruct c as [[x|e]|]. Qed.
Lemma sound_bind {A B} (p : bench A) (k : A -> bench B) : sound p -> (forall x, sound (k x)) -> sound (p ≫= k).
Proof.
  intros Hp Hk s. unfold mbind, bench_bind. specialize (Hp s). destruct (p s) as [[x|e] s1]; [apply Hk|].
  cbn in *. congruence.
Qed.
Lemma sound_each {A B} (f : A -> bench B) l : (forall x, sound (f x)) -> sound (each f l).
Proof.
  intros Hf. induction l as [|x l IH]; cbn [each]; [apply sound_ret|].
  apply sound_bind; [done|]. intros y. apply sound_bind; [done|]. intros ys. apply sound_ret.
Qed.
Lemma sound_control : sound (control_trial m).
Proof. intros s. unfold control_trial. destruct (ma_control m (rn_world s)) as [th w1]. by destruct (run_victim_control th). Qed.
Lemma sound_case a c w : sound (run_case m a c w).
Proof.
  intros s. unfold run_case. destruct (prepare_case _ c) as [[]|[]]; try done.
  destruct (ma_contender m c w (rn_world s)) as [th w1]. destruct (conclude_trial _ _) as [t|e]; [done|]. by destruct (from_trial e).
Qed.
Lemma sound_line o l : sound (write_line o l).
Proof. by apply sound_io. Qed.
Lemma sound_power a root cpu : sound (power_policy a root cpu).
Proof.
  intros s. pose proof (sound_io (cpu_power_policy cpu root) (PowerUnreadable cpu) ltac:(done) s) as Hs.
  unfold power_policy. destruct (of_io _ _ s) as [[policy|e] s']; [done|]. by destruct (bool_decide _).
Qed.
Lemma sound_calibrate : sound (calibrate m).
Proof.
  intros s. unfold calibrate. assert (Hw : ma_window m <$> seq 0 CALIBRATION_RUNS <> []) by done.
  pose proof (clock_total (ma_cpuid m) _ (rn_io s) Hw) as Ht.
  destruct (clock_preflight _ _ _) as [[[]|] io]; cbn in *; done.
Qed.
Lemma sound_skew t clock : sound (measure_skew m t clock).
Proof. unfold measure_skew. do 2 (apply sound_bind; [by apply sound_result|]; intros _). by apply sound_result. Qed.
#[local] Hint Resolve sound_ret sound_fails sound_control sound_case sound_line sound_power sound_calibrate sound_skew repetition_total summary_total : core.
Ltac sound_tac := repeat first [progress intros | solve [auto] | apply sound_checked | by apply sound_fails | by apply sound_result
  | by apply sound_io | apply sound_bind | progress case_match].

Lemma sound_measure a p o : sound (measure m a p o).
Proof.
  assert (Hreps : forall c w i r n acc o, sound (run_repetitions m a (cycles_per_ns (pn_clock p)) (sk_correction_cycles (pn_skew p)) c w i n r acc o)).
  { intros c w i r. induction r as [|r IH]; intros n acc o'; cbn [run_repetitions]; unfold trial_pair; sound_tac. }
  assert (Hcases : forall w cases i acc o, sound (run_cases m a (cycles_per_ns (pn_clock p)) (sk_correction_cycles (pn_skew p)) w i cases acc o)).
  { intros w cases. induction cases as [|c cases IH]; intros i acc o'; cbn [run_cases]; sound_tac. }
  unfold measure. apply sound_bind; [by apply sound_result|]. intros metadata. apply sound_bind; [by apply sound_io|]. intros o1. case_match; [auto|].
  apply sound_bind; [by apply sound_result|]. intros cases. generalize [Saturated; Bursty] o1.
  induction l as [|w l IH]; intros o2; cbn [run_workloads]; sound_tac.
Qed.
Lemma sound_benchmark a : sound (benchmark m a).
Proof.
  apply sound_bind; [|intros p; apply sound_bind; [by apply sound_io|]].
  - unfold prepare. repeat first [progress intros | solve [auto] | by apply sound_fails | by apply sound_result | by apply sound_io
      | by intros s | apply sound_each | apply sound_bind | progress case_match].
  - intros [o|]; [|by apply sound_fails]. intros s. unfold mbind at 1, bench_bind at 1, attempted.
    pose proof (sound_measure a p o s) as Hm. destruct (measure m a p o s) as [[o'|e] s1]; [by apply sound_io|].
    apply sound_bind; [by apply sound_io|]. intros _. apply sound_fails. cbn in Hm. congruence.
Qed.
End within.

(** ** The published results *)

Section published.
Context {W : Type} `{Serde} `{JsonValue} `{AffinityOs} `{StringsToJson}.
Variables (m : Machine (W := W)) (a : Arguments).

(** What an official run has passed before it measures anything. *)
Record gates_passed (s : run (W := W)) (p : Preparation) : Prop := mkGates {
  gp_feature : co_benchmark_only (ma_constructors m) = true;
  gp_preflight : exists b, ma_preflight m = Ok b;
  gp_provenance : repository_provenance (ma_stamps m) (ma_self_exe m) (ma_procfs m) Official = Ok (pn_provenance p);
  gp_root : tp_sysfs_root (pn_topology p) = CPU_SYSFS_ROOT;
  gp_roles : roles_fit (pn_topology p);
  gp_spread : SFltb MAX_CALIBRATION_SPREAD_PERCENT (spread_percent (pn_clock p)) = false;
  gp_skew : SFltb MAX_CROSS_CORE_SKEW_BOUND_NS (sk_producer_to_waiter_bound_ns (pn_skew p)) = false;
  gp_policy : no_faults (rn_io s) -> (forall l, io_order (rn_io s) l ≡ₚ l) ->
    Forall (compliant (io_nodes (rn_io s)) CPU_SYSFS_ROOT) (selected (pn_topology p));
}.

(** The clock is the outcome of the calibration windows. *)
Definition calibrated (clock : TscClock) : Prop :=
  exists ratios, window_ratios (ma_window m <$> seq 0 CALIBRATION_RUNS) [] = Ok ratios /\ conclude_clock ratios = Some (Ok clock).
Lemma calibrate_ok s clock s' : calibrate m s = (Ok clock, s') -> calibrated clock.
Proof.
  unfold calibrate, clock_preflight. destruct (require_tsc_capabilities _); [|done].
  destruct (platform_read_trimmed _ _) as [[clocksource|] io]; [|done]. cbn -[window_ratios]. destruct (negb _); [done|].
  destruct (window_ratios _ _) as [ratios|] eqn:Er; [|done].
  destruct (conclude_clock ratios) as [[clock'|]|] eqn:Ec; [|done..]. intros [= -> _]. by exists ratios.
Qed.
Lemma calibrated_stable clock : calibrated clock -> SFltb MAX_CALIBRATION_SPREAD_PERCENT (spread_percent clock) = false.
Proof. intros (ratios & _ & Hc). by eapply clock_stable. Qed.
Lemma measure_skew_ok t clock s skew s' : measure_skew m t clock s = (Ok skew, s') ->
  skew_preflight (cycles_per_ns clock) (ma_estimate m) = Ok skew.
Proof. unfold measure_skew. by intros (? & s1 & _ & (? & s2 & _ & [E _]%of_result_ok)%bench_ok)%bench_ok. Qed.
Lemma prepare_clocks s p s' : prepare m a s = (Ok p, s') ->
  calibrated (pn_clock p) /\ skew_preflight (cycles_per_ns (pn_clock p)) (ma_estimate m) = Ok (pn_skew p).
Proof.
  unfold prepare. intros E. do 9 (apply bench_ok in E as (? & ? & _ & E)). apply bench_ok in E as (clock & s1 & Hclock%calibrate_ok & E).
  apply bench_ok in E as (skew & s2 & Hskew%measure_skew_ok & E). do 3 (apply bench_ok in E as (? & ? & _ & E)).
  unfold mret, bench_ret in E. by injection E as <- _.
Qed.
Lemma skew_bounded cpn e sk : skew_preflight cpn e = Ok sk -> SFltb MAX_CROSS_CORE_SKEW_BOUND_NS (sk_producer_to_waiter_bound_ns sk) = false.
Proof.
  unfold skew_preflight. destruct e as [[offset uncertainty]|]; [|done]. destruct (SFltb _ _) eqn:Eg; [done|]. by intros [= <-].
Qed.
Lemma prepare_gates s p s' : prepare m a s = (Ok p, s') -> ar_mode a = Official -> gates_passed s p.
Proof.
  intros E Hm. unfold prepare in E. rewrite Hm in E. apply bench_ok in E as ([] & s1 & Hf & E).
  assert (Hfeat : co_benchmark_only (ma_constructors m) = true /\ s1 = s).
  { rewrite bool_decide_true in Hf by done. destruct (co_benchmark_only _); cbn in Hf; [|done].
    unfold mret, bench_ret in Hf. by simplify_eq. }
  destruct Hfeat as [Hfeat ->]. clear Hf. apply bench_ok in E as (pr & s1 & Hp & E). injection Hp as <- <-.
  apply bench_ok in E as (root & s1 & [Hroot ->]%of_result_ok & E). rewrite bool_decide_false in Hroot by done.
  assert (root = CPU_SYSFS_ROOT) as -> by (unfold resolve_cpu_sysfs_root in Hroot; destruct (custom_root _); by simplify_eq).
  apply bench_ok in E as (t & s1 & Ht%of_io_ok & E). destruct Ht as [Ht L1].
  apply bench_ok in E as (states & s2 & Hst%of_io_ok & E). destruct Hst as [Hst L2].
  apply bench_ok in E as (? & s3 & _ & E). apply bench_ok in E as (? & s4 & _ & E). apply bench_ok in E as (? & s5 & Hpre & E).
  apply bench_ok in E as (? & s6 & _ & E). apply bench_ok in E as (clock & s7 & Hclock%calibrate_ok%calibrated_stable & E).
  apply bench_ok in E as (skew & s8 & Hskew%measure_skew_ok%skew_bounded & E).
  apply bench_ok in E as (prov & s9 & [Hprov _]%of_result_ok & E). apply bench_ok in E as (metadata & s10 & _ & E).
  apply bench_ok in E as (power & s11 & _ & E).
  unfold mret, bench_ret in E. injection E as <- <-.
  pose proof (pb_discover (overrides_of a) CPU_SYSFS_ROOT (rn_io s)) as Hs1. rewrite Ht in Hs1. cbn [snd] in Hs1.
  unfold discover in Ht. apply pb_bind_ok in Ht as (cpus & u1 & _ & Ht). apply pb_bind_ok in Ht as ([[[w v] q] c] & u2 & _ & Ht).
  apply pb_bind_ok in Ht as ([] & u3 & Hval & Ht). injection Hval as Hval _. injection Ht as <- _.
  split; cbn [pn_topology pn_provenance]; try done.
  - destruct (ma_preflight m); [by eexists|done].
  - by apply topology_validate_exact.
  - intros Hnf Hord. pose proof (no_faults_same _ _ Hs1 Hnf) as Hnf1.
    destruct (validate_runs (mkTopology w v q c cpus CPU_SYSFS_ROOT) (rn_io s1) Hnf1) as (u & Hu & _). rewrite Hst in Hu.
    injection Hu as Hverdict _. rewrite <- (proj2 Hs1).
    apply (proj1 (verdict_ok (io_nodes (rn_io s1)) (io_order (rn_io s1)) (mkTopology w v q c cpus CPU_SYSFS_ROOT)
      ltac:(rewrite (kept_order _ _ (proj1 Hs1)); exact Hord))). by exists states.
Qed.

Definition is_measured (b : Block) : Prop := match b with Measured _ _ => True | Skipped _ _ _ => False end.

(** The complete results of a run from [s], and the trials behind them. *)
Definition complete (s : run (W := W)) (text : string) (log : list Trialled) : Prop :=
  exists p metadata cases saturated bursty,
    (ar_mode a = Official -> gates_passed s p /\ Forall is_measured (saturated ++ bursty)) /\
    calibrated (pn_clock p) /\ skew_preflight (cycles_per_ns (pn_clock p)) (ma_estimate m) = Ok (pn_skew p) /\
    all_cases (ar_case_filter a) (hardware_matrix m) = Ok cases /\
    blocks_ok a (cycles_per_ns (pn_clock p)) (sk_correction_cycles (pn_skew p)) Saturated 0 cases saturated /\
    blocks_ok a (cycles_per_ns (pn_clock p)) (sk_correction_cycles (pn_skew p)) Bursty 0 cases bursty /\
    metadata_text (metadata_input m a p) = Ok metadata /\
    text = (metadata +:+ newline) +:+ lines_text (workload_lines Saturated cases saturated ++ workload_lines Bursty cases bursty) /\
    log = cases_log Saturated 0 cases saturated ++ cases_log Bursty 0 cases bursty /\ Forall (ran m a) log.

Lemma official_measured cpn k w i cases bs : ar_mode a = Official ->
  blocks_ok a cpn k w i cases bs -> Forall is_measured bs.
Proof.
  intros Hm. revert i bs. induction cases as [|c cases IH]; intros i [|b bs]; cbn; try done.
  intros [Hb Hbs]. constructor; [|by eapply IH]. destruct b; [done|]. destruct Hb as [Hs _]. congruence.
Qed.

Lemma run_workload_ok cpn k cases w workloads o s o' s' :
  run_workloads m a cpn k cases (w :: workloads) o s = (Ok o', s') ->
  exists bs s1, blocks_ok a cpn k w 0 cases bs /\ rn_log s1 = rn_log s ++ cases_log w 0 cases bs /\
    run_workloads m a cpn k cases workloads (extended o (lines_text (workload_lines w cases bs))) s1 = (Ok o', s').
Proof.
  cbn [run_workloads]. intros E. apply bench_ok in E as ([o1 summaries] & s1 & E1 & E).
  apply run_cases_ok in E1 as (bs & Hbs & -> & -> & L1). apply bench_ok in E as (o2 & s2 & [-> L2]%write_line_ok & E).
  exists bs, s2. split; [done|]. split; [by rewrite L2|]. rewrite extended_extended, <- lines_text_app in E. exact E.
Qed.

Lemma measure_ok p o s o' s' : measure m a p o s = (Ok o', s') -> ar_preflight_only a = false ->
  exists metadata cases saturated bursty, all_cases (ar_case_filter a) (hardware_matrix m) = Ok cases /\
    blocks_ok a (cycles_per_ns (pn_clock p)) (sk_correction_cycles (pn_skew p)) Saturated 0 cases saturated /\
    blocks_ok a (cycles_per_ns (pn_clock p)) (sk_correction_cycles (pn_skew p)) Bursty 0 cases bursty /\
    metadata_text (metadata_input m a p) = Ok metadata /\
    o' = extended o ((metadata +:+ newline) +:+ lines_text (workload_lines Saturated cases saturated ++ workload_lines Bursty cases bursty)) /\
    rn_log s' = rn_log s ++ cases_log Saturated 0 cases saturated ++ cases_log Bursty 0 cases bursty.
Proof.
  unfold measure. intros E Hp. rewrite Hp in E. apply bench_ok in E as (metadata & s0 & [Hm ->]%of_result_ok & E).
  apply bench_ok in E as (o1 & s1 & [-> L1]%write_text_ok & E).
  apply bench_ok in E as (cases & s2 & [Hc ->]%of_result_ok & E).
  apply run_workload_ok in E as (b1 & s2 & B1 & L2 & E). apply run_workload_ok in E as (b2 & s3 & B2 & L3 & E).
  unfold mret, bench_ret in E. cbn [run_workloads] in E. injection E as <- <-.
  exists metadata, cases, b1, b2. split; [done|]. split; [done|]. split; [done|]. split; [done|]. split; [|by rewrite L3, L2, L1, app_assoc].
  rewrite !extended_extended, lines_text_app. by rewrite string_app_assoc.
Qed.

Lemma measured_complete s p s1 o s2 o' s3 : prepare m a s = (Ok p, s1) -> measure m a p o s2 = (Ok o', s3) ->
  ar_preflight_only a = false ->
  exists text log, complete s text log /\ o' = extended o text /\ rn_log s3 = rn_log s2 ++ log.
Proof.
  intros Ep Em Hpo. pose proof (logs_measure m a p o s2) as (l & Hl & Hran). rewrite Em in Hl. cbn [snd] in Hl.
  apply measure_ok in Em as (metadata & cases & b1 & b2 & Hc & B1 & B2 & Hmd & -> & L3); [|done].
  rewrite Hl in L3. apply app_inv_head in L3. subst l.
  eexists _, _. split; [|by split]. exists p, metadata, cases, b1, b2.
  destruct (prepare_clocks _ _ _ Ep) as [Hclock Hskew]. split; [intros Hm|done].
  split; [by eapply prepare_gates|]. apply Forall_app. split; by eapply official_measured.
Qed.

Lemma of_output {A} (p : sys A) f (s : run (W := W)) (Q : result A io_error -> iost -> Prop) : swp p (rn_io s) Q ->
  exists r io, of_io p f s = (map_err r f, mkRun io (rn_world s) (rn_log s)) /\ Q r io.
Proof. unfold swp, of_io. destruct (p (rn_io s)) as [r io]. intros HQ. by exists r, io. Qed.

End published.

(** *** A run for the witness *)

Definition cpu_power (cpu : string) : list (path * node) :=
  [(["sys"; cpu; "cpufreq"], Dir 0 493);
   (["sys"; cpu; "cpufreq"; "scaling_governor"], File ("performance" +:+ newline) 0 420);
   (["sys"; cpu; "cpufreq"; "energy_performance_preference"], File ("performance" +:+ newline) 0 420)]%string.
Definition placed_files (l : list (path * node)) : list (path * node) :=
  (fun pn => (CPU_SYSFS_ROOT ++ tail pn.1, pn.2)) <$> l.
Definition official_machine : nodes := list_to_map (
  [(["sys"], Dir 0 493); (["sys"; "devices"], Dir 0 493); (["sys"; "devices"; "system"], Dir 0 493);
   (["home"], Dir 0 493); (["home"; "out"], Dir 1000 493);
   (["sys"; "devices"; "system"; "clocksource"], Dir 0 493);
   (["sys"; "devices"; "system"; "clocksource"; "clocksource0"], Dir 0 493);
   (["sys"; "devices"; "system"; "clocksource"; "clocksource0"; "current_clocksource"], File ("tsc" +:+ newline) 0 420)]%string
  ++ placed_files (
    [(["sys"]%string, Dir 0 493)] ++ cpu_files "cpu0" "0" "0-1" ++ cpu_files "cpu1" "0" "0-1"
    ++ cpu_files "cpu2" "1" "2" ++ cpu_files "cpu3" "2" "3"
    ++ idle_cpu "cpu0" "1" ++ idle_cpu "cpu1" "1" ++ idle_cpu "cpu2" "1" ++ idle_cpu "cpu3" "1"
    ++ cpu_power "cpu0" ++ cpu_power "cpu1" ++ cpu_power "cpu2" ++ cpu_power "cpu3")).
Definition official_start : run (W := unit) :=
  mkRun (mkIo official_machine (fun _ => None) 0 (fun l => l) 0 [] results_proc) tt [].
Definition official_run : Machine (W := unit) := {|
  ma_control _ := (WorkerResult (Ok (mkVictim 4096 1000000 100)), tt);
  ma_contender _ _ _ := (Joined (Ok tt) (Ok (mkMetrics [10; 12] (Some 0) 0 0 0 false)) (Ok tt) (Ok (mkVictim 4096 1020000 101)), tt);
  ma_constructors := mkConstructors (Ok tt) (fun _ => Ok tt) (Ok tt) true;
  ma_preflight := Ok (mkReport IntelUmwait 16 2 20000);
  ma_cpuid _ _ := mkCpuid 0x80000008 0 0 (2 ^ 27 + 2 ^ 8);
  ma_window i := mkWindow (Z.of_nat i) 7 (Z.of_nat i + 20000) 7 10000;
  ma_estimate := Ok (3, 1);
  ma_stamps := run_stamps "c0ffee";
  ma_self_exe := Ok "bits"%string;
  ma_procfs := run_view;
  ma_first_partial_id := 0;
  ma_fuel := 1 |}.
Definition official_arguments : Arguments :=
  mkArguments Official 250 1 1000 10000 None None None None "out/results.jsonl" None false.
#[local] Instance run_strings : StringsToJson := fun l => Ok (listed (text <$> l)).
Definition official_benchmark : result unit Failure * run (W := unit) :=
  @benchmark unit run_serde run_json (fun _ => None) run_strings official_run official_arguments official_start.
Lemma official_benchmark_ok : is_ok official_benchmark.1 = true.
Proof. by vm_compute. Qed.

