(* ===== verification/PublishedLatencies.v ===== *)
(** * The latencies of the published results

    The composition of everything the benchmark does: the main program ([Driver]) on a machine whose handshake and trials are runs of
    the models of their threads ([Clock], [Trial]). *)

From stdpp Require Import pretty.
From Stdlib Require Import SpecFloat.
From S2P Require Import Preflight.
From S2P Require Import Prelude BenchFs Errors Pure Journal Cpuidle BenchCases Platform ViewMemory Trial TrialProofs Handover Output.
From S2P Require Import Clock ClockProofs Measure Latency Metadata Driver DriverProofs.
Open Scope Z_scope.

(** ** A machine made of the threads' models *)

(** The waiter's metrics are those of the trial [tr] with the arguments of the run. *)
Record measures (a : Arguments) (waiter : WaiterMetrics) (u : setup) (tr : trial) : Prop := mkMeasures {
  me_reachable : reachable u tr;
  me_words : Forall in_words (t_samples tr);
  me_warmup : su_warmup_events u = ar_warmup_events a;
  me_max : su_max_samples u = ar_max_samples a;
  me_latencies : wm_latencies_cycles waiter = wm_latencies_cycles (rc_metrics (t_recorder tr));
  me_limit : wm_sample_limit_reached waiter = wm_sample_limit_reached (rc_metrics (t_recorder tr));
}.
(** The estimate is that of a handshake between counters whose skew is [skew], and every waiter's metrics are those of a trial. *)
Record made_of_threads {W} (m : Machine (W := W)) (a : Arguments) (skew offset uncertainty : Z) : Prop := mkMadeOfThreads {
  mt_estimate : ma_estimate m = Ok (offset, uncertainty);
  mt_word : - 2 ^ 63 <= offset < 2 ^ 63;
  mt_handshake : exists samples h, 1 <= samples /\ hs_reachable skew samples h /\ hs_controller h = K_ended (Ok (offset, uncertainty));
  mt_trials : forall c wl w drive waiter producer victim,
    (ma_contender m c wl w).1 = Joined drive (Ok waiter) producer victim -> exists u tr, measures a waiter u tr;
}.

Definition repetitions_of (b : Block) : list Repeated := match b with Measured rs _ | Skipped rs _ _ => rs end.

(** What is reported of a repetition is true of a trial. *)
Definition repetition_true (a : Arguments) (skew offset uncertainty : Z) (r : Repeated) : Prop :=
  exists u tr, measures a (ct_waiter r.1.2) u tr /\
    let kept := measured_from (su_expected_aux u) (su_warmup_events u) offset 0 (t_samples tr) in
    (forall i x, (i, x) ∈ kept <->
       t_samples tr !! i = Some x /\ measured (su_expected_aux u) (su_warmup_events u) offset (Z.of_nat i) x = true) /\
    Forall2 (true_latency skew uncertainty tr) kept (re_raw_latency_cycles r.2) /\
    re_samples r.2 = Z.of_nat (length kept) /\
    Forall (fun p => exists kx, kx ∈ kept /\ true_latency skew uncertainty tr kx p) (percentiles r.2).

(** ** Repetitions and the log *)

Lemma repeated_in cpn corr c w i k rs r : repeated_ok cpn corr i k rs -> r ∈ rs ->
  (exists k first, repetition_new cpn k first r.1.1 r.1.2 corr = Some (Ok r.2)) /\
  ControlTrial (Ok r.1.1) ∈ repeated_log c w i k rs /\ ContenderTrialled c w (Ok r.1.2) ∈ repeated_log c w i k rs.
Proof.
  revert k. induction rs as [|r' rs IH]; intros k Hok Hr; [by apply elem_of_nil in Hr|]. destruct Hok as [Hnew Hok].
  cbn [repeated_log]. rewrite !elem_of_app. apply elem_of_cons in Hr as [->|Hr].
  - split; [by eexists _, _|]. unfold pair_log. destruct (control_first i k); set_solver.
  - destruct (IH _ Hok Hr) as (H1 & H2 & H3). auto.
Qed.
Lemma blocks_in a cpn corr w i cases bs b r : blocks_ok a cpn corr w i cases bs -> b ∈ bs -> r ∈ repetitions_of b ->
  (exists k first, repetition_new cpn k first r.1.1 r.1.2 corr = Some (Ok r.2)) /\
  ControlTrial (Ok r.1.1) ∈ cases_log w i cases bs /\ exists c, ContenderTrialled c w (Ok r.1.2) ∈ cases_log w i cases bs.
Proof.
  revert i bs. induction cases as [|c cases IH]; intros i [|b' bs]; cbn [blocks_ok cases_log]; try done; [by intros _ ?%elem_of_nil|].
  intros [Hb Hbs] Hin Hr. apply elem_of_cons in Hin as [->|Hin].
  - assert (Hok : repeated_ok cpn corr i 0 (repetitions_of b')) by (destruct b'; cbn in *; tauto).
    destruct (repeated_in _ _ c w i 0 _ r Hok Hr) as (H1 & H2 & H3). split; [exact H1|].
    assert (Hlog : forall t, t ∈ repeated_log c w i 0 (repetitions_of b') -> t ∈ block_log c w i b' ++ cases_log w (S i) cases bs).
    { intros t Ht. apply elem_of_app. left. destruct b'; [exact Ht|]. apply elem_of_app. by left. }
    split; [by apply Hlog|]. exists c. by apply Hlog.
  - destruct (IH _ _ Hbs Hin Hr) as (H1 & H2 & c' & H3). rewrite !elem_of_app. split; [exact H1|]. split; [by right|]. exists c'.
    apply elem_of_app. by right.
Qed.

Section published.
Context {W : Type} `{Serde} `{JsonValue} `{StringsToJson}.
Variables (m : Machine (W := W)) (a : Arguments) (skew offset uncertainty : Z).
Hypothesis (Hm : made_of_threads m a skew offset uncertainty).
Hypothesis (Hargs : 0 < ar_max_samples a /\ ar_warmup_events a <= u64_max).

Lemma repetition_is_true cpn sk c w x k first r :
  skew_preflight cpn (ma_estimate m) = Ok sk -> Ok r.1.2 = conclude_trial (ma_contender m c w x).1 (ar_max_samples a) ->
  repetition_new cpn k first r.1.1 r.1.2 (sk_correction_cycles sk) = Some (Ok r.2) ->
  repetition_true a skew offset uncertainty r.
Proof.
  intros Hsk Hc Hnew. destruct Hm as [Hest Hword (samples & h & Hn & Hh & Hk) Htrials]. rewrite Hest in Hsk.
  destruct (ma_contender m c w x).1 as [|drive waiter producer victim] eqn:Eth; [discriminate Hc|].
  destruct waiter as [waiter|e]; [|by destruct drive]. destruct (Htrials _ _ _ _ _ _ _ Eth) as (u & tr & Htr).
  assert (Hct : ct_waiter r.1.2 = waiter).
  { unfold conclude_trial, other in Hc. destruct drive, producer, victim; try done. cbn in Hc.
    destruct (validate_sample_set _ _ _) as [[]|]; [|done]. by injection Hc as ->. }
  exists u, tr. rewrite Hct. split; [exact Htr|]. destruct Htr as [Hr Hwords Hwarm Hmax Hlat Hlim]. destruct Hargs as [Hpos Hwe]. rewrite <- Hmax in Hc.
  apply (latencies_true skew samples offset uncertainty h cpn sk u tr drive producer waiter victim r.1.2 r.1.1 k first r.2); try done; lia.
Qed.

End published.

(** ** A run for the witness: the handshake of [ClockProofs], the two sends of [TrialProofs] and the machine of [DriverProofs] *)

Definition two_metrics : WaiterMetrics := mkMetrics [30; 50] (Some 0) 0 0 0 false.
Definition threads_run : Machine (W := unit) := {|
  ma_control := ma_control official_run;
  ma_contender _ _ _ := (Joined (Ok tt) (Ok two_metrics) (Ok tt) (Ok (mkVictim 4096 1020000 101)), tt);
  ma_constructors := ma_constructors official_run;
  ma_preflight := ma_preflight official_run;
  ma_cpuid := ma_cpuid official_run;
  ma_window := ma_window official_run;
  ma_estimate := Ok (40, 2);
  ma_stamps := ma_stamps official_run;
  ma_self_exe := ma_self_exe official_run;
  ma_procfs := ma_procfs official_run;
  ma_first_partial_id := 0;
  ma_fuel := 1 |}.
Definition threads_arguments : Arguments := mkArguments Official 250 1 0 10 None None None None "out/results.jsonl" None false.
Lemma two_sends_measured : exists tr, measures threads_arguments two_metrics parker_trial tr.
Proof.
  destruct (trial_run parker_trial two_sends trial_start) as [tr|] eqn:E; [|vm_compute in E; discriminate E].
  assert (Hl : (fun tr => (t_samples tr, wm_latencies_cycles (rc_metrics (t_recorder tr)), wm_sample_limit_reached (rc_metrics (t_recorder tr))))
    <$> trial_run parker_trial two_sends trial_start = Some ([mkSample 1 130 7 100; mkSample 2 250 7 200], [30; 50], false)) by (vm_compute; reflexivity).
  rewrite E in Hl. cbn [fmap option_fmap option_map] in Hl. injection Hl as Hx Hlat Hlim.
  exists tr. split; [exists two_sends; exact E| |reflexivity|reflexivity|by rewrite Hlat|by rewrite Hlim].
  rewrite Hx. repeat constructor; cbn; unfold u64_max; lia.
Qed.
Lemma threads_run_made : made_of_threads threads_run threads_arguments 40 40 2.
Proof.
  split; [reflexivity|lia|..].
  - exists 2. destruct (hs_run 40 2 (opening 0 ++ one_sample 10 15 20 1 ++ one_sample 30 32 34 2 ++ closing) (hs_start 0)) as [h|] eqn:Eh;
      [|exfalso; revert Eh; vm_compute; discriminate].
    exists h. split; [lia|]. split; [exists 0; eexists; split; [lia|exact Eh]|]. revert Eh. vm_compute. intros [= <-]. reflexivity.
  - intros c wl w drive waiter producer victim. cbn [ma_contender threads_run fst]. intros [= <- <- <- <-].
    exists parker_trial. apply two_sends_measured.
Qed.
Definition threads_prepared : result Preparation Failure * run (W := unit) :=
  @prepare unit run_serde run_json (fun _ => None) threads_run threads_arguments official_start.
Definition threads_written (p : Preparation) : result AtomicOutput Failure * run (W := unit) :=
  @measure unit run_strings threads_run threads_arguments p (mkOutput (rpath_of_string "a") (rpath_of_string "b") EmptyString false) official_start.
Lemma threads_steps : match threads_prepared with (Ok p, _) => is_ok (threads_written p).1 | _ => false end = true.
Proof. by vm_compute. Qed.
Lemma threads_complete : exists text log,
  @complete unit run_serde run_json run_strings threads_run threads_arguments official_start text log.
Proof.
  pose proof threads_steps as Hs. destruct threads_prepared as [[p|e] s1] eqn:Ep; [|discriminate Hs].
  destruct (threads_written p) as [[o|e] s2] eqn:Em; [|discriminate Hs].
  destruct (measured_complete threads_run threads_arguments _ _ _ _ _ _ _ Ep Em eq_refl) as (text & log & Hc & _). by exists text, log.
Qed.
