(* ===== verification/ResultsFormat.v ===== *)
(** * The published results as JSON values

    What the metadata line says as a JSON value, that the reference reader of [Jsonl] finds in the text that [DriverProofs] shows to be published
    exactly the values that were measured, and when a value has a JSON at all. *)

From Stdlib Require Import SpecFloat.
From S2P Require Import Preflight.
From S2P Require Import Prelude BenchFs Errors Pure Journal Cpuidle BenchCases Platform Handover Output Clock Measure Metadata Driver DriverProofs Jsonl.
Open Scope Z_scope.

(** serde_json writes a list of strings as the array of these strings. *)
Class StringsToJsonLaw `{StringsToJson} :=
  strings_json (l : list string) : exists t, strings_to_json l = Ok t /\ written t (JList (JText <$> l)).

(** ** The metadata as a JSON value *)

Definition JNatural (n : N) : option Json := JInteger (Z.of_N n).
Definition JSigned (n : Z) : option Json := JToken (signed n).
Definition JOptional (o : option bool) : option Json := match o with Some b => JBoolean b | None => Some JNull end.

Open Scope string_scope.
Definition preflight_value (h : HardwarePreflight) : option Json :=
  match h with
  | Ok report => JMembers [
      ("status", JText "passed"); ("backend", JText (hardware_backend_name (pr_backend report))); ("attempts", JInteger (pr_attempts report));
      ("observed_store_wake_trials", JInteger (pr_verified_store_wakes report)); ("baseline_wait_ns", JInteger (pr_baseline_wait report))]
  | Err error => JMembers [
      ("status", JText (preflight_error_status error));
      ("backend", match error with PreflightFailed backend _ => JText (hardware_backend_name backend) | _ => Some JNull end);
      ("failure", match preflight_failure_name error with Some failure => JText failure | None => Some JNull end);
      ("diagnostic", JText (hardware_wait_error_display error))]
  end.
Definition state_json (s : CpuIdleState) : option Json :=
  JMembers [("cpu", JNatural (is_cpu s)); ("name", JText (is_name s)); ("disabled", JBoolean (is_disabled s))].
Definition cpu_json (c : CpuInfo) : option Json :=
  JMembers [("cpu", JNatural (ci_cpu c)); ("package", JNatural (ci_package c)); ("core", JNatural (ci_core c));
    ("siblings", JList (JNatural <$> ascending_cpus (ci_siblings c)))].
Definition policy_json (p : CpuPowerPolicy) : option Json :=
  JMembers [("cpu", JNatural (pw_cpu p)); ("governor", JText (pw_governor p)); ("energy_preference", JText (pw_energy_preference p))].
Definition receipt_json (p : BuildReceiptProvenance) : option Json :=
  JMembers [
    ("version", JText (rp_version p)); ("build_id", JText (rp_build_id p)); ("repository", JText (rp_repository p));
    ("source_commit", JText (rp_source_commit p)); ("lockfile_path", JText (rp_lockfile_path p));
    ("lockfile_sha256", JText (rp_lockfile_sha256 p)); ("package_id", JText (rp_package_id p)); ("bench", JText (rp_bench p));
    ("features", JList (JText <$> rp_features p)); ("profile", JText (rp_profile p)); ("rustc", JText (rp_rustc p));
    ("rustup_toolchain", JText (rp_rustup_toolchain p)); ("target_triple", JText (rp_target_triple p));
    ("benchctl_version", JText (rp_benchctl_version p));
    ("benchctl_executable_sha256", JText (rp_benchctl_executable_sha256 p)); ("executable_sha256", JText (rp_executable_sha256 p))].

Definition provenance_json (p : RepositoryProvenance) : option Json * option Json :=
  match rv_receipt p with
  | Some receipt => (JText "benchctl_build_receipt", receipt_json receipt)
  | None => (JText "compile_stamps", Some JNull)
  end.
Definition metadata_values (i : MetadataInput) (provenance_source receipt : option Json) : list (string * option Json) :=
  let a := mi_arguments i in
  let t := mi_topology i in
  let k := mi_skew i in
  let p := mi_provenance i in
  [ ("type", JText "metadata"); ("schema", JText RESULT_SCHEMA_VERSION); ("mode", JText (mode_str (ar_mode a)));
    ("warning", JText (mi_cstate_warning i)); ("benchmark_commit", JText (rv_compiled_commit p));
    ("compiled_working_tree_dirty", JOptional (rv_compiled_dirty p)); ("checkout_commit", JText (rv_checkout_commit p));
    ("checkout_working_tree_dirty", JOptional (rv_checkout_dirty p));
    ("rustc", JText (default "unknown" (COMPILED_RUSTC (mi_stamps i))));
    ("rustup_toolchain", JText (default "unknown" (COMPILED_RUSTUP_TOOLCHAIN (mi_stamps i))));
    ("provenance_source", provenance_source); ("build_receipt", receipt);
    ("benchmark_features", JList (JText <$> (if mi_benchmark_only i then ["benchmark-only"] else [])));
    ("schedule_version", JText BURSTY_SCHEDULE_VERSION); ("schedule_seed", JText ("0x" +:+ hex16 BURSTY_SEED));
    ("bursty_gap_us_weight_percent", JList ((fun w => JList [JInteger w.1; JInteger (Z.of_nat w.2)]) <$> gap_weights));
    ("duration_ms", JInteger (ar_trial_duration_ms a)); ("repetitions", JInteger (ar_repetitions a));
    ("warmup_events", JInteger (ar_warmup_events a)); ("max_samples", JInteger (ar_max_samples a));
    ("acceptance_limits", JMembers [
      ("max_victim_throughput_loss_percent", JFixed 6 MAX_THROUGHPUT_LOSS_PERCENT);
      ("max_victim_p99_degradation_percent", JFixed 6 MAX_P99_DEGRADATION_PERCENT)]);
    ("clocksource", JText "tsc"); ("cycles_per_ns", JFixed 9 (cycles_per_ns (mi_clock i)));
    ("calibration_spread_percent", JFixed 6 (spread_percent (mi_clock i)));
    ("hardware_preflight", preflight_value (mi_hardware_preflight i));
    ("tsc_skew", JMembers [
      ("producer_offset_cycles", JSigned (sk_producer_offset_cycles k)); ("waiter_offset_cycles", JSigned (sk_waiter_offset_cycles k));
      ("producer_uncertainty_cycles", JInteger (sk_producer_uncertainty_cycles k));
      ("waiter_uncertainty_cycles", JInteger (sk_waiter_uncertainty_cycles k));
      ("producer_to_waiter_bound_ns", JFixed 6 (sk_producer_to_waiter_bound_ns k));
      ("applied_waiter_minus_producer_cycles", JSigned (sk_correction_cycles k))]);
    ("matched_control", JText "victim-only baseline; reported loss conservatively includes producer and waiter activity");
    ("cpu_model", JText (md_model (mi_cpu i))); ("microcode", JText (md_microcode (mi_cpu i)));
    ("kernel", JText (md_kernel (mi_cpu i))); ("power_policy", JList (policy_json <$> mi_power_policies i));
    ("roles", JMembers [("waiter", JNatural (tp_waiter t)); ("victim", JNatural (tp_victim t));
      ("producer", JNatural (tp_producer t)); ("controller", JNatural (tp_controller t))]);
    ("topology", JList (cpu_json <$> cpu_values (tp_cpus t))); ("cpuidle", JList (state_json <$> mi_cpuidle i)) ].
Definition metadata_json (i : MetadataInput) : option Json :=
  let '(source, receipt) := provenance_json (mi_provenance i) in JMembers (metadata_values i source receipt).
Close Scope string_scope.

(** ** The metadata line is this value *)

Lemma written_list {A} (f : A -> string) (g : A -> option Json) l : (forall x, written (f x) (g x)) -> written (listed (f <$> l)) (JList (g <$> l)).
Proof. intros Hfg. apply written_array. induction l as [|x l IH]; constructor; [apply Hfg|done]. Qed.
Lemma written_N n : written (number_N n) (JNatural n).
Proof. apply written_natural. Qed.
Lemma written_escaped s : written (text s) (JText s).
Proof. apply written_string. Qed.
Lemma written_optional o : written (optional_bool o) (JOptional o).
Proof. destruct o as [b|]; [apply written_boolean|apply written_null]. Qed.
Lemma written_integer n : written (number n) (JInteger n).
Proof. apply written_natural. Qed.
Lemma written_sign n : written (signed n) (JSigned n).
Proof. apply written_signed. Qed.
#[export] Hint Resolve written_N written_escaped written_optional written_integer written_sign : json.

Lemma written_preflight h : written (preflight_json h) (preflight_value h).
Proof.
  destruct h as [[b n w t]|e]; cbn [preflight_json preflight_value].
  - members. apply written_text. by destruct b.
  - destruct e as [| |e|b r]; cbn [preflight_failure_name preflight_error_status]; members; apply written_text; first [by destruct b|by destruct r].
Qed.
Lemma written_state s : written (state_text s) (state_json s).
Proof. members. Qed.
Lemma written_cpu c : written (cpu_text c) (cpu_json c).
Proof. members. apply written_list, written_N. Qed.
Lemma written_policy p : written (policy_text p) (policy_json p).
Proof. members. Qed.
Lemma written_receipt p features : written features (JList (JText <$> rp_features p)) -> written (receipt_text p features) (receipt_json p).
Proof. intros Hf. members. Qed.
(** The weights as they are recorded are those of the schedule. *)
Lemma written_weights : written "[[0,30],[1,15],[5,12],[10,10],[25,10],[50,8],[100,7],[250,5],[1000,3]]"
  (JList ((fun w => JList [JInteger w.1; JInteger (Z.of_nat w.2)]) <$> gap_weights)).
Proof.
  change "[[0,30],[1,15],[5,12],[10,10],[25,10],[50,8],[100,7],[250,5],[1000,3]]"%string
    with (listed ((fun w : Z * nat => bracketed [number w.1; number (Z.of_nat w.2)]) <$> gap_weights)).
  apply written_list. intros w. apply written_array. repeat constructor; apply written_natural.
Qed.
Lemma written_seed : written (quoted ("0x" +:+ hex16 BURSTY_SEED)) (JText ("0x" +:+ hex16 BURSTY_SEED)).
Proof. apply written_text. plain. Qed.
Lemma written_features b : written (listed (if b : bool then [quoted "benchmark-only"] else []))
  (JList (JText <$> (if b then ["benchmark-only"%string] else []))).
Proof. apply written_array. destruct b; [constructor; [by apply written_text|constructor]|constructor]. Qed.

Lemma written_metadata i source source' receipt receipt' : written (quoted source) source' -> written receipt receipt' ->
  written (object (member <$> metadata_members i source receipt)) (JMembers (metadata_values i source' receipt')).
Proof.
  intros Hs Hr. unfold metadata_members, metadata_values. cbv zeta. members.
  - apply written_text. by destruct (ar_mode _).
  - apply written_features.
  - apply written_weights.
  - members.
  - apply written_preflight.
  - members.
  - apply written_list, written_policy.
  - members.
  - apply written_list, written_cpu.
  - apply written_list, written_state.
Qed.
Lemma written_metadata_text `{StringsToJsonLaw} i :
  exists t, metadata_text i = Ok t /\ written t (metadata_json i).
Proof.
  unfold metadata_text, metadata_json, provenance_json. destruct (rv_receipt (mi_provenance i)) as [receipt|].
  - destruct (strings_json (rp_features receipt)) as (features & -> & Hf). eexists. split; [done|].
    apply written_metadata; [by apply written_text|by apply written_receipt].
  - eexists. split; [done|]. apply written_metadata; [by apply written_text|apply written_null].
Qed.

(** ** Lines that can be read *)

(** A float that is not finite has no JSON; everything else has. *)
Definition finite_line (l : Line) : Prop :=
  match l with
  | RepetitionLine _ _ v =>
      is_finite (re_victim_control_mops v) && is_finite (re_victim_contender_mops v)
      && is_finite (re_throughput_loss_percent v) && is_finite (re_victim_p99_degradation_percent v) = true
  | SummaryLine s => is_finite (su_throughput_loss_percent s) && is_finite (su_victim_p99_degradation_percent s) = true
  | SamplesLine _ _ _ _ | SkipLine _ _ _ | WinnerLine _ | NoWinnerLine _ => True
  end.
Definition finite_metadata (i : MetadataInput) : Prop :=
  is_finite (cycles_per_ns (mi_clock i)) && is_finite (spread_percent (mi_clock i))
  && is_finite (sk_producer_to_waiter_bound_ns (mi_skew i)) = true.

Definition readable (o : option Json) : bool := match o with Some _ => true | None => false end.
Lemma readable_some o : readable o = true <-> is_Some o.
Proof. destruct o; cbn; split; [eauto|done|done|by intros []]. Qed.
Lemma readable_members fs : readable (JMembers fs) = forallb (fun f => readable f.2) fs.
Proof.
  unfold JMembers. induction fs as [|[k [j|]] fs IH]; [done| |done].
  change (mapM named ((k, Some j) :: fs)) with (js ← mapM named fs; Some ((scalars k, j) :: js)). cbn [forallb fst snd readable].
  rewrite <- IH. by destruct (mapM named fs).
Qed.
Lemma readable_list {A} (f : A -> option Json) l : (forall x, readable (f x) = true) -> readable (JList (f <$> l)) = true.
Proof.
  intros Hf. unfold JList. induction l as [|x l IH]; [done|]. specialize (Hf x).
  change (mapM id (f <$> x :: l)) with (j ← f x; js ← mapM id (f <$> l); Some (j :: js)).
  destruct (f x) as [j|]; [|done]. cbn. by destruct (mapM id (f <$> l)).
Qed.
Lemma readable_fixed d f : readable (JFixed d f) = is_finite f.
Proof. unfold JFixed. by destruct (is_finite f). Qed.
Ltac reads := repeat (progress (rewrite ?readable_members, ?readable_fixed;
  cbn [forallb fst snd readable JText JInteger JToken JBoolean app medians_json])).

Ltac finite_cases := repeat match goal with |- context [is_finite ?f] => destruct (is_finite f) end; done.

Lemma readable_line l : is_Some (line_json l) <-> finite_line l.
Proof.
  rewrite <- readable_some. destruct l as [c w v|c w r values|c w reason|s|s|w]; cbn [line_json finite_line]; unfold percentiles_json; reads; try done.
  - destruct (re_unclassified_wakes v); reads; finite_cases.
  - by rewrite readable_list.
  - finite_cases.
Qed.

Lemma readable_metadata i : is_Some (metadata_json i) <-> finite_metadata i.
Proof.
  rewrite <- readable_some. unfold metadata_json, finite_metadata.
  assert (Hp : readable (provenance_json (mi_provenance i)).1 = true /\ readable (provenance_json (mi_provenance i)).2 = true).
  { unfold provenance_json. destruct (rv_receipt _) as [r|]; [|done]. split; [done|]. cbn [snd]. unfold receipt_json. reads.
    by rewrite readable_list. }
  destruct (provenance_json _) as [source receipt]. cbn [fst snd] in Hp. destruct Hp as [Hs Hr]. unfold metadata_values. cbv zeta. reads.
  assert (Hb : forall o, readable (JOptional o) = true) by (by intros [b|]).
  assert (Hh : readable (preflight_value (mi_hardware_preflight i)) = true).
  { destruct (mi_hardware_preflight i) as [r|[| |e|b f]]; cbn [preflight_value]; by reads. }
  assert (Hc : forall c, readable (cpu_json c) = true) by (intros c; unfold cpu_json; reads; by rewrite readable_list).
  assert (Hp : forall p, readable (policy_json p) = true) by (intros p; unfold policy_json; by reads).
  assert (Hst : forall s, readable (state_json s) = true) by (intros s; unfold state_json; by reads).
  rewrite !readable_list by done. rewrite Hs, Hr, !Hb, Hh.
  change (is_finite MAX_THROUGHPUT_LOSS_PERCENT) with true. change (is_finite MAX_P99_DEGRADATION_PERCENT) with true.
  finite_cases.
Qed.

(** ** The round trip *)

Lemma read_results `{StringsToJsonLaw} i metadata ls : metadata_text i = Ok metadata ->
  read_lines ((metadata +:+ newline) +:+ lines_text ls) = mapM id (metadata_json i :: (line_json <$> ls)).
Proof.
  destruct (written_metadata_text i) as (t & -> & Ht). intros [= <-]. unfold newline. rewrite (read_lines_cons _ _ _ Ht).
  assert (Hls : read_lines (lines_text ls) = mapM id (line_json <$> ls)).
  { induction ls as [|l ls IH]; [done|]. cbn [lines_text foldr fmap list_fmap mapM]. fold (lines_text ls).
    by rewrite (read_lines_cons _ _ _ (written_line l)), IH. }
  by rewrite Hls.
Qed.
