(* ===== verification/FiniteResults.v ===== *)
(** * The published results can always be read back

    The round trip of a whole file of results through the reader of [Jsonl], and why no float gets in its way: on a machine whose
    numbers have the ranges of their types, none overflows or is undefined ([FloatRange]). *)

From Stdlib Require Import SpecFloat.
From S2P Require Import Preflight.
From S2P Require Import Prelude BenchFs Errors Pure Journal Cpuidle BenchCases Platform Handover Output.
From S2P Require Import Clock Measure FloatRange Metadata Driver DriverProofs PublishedLatencies Jsonl ResultsFormat.
Open Scope Z_scope.

(** ** Machines whose numbers fit their types *)

(** What a victim's thread returned after it had worked for some time, which a [Duration] can hold *)
Definition victim_worked (v : VictimMetrics) : Prop :=
  exists cycles_per_ns expected_aux chunks elapsed_nanos,
    victim_loop cycles_per_ns expected_aux chunks elapsed_nanos = Some (Ok v) /\ 0 <= elapsed_nanos < nanos_max.
(** Stamps and the uncertainty are [u64]s, the offset is an [i64], and the wall clock goes on during a calibration window, for the thread sleeps in it. *)
Record in_ranges {W} (m : Machine (W := W)) : Prop := mkInRanges {
  ir_windows : Forall plausible_window (ma_window m <$> seq 0 CALIBRATION_RUNS);
  ir_estimate : forall offset uncertainty, ma_estimate m = Ok (offset, uncertainty) ->
    - 2 ^ 63 <= offset < 2 ^ 63 /\ 0 <= uncertainty <= u64_max;
  ir_control : forall w v, (ma_control m w).1 = WorkerResult (Ok v) -> victim_worked v;
  ir_contender : forall c wl w drive waiter producer v,
    (ma_contender m c wl w).1 = Joined drive waiter producer (Ok v) -> victim_worked v;
}.

Lemma round_as_u64_range f : 0 <= round_as_u64 f <= u64_max.
Proof.
  assert (0 <= u64_max) by (by vm_compute). unfold round_as_u64. destruct f as [| [] | | [] m e]; try lia. split; [|lia].
  apply Z.min_glb; [done|]. destruct (Z.leb_spec 0 e); [apply Z.mul_nonneg_nonneg; lia|].
  pose proof (Z.pow_pos_nonneg 2 (- e) ltac:(lia) ltac:(lia)). apply Z.div_pos; lia.
Qed.
Lemma victim_plausible v : victim_worked v -> plausible_victim v.
Proof.
  intros (cpn & aux & l & elapsed & (_ & Hl & He & Hne & Hops & Hp)%victim_loop_ok & Hr).
  destruct l as [|c l]; [done|]. cbn [length] in Hops. split.
  - rewrite Hops. unfold VICTIM_CHUNK_OPERATIONS, u64_max. lia.
  - lia.
  - apply list_elem_of_fmap in Hp as (x & -> & _). apply round_as_u64_range.
Qed.

(** ** No float of the results overflows *)

Lemma finite_repetition_line c w r : finite_repetition r -> finite_line (RepetitionLine c w r).
Proof. intros (H1 & H2 & H3 & H4). cbn. by rewrite H1, H2, H3, H4. Qed.
Lemma finite_summary_line s : finite_summary s -> finite_line (SummaryLine s).
Proof. intros [H1 H2]. cbn. by rewrite H1, H2. Qed.
Lemma finite_result_lines c w rs : Forall (fun r : Repeated => finite_repetition r.2) rs ->
  Forall finite_line (mjoin (result_lines c w <$> rs)).
Proof.
  induction 1 as [|r rs Hr _ IH]; [constructor|]. cbn. constructor; [by apply finite_repetition_line|]. by constructor.
Qed.
Lemma finite_block_lines a cpn corr c w i b : block_ok a cpn corr c w i b -> Forall (fun r => finite_repetition r.2) (repetitions_of b) ->
  Forall finite_line (block_lines c w b).
Proof.
  intros Hb Hr. destruct b as [rs summary|rs reason control]; cbn [repetitions_of block_lines] in *; apply Forall_app;
    (split; [by apply finite_result_lines|constructor; [|constructor]]); [|done].
  destruct Hb as (_ & _ & Hs). eapply finite_summary_line, summary_finite; [exact Hs|]. rewrite Forall_fmap. exact Hr.
Qed.
Lemma finite_workload_lines a cpn corr w cases bs : blocks_ok a cpn corr w 0 cases bs ->
  (forall b r, b ∈ bs -> r ∈ repetitions_of b -> finite_repetition r.2) -> Forall finite_line (workload_lines w cases bs).
Proof.
  intros Hok Hr. apply Forall_app. split; [|constructor; [unfold winner_line; by destruct (choose_winner _)|constructor]].
  revert Hok Hr. generalize 0%nat. revert bs. induction cases as [|c cases IH]; intros [|b bs] i; cbn; try done. intros [Hb Hbs] Hr.
  apply Forall_app. split; [|eapply IH; [exact Hbs|]; intros b' r ?; apply Hr; by right].
  eapply finite_block_lines; [exact Hb|]. apply Forall_forall. intros r. apply Hr. left.
Qed.

Lemma all_readable i ls : is_Some (mapM id (metadata_json i :: (line_json <$> ls))) <-> finite_metadata i /\ Forall finite_line ls.
Proof.
  rewrite mapM_is_Some, Forall_cons, Forall_fmap. unfold id. rewrite <- readable_metadata. apply and_iff_compat_l.
  split; intros Hl; (eapply Forall_impl; [exact Hl|intros l; apply readable_line]).
Qed.

Section finite.
Context {W : Type} `{Serde} `{JsonValue} `{StringsToJson}.
Variables (m : Machine (W := W)) (a : Arguments).
Hypothesis (Hm : in_ranges m).

Lemma ran_control v : ran m a (ControlTrial (Ok v)) -> plausible_victim v.
Proof.
  intros [w E]. apply victim_plausible. destruct (ma_control m w).1 as [|r] eqn:Ew; [discriminate E|]. cbn in E. subst r.
  eapply ir_control; [exact Hm|exact Ew].
Qed.
Lemma ran_contender c wl t : ran m a (ContenderTrialled c wl (Ok t)) -> plausible_victim (ct_victim t).
Proof.
  intros [w E]. apply victim_plausible. destruct (ma_contender m c wl w).1 as [|drive waiter producer victim] eqn:Ew; [discriminate E|].
  unfold conclude_trial, other in E. destruct drive, waiter, producer, victim as [victim|]; try discriminate E. cbn in E.
  destruct (validate_sample_set _ _ _) as [[]|]; [|discriminate E]. injection E as ->. cbn [ct_victim]. eapply ir_contender; [exact Hm|exact Ew].
Qed.
Lemma blocks_finite cpn corr w cases bs : blocks_ok a cpn corr w 0 cases bs -> Forall (ran m a) (cases_log w 0 cases bs) ->
  Forall finite_line (workload_lines w cases bs).
Proof.
  intros Hok Hran. eapply finite_workload_lines; [exact Hok|]. intros b r Hb Hr. rewrite Forall_forall in Hran.
  destruct (blocks_in _ _ _ _ _ _ _ _ _ Hok Hb Hr) as ((k & first & Hnew) & Hcontrol%Hran%ran_control & c & Hcontender%Hran%ran_contender).
  by eapply repetition_finite.
Qed.
Lemma clocks_finite p : calibrated m (pn_clock p) -> skew_preflight (cycles_per_ns (pn_clock p)) (ma_estimate m) = Ok (pn_skew p) ->
  finite_metadata (metadata_input m a p).
Proof.
  intros (ratios & Hr & Hc) Hsk. destruct Hm as [Hw He _ _].
  pose proof (window_ratios_ranged _ _ _ Hr Hw ltac:(constructor)) as Hratios. destruct (clock_finite _ _ Hc Hratios) as [Hcpn Hspread].
  destruct (ma_estimate m) as [[offset uncertainty]|] eqn:Ee; [|discriminate Hsk]. destruct (He _ _ eq_refl) as [Ho Hu].
  pose proof (skew_finite _ _ _ _ Hsk Hcpn Ho Hu) as Hbound. unfold finite_metadata. cbn [mi_clock mi_skew metadata_input].
  by rewrite Hspread, Hbound, (small_finite _ _ (ranged_small _ _ _ _ Hcpn)).
Qed.
End finite.

(** ** The round trip *)

(** C7: what is published can be read back, and says what was measured. The text that a complete run publishes is one line of metadata
    and then the lines of the results; a reader of JSON lines finds in it, in order, the metadata's value (with the arguments,
    the machine, the provenance and the hardware preflight of this run, and the gap schedule's own weights) and the values of
    the repetitions, samples, summaries, skips and winners that belong to the log of trials. Escaping, commas and digits are right for all texts
    and numbers: only a float that is not finite could not be read. And on a machine whose stamps, offset and durations fit their types, whatever they
    are and whatever the trials answer, there is none: no division by zero, overflow or undefined difference reaches the file, so
    the reader reads all of it. *)
Theorem results_readable `{StringsToJsonLaw} `{Serde} `{JsonValue} {W : Type} (m : Machine (W := W)) (a : Arguments)
    (s : run (W := W)) (text : string) (log : list Trialled) :
  complete m a s text log ->
  exists p cases saturated bursty,
    let ls := workload_lines Saturated cases saturated ++ workload_lines Bursty cases bursty in
    log = cases_log Saturated 0 cases saturated ++ cases_log Bursty 0 cases bursty /\
    blocks_ok a (cycles_per_ns (pn_clock p)) (sk_correction_cycles (pn_skew p)) Saturated 0 cases saturated /\
    blocks_ok a (cycles_per_ns (pn_clock p)) (sk_correction_cycles (pn_skew p)) Bursty 0 cases bursty /\
    read_lines text = mapM id (metadata_json (metadata_input m a p) :: (line_json <$> ls)) /\
    (is_Some (read_lines text) <-> finite_metadata (metadata_input m a p) /\ Forall finite_line ls) /\
    (in_ranges m -> is_Some (read_lines text)).
Proof.
  intros (p & metadata & cases & b1 & b2 & _ & Hclock & Hsk & _ & B1 & B2 & Hmd & -> & -> & Hran). exists p, cases, b1, b2. cbv zeta.
  apply Forall_app in Hran as [R1 R2]. split; [done|]. split; [done|]. split; [done|].
  rewrite (read_results _ _ _ Hmd). split; [done|].
  set (ls := workload_lines Saturated cases b1 ++ workload_lines Bursty cases b2).
  assert (Hiff : is_Some (mapM id (metadata_json (metadata_input m a p) :: (line_json <$> ls))) <->
    finite_metadata (metadata_input m a p) /\ Forall finite_line ls) by apply all_readable.
  split; [done|]. intros Hm. apply Hiff. split; [by apply clocks_finite|]. apply Forall_app. split; by eapply blocks_finite.
Qed.

(** The run of [PublishedLatencies], where a victim works on one chunk for a millisecond. *)
Lemma threads_run_in_ranges : in_ranges threads_run.
Proof.
  split.
  - apply Forall_fmap. repeat constructor; by vm_compute.
  - intros offset uncertainty [= <- <-]. by vm_compute.
  - intros w v [= <-]. exists (f64_of_usize 2), 7, [mkChunk 0 7 200 7], 1000000. split; [by vm_compute|]. by vm_compute.
  - intros c wl w drive waiter producer v [= <- <- <- <-]. exists (f64_of_usize 2), 7, [mkChunk 0 7 202 7], 1020000. split; [by vm_compute|]. by vm_compute.
Qed.
#[local] Instance run_strings_law : @StringsToJsonLaw run_strings.
Proof. intros l. eexists. split; [done|]. apply written_list, written_escaped. Qed.
Lemma results_readable_witness : exists text log,
  @complete unit run_serde run_json run_strings threads_run threads_arguments official_start text log /\ is_Some (read_lines text).
Proof.
  destruct threads_complete as (text & log & Hc).
  destruct (results_readable threads_run threads_arguments official_start text log Hc) as (p & cases & b1 & b2 & _ & _ & _ & _ & _ & Hr).
  exists text, log. split; [exact Hc|apply Hr, threads_run_in_ranges].
Defined.
